(** * risk-sim: the discrete-event Monte Carlo engine, embedded and verified

    The TypeScript sources under [src/sim] are translated function by
    function.  Conventions of the embedding:

    - a JavaScript [number] is a real number ([R]); [Math.log], [Math.exp],
      [Math.sqrt], [Math.cos], [Math.sin] and [Math.pow] are the real
      functions.  The rounding of the doubles, overflow and NaN are not
      part of this reading: what is proved on it are statements that hold
      for every rounding that keeps order (bounds, signs, counts, the shape
      of results).  [Infinity] is modelled where the code produces it on
      purpose (type [XR]);
    - where a property of the code depends on the rounding itself, the
      statements concerned are also given in double precision, in the
      module [F64] on the binary64 numbers of the kernel, whose sum,
      difference, product and quotient are those of JavaScript;
    - integers that only count or index (user ids, transaction ids, retry
      counts, hold counts) are [nat];
    - a string is the sequence of its UTF-16 code units, each below 256 (one
      character of a Rocq string for each);
    - an [RNG] closure is the stream of the numbers it returns; code that
      draws from it is written in the monad [Draw], which threads the number
      of draws made so far and has a failure value for a loop that does not
      stop within its fuel;
    - every unbounded [while] loop takes a [fuel]; bounded [for] loops are
      structural. *)

From Stdlib Require Import Floats.
From Stdlib Require Import Reals Lra Lia ZArith List String Ascii Permutation Sorted.
From Stdlib Require Import DecimalString.
From stdpp Require Import base option list gmap.
Import ListNotations.

Local Open Scope R_scope.

(** ** Numbers *)

Definition Rle_bool (x y : R) : bool := if Rle_dec x y then true else false.
Definition Rlt_bool (x y : R) : bool := if Rlt_dec x y then true else false.

Infix "<=?" := Rle_bool (at level 70, no associativity) : R_scope.
Infix "<?" := Rlt_bool (at level 70, no associativity) : R_scope.

(** [Math.floor], as an integer. *)
Definition floor (x : R) : Z := Int_part x.

(** [Math.ceil]. *)
Definition ceil (x : R) : Z := (- floor (- x))%Z.

(** A number that may be [Infinity]. *)
Inductive XR : Type :=
| Finite (x : R)
| Infinity.

(** [a < b] for a possibly infinite [a] and a finite [b]. *)
Definition XR_lt (a : XR) (b : R) : bool :=
  match a with
  | Finite x => x <? b
  | Infinity => false
  end.

(** [Math.log(u) < rhs], where [Math.log(0)] is [-Infinity] and the logarithm
    of a negative number is NaN (every comparison with NaN is false). *)
Definition log_lt (u rhs : R) : bool :=
  if u <? 0 then false
  else if u <=? 0 then true
  else ln u <? rhs.

(** ** rng.ts *)

Module Rng.

Local Open Scope Z_scope.

(** 32-bit values are kept as their unsigned residue. *)
Definition u32 (z : Z) : Z := z mod 4294967296.

(** [Math.imul]. *)
Definition imul (a b : Z) : Z := u32 (a * b).

(** [str.charCodeAt(i)] for every [i]: the code units of the string. *)
Definition charCodes (str : string) : list Z :=
  List.map (fun c => Z.of_N (N_of_ascii c)) (list_ascii_of_string str).

(** The hash state of [xmur3] after its loop over the characters. *)
Definition xmur3_hash (str : string) : Z :=
  fold_left
    (fun h c =>
       let h := imul (Z.lxor h c) 3432918353 in
       u32 (Z.lor (Z.shiftl h 13) (Z.shiftr h 19)))
    (charCodes str)
    (Z.lxor 1779033703 (Z.of_nat (String.length str))).

(** One call of the closure [xmur3] returns: the new [h] (also the value
    returned). *)
Definition xmur3_next (h : Z) : Z :=
  let h := imul (Z.lxor h (Z.shiftr h 16)) 2246822507 in
  let h := imul (Z.lxor h (Z.shiftr h 13)) 3266489909 in
  Z.lxor h (Z.shiftr h 16).

(** The output of [mulberry32] for the value [t] its counter has after
    [t += 0x6d2b79f5]: the bit operations take the counter modulo 2^32. *)
Definition mulberry32_out (t : Z) : Z :=
  let t32 := u32 t in
  let r := imul (Z.lxor t32 (Z.shiftr t32 15)) (Z.lor t32 1) in
  let r := Z.lxor r (u32 (r + imul (Z.lxor r (Z.shiftr r 7)) (Z.lor r 61))) in
  Z.lxor r (Z.shiftr r 14).

(** The double nearest to a non-negative integer, ties to even: the integer
    itself below 2^53, and above that the nearest multiple of the power of two
    that leaves 53 significant bits. *)
Definition round53 (z : Z) : Z :=
  if z <? 9007199254740992 then z
  else
    let e := Z.log2 z - 52 in
    let q := Z.shiftr z e in
    let r := z - Z.shiftl q e in
    let half := Z.shiftl 1 (e - 1) in
    let q' := if r <? half then q
              else if half <? r then q + 1
              else if Z.even q then q else q + 1 in
    Z.shiftl q' e.

(** The counter of [mulberry32 seed] at its [n]-th call (from 0): a double
    that starts at [seed >>> 0] and is never wrapped, so each
    [t += 0x6d2b79f5] is rounded once the counter has passed 2^53. *)
Definition mulberry32_counter (seed : Z) (n : nat) : Z :=
  Nat.iter (S n) (fun t => round53 (t + 1831565813)) (u32 seed).

End Rng.

(** An [RNG] is a closure [() => number]; it is identified with the stream
    of its results. *)
Definition RNG : Type := nat -> R.

Definition mulberry32 (seed : Z) : RNG :=
  fun n => IZR (Rng.mulberry32_out (Rng.mulberry32_counter seed n)) / 4294967296.

Definition createRng (seed : string) : RNG :=
  let seedInt := Rng.xmur3_next (Rng.xmur3_hash seed) in
  mulberry32 seedInt.

(** ** The monad of code that draws random numbers *)

(** A computation takes the number of draws made so far and returns its
    result with the new count, or [None] when a loop ran out of fuel. *)
Definition Draw (A : Type) : Type := nat -> option (A * nat).

Definition ret {A} (a : A) : Draw A := fun n => Some (a, n).

Definition bind {A B} (m : Draw A) (k : A -> Draw B) : Draw B :=
  fun n => match m n with
           | Some (a, n') => k a n'
           | None => None
           end.

Definition diverge {A} : Draw A := fun _ => None.

(** [rng()]. *)
Definition draw (rng : RNG) : Draw R := fun n => Some (rng n, S n).

Declare Scope draw_scope.
Delimit Scope draw_scope with draw.
Notation "x <- m ;; k" := (bind m (fun x => k))
  (at level 100, m at next level, right associativity) : draw_scope.
Local Open Scope draw_scope.

Definition randBetween (rng : RNG) (min max : R) : Draw R :=
  r <- draw rng ;; ret (min + (max - min) * r).

(** ** types.ts *)

Inductive DistributionType := lognormal | gamma.
Inductive Mode := wait_on_chain | offchain_hold.
Inductive LatencyMode := combined | per_leg.

Record DistributionSpec := {
  dtype : DistributionType;
  mean : R;
  p95 : R
}.

Record NetworkLatencySpec := {
  latencyMode : LatencyMode;
  nl_combined : DistributionSpec;
  terminalToNetwork : DistributionSpec;
  networkToIssuer : DistributionSpec;
  issuerToNetwork : DistributionSpec;
  networkToTerminal : DistributionSpec
}.

Record StellarSpec := {
  ledgerCloseMean : R;
  ledgerJitter : R;
  submissionDelay : DistributionSpec;
  inclusionProbability : R;
  baseFee : R;
  feeBumpFactor : R;
  maxRetries : R;
  backoffBaseMs : R;
  backoffMultiplier : R;
  maxSettleWindowSec : R
}.

Record OutageSpec := {
  outage_enabled : bool;
  startHour : R;
  durationHours : R;
  submissionDelayMultiplier : R;
  inclusionProbabilityMultiplier : R
}.

Record UserModelSpec := {
  users : nat;
  avgBalance : R;
  balanceDistribution : DistributionSpec;
  purchaseRate : R;
  avgTicket : R;
  ticketDistribution : DistributionSpec;
  burstinessEnabled : bool;
  burstinessProbability : R;
  burstinessMultiplier : R
}.

Record HoldSpec := {
  holds_enabled : bool;
  holdDurationSec : R;
  allowIncremental : bool
}.

Record PreAuthSpec := {
  preAuth_enabled : bool;
  completionDelay : DistributionSpec;
  completionMultiplierMean : R;
  completionMultiplierP95 : R
}.

Record FraudSpec := {
  fraud_enabled : bool;
  fraudAttemptRate : R;
  fraudAmountMultiplierMean : R;
  fraudAmountMultiplierP95 : R;
  autoDeclineRate : R
}.

Record SpendLimitSpec := {
  limits_enabled : bool;
  perTransactionLimit : R;
  perUserDailyLimit : R;
  perUserTimeslotLimit : R;
  timeslotMinutes : R
}.

Record SimulationSpec := {
  horizonHours : R;
  monteCarloRuns : R;
  seed : string;
  mode : Mode;
  authTimeoutSec : R;
  issuerProcessing : DistributionSpec;
  networkLatency : NetworkLatencySpec;
  stellar : StellarSpec;
  outage : OutageSpec;
  userModel : UserModelSpec;
  holds : HoldSpec;
  preAuth : PreAuthSpec;
  fraud : FraudSpec;
  spendLimits : SpendLimitSpec;
  settlementSlaSec : R
}.

Record SettlementResult := {
  confirmed : bool;
  sr_timeSec : R;
  sr_retries : nat;
  gaveUp : bool
}.

Record ExposureEvent := {
  exp_userId : nat;
  exp_amount : R;
  startSec : R;
  endSec : R
}.

Record TimeSeriesPoint := {
  ts_timeSec : R;
  ts_exposure : R;
  ts_approvals : R;
  ts_declines : R;
  ts_timeouts : R
}.

Record HistogramBin := {
  label : string;
  value : R
}.

Inductive SimulationEventType := purchase | settlement | hold_expiry | completion.

Record SimulationEvent := {
  timeSec : R;
  etype : SimulationEventType;
  userId : nat;
  txnId : nat;
  amount : R;
  relatedAmount : option R;
  ev_settlement : option SettlementResult;
  isFraud : option bool
}.

(** ** sampling.ts *)

Definition normalSample (rng : RNG) : Draw R :=
  r1 <- draw rng ;;
  let u1 := Rmax r1 1e-12 in
  r2 <- draw rng ;;
  let u2 := Rmax r2 1e-12 in
  ret (sqrt (-2 * ln u1) * cos (2 * PI * u2)).

Record LognormalParams := { mu : R; sigma : R }.

Definition z95 : R := 1.6448536269514722.

Definition lognormalParamsFromMeanP95 (mean p95 : R) : LognormalParams :=
  let z := z95 in
  let lnMean := ln mean in
  let lnP95 := ln p95 in
  let a := 0.5 in
  let b := - z in
  let c := lnP95 - lnMean in
  let disc := b * b - 4 * a * c in
  let sigma := (- b + sqrt (Rmax disc 1e-12)) / (2 * a) in
  let mu := lnMean - 0.5 * sigma * sigma in
  {| mu := mu; sigma := sigma |}.

Definition sampleLognormal (rng : RNG) (mean p95 : R) : Draw R :=
  if (mean <=? 0) || (p95 <=? 0) then ret 0
  else
    let p := lognormalParamsFromMeanP95 mean p95 in
    n <- normalSample rng ;;
    ret (exp (mu p + sigma p * n)).

Definition lanczos : list R :=
  [ 676.5203681218851;
    -1259.1392167224028;
    771.3234287776531;
    -176.6150291621406;
    12.507343278686905;
    -0.13857109526572012;
    9.984369578019571e-6;
    1.5056327351493116e-7 ].

(** The body of [gammaLn] after its reflection test, for [z >= 0.5]. *)
Definition gammaLn_main (z : R) : R :=
  let z := z - 1 in
  let x :=
    fold_left (fun x ip => x + snd ip / (z + INR (fst ip) + 1))
              (combine (seq 0 (length lanczos)) lanczos)
              0.99999999999980993 in
  let t := z + INR (length lanczos) - 0.5 in
  0.5 * ln (2 * PI) + (z + 0.5) * ln t - t + ln x.

(** [gammaLn]: for [z < 0.5] the code calls itself on [1 - z > 0.5], which
    takes the main branch. *)
Definition gammaLn (z : R) : R :=
  if z <? 0.5 then ln PI - ln (sin (PI * z)) - gammaLn_main (1 - z)
  else gammaLn_main z.

(** The loop of [gammaPSeries]; [k] iterations remain. *)
Fixpoint gammaPSeries_loop (k : nat) (x ap del sum : R) : R :=
  match k with
  | O => sum
  | S k' =>
      let ap := ap + 1 in
      let del := del * (x / ap) in
      let sum := sum + del in
      if Rabs del <? Rabs sum * 3e-8 then sum
      else gammaPSeries_loop k' x ap del sum
  end.

Definition gammaPSeries (a x : R) : R :=
  let sum := 1 / a in
  let sum := gammaPSeries_loop 100 x a sum sum in
  sum * exp (- x + a * ln x - gammaLn a).

(** The loop of [gammaPContinuedFraction]; [i] is the loop counter and [k]
    iterations remain. *)
Fixpoint gammaPCF_loop (k : nat) (i : nat) (a b c d h : R) : R :=
  match k with
  | O => h
  | S k' =>
      let FPMIN := 1e-30 in
      let an := - INR i * (INR i - a) in
      let b := b + 2 in
      let d := an * d + b in
      let d := if Rabs d <? FPMIN then FPMIN else d in
      let c := b + an / c in
      let c := if Rabs c <? FPMIN then FPMIN else c in
      let d := 1 / d in
      let del := d * c in
      let h := h * del in
      if Rabs (del - 1) <? 3e-8 then h
      else gammaPCF_loop k' (S i) a b c d h
  end.

Definition gammaPContinuedFraction (a x : R) : R :=
  let FPMIN := 1e-30 in
  let b := x + 1 - a in
  let c := 1 / FPMIN in
  let d := 1 / b in
  let h := gammaPCF_loop 100 1 a b c d d in
  exp (- x + a * ln x - gammaLn a) * h.

Definition regularizedGammaP (a x : R) : R :=
  if x <=? 0 then 0
  else if x <? a + 1 then gammaPSeries a x
  else 1 - gammaPContinuedFraction a x.

(** The bisection of [gammaQuantile]; returns the final [(low, high)]. *)
Fixpoint gammaQuantile_loop (k : nat) (p shape scale low high : R) : R * R :=
  match k with
  | O => (low, high)
  | S k' =>
      let mid := 0.5 * (low + high) in
      let cdf := regularizedGammaP shape (mid / scale) in
      if cdf <? p then gammaQuantile_loop k' p shape scale mid high
      else gammaQuantile_loop k' p shape scale low mid
  end.

Definition gammaQuantile (p shape scale : R) : XR :=
  if p <=? 0 then Finite 0
  else if 1 <=? p then Infinity
  else
    let mean := shape * scale in
    let '(low, high) := gammaQuantile_loop 60 p shape scale 0 (mean * 10 + 10) in
    Finite (0.5 * (low + high)).

Record GammaParams := { shape : R; scale : R }.

(** The bisection of [gammaParamsFromMeanP95]; returns the final
    [(low, high)]. *)
Fixpoint gammaParams_loop (k : nat) (mean p95 low high : R) : R * R :=
  match k with
  | O => (low, high)
  | S k' =>
      let mid := 0.5 * (low + high) in
      let scale := mean / mid in
      let q95 := gammaQuantile 0.95 mid scale in
      if XR_lt q95 p95 then gammaParams_loop k' mean p95 low mid
      else gammaParams_loop k' mean p95 mid high
  end.

Definition gammaParamsFromMeanP95 (mean p95 : R) : GammaParams :=
  if (mean <=? 0) || (p95 <=? 0) then {| shape := 1; scale := 1 |}
  else
    let '(low, high) := gammaParams_loop 60 mean p95 0.2 20 in
    let shape := 0.5 * (low + high) in
    let scale := mean / shape in
    {| shape := shape; scale := scale |}.

(** The rejection loop of [sampleGamma] ([while (true)]), for the values
    [d] and [c] computed before it. *)
Fixpoint sampleGamma_loop (fuel : nat) (rng : RNG) (scale d c : R) : Draw R :=
  match fuel with
  | O => diverge
  | S fuel' =>
      x <- normalSample rng ;;
      let v := 1 + c * x in
      if v <=? 0 then sampleGamma_loop fuel' rng scale d c
      else
        let v := v * v * v in
        u <- draw rng ;;
        if u <? 1 - 0.0331 * x ^ 4 then ret (scale * d * v)
        else if log_lt u (0.5 * x * x + d * (1 - v + ln v)) then ret (scale * d * v)
        else sampleGamma_loop fuel' rng scale d c
  end.

(** [sampleGamma] for [shape >= 1]. *)
Definition sampleGamma_main (fuel : nat) (rng : RNG) (shape scale : R) : Draw R :=
  let d := shape - 1 / 3 in
  let c := 1 / sqrt (9 * d) in
  sampleGamma_loop fuel rng scale d c.

(** [sampleGamma]: for [0 < shape < 1] the code calls itself on [shape + 1],
    which is above 1 and takes the main branch. *)
Definition sampleGamma (fuel : nat) (rng : RNG) (shape scale : R) : Draw R :=
  if shape <=? 0 then ret 0
  else if shape <? 1 then
    r <- draw rng ;;
    let u := Rmax r 1e-12 in
    g <- sampleGamma_main fuel rng (shape + 1) scale ;;
    ret (g * Rpower u (1 / shape))
  else sampleGamma_main fuel rng shape scale.

Definition sampleDistribution (fuel : nat) (rng : RNG) (spec : DistributionSpec) : Draw R :=
  match dtype spec with
  | gamma =>
      let p := gammaParamsFromMeanP95 (mean spec) (p95 spec) in
      sampleGamma fuel rng (shape p) (scale p)
  | lognormal => sampleLognormal rng (mean spec) (p95 spec)
  end.

(** The index of [percentile]:
    [Math.min(n - 1, Math.max(0, Math.floor(p * (n - 1))))].  The product is
    the one operation of it that a double rounds ([n - 1] and the floor are
    exact); [fl] is that rounding. *)
Definition percentile_index_with (fl : R -> R) (n : nat) (p : R) : nat :=
  Z.to_nat (Z.min (Z.of_nat n - 1) (Z.max 0 (floor (fl (p * (INR n - 1)))))).

(** The index in exact arithmetic. *)
Definition percentile_index (n : nat) (p : R) : nat :=
  percentile_index_with (fun x => x) n p.

(** Insertion into a sorted list; [Array.prototype.sort] with the comparator
    [(a, b) => a - b] returns the ascending arrangement of the numbers. *)
Fixpoint insert_sorted (x : R) (l : list R) : list R :=
  match l with
  | [] => [x]
  | y :: l' => if x <=? y then x :: l else y :: insert_sorted x l'
  end.

Definition sort_numbers (l : list R) : list R :=
  fold_right insert_sorted [] l.

(** [percentile]: the sort works on the copy [[...values]]; the argument is
    left as it is.  [fl] is the rounding of the product in the index. *)
Definition percentile_with (fl : R -> R) (values : list R) (p : R) : R :=
  match values with
  | [] => 0
  | _ =>
      let sorted := sort_numbers values in
      let idx := percentile_index_with fl (length sorted) p in
      nth idx sorted 0
  end.

(** [percentile] in exact arithmetic. *)
Definition percentile (values : list R) (p : R) : R :=
  percentile_with (fun x => x) values p.

Definition average (values : list R) : R :=
  match values with
  | [] => 0
  | _ => fold_left Rplus values 0 / INR (length values)
  end.

(** ** settlement.ts *)

Definition sampleLedgerInterval (rng : RNG) (mean jitter : R) : Draw R :=
  if jitter <=? 0 then ret mean
  else
    r <- draw rng ;;
    let delta := (r * 2 - 1) * jitter in
    ret (Rmax 0.1 (mean + delta)).

(** The retry loop of [simulateSettlement] ([while (true)]), entered with
    the current [timeSec] and [retries]. *)
Fixpoint simulateSettlement_loop (fuel : nat) (rng : RNG) (spec : StellarSpec)
    (inclusionProb timeSec : R) (retries : nat) : Draw SettlementResult :=
  match fuel with
  | O => diverge
  | S fuel' =>
      interval <- sampleLedgerInterval rng (ledgerCloseMean spec) (ledgerJitter spec) ;;
      r <- draw rng ;;
      let residual := r * interval in
      let timeSec := timeSec + residual in
      r' <- draw rng ;;
      let included := r' <? inclusionProb in
      if included then
        ret {| confirmed := true; sr_timeSec := timeSec;
               sr_retries := retries; gaveUp := false |}
      else
        let timeSec := timeSec + (interval - residual) in
        if maxRetries spec <=? INR retries then
          ret {| confirmed := false; sr_timeSec := timeSec;
                 sr_retries := retries; gaveUp := true |}
        else
          let retries := S retries in
          let backoffMs :=
            backoffBaseMs spec * backoffMultiplier spec ^ (retries - 1) in
          let timeSec := timeSec + backoffMs / 1000 in
          if maxSettleWindowSec spec <? timeSec then
            ret {| confirmed := false; sr_timeSec := timeSec;
                   sr_retries := retries; gaveUp := true |}
          else
            simulateSettlement_loop fuel' rng spec inclusionProb timeSec retries
  end.

Definition inOutage (outage : OutageSpec) (startTimeSec : R) : bool :=
  let outageStart := startHour outage * 3600 in
  let outageEnd := outageStart + durationHours outage * 3600 in
  outage_enabled outage && (outageStart <=? startTimeSec)
    && (startTimeSec <=? outageEnd).

Definition simulateSettlement (fuel : nat) (rng : RNG) (spec : StellarSpec)
    (startTimeSec : R) (outage : OutageSpec) : Draw SettlementResult :=
  let inOutage := inOutage outage startTimeSec in
  submissionDelayMs <- sampleDistribution fuel rng (submissionDelay spec) ;;
  let submissionDelaySec :=
    (submissionDelayMs / 1000)
    * (if inOutage then submissionDelayMultiplier outage else 1) in
  let inclusionProb :=
    Rmin 0.999
      (Rmax 0 (inclusionProbability spec
               * (if inOutage then inclusionProbabilityMultiplier outage else 1))) in
  simulateSettlement_loop fuel rng spec inclusionProb submissionDelaySec 0.

(** ** defaults.ts *)

Definition lognormalSpec (mean p95 : R) : DistributionSpec :=
  {| dtype := lognormal; mean := mean; p95 := p95 |}.

Definition defaultSpec : SimulationSpec := {|
  horizonHours := 24;
  monteCarloRuns := 1;
  seed := "stellar-001";
  mode := offchain_hold;
  authTimeoutSec := 5;
  issuerProcessing := lognormalSpec 180 600;
  networkLatency := {|
    latencyMode := combined;
    nl_combined := lognormalSpec 320 900;
    terminalToNetwork := lognormalSpec 80 250;
    networkToIssuer := lognormalSpec 80 250;
    issuerToNetwork := lognormalSpec 80 250;
    networkToTerminal := lognormalSpec 80 250
  |};
  stellar := {|
    ledgerCloseMean := 5.8;
    ledgerJitter := 1.2;
    submissionDelay := lognormalSpec 300 1200;
    inclusionProbability := 0.82;
    baseFee := 100;
    feeBumpFactor := 1.5;
    maxRetries := 3;
    backoffBaseMs := 800;
    backoffMultiplier := 1.8;
    maxSettleWindowSec := 120
  |};
  outage := {|
    outage_enabled := false;
    startHour := 6;
    durationHours := 2;
    submissionDelayMultiplier := 2.2;
    inclusionProbabilityMultiplier := 0.6
  |};
  userModel := {|
    users := 1000;
    avgBalance := 300;
    balanceDistribution := lognormalSpec 300 1000;
    purchaseRate := 1.1;
    avgTicket := 25;
    ticketDistribution := lognormalSpec 25 80;
    burstinessEnabled := true;
    burstinessProbability := 0.18;
    burstinessMultiplier := 3
  |};
  holds := {|
    holds_enabled := true;
    holdDurationSec := 120;
    allowIncremental := true
  |};
  preAuth := {|
    preAuth_enabled := false;
    completionDelay := lognormalSpec 45000 120000;
    completionMultiplierMean := 1.02;
    completionMultiplierP95 := 1.2
  |};
  fraud := {|
    fraud_enabled := false;
    fraudAttemptRate := 0.008;
    fraudAmountMultiplierMean := 1.4;
    fraudAmountMultiplierP95 := 2.2;
    autoDeclineRate := 0.6
  |};
  spendLimits := {|
    limits_enabled := false;
    perTransactionLimit := 300;
    perUserDailyLimit := 1200;
    perUserTimeslotLimit := 400;
    timeslotMinutes := 60
  |};
  settlementSlaSec := 45
|}.

(** ** queue.ts *)

Module MinHeap.

(** [this.data]. *)
Abbreviation t := (list SimulationEvent).

Definition empty : t := [].

Definition size (data : t) : nat := length data.

(** The exchange of [data[i]] and [data[j]] through [tmp]. *)
Definition swap (data : t) (i j : nat) : t :=
  match data !! i, data !! j with
  | Some a, Some b => <[j := a]> (<[i := b]> data)
  | _, _ => data
  end.

(** [data[i].timeSec < data[j].timeSec], for indices within the array. *)
Definition earlier (data : t) (i j : nat) : bool :=
  match data !! i, data !! j with
  | Some a, Some b => timeSec a <? timeSec b
  | _, _ => false
  end.

(** The loop of [bubbleUp]; the index decreases at each iteration, so
    [index] iterations are enough. *)
Fixpoint bubbleUp_loop (k : nat) (data : t) (index : nat) : t :=
  match k with
  | O => data
  | S k' =>
      if (0 <? index)%nat then
        let parent := ((index - 1) / 2)%nat in
        match data !! parent, data !! index with
        | Some p, Some c =>
            if timeSec p <=? timeSec c then data
            else bubbleUp_loop k' (swap data parent index) parent
        | _, _ => data
        end
      else data
  end.

Definition bubbleUp (data : t) (index : nat) : t :=
  bubbleUp_loop index data index.

Definition push (data : t) (item : SimulationEvent) : t :=
  let data := data ++ [item] in
  bubbleUp data (length data - 1).

(** The loop of [bubbleDown]; the index increases at each iteration, so
    [length data] iterations are enough. *)
Fixpoint bubbleDown_loop (k : nat) (data : t) (index : nat) : t :=
  match k with
  | O => data
  | S k' =>
      let length := length data in
      let smallest := index in
      let left := (2 * index + 1)%nat in
      let right := (2 * index + 2)%nat in
      let smallest :=
        if (left <? length)%nat && earlier data left smallest
        then left else smallest in
      let smallest :=
        if (right <? length)%nat && earlier data right smallest
        then right else smallest in
      if (smallest =? index)%nat then data
      else bubbleDown_loop k' (swap data smallest index) smallest
  end.

Definition bubbleDown (data : t) (index : nat) : t :=
  bubbleDown_loop (length data) data index.

(** [pop]: the earliest event and the remaining array, or [None] for
    [undefined]. *)
Definition pop (data : t) : option (SimulationEvent * t) :=
  match data with
  | [] => None
  | top :: _ =>
      let last := List.last data top in
      let data := removelast data in
      if (0 <? length data)%nat
      then Some (top, bubbleDown (<[0%nat := last]> data) 0)
      else Some (top, data)
  end.

End MinHeap.

(** ** engine.ts *)

Definition P95 : R := 0.95.

Definition sampleInterarrival (rng : RNG) (lambdaPerSec : R) (bursty : bool)
    (burstProb burstMult : R) : Draw XR :=
  burst <- (if bursty then r <- draw rng ;; ret (r <? burstProb) else ret false) ;;
  let rate := if burst then lambdaPerSec * burstMult else lambdaPerSec in
  if rate <=? 0 then ret Infinity
  else
    r <- draw rng ;;
    let u := Rmax r 1e-12 in
    ret (Finite (- ln u / rate)).

Record Legs := { t1 : R; t2 : R; t3 : R; t4 : R }.

Definition sampleNetworkLegs (fuel : nat) (rng : RNG) (spec : NetworkLatencySpec)
    : Draw Legs :=
  match latencyMode spec with
  | combined =>
      rttMs <- sampleDistribution fuel rng (nl_combined spec) ;;
      let half := rttMs / 2 in
      ret {| t1 := half / 1000; t2 := 0; t3 := 0; t4 := half / 1000 |}
  | per_leg =>
      a <- sampleDistribution fuel rng (terminalToNetwork spec) ;;
      b <- sampleDistribution fuel rng (networkToIssuer spec) ;;
      c <- sampleDistribution fuel rng (issuerToNetwork spec) ;;
      d <- sampleDistribution fuel rng (networkToTerminal spec) ;;
      ret {| t1 := a / 1000; t2 := b / 1000; t3 := c / 1000; t4 := d / 1000 |}
  end.

Definition initTimeSeries (horizonSec : R) (bins : nat)
    : list TimeSeriesPoint * R :=
  let binSize := horizonSec / INR bins in
  (List.map (fun i => {| ts_timeSec := INR i * binSize; ts_exposure := 0;
                         ts_approvals := 0; ts_declines := 0; ts_timeouts := 0 |})
            (seq 0 (S bins)),
   binSize).

(** The keys of a TimeSeriesPoint that [addTimeSeriesPoint] is called
    with. *)
Inductive SeriesKey := key_approvals | key_declines | key_timeouts.

Definition bumpPoint (key : SeriesKey) (pt : TimeSeriesPoint) : TimeSeriesPoint :=
  match key with
  | key_approvals =>
      {| ts_timeSec := ts_timeSec pt; ts_exposure := ts_exposure pt;
         ts_approvals := ts_approvals pt + 1; ts_declines := ts_declines pt;
         ts_timeouts := ts_timeouts pt |}
  | key_declines =>
      {| ts_timeSec := ts_timeSec pt; ts_exposure := ts_exposure pt;
         ts_approvals := ts_approvals pt; ts_declines := ts_declines pt + 1;
         ts_timeouts := ts_timeouts pt |}
  | key_timeouts =>
      {| ts_timeSec := ts_timeSec pt; ts_exposure := ts_exposure pt;
         ts_approvals := ts_approvals pt; ts_declines := ts_declines pt;
         ts_timeouts := ts_timeouts pt + 1 |}
  end.

Definition addTimeSeriesPoint (series : list TimeSeriesPoint)
    (binSize timeSec : R) (key : SeriesKey) : list TimeSeriesPoint :=
  let idx :=
    Z.to_nat (Z.min (Z.of_nat (length series) - 1)
                    (Z.max 0 (floor (timeSec / binSize)))) in
  alter (bumpPoint key) idx series.

Definition addExposure (a : R) (pt : TimeSeriesPoint) : TimeSeriesPoint :=
  {| ts_timeSec := ts_timeSec pt; ts_exposure := ts_exposure pt + a;
     ts_approvals := ts_approvals pt; ts_declines := ts_declines pt;
     ts_timeouts := ts_timeouts pt |}.

Definition accumulateExposure (series : list TimeSeriesPoint) (binSize : R)
    (event : ExposureEvent) : list TimeSeriesPoint :=
  let startIdx := floor (startSec event / binSize) in
  let endIdx := ceil (endSec event / binSize) in
  let lo := Z.to_nat (Z.max 0 startIdx) in
  let hi := Z.to_nat (Z.min (Z.of_nat (length series)) (endIdx + 1)) in
  fold_left (fun s i => alter (addExposure (exp_amount event)) i s)
            (seq lo (hi - lo)) series.

(** An entry of [authContext]. *)
Record AuthContext := {
  requestTime : R;
  legsOut : R;
  ctx_issuerDone : R;
  ctx_amount : R;
  ctx_isFraud : bool
}.

(** An entry of [holdByTxn]. *)
Record Hold := {
  hold_userId : nat;
  hold_amount : R;
  approvalTime : R
}.

(** The local variables of [simulateOnce] that its event loop reads and
    writes. *)
Record Sim := mkSim {
  events : list SimulationEvent;
  balances : list R;
  holdTotals : list R;
  holdCounts : list nat;
  pendingHoldSamples : list nat;
  userDailySpend : gmap nat (gmap Z R);
  userTimeslotSpend : gmap nat (gmap Z R);
  approvals : list nat;
  declines : list nat;
  timeouts : list nat;
  authTimes : list R;
  settlementTimes : list R;
  retries : list nat;
  exposureEvents : list ExposureEvent;
  exposureDurations : list R;
  authContext : gmap nat AuthContext;
  holdByTxn : gmap nat Hold;
  overspendPrevented : nat;
  preAuthMismatchCount : nat;
  preAuthCount : nat;
  incrementalAuthSuccessCount : nat;
  incrementalAuthCount : nat;
  fraudAttempts : nat;
  fraudApprovals : nat;
  fraudExposureTotal : R;
  fraudApprovedAmount : R;
  fraudLossTotal : R;
  limitDeclines : nat;
  totalSpent : R;
  insufficientFundsSkipped : nat;
  series : list TimeSeriesPoint
}.

(** The update of one local variable by [f]: [x = f(x)]. *)
Definition upd_events (f : (list SimulationEvent) -> (list SimulationEvent)) (s : Sim) : Sim :=
  mkSim (f (events s)) (balances s) (holdTotals s) (holdCounts s)
    (pendingHoldSamples s) (userDailySpend s) (userTimeslotSpend s)
    (approvals s) (declines s) (timeouts s) (authTimes s)
    (settlementTimes s) (retries s) (exposureEvents s)
    (exposureDurations s) (authContext s) (holdByTxn s)
    (overspendPrevented s) (preAuthMismatchCount s) (preAuthCount s)
    (incrementalAuthSuccessCount s) (incrementalAuthCount s)
    (fraudAttempts s) (fraudApprovals s) (fraudExposureTotal s)
    (fraudApprovedAmount s) (fraudLossTotal s) (limitDeclines s)
    (totalSpent s) (insufficientFundsSkipped s) (series s).
Definition upd_balances (f : (list R) -> (list R)) (s : Sim) : Sim :=
  mkSim (events s) (f (balances s)) (holdTotals s) (holdCounts s)
    (pendingHoldSamples s) (userDailySpend s) (userTimeslotSpend s)
    (approvals s) (declines s) (timeouts s) (authTimes s)
    (settlementTimes s) (retries s) (exposureEvents s)
    (exposureDurations s) (authContext s) (holdByTxn s)
    (overspendPrevented s) (preAuthMismatchCount s) (preAuthCount s)
    (incrementalAuthSuccessCount s) (incrementalAuthCount s)
    (fraudAttempts s) (fraudApprovals s) (fraudExposureTotal s)
    (fraudApprovedAmount s) (fraudLossTotal s) (limitDeclines s)
    (totalSpent s) (insufficientFundsSkipped s) (series s).
Definition upd_holdTotals (f : (list R) -> (list R)) (s : Sim) : Sim :=
  mkSim (events s) (balances s) (f (holdTotals s)) (holdCounts s)
    (pendingHoldSamples s) (userDailySpend s) (userTimeslotSpend s)
    (approvals s) (declines s) (timeouts s) (authTimes s)
    (settlementTimes s) (retries s) (exposureEvents s)
    (exposureDurations s) (authContext s) (holdByTxn s)
    (overspendPrevented s) (preAuthMismatchCount s) (preAuthCount s)
    (incrementalAuthSuccessCount s) (incrementalAuthCount s)
    (fraudAttempts s) (fraudApprovals s) (fraudExposureTotal s)
    (fraudApprovedAmount s) (fraudLossTotal s) (limitDeclines s)
    (totalSpent s) (insufficientFundsSkipped s) (series s).
Definition upd_holdCounts (f : (list nat) -> (list nat)) (s : Sim) : Sim :=
  mkSim (events s) (balances s) (holdTotals s) (f (holdCounts s))
    (pendingHoldSamples s) (userDailySpend s) (userTimeslotSpend s)
    (approvals s) (declines s) (timeouts s) (authTimes s)
    (settlementTimes s) (retries s) (exposureEvents s)
    (exposureDurations s) (authContext s) (holdByTxn s)
    (overspendPrevented s) (preAuthMismatchCount s) (preAuthCount s)
    (incrementalAuthSuccessCount s) (incrementalAuthCount s)
    (fraudAttempts s) (fraudApprovals s) (fraudExposureTotal s)
    (fraudApprovedAmount s) (fraudLossTotal s) (limitDeclines s)
    (totalSpent s) (insufficientFundsSkipped s) (series s).
Definition upd_pendingHoldSamples (f : (list nat) -> (list nat)) (s : Sim) : Sim :=
  mkSim (events s) (balances s) (holdTotals s) (holdCounts s)
    (f (pendingHoldSamples s)) (userDailySpend s) (userTimeslotSpend s)
    (approvals s) (declines s) (timeouts s) (authTimes s)
    (settlementTimes s) (retries s) (exposureEvents s)
    (exposureDurations s) (authContext s) (holdByTxn s)
    (overspendPrevented s) (preAuthMismatchCount s) (preAuthCount s)
    (incrementalAuthSuccessCount s) (incrementalAuthCount s)
    (fraudAttempts s) (fraudApprovals s) (fraudExposureTotal s)
    (fraudApprovedAmount s) (fraudLossTotal s) (limitDeclines s)
    (totalSpent s) (insufficientFundsSkipped s) (series s).
Definition upd_userDailySpend (f : (gmap nat (gmap Z R)) -> (gmap nat (gmap Z R))) (s : Sim) : Sim :=
  mkSim (events s) (balances s) (holdTotals s) (holdCounts s)
    (pendingHoldSamples s) (f (userDailySpend s)) (userTimeslotSpend s)
    (approvals s) (declines s) (timeouts s) (authTimes s)
    (settlementTimes s) (retries s) (exposureEvents s)
    (exposureDurations s) (authContext s) (holdByTxn s)
    (overspendPrevented s) (preAuthMismatchCount s) (preAuthCount s)
    (incrementalAuthSuccessCount s) (incrementalAuthCount s)
    (fraudAttempts s) (fraudApprovals s) (fraudExposureTotal s)
    (fraudApprovedAmount s) (fraudLossTotal s) (limitDeclines s)
    (totalSpent s) (insufficientFundsSkipped s) (series s).
Definition upd_userTimeslotSpend (f : (gmap nat (gmap Z R)) -> (gmap nat (gmap Z R))) (s : Sim) : Sim :=
  mkSim (events s) (balances s) (holdTotals s) (holdCounts s)
    (pendingHoldSamples s) (userDailySpend s) (f (userTimeslotSpend s))
    (approvals s) (declines s) (timeouts s) (authTimes s)
    (settlementTimes s) (retries s) (exposureEvents s)
    (exposureDurations s) (authContext s) (holdByTxn s)
    (overspendPrevented s) (preAuthMismatchCount s) (preAuthCount s)
    (incrementalAuthSuccessCount s) (incrementalAuthCount s)
    (fraudAttempts s) (fraudApprovals s) (fraudExposureTotal s)
    (fraudApprovedAmount s) (fraudLossTotal s) (limitDeclines s)
    (totalSpent s) (insufficientFundsSkipped s) (series s).
Definition upd_approvals (f : (list nat) -> (list nat)) (s : Sim) : Sim :=
  mkSim (events s) (balances s) (holdTotals s) (holdCounts s)
    (pendingHoldSamples s) (userDailySpend s) (userTimeslotSpend s)
    (f (approvals s)) (declines s) (timeouts s) (authTimes s)
    (settlementTimes s) (retries s) (exposureEvents s)
    (exposureDurations s) (authContext s) (holdByTxn s)
    (overspendPrevented s) (preAuthMismatchCount s) (preAuthCount s)
    (incrementalAuthSuccessCount s) (incrementalAuthCount s)
    (fraudAttempts s) (fraudApprovals s) (fraudExposureTotal s)
    (fraudApprovedAmount s) (fraudLossTotal s) (limitDeclines s)
    (totalSpent s) (insufficientFundsSkipped s) (series s).
Definition upd_declines (f : (list nat) -> (list nat)) (s : Sim) : Sim :=
  mkSim (events s) (balances s) (holdTotals s) (holdCounts s)
    (pendingHoldSamples s) (userDailySpend s) (userTimeslotSpend s)
    (approvals s) (f (declines s)) (timeouts s) (authTimes s)
    (settlementTimes s) (retries s) (exposureEvents s)
    (exposureDurations s) (authContext s) (holdByTxn s)
    (overspendPrevented s) (preAuthMismatchCount s) (preAuthCount s)
    (incrementalAuthSuccessCount s) (incrementalAuthCount s)
    (fraudAttempts s) (fraudApprovals s) (fraudExposureTotal s)
    (fraudApprovedAmount s) (fraudLossTotal s) (limitDeclines s)
    (totalSpent s) (insufficientFundsSkipped s) (series s).
Definition upd_timeouts (f : (list nat) -> (list nat)) (s : Sim) : Sim :=
  mkSim (events s) (balances s) (holdTotals s) (holdCounts s)
    (pendingHoldSamples s) (userDailySpend s) (userTimeslotSpend s)
    (approvals s) (declines s) (f (timeouts s)) (authTimes s)
    (settlementTimes s) (retries s) (exposureEvents s)
    (exposureDurations s) (authContext s) (holdByTxn s)
    (overspendPrevented s) (preAuthMismatchCount s) (preAuthCount s)
    (incrementalAuthSuccessCount s) (incrementalAuthCount s)
    (fraudAttempts s) (fraudApprovals s) (fraudExposureTotal s)
    (fraudApprovedAmount s) (fraudLossTotal s) (limitDeclines s)
    (totalSpent s) (insufficientFundsSkipped s) (series s).
Definition upd_authTimes (f : (list R) -> (list R)) (s : Sim) : Sim :=
  mkSim (events s) (balances s) (holdTotals s) (holdCounts s)
    (pendingHoldSamples s) (userDailySpend s) (userTimeslotSpend s)
    (approvals s) (declines s) (timeouts s) (f (authTimes s))
    (settlementTimes s) (retries s) (exposureEvents s)
    (exposureDurations s) (authContext s) (holdByTxn s)
    (overspendPrevented s) (preAuthMismatchCount s) (preAuthCount s)
    (incrementalAuthSuccessCount s) (incrementalAuthCount s)
    (fraudAttempts s) (fraudApprovals s) (fraudExposureTotal s)
    (fraudApprovedAmount s) (fraudLossTotal s) (limitDeclines s)
    (totalSpent s) (insufficientFundsSkipped s) (series s).
Definition upd_settlementTimes (f : (list R) -> (list R)) (s : Sim) : Sim :=
  mkSim (events s) (balances s) (holdTotals s) (holdCounts s)
    (pendingHoldSamples s) (userDailySpend s) (userTimeslotSpend s)
    (approvals s) (declines s) (timeouts s) (authTimes s)
    (f (settlementTimes s)) (retries s) (exposureEvents s)
    (exposureDurations s) (authContext s) (holdByTxn s)
    (overspendPrevented s) (preAuthMismatchCount s) (preAuthCount s)
    (incrementalAuthSuccessCount s) (incrementalAuthCount s)
    (fraudAttempts s) (fraudApprovals s) (fraudExposureTotal s)
    (fraudApprovedAmount s) (fraudLossTotal s) (limitDeclines s)
    (totalSpent s) (insufficientFundsSkipped s) (series s).
Definition upd_retries (f : (list nat) -> (list nat)) (s : Sim) : Sim :=
  mkSim (events s) (balances s) (holdTotals s) (holdCounts s)
    (pendingHoldSamples s) (userDailySpend s) (userTimeslotSpend s)
    (approvals s) (declines s) (timeouts s) (authTimes s)
    (settlementTimes s) (f (retries s)) (exposureEvents s)
    (exposureDurations s) (authContext s) (holdByTxn s)
    (overspendPrevented s) (preAuthMismatchCount s) (preAuthCount s)
    (incrementalAuthSuccessCount s) (incrementalAuthCount s)
    (fraudAttempts s) (fraudApprovals s) (fraudExposureTotal s)
    (fraudApprovedAmount s) (fraudLossTotal s) (limitDeclines s)
    (totalSpent s) (insufficientFundsSkipped s) (series s).
Definition upd_exposureEvents (f : (list ExposureEvent) -> (list ExposureEvent)) (s : Sim) : Sim :=
  mkSim (events s) (balances s) (holdTotals s) (holdCounts s)
    (pendingHoldSamples s) (userDailySpend s) (userTimeslotSpend s)
    (approvals s) (declines s) (timeouts s) (authTimes s)
    (settlementTimes s) (retries s) (f (exposureEvents s))
    (exposureDurations s) (authContext s) (holdByTxn s)
    (overspendPrevented s) (preAuthMismatchCount s) (preAuthCount s)
    (incrementalAuthSuccessCount s) (incrementalAuthCount s)
    (fraudAttempts s) (fraudApprovals s) (fraudExposureTotal s)
    (fraudApprovedAmount s) (fraudLossTotal s) (limitDeclines s)
    (totalSpent s) (insufficientFundsSkipped s) (series s).
Definition upd_exposureDurations (f : (list R) -> (list R)) (s : Sim) : Sim :=
  mkSim (events s) (balances s) (holdTotals s) (holdCounts s)
    (pendingHoldSamples s) (userDailySpend s) (userTimeslotSpend s)
    (approvals s) (declines s) (timeouts s) (authTimes s)
    (settlementTimes s) (retries s) (exposureEvents s)
    (f (exposureDurations s)) (authContext s) (holdByTxn s)
    (overspendPrevented s) (preAuthMismatchCount s) (preAuthCount s)
    (incrementalAuthSuccessCount s) (incrementalAuthCount s)
    (fraudAttempts s) (fraudApprovals s) (fraudExposureTotal s)
    (fraudApprovedAmount s) (fraudLossTotal s) (limitDeclines s)
    (totalSpent s) (insufficientFundsSkipped s) (series s).
Definition upd_authContext (f : (gmap nat AuthContext) -> (gmap nat AuthContext)) (s : Sim) : Sim :=
  mkSim (events s) (balances s) (holdTotals s) (holdCounts s)
    (pendingHoldSamples s) (userDailySpend s) (userTimeslotSpend s)
    (approvals s) (declines s) (timeouts s) (authTimes s)
    (settlementTimes s) (retries s) (exposureEvents s)
    (exposureDurations s) (f (authContext s)) (holdByTxn s)
    (overspendPrevented s) (preAuthMismatchCount s) (preAuthCount s)
    (incrementalAuthSuccessCount s) (incrementalAuthCount s)
    (fraudAttempts s) (fraudApprovals s) (fraudExposureTotal s)
    (fraudApprovedAmount s) (fraudLossTotal s) (limitDeclines s)
    (totalSpent s) (insufficientFundsSkipped s) (series s).
Definition upd_holdByTxn (f : (gmap nat Hold) -> (gmap nat Hold)) (s : Sim) : Sim :=
  mkSim (events s) (balances s) (holdTotals s) (holdCounts s)
    (pendingHoldSamples s) (userDailySpend s) (userTimeslotSpend s)
    (approvals s) (declines s) (timeouts s) (authTimes s)
    (settlementTimes s) (retries s) (exposureEvents s)
    (exposureDurations s) (authContext s) (f (holdByTxn s))
    (overspendPrevented s) (preAuthMismatchCount s) (preAuthCount s)
    (incrementalAuthSuccessCount s) (incrementalAuthCount s)
    (fraudAttempts s) (fraudApprovals s) (fraudExposureTotal s)
    (fraudApprovedAmount s) (fraudLossTotal s) (limitDeclines s)
    (totalSpent s) (insufficientFundsSkipped s) (series s).
Definition upd_overspendPrevented (f : nat -> nat) (s : Sim) : Sim :=
  mkSim (events s) (balances s) (holdTotals s) (holdCounts s)
    (pendingHoldSamples s) (userDailySpend s) (userTimeslotSpend s)
    (approvals s) (declines s) (timeouts s) (authTimes s)
    (settlementTimes s) (retries s) (exposureEvents s)
    (exposureDurations s) (authContext s) (holdByTxn s)
    (f (overspendPrevented s)) (preAuthMismatchCount s) (preAuthCount s)
    (incrementalAuthSuccessCount s) (incrementalAuthCount s)
    (fraudAttempts s) (fraudApprovals s) (fraudExposureTotal s)
    (fraudApprovedAmount s) (fraudLossTotal s) (limitDeclines s)
    (totalSpent s) (insufficientFundsSkipped s) (series s).
Definition upd_preAuthMismatchCount (f : nat -> nat) (s : Sim) : Sim :=
  mkSim (events s) (balances s) (holdTotals s) (holdCounts s)
    (pendingHoldSamples s) (userDailySpend s) (userTimeslotSpend s)
    (approvals s) (declines s) (timeouts s) (authTimes s)
    (settlementTimes s) (retries s) (exposureEvents s)
    (exposureDurations s) (authContext s) (holdByTxn s)
    (overspendPrevented s) (f (preAuthMismatchCount s)) (preAuthCount s)
    (incrementalAuthSuccessCount s) (incrementalAuthCount s)
    (fraudAttempts s) (fraudApprovals s) (fraudExposureTotal s)
    (fraudApprovedAmount s) (fraudLossTotal s) (limitDeclines s)
    (totalSpent s) (insufficientFundsSkipped s) (series s).
Definition upd_preAuthCount (f : nat -> nat) (s : Sim) : Sim :=
  mkSim (events s) (balances s) (holdTotals s) (holdCounts s)
    (pendingHoldSamples s) (userDailySpend s) (userTimeslotSpend s)
    (approvals s) (declines s) (timeouts s) (authTimes s)
    (settlementTimes s) (retries s) (exposureEvents s)
    (exposureDurations s) (authContext s) (holdByTxn s)
    (overspendPrevented s) (preAuthMismatchCount s) (f (preAuthCount s))
    (incrementalAuthSuccessCount s) (incrementalAuthCount s)
    (fraudAttempts s) (fraudApprovals s) (fraudExposureTotal s)
    (fraudApprovedAmount s) (fraudLossTotal s) (limitDeclines s)
    (totalSpent s) (insufficientFundsSkipped s) (series s).
Definition upd_incrementalAuthSuccessCount (f : nat -> nat) (s : Sim) : Sim :=
  mkSim (events s) (balances s) (holdTotals s) (holdCounts s)
    (pendingHoldSamples s) (userDailySpend s) (userTimeslotSpend s)
    (approvals s) (declines s) (timeouts s) (authTimes s)
    (settlementTimes s) (retries s) (exposureEvents s)
    (exposureDurations s) (authContext s) (holdByTxn s)
    (overspendPrevented s) (preAuthMismatchCount s) (preAuthCount s)
    (f (incrementalAuthSuccessCount s)) (incrementalAuthCount s)
    (fraudAttempts s) (fraudApprovals s) (fraudExposureTotal s)
    (fraudApprovedAmount s) (fraudLossTotal s) (limitDeclines s)
    (totalSpent s) (insufficientFundsSkipped s) (series s).
Definition upd_incrementalAuthCount (f : nat -> nat) (s : Sim) : Sim :=
  mkSim (events s) (balances s) (holdTotals s) (holdCounts s)
    (pendingHoldSamples s) (userDailySpend s) (userTimeslotSpend s)
    (approvals s) (declines s) (timeouts s) (authTimes s)
    (settlementTimes s) (retries s) (exposureEvents s)
    (exposureDurations s) (authContext s) (holdByTxn s)
    (overspendPrevented s) (preAuthMismatchCount s) (preAuthCount s)
    (incrementalAuthSuccessCount s) (f (incrementalAuthCount s))
    (fraudAttempts s) (fraudApprovals s) (fraudExposureTotal s)
    (fraudApprovedAmount s) (fraudLossTotal s) (limitDeclines s)
    (totalSpent s) (insufficientFundsSkipped s) (series s).
Definition upd_fraudAttempts (f : nat -> nat) (s : Sim) : Sim :=
  mkSim (events s) (balances s) (holdTotals s) (holdCounts s)
    (pendingHoldSamples s) (userDailySpend s) (userTimeslotSpend s)
    (approvals s) (declines s) (timeouts s) (authTimes s)
    (settlementTimes s) (retries s) (exposureEvents s)
    (exposureDurations s) (authContext s) (holdByTxn s)
    (overspendPrevented s) (preAuthMismatchCount s) (preAuthCount s)
    (incrementalAuthSuccessCount s) (incrementalAuthCount s)
    (f (fraudAttempts s)) (fraudApprovals s) (fraudExposureTotal s)
    (fraudApprovedAmount s) (fraudLossTotal s) (limitDeclines s)
    (totalSpent s) (insufficientFundsSkipped s) (series s).
Definition upd_fraudApprovals (f : nat -> nat) (s : Sim) : Sim :=
  mkSim (events s) (balances s) (holdTotals s) (holdCounts s)
    (pendingHoldSamples s) (userDailySpend s) (userTimeslotSpend s)
    (approvals s) (declines s) (timeouts s) (authTimes s)
    (settlementTimes s) (retries s) (exposureEvents s)
    (exposureDurations s) (authContext s) (holdByTxn s)
    (overspendPrevented s) (preAuthMismatchCount s) (preAuthCount s)
    (incrementalAuthSuccessCount s) (incrementalAuthCount s)
    (fraudAttempts s) (f (fraudApprovals s)) (fraudExposureTotal s)
    (fraudApprovedAmount s) (fraudLossTotal s) (limitDeclines s)
    (totalSpent s) (insufficientFundsSkipped s) (series s).
Definition upd_fraudExposureTotal (f : R -> R) (s : Sim) : Sim :=
  mkSim (events s) (balances s) (holdTotals s) (holdCounts s)
    (pendingHoldSamples s) (userDailySpend s) (userTimeslotSpend s)
    (approvals s) (declines s) (timeouts s) (authTimes s)
    (settlementTimes s) (retries s) (exposureEvents s)
    (exposureDurations s) (authContext s) (holdByTxn s)
    (overspendPrevented s) (preAuthMismatchCount s) (preAuthCount s)
    (incrementalAuthSuccessCount s) (incrementalAuthCount s)
    (fraudAttempts s) (fraudApprovals s) (f (fraudExposureTotal s))
    (fraudApprovedAmount s) (fraudLossTotal s) (limitDeclines s)
    (totalSpent s) (insufficientFundsSkipped s) (series s).
Definition upd_fraudApprovedAmount (f : R -> R) (s : Sim) : Sim :=
  mkSim (events s) (balances s) (holdTotals s) (holdCounts s)
    (pendingHoldSamples s) (userDailySpend s) (userTimeslotSpend s)
    (approvals s) (declines s) (timeouts s) (authTimes s)
    (settlementTimes s) (retries s) (exposureEvents s)
    (exposureDurations s) (authContext s) (holdByTxn s)
    (overspendPrevented s) (preAuthMismatchCount s) (preAuthCount s)
    (incrementalAuthSuccessCount s) (incrementalAuthCount s)
    (fraudAttempts s) (fraudApprovals s) (fraudExposureTotal s)
    (f (fraudApprovedAmount s)) (fraudLossTotal s) (limitDeclines s)
    (totalSpent s) (insufficientFundsSkipped s) (series s).
Definition upd_fraudLossTotal (f : R -> R) (s : Sim) : Sim :=
  mkSim (events s) (balances s) (holdTotals s) (holdCounts s)
    (pendingHoldSamples s) (userDailySpend s) (userTimeslotSpend s)
    (approvals s) (declines s) (timeouts s) (authTimes s)
    (settlementTimes s) (retries s) (exposureEvents s)
    (exposureDurations s) (authContext s) (holdByTxn s)
    (overspendPrevented s) (preAuthMismatchCount s) (preAuthCount s)
    (incrementalAuthSuccessCount s) (incrementalAuthCount s)
    (fraudAttempts s) (fraudApprovals s) (fraudExposureTotal s)
    (fraudApprovedAmount s) (f (fraudLossTotal s)) (limitDeclines s)
    (totalSpent s) (insufficientFundsSkipped s) (series s).
Definition upd_limitDeclines (f : nat -> nat) (s : Sim) : Sim :=
  mkSim (events s) (balances s) (holdTotals s) (holdCounts s)
    (pendingHoldSamples s) (userDailySpend s) (userTimeslotSpend s)
    (approvals s) (declines s) (timeouts s) (authTimes s)
    (settlementTimes s) (retries s) (exposureEvents s)
    (exposureDurations s) (authContext s) (holdByTxn s)
    (overspendPrevented s) (preAuthMismatchCount s) (preAuthCount s)
    (incrementalAuthSuccessCount s) (incrementalAuthCount s)
    (fraudAttempts s) (fraudApprovals s) (fraudExposureTotal s)
    (fraudApprovedAmount s) (fraudLossTotal s) (f (limitDeclines s))
    (totalSpent s) (insufficientFundsSkipped s) (series s).
Definition upd_totalSpent (f : R -> R) (s : Sim) : Sim :=
  mkSim (events s) (balances s) (holdTotals s) (holdCounts s)
    (pendingHoldSamples s) (userDailySpend s) (userTimeslotSpend s)
    (approvals s) (declines s) (timeouts s) (authTimes s)
    (settlementTimes s) (retries s) (exposureEvents s)
    (exposureDurations s) (authContext s) (holdByTxn s)
    (overspendPrevented s) (preAuthMismatchCount s) (preAuthCount s)
    (incrementalAuthSuccessCount s) (incrementalAuthCount s)
    (fraudAttempts s) (fraudApprovals s) (fraudExposureTotal s)
    (fraudApprovedAmount s) (fraudLossTotal s) (limitDeclines s)
    (f (totalSpent s)) (insufficientFundsSkipped s) (series s).
Definition upd_insufficientFundsSkipped (f : nat -> nat) (s : Sim) : Sim :=
  mkSim (events s) (balances s) (holdTotals s) (holdCounts s)
    (pendingHoldSamples s) (userDailySpend s) (userTimeslotSpend s)
    (approvals s) (declines s) (timeouts s) (authTimes s)
    (settlementTimes s) (retries s) (exposureEvents s)
    (exposureDurations s) (authContext s) (holdByTxn s)
    (overspendPrevented s) (preAuthMismatchCount s) (preAuthCount s)
    (incrementalAuthSuccessCount s) (incrementalAuthCount s)
    (fraudAttempts s) (fraudApprovals s) (fraudExposureTotal s)
    (fraudApprovedAmount s) (fraudLossTotal s) (limitDeclines s)
    (totalSpent s) (f (insufficientFundsSkipped s)) (series s).
Definition upd_series (f : (list TimeSeriesPoint) -> (list TimeSeriesPoint)) (s : Sim) : Sim :=
  mkSim (events s) (balances s) (holdTotals s) (holdCounts s)
    (pendingHoldSamples s) (userDailySpend s) (userTimeslotSpend s)
    (approvals s) (declines s) (timeouts s) (authTimes s)
    (settlementTimes s) (retries s) (exposureEvents s)
    (exposureDurations s) (authContext s) (holdByTxn s)
    (overspendPrevented s) (preAuthMismatchCount s) (preAuthCount s)
    (incrementalAuthSuccessCount s) (incrementalAuthCount s)
    (fraudAttempts s) (fraudApprovals s) (fraudExposureTotal s)
    (fraudApprovedAmount s) (fraudLossTotal s) (limitDeclines s)
    (totalSpent s) (insufficientFundsSkipped s) (f (series s)).

(** [if (c) { ... }]: the statements [f] are run when [c] holds. *)
Definition when (c : bool) (f : Sim -> Sim) (s : Sim) : Sim :=
  if c then f s else s.
Arguments when !c f s /.

(** [l[i]] for a number array; the indices the loop uses are user ids, which
    are within the arrays. *)
Definition readNum (l : list R) (i : nat) : R := default 0 (l !! i).
Definition readCount (l : list nat) (i : nat) : nat := default 0%nat (l !! i).

(** What the loop did with the event it popped; the code keeps no such
    record, it is there to state properties of a run. *)
Inductive Branch :=
| PurchaseNoFunds          (* [availablePre <= 0]: dropped *)
| PurchaseAutoDeclined     (* fraud attempt declined before any latency *)
| PurchaseDeferred         (* wait-on-chain: decided at settlement *)
| PurchaseTimeout
| PurchaseLimitDeclined
| PurchaseInsufficient     (* counted in [insufficientFundsSkipped] *)
| PurchaseApproved
| CompletionDone
| HoldExpiryDone
| SettlementIgnored        (* no settlement outcome or no context *)
| SettlementTimeout
| SettlementDeclined
| SettlementLimitDeclined
| SettlementInsufficient   (* counted in [insufficientFundsSkipped] *)
| SettlementApproved
| SettlementOffchain.

(** *** The closures of [simulateOnce] *)

Definition dayIndex (timeSec : R) : Z := floor (timeSec / 86400).

Definition timeslotIndex (spec : SimulationSpec) (timeSec : R) : Z :=
  let windowSec := Rmax 1 (timeslotMinutes (spendLimits spec)) * 60 in
  floor (timeSec / windowSec).

(** [getUserDailySpend] and [getUserTimeslotSpend], on their map. *)
Definition getSpend (m : gmap nat (gmap Z R)) (userId : nat) (k : Z) : R :=
  match m !! userId with
  | None => 0
  | Some userMap => default 0 (userMap !! k)
  end.

(** [addUserDailySpend] and [addUserTimeslotSpend], on their map. *)
Definition addSpend (m : gmap nat (gmap Z R)) (userId : nat) (k : Z)
    (amount : R) : gmap nat (gmap Z R) :=
  let userMap := default ∅ (m !! userId) in
  <[userId := <[k := default 0 (userMap !! k) + amount]> userMap]> m.

Definition canApproveWithLimits (spec : SimulationSpec) (st : Sim)
    (userId : nat) (amount timeSec : R) : bool :=
  let sl := spendLimits spec in
  if negb (limits_enabled sl) then true
  else if (0 <? perTransactionLimit sl) && (perTransactionLimit sl <? amount)
  then false
  else
    let day := dayIndex timeSec in
    if (0 <? perUserDailyLimit sl)
       && (perUserDailyLimit sl <? getSpend (userDailySpend st) userId day + amount)
    then false
    else
      let slot := timeslotIndex spec timeSec in
      if (0 <? perUserTimeslotLimit sl)
         && (perUserTimeslotLimit sl
             <? getSpend (userTimeslotSpend st) userId slot + amount)
      then false
      else true.

Definition applySpendLimits (spec : SimulationSpec) (userId : nat)
    (amount timeSec : R) (st : Sim) : Sim :=
  if negb (limits_enabled (spendLimits spec)) then st
  else
    let day := dayIndex timeSec in
    let st := upd_userDailySpend (fun m => addSpend m userId day amount) st in
    let slot := timeslotIndex spec timeSec in
    upd_userTimeslotSpend (fun m => addSpend m userId slot amount) st.

(** *** Statements the handlers repeat *)

(** [array.push(x)]. *)
Definition push {A} (x : A) (l : list A) : list A := l ++ [x].

(** [declines.push(event.txnId)] and its time-series point. *)
Definition recordDecline (binSize : R) (event : SimulationEvent) (st : Sim) : Sim :=
  let st := upd_declines (push (txnId event)) st in
  upd_series (fun s => addTimeSeriesPoint s binSize (timeSec event) key_declines) st.

(** [timeouts.push(event.txnId)] and its time-series point. *)
Definition recordTimeout (binSize : R) (event : SimulationEvent) (st : Sim) : Sim :=
  let st := upd_timeouts (push (txnId event)) st in
  upd_series (fun s => addTimeSeriesPoint s binSize (timeSec event) key_timeouts) st.

(** [approvals.push(event.txnId)], the fraud counter and the authorization
    time. *)
Definition recordApproval (event : SimulationEvent) (isFraud : bool)
    (authTime : R) (st : Sim) : Sim :=
  let st := upd_approvals (push (txnId event)) st in
  let st := when isFraud (upd_fraudApprovals S) st in
  upd_authTimes (push authTime) st.

(** [totalSpent += amount] and the fraud amounts. *)
Definition recordSpend (amount : R) (isFraud : bool) (st : Sim) : Sim :=
  let st := upd_totalSpent (fun x => x + amount) st in
  when isFraud
    (fun st =>
       let st := upd_fraudApprovedAmount (fun x => x + amount) st in
       upd_fraudLossTotal (fun x => x + amount) st)
    st.

(** [events.push(item)]. *)
Definition schedule (item : SimulationEvent) (st : Sim) : Sim :=
  upd_events (fun q => MinHeap.push q item) st.

(** [holdTotals[u] += a; holdCounts[u] += 1;
    pendingHoldSamples.push(holdCounts[u])]. *)
Definition addToHolds (u : nat) (a : R) (st : Sim) : Sim :=
  let st := upd_holdTotals (fun ht => <[u := readNum ht u + a]> ht) st in
  let st := upd_holdCounts (fun hc => <[u := (readCount hc u + 1)%nat]> hc) st in
  upd_pendingHoldSamples (push (readCount (holdCounts st) u)) st.

(** The release of a hold: the last statements of the [hold_expiry] and of
    the off-chain [settlement] handler, for the user [u] they name. *)
Definition releaseHold (u : nat) (txn : nat) (hold : Hold) (st : Sim) : Sim :=
  let st := upd_holdTotals (fun ht => <[u := readNum ht u - hold_amount hold]> ht) st in
  let st := upd_holdCounts
              (fun hc => <[u := Nat.max 0 (readCount hc u - 1)]> hc) st in
  let st := upd_pendingHoldSamples (push (readCount (holdCounts st) u)) st in
  upd_holdByTxn (delete txn) st.

(** *** The handler of a purchase *)

(** The placement of a hold at approval: [if (spec.holds.enabled) {...}]. *)
Definition placeHold (spec : SimulationSpec) (event : SimulationEvent)
    (amount : R) (isFraud : bool) (approvalTime : R) (st : Sim) : Sim :=
  let userId := userId event in
  let st := addToHolds userId amount st in
  let st := schedule
              {| timeSec := approvalTime + holdDurationSec (holds spec);
                 etype := hold_expiry; userId := userId;
                 txnId := txnId event; amount := amount;
                 relatedAmount := None; ev_settlement := None;
                 isFraud := Some isFraud |} st in
  upd_holdByTxn
    (insert (txnId event)
            {| hold_userId := userId; hold_amount := amount;
               approvalTime := approvalTime |}) st.

(** The off-chain branch after the latencies are known. *)
Definition purchaseOffchain (fuel : nat) (spec : SimulationSpec) (rng : RNG)
    (binSize : R) (event : SimulationEvent) (amount : R) (isFraud : bool)
    (issuerDone authTime : R) (st : Sim) : Draw (Sim * Branch) :=
  let userId := userId event in
  if authTimeoutSec spec <? authTime then
    ret (recordTimeout binSize event st, PurchaseTimeout)
  else if negb (canApproveWithLimits spec st userId amount (timeSec event)) then
    let st := upd_limitDeclines S st in
    ret (recordDecline binSize event st, PurchaseLimitDeclined)
  else
    let availableBalance :=
      readNum (balances st) userId - readNum (holdTotals st) userId in
    if availableBalance <? amount then
      let st := when (amount <=? readNum (balances st) userId)
                     (upd_overspendPrevented S) st in
      let st := upd_insufficientFundsSkipped S st in
      ret (st, PurchaseInsufficient)
    else
      let st := recordApproval event isFraud authTime st in
      let st := upd_series
                  (fun s => addTimeSeriesPoint s binSize (timeSec event) key_approvals)
                  st in
      let st := applySpendLimits spec userId amount (timeSec event) st in
      let st := recordSpend amount isFraud st in
      let approvalTime := issuerDone in
      let st := when (holds_enabled (holds spec))
                     (placeHold spec event amount isFraud approvalTime) st in
      if preAuth_enabled (preAuth spec) then
        let st := upd_preAuthCount S st in
        d <- sampleDistribution fuel rng (completionDelay (preAuth spec)) ;;
        let completionDelaySec := d / 1000 in
        multiplier <- sampleDistribution fuel rng
                        {| dtype := lognormal;
                           mean := completionMultiplierMean (preAuth spec);
                           p95 := completionMultiplierP95 (preAuth spec) |} ;;
        let finalAmount := amount * multiplier in
        let st := when (0.05 <? Rabs (finalAmount - amount) / amount)
                       (upd_preAuthMismatchCount S) st in
        ret (schedule
               {| timeSec := timeSec event + completionDelaySec;
                  etype := completion; userId := userId; txnId := txnId event;
                  amount := finalAmount; relatedAmount := Some amount;
                  ev_settlement := None; isFraud := Some isFraud |} st,
             PurchaseApproved)
      else
        s <- simulateSettlement fuel rng (stellar spec) issuerDone (outage spec) ;;
        ret (schedule
               {| timeSec := issuerDone + sr_timeSec s;
                  etype := settlement; userId := userId; txnId := txnId event;
                  amount := amount; relatedAmount := None;
                  ev_settlement := Some s; isFraud := Some isFraud |} st,
             PurchaseApproved).

Definition handlePurchase (fuel : nat) (spec : SimulationSpec) (rng : RNG)
    (binSize : R) (event : SimulationEvent) (st : Sim) : Draw (Sim * Branch) :=
  let userId := userId event in
  let availablePre :=
    readNum (balances st) userId - readNum (holdTotals st) userId in
  if availablePre <=? 0 then ret (st, PurchaseNoFunds)
  else
    let amount := amount event in
    isFraud <- (if fraud_enabled (fraud spec)
                then r <- draw rng ;; ret (r <? fraudAttemptRate (fraud spec))
                else ret false) ;;
    fr <- (if isFraud : bool then
             m <- sampleDistribution fuel rng
                    {| dtype := lognormal;
                       mean := fraudAmountMultiplierMean (fraud spec);
                       p95 := fraudAmountMultiplierP95 (fraud spec) |} ;;
             r <- draw rng ;;
             ret (amount * m, r <? autoDeclineRate (fraud spec))
           else ret (amount, false)) ;;
    let st := when isFraud (upd_fraudAttempts S) st in
    let amount := fst fr in
    let autoDecline := snd fr in
    if autoDecline then ret (recordDecline binSize event st, PurchaseAutoDeclined)
    else
      legs <- sampleNetworkLegs fuel rng (networkLatency spec) ;;
      p <- sampleDistribution fuel rng (issuerProcessing spec) ;;
      let processingSec := p / 1000 in
      let issuerDone := timeSec event + t1 legs + t2 legs + processingSec in
      let authTime := t1 legs + t2 legs + processingSec + t3 legs + t4 legs in
      match mode spec with
      | wait_on_chain =>
          s <- simulateSettlement fuel rng (stellar spec) issuerDone (outage spec) ;;
          let settlementTime := sr_timeSec s in
          let st := upd_authContext
                      (insert (txnId event)
                              {| requestTime := timeSec event;
                                 legsOut := t3 legs + t4 legs;
                                 ctx_issuerDone := issuerDone;
                                 ctx_amount := amount;
                                 ctx_isFraud := isFraud |}) st in
          ret (schedule
                 {| timeSec := issuerDone + settlementTime;
                    etype := settlement; userId := userId; txnId := txnId event;
                    amount := amount; relatedAmount := None;
                    ev_settlement := Some s; isFraud := Some isFraud |} st,
               PurchaseDeferred)
      | offchain_hold =>
          purchaseOffchain fuel spec rng binSize event amount isFraud
            issuerDone authTime st
      end.

(** *** The handler of a completion *)

(** The incremental authorization of a completion:
    [if (delta > 0 && spec.holds.allowIncremental) {...}]. *)
Definition incrementalAuth (spec : SimulationSpec) (event : SimulationEvent)
    (delta : R) (st : Sim) : Sim :=
  let userId := userId event in
  let st := upd_incrementalAuthCount S st in
  let st := if negb (canApproveWithLimits spec st userId delta (timeSec event))
            then upd_limitDeclines S st
            else applySpendLimits spec userId delta (timeSec event) st in
  let availableBalance :=
    readNum (balances st) userId - readNum (holdTotals st) userId in
  when (delta <=? availableBalance)
       (fun st =>
          let st := upd_incrementalAuthSuccessCount S st in
          addToHolds userId delta st)
       st.

Definition handleCompletion (fuel : nat) (spec : SimulationSpec) (rng : RNG)
    (event : SimulationEvent) (st : Sim) : Draw (Sim * Branch) :=
  let userId := userId event in
  let finalAmount := amount event in
  let initialAmount := default (amount event) (relatedAmount event) in
  let delta := finalAmount - initialAmount in
  let st := when ((0 <? delta) && allowIncremental (holds spec))
                 (incrementalAuth spec event delta) st in
  legs <- sampleNetworkLegs fuel rng (networkLatency spec) ;;
  p <- sampleDistribution fuel rng (issuerProcessing spec) ;;
  let processingSec := p / 1000 in
  let issuerDone := timeSec event + t1 legs + t2 legs + processingSec in
  s <- simulateSettlement fuel rng (stellar spec) issuerDone (outage spec) ;;
  ret (schedule
         {| timeSec := issuerDone + sr_timeSec s;
            etype := settlement; userId := userId; txnId := txnId event;
            amount := finalAmount; relatedAmount := None;
            ev_settlement := Some s; isFraud := isFraud event |} st,
       CompletionDone).

(** *** The handler of a hold expiry *)

Definition handleHoldExpiry (event : SimulationEvent) (st : Sim) : Sim :=
  match holdByTxn st !! txnId event with
  | Some hold => releaseHold (hold_userId hold) (txnId event) hold st
  | None => st
  end.

(** *** The handler of a settlement *)

(** Wait-on-chain: the deferred decision, for the context [ctx] of the
    transaction. *)
Definition settleOnChain (spec : SimulationSpec) (binSize : R)
    (event : SimulationEvent) (s : SettlementResult) (ctx : AuthContext)
    (st : Sim) : Sim * Branch :=
  let userId := userId event in
  let authTime := (timeSec event - requestTime ctx) + legsOut ctx in
  if (authTimeoutSec spec <? authTime) || negb (confirmed s) then
    if authTimeoutSec spec <? authTime
    then (recordTimeout binSize event st, SettlementTimeout)
    else (recordDecline binSize event st, SettlementDeclined)
  else if negb (canApproveWithLimits spec st userId (amount event) (requestTime ctx))
  then
    let st := upd_limitDeclines S st in
    (recordDecline binSize event st, SettlementLimitDeclined)
  else if readNum (balances st) userId <? amount event then
    (upd_insufficientFundsSkipped S st, SettlementInsufficient)
  else
    let st := upd_balances
                (fun bs => <[userId := readNum bs userId - amount event]> bs) st in
    let st := recordApproval event (ctx_isFraud ctx) authTime st in
    let st := upd_settlementTimes (push (sr_timeSec s)) st in
    let st := upd_retries (push (sr_retries s)) st in
    let st := upd_series
                (fun sr => addTimeSeriesPoint sr binSize (timeSec event) key_approvals)
                st in
    let st := applySpendLimits spec userId (amount event) (requestTime ctx) st in
    let st := recordSpend (amount event) (ctx_isFraud ctx) st in
    (st, SettlementApproved).

(** The exposure recorded by an off-chain settlement that failed or came
    after the SLA. *)
Definition recordExposure (spec : SimulationSpec) (event : SimulationEvent)
    (approvalTime settlementTime : R) (st : Sim) : Sim :=
  let endTime :=
    approvalTime + Rmin settlementTime (maxSettleWindowSec (stellar spec)) in
  let st := upd_exposureEvents
              (push {| exp_userId := userId event; exp_amount := amount event;
                       startSec := approvalTime; endSec := endTime |}) st in
  let st := upd_exposureDurations (push (endTime - approvalTime)) st in
  when (default false (isFraud event))
       (upd_fraudExposureTotal (fun x => x + amount event)) st.

(** Off-chain hold: the settlement of an approved purchase. *)
Definition settleOffchain (spec : SimulationSpec) (event : SimulationEvent)
    (s : SettlementResult) (st : Sim) : Sim :=
  let userId := userId event in
  let hold := holdByTxn st !! txnId event in
  let approvalTime :=
    match hold with
    | Some h => approvalTime h
    | None => timeSec event
    end in
  let settlementTime := sr_timeSec s in
  let confirmed := confirmed s && (amount event <=? readNum (balances st) userId) in
  let st := when confirmed
              (upd_balances
                 (fun bs => <[userId := readNum bs userId - amount event]> bs)) st in
  let st := when confirmed
              (fun st =>
                 let st := upd_settlementTimes (push settlementTime) st in
                 upd_retries (push (sr_retries s)) st) st in
  let st := when (negb confirmed || (settlementSlaSec spec <? settlementTime))
              (recordExposure spec event approvalTime settlementTime) st in
  match hold with
  | Some h => releaseHold userId (txnId event) h st
  | None => st
  end.

Definition handleSettlement (spec : SimulationSpec) (binSize : R)
    (event : SimulationEvent) (st : Sim) : Sim * Branch :=
  match ev_settlement event with
  | None => (st, SettlementIgnored)
  | Some s =>
      match mode spec with
      | wait_on_chain =>
          match authContext st !! txnId event with
          | None => (st, SettlementIgnored)
          | Some ctx => settleOnChain spec binSize event s ctx st
          end
      | offchain_hold => (settleOffchain spec event s st, SettlementOffchain)
      end
  end.

(** *** The event loop *)

(** The body of the loop for the event it popped. *)
Definition handleEvent (fuel : nat) (spec : SimulationSpec) (rng : RNG)
    (binSize : R) (event : SimulationEvent) (st : Sim) : Draw (Sim * Branch) :=
  match etype event with
  | purchase => handlePurchase fuel spec rng binSize event st
  | completion => handleCompletion fuel spec rng event st
  | hold_expiry => ret (handleHoldExpiry event st, HoldExpiryDone)
  | settlement => ret (handleSettlement spec binSize event st)
  end.

(** The events popped so far, with what the loop did with each. *)
Definition Log : Type := list (SimulationEvent * Branch).

(** At most [k] iterations of [while (events.size > 0)]. *)
Fixpoint runEvents (k : nat) (fuel : nat) (spec : SimulationSpec) (rng : RNG)
    (binSize : R) (st : Sim) (log : Log) : Draw (Sim * Log) :=
  match k with
  | O => ret (st, log)
  | S k' =>
      match MinHeap.pop (events st) with
      | None => ret (st, log)
      | Some (event, rest) =>
          r <- handleEvent fuel spec rng binSize event (upd_events (fun _ => rest) st) ;;
          runEvents k' fuel spec rng binSize (fst r) (log ++ [(event, snd r)])
      end
  end.

(** *** The population bootstrap *)

(** The [while (t < horizonSec)] loop that generates the purchases of user
    [u]; returns the queue and the next transaction id. *)
Fixpoint purchaseTimeline (fuel : nat) (fuelS : nat) (spec : SimulationSpec)
    (rng : RNG) (horizonSec : R) (u : nat) (t : R) (events : MinHeap.t)
    (txn : nat) : Draw (MinHeap.t * nat) :=
  match fuel with
  | O => diverge
  | S fuel' =>
      if t <? horizonSec then
        let lambdaPerSec := purchaseRate (userModel spec) / 3600 in
        inter <- sampleInterarrival rng lambdaPerSec
                   (burstinessEnabled (userModel spec))
                   (burstinessProbability (userModel spec))
                   (burstinessMultiplier (userModel spec)) ;;
        match inter with
        | Infinity => ret (events, txn)
        | Finite i =>
            let t := t + i in
            if horizonSec <? t then ret (events, txn)
            else
              amount <- sampleDistribution fuelS rng
                          (ticketDistribution (userModel spec)) ;;
              let events :=
                MinHeap.push events
                  {| timeSec := t; etype := purchase; userId := u; txnId := txn;
                     amount := amount; relatedAmount := None;
                     ev_settlement := None; isFraud := None |} in
              purchaseTimeline fuel' fuelS spec rng horizonSec u t events (S txn)
        end
      else ret (events, txn)
  end.

(** The [for] loop over the users [us]; returns the balances, the queue and
    the next transaction id. *)
Fixpoint bootstrap (fuel : nat) (spec : SimulationSpec) (rng : RNG)
    (horizonSec : R) (us : list nat) (balances : list R) (events : MinHeap.t)
    (txn : nat) : Draw (list R * MinHeap.t * nat) :=
  match us with
  | [] => ret (balances, events, txn)
  | u :: us' =>
      b <- sampleDistribution fuel rng (balanceDistribution (userModel spec)) ;;
      let balances := balances ++ [b] in
      r <- purchaseTimeline fuel fuel spec rng horizonSec u 0 events txn ;;
      bootstrap fuel spec rng horizonSec us' balances (fst r) (snd r)
  end.

(** The state the event loop starts in. *)
Definition initialSim (spec : SimulationSpec) (balances : list R)
    (events : MinHeap.t) (series : list TimeSeriesPoint) : Sim :=
  {| events := events;
     balances := balances;
     holdTotals := replicate (users (userModel spec)) 0;
     holdCounts := replicate (users (userModel spec)) 0%nat;
     pendingHoldSamples := [];
     userDailySpend := ∅;
     userTimeslotSpend := ∅;
     approvals := [];
     declines := [];
     timeouts := [];
     authTimes := [];
     settlementTimes := [];
     retries := [];
     exposureEvents := [];
     exposureDurations := [];
     authContext := ∅;
     holdByTxn := ∅;
     overspendPrevented := 0;
     preAuthMismatchCount := 0;
     preAuthCount := 0;
     incrementalAuthSuccessCount := 0;
     incrementalAuthCount := 0;
     fraudAttempts := 0;
     fraudApprovals := 0;
     fraudExposureTotal := 0;
     fraudApprovedAmount := 0;
     fraudLossTotal := 0;
     limitDeclines := 0;
     totalSpent := 0;
     insufficientFundsSkipped := 0;
     series := series |}.

(** *** The result of a run *)

Record SimulationMetrics := {
  m_approvals : nat;
  m_declines : nat;
  m_timeouts : nat;
  m_approvalRate : R;
  m_declineRate : R;
  m_timeoutRate : R;
  m_avgAuthTimeSec : R;
  m_p95AuthTimeSec : R;
  m_settlementSuccessRate : R;
  m_settlementFailRate : R;
  m_avgSettlementTimeSec : R;
  m_p95SettlementTimeSec : R;
  m_retryP95 : R;
  m_exposureCount : nat;
  m_totalExposure : R;
  m_peakExposure : R;
  m_p95Exposure : R;
  m_exposureDurationP95Sec : R;
  m_overspendPrevented : nat;
  m_avgPendingHolds : R;
  m_p95PendingHolds : R;
  m_preAuthMismatchRate : R;
  m_incrementalAuthSuccessRate : R;
  m_fraudAttemptRate : R;
  m_fraudApprovalRate : R;
  m_fraudExposureTotal : R;
  m_fraudLossTotal : R;
  m_limitDeclines : nat;
  m_totalSpent : R;
  m_fraudApprovalRateNoLimits : R;
  m_fraudExposureTotalNoLimits : R;
  m_fraudLossTotalNoLimits : R;
  m_insufficientFundsSkipped : nat
}.

Record SimulationRunResult := {
  run_metrics : SimulationMetrics;
  run_timeSeries : list TimeSeriesPoint;
  run_settlementTimes : list R;
  run_authTimes : list R;
  run_exposureEvents : list ExposureEvent;
  run_retries : list nat;
  run_exposureDurations : list R;
  run_pendingHoldSamples : list nat;
  run_preAuthMismatchCount : nat;
  run_preAuthCount : nat;
  run_incrementalAuthSuccessCount : nat;
  run_incrementalAuthCount : nat;
  run_fraudAttempts : nat;
  run_fraudApprovals : nat
}.

(** [count ? a / count : 0]. *)
Definition ratio (a count : nat) : R :=
  if (count =? 0)%nat then 0 else INR a / INR count.

Definition totalExposureOf (evs : list ExposureEvent) : R :=
  fold_left (fun sum e => sum + exp_amount e) evs 0.

(** [Math.max(0, ...series.map((s) => s.exposure))]. *)
Definition peakExposureOf (series : list TimeSeriesPoint) : R :=
  fold_left Rmax (List.map ts_exposure series) 0.

(** The statements of [simulateOnce] after its event loop. *)
Definition finishRun (binSize : R) (st : Sim) : SimulationRunResult :=
  let series :=
    fold_left (fun s e => accumulateExposure s binSize e)
              (exposureEvents st) (series st) in
  let decided :=
    (length (approvals st) + length (declines st) + length (timeouts st))%nat in
  {| run_metrics := {|
       m_approvals := length (approvals st);
       m_declines := length (declines st);
       m_timeouts := length (timeouts st);
       m_approvalRate := 0;
       m_declineRate := 0;
       m_timeoutRate := 0;
       m_avgAuthTimeSec := average (authTimes st);
       m_p95AuthTimeSec := percentile (authTimes st) P95;
       m_settlementSuccessRate := 0;
       m_settlementFailRate := 0;
       m_avgSettlementTimeSec := average (settlementTimes st);
       m_p95SettlementTimeSec := percentile (settlementTimes st) P95;
       m_retryP95 := percentile (List.map INR (retries st)) P95;
       m_exposureCount := length (exposureEvents st);
       m_totalExposure := totalExposureOf (exposureEvents st);
       m_peakExposure := peakExposureOf series;
       m_p95Exposure := percentile (List.map ts_exposure series) P95;
       m_exposureDurationP95Sec := percentile (exposureDurations st) P95;
       m_overspendPrevented := overspendPrevented st;
       m_avgPendingHolds := average (List.map INR (pendingHoldSamples st));
       m_p95PendingHolds := percentile (List.map INR (pendingHoldSamples st)) P95;
       m_preAuthMismatchRate := ratio (preAuthMismatchCount st) (preAuthCount st);
       m_incrementalAuthSuccessRate :=
         ratio (incrementalAuthSuccessCount st) (incrementalAuthCount st);
       m_fraudAttemptRate :=
         if (fraudAttempts st =? 0)%nat then 0
         else INR (fraudAttempts st) / Rmax 1 (INR decided);
       m_fraudApprovalRate := ratio (fraudApprovals st) (fraudAttempts st);
       m_fraudExposureTotal := fraudExposureTotal st;
       m_fraudLossTotal := fraudLossTotal st;
       m_limitDeclines := limitDeclines st;
       m_totalSpent := totalSpent st;
       m_fraudApprovalRateNoLimits := 0;
       m_fraudExposureTotalNoLimits := 0;
       m_fraudLossTotalNoLimits := 0;
       m_insufficientFundsSkipped := insufficientFundsSkipped st |};
     run_timeSeries := series;
     run_settlementTimes := settlementTimes st;
     run_authTimes := authTimes st;
     run_exposureEvents := exposureEvents st;
     run_retries := retries st;
     run_exposureDurations := exposureDurations st;
     run_pendingHoldSamples := pendingHoldSamples st;
     run_preAuthMismatchCount := preAuthMismatchCount st;
     run_preAuthCount := preAuthCount st;
     run_incrementalAuthSuccessCount := incrementalAuthSuccessCount st;
     run_incrementalAuthCount := incrementalAuthCount st;
     run_fraudAttempts := fraudAttempts st;
     run_fraudApprovals := fraudApprovals st |}.

(** The decimal text of a run index. *)
Definition showIndex (n : nat) : string :=
  NilEmpty.string_of_uint (Nat.to_uint n).

(** The seed of the stream of a run: [`${baseSeed}-${runIndex}`]. *)
Definition runSeed (baseSeed : string) (runIndex : nat) : string :=
  (baseSeed ++ "-" ++ showIndex runIndex)%string.

(** The state before the event loop of a run: the population bootstrap. *)
Definition startRun (fuel : nat) (spec : SimulationSpec) (rng : RNG)
    : Draw (Sim * R) :=
  let horizonSec := horizonHours spec * 3600 in
  b <- bootstrap fuel spec rng horizonSec (seq 0 (users (userModel spec)))
         [] MinHeap.empty 0%nat ;;
  let '(balances, events, _) := b in
  let '(series, binSize) := initTimeSeries horizonSec 120 in
  ret (initialSim spec balances events series, binSize).

(** The run of [simulateOnce] up to the [k]-th iteration of its event loop
    (or to the end of the loop if that comes first): the state, the bin size,
    and the events popped so far in order.  [None] when a loop inside did not
    stop within [fuel] iterations. *)
Definition runPrefix (k fuel : nat) (spec : SimulationSpec)
    (baseSeed : string) (runIndex : nat) : option (Sim * R * Log) :=
  let rng := createRng (runSeed baseSeed runIndex) in
  match (s <- startRun fuel spec rng ;;
         r <- runEvents k fuel spec rng (snd s) (fst s) [] ;;
         ret (fst r, snd s, snd r)) 0%nat with
  | Some (x, _) => Some x
  | None => None
  end.

(** A run of [simulateOnce] to the end of its event loop, which leaves the
    queue empty, with the record of the loop. *)
Definition simulateOnceTrace (fuel : nat) (spec : SimulationSpec)
    (baseSeed : string) (runIndex : nat) : option (Sim * R * Log) :=
  match runPrefix fuel fuel spec baseSeed runIndex with
  | Some (st, binSize, log) =>
      match events st with
      | [] => Some (st, binSize, log)
      | _ :: _ => None
      end
  | None => None
  end.

Definition simulateOnce (fuel : nat) (spec : SimulationSpec)
    (baseSeed : string) (runIndex : nat) : option SimulationRunResult :=
  match simulateOnceTrace fuel spec baseSeed runIndex with
  | Some (st, binSize, _) => Some (finishRun binSize st)
  | None => None
  end.

(** *** The aggregation of runs *)

Record SimulationResults := {
  res_metrics : SimulationMetrics;
  res_timeSeries : list TimeSeriesPoint;
  settlementHistogram : list HistogramBin;
  authHistogram : list HistogramBin;
  exposureHistogram : list HistogramBin;
  exposurePerUserHistogram : list HistogramBin;
  settlementPercentiles : list HistogramBin;
  authPercentiles : list HistogramBin;
  exposurePercentiles : list HistogramBin;
  retryHistogram : list HistogramBin;
  res_exposureEvents : list ExposureEvent;
  scenarioSummary : string;
  res_seed : string
}.

Definition Req_bool (x y : R) : bool := if Req_dec_T x y then true else false.

Definition mergePoint (t s : TimeSeriesPoint) : TimeSeriesPoint :=
  {| ts_timeSec := ts_timeSec t;
     ts_exposure := ts_exposure t + ts_exposure s;
     ts_approvals := ts_approvals t + ts_approvals s;
     ts_declines := ts_declines t + ts_declines s;
     ts_timeouts := ts_timeouts t + ts_timeouts s |}.

(** [mergeTimeSeries]: every run has the same number of points. *)
Definition mergeTimeSeries (target source : list TimeSeriesPoint)
    : list TimeSeriesPoint :=
  zip_with mergePoint target source.

(** [exposureByUser] as the list of its entries in insertion order. *)
Fixpoint addExposureByUser (m : list (nat * R)) (u : nat) (a : R)
    : list (nat * R) :=
  match m with
  | [] => [(u, 0 + a)]
  | (k, v) :: m' =>
      if (k =? u)%nat then (k, v + a) :: m' else (k, v) :: addExposureByUser m' u a
  end.

Section Formatting.

(** [Number.prototype.toFixed(1)] and the text of a number in a template
    literal: the formatting of numbers is left to the platform. *)
Variable toFixed1 : R -> string.
Variable showNumber : R -> string.

(** A call that spreads an array into its arguments, [f(...values)], raises
    a [RangeError] when the platform does not take that many arguments:
    [callFits n] tells whether a call with [n] spread arguments passes.
    Which numbers pass is left to the platform.  The two calls
    [Math.max(0, ...series.map(...))] spread the 121 points of a time series
    and are taken to pass. *)
Variable callFits : nat -> bool.

(** Whether the spread of [values] passes: no argument always does. *)
Definition spreads {A} (values : list A) : bool :=
  match values with
  | [] => true
  | _ => callFits (length values)
  end.

(** [histogram]; [None] is the [RangeError] of [Math.max(...values)]. *)
Definition histogram (values : list R) (bins : nat)
    : option (list HistogramBin) :=
  match values with
  | [] => Some []
  | v0 :: vs =>
      if spreads values then
        let max := fold_left Rmax vs v0 in
        let min := fold_left Rmin vs v0 in
        let width := if Req_bool max min then 1 else (max - min) / INR bins in
        let counts :=
          fold_left
            (fun counts v =>
               let idx := Z.to_nat (Z.min (Z.of_nat bins - 1)
                                          (floor ((v - min) / width))) in
               alter (fun c => c + 1) idx counts)
            values (replicate bins 0) in
        Some (imap (fun i count =>
                      let start := min + INR i * width in
                      let end_ := start + width in
                      {| label := (toFixed1 start ++ "-" ++ toFixed1 end_)%string;
                         value := count |})
                   counts)
      else None
  end.

Definition buildScenarioSummary (spec : SimulationSpec) : string :=
  let lines :=
    [ ("Mode: " ++ match mode spec with
                   | wait_on_chain => "Wait for on-chain"
                   | offchain_hold => "Off-chain hold"
                   end)%string;
      ("Auth timeout: " ++ showNumber (authTimeoutSec spec) ++ "s")%string;
      ("Users: " ++ showIndex (users (userModel spec))
       ++ ", horizon: " ++ showNumber (horizonHours spec)
       ++ "h, lambda/user: " ++ showNumber (purchaseRate (userModel spec))
       ++ "/hr")%string;
      ("Stellar close ~" ++ showNumber (ledgerCloseMean (stellar spec))
       ++ "s, inclusion: " ++ showNumber (inclusionProbability (stellar spec)))%string;
      ("Network mean: " ++ showNumber (mean (nl_combined (networkLatency spec)))
       ++ "ms, issuer mean: " ++ showNumber (mean (issuerProcessing spec))
       ++ "ms")%string;
      ("Holds: " ++ (if holds_enabled (holds spec)
                     then "on (" ++ showNumber (holdDurationSec (holds spec)) ++ "s)"
                     else "off")
       ++ ", pre-auth: " ++ (if preAuth_enabled (preAuth spec) then "on" else "off"))%string ] in
  String.concat " | " lines.

(** The percentiles of the tables, with the labels
    [`p${Math.round(p * 100)}`]. *)
Definition percentileLabels : list (R * string) :=
  [ (0.5, "p50"); (0.75, "p75"); (0.9, "p90"); (0.95, "p95"); (0.99, "p99") ]%string.

Definition percentileTable (values : list R) : list HistogramBin :=
  List.map (fun pl => {| label := snd pl; value := percentile values (fst pl) |})
           percentileLabels.

Definition sumNat (f : SimulationRunResult -> nat) (runs : list SimulationRunResult) : nat :=
  fold_left (fun acc run => (acc + f run)%nat) runs 0%nat.

Definition sumNum (f : SimulationRunResult -> R) (runs : list SimulationRunResult) : R :=
  fold_left (fun acc run => acc + f run) runs 0.

(** [target.push(...run.list)] for every run, in order; [None] is the
    [RangeError] of a push that does not pass. *)
Definition pushAll {A} (f : SimulationRunResult -> list A)
    (runs : list SimulationRunResult) : option (list A) :=
  fold_left (fun acc run =>
               match acc with
               | Some target =>
                   if spreads (f run) then Some (target ++ f run)
                   else None
               | None => None
               end)
            runs (Some []).

(** [aggregateRunResults]; [None] when one of its calls raises. *)
Definition aggregateRunResults (spec : SimulationSpec)
    (runs : list SimulationRunResult) : option SimulationResults :=
  let runCount := Nat.max 1 (length runs) in
  let approvals := sumNat (fun run => m_approvals (run_metrics run)) runs in
  let declines := sumNat (fun run => m_declines (run_metrics run)) runs in
  let timeouts := sumNat (fun run => m_timeouts (run_metrics run)) runs in
  let overspendPrevented :=
    sumNat (fun run => m_overspendPrevented (run_metrics run)) runs in
  let fraudAttempts := sumNat run_fraudAttempts runs in
  let fraudApprovals := sumNat run_fraudApprovals runs in
  let fraudExposureTotal :=
    sumNum (fun run => m_fraudExposureTotal (run_metrics run)) runs in
  let fraudLossTotal :=
    sumNum (fun run => m_fraudLossTotal (run_metrics run)) runs in
  let limitDeclines := sumNat (fun run => m_limitDeclines (run_metrics run)) runs in
  let totalSpent := sumNum (fun run => m_totalSpent (run_metrics run)) runs in
  let insufficientFundsSkipped :=
    sumNat (fun run => m_insufficientFundsSkipped (run_metrics run)) runs in
  settlementTimes ← pushAll run_settlementTimes runs;
  authTimes ← pushAll run_authTimes runs;
  exposureEvents ← pushAll run_exposureEvents runs;
  retries ← pushAll run_retries runs;
  exposureDurations ← pushAll run_exposureDurations runs;
  pendingHoldSamples ← pushAll run_pendingHoldSamples runs;
  let preAuthMismatch := sumNat run_preAuthMismatchCount runs in
  let preAuthCount := sumNat run_preAuthCount runs in
  let incrementalAuthSuccess := sumNat run_incrementalAuthSuccessCount runs in
  let incrementalAuthCount := sumNat run_incrementalAuthCount runs in
  let aggregateSeries :=
    fold_left (fun agg run =>
                 if (length agg =? 0)%nat then run_timeSeries run
                 else mergeTimeSeries agg (run_timeSeries run))
              runs [] in
  let total := (approvals + declines + timeouts)%nat in
  let settlementSuccessRate :=
    INR (length settlementTimes) / INR (Nat.max 1 approvals) in
  let settlementFailRate := 1 - settlementSuccessRate in
  let metrics := {|
    m_approvals := approvals;
    m_declines := declines;
    m_timeouts := timeouts;
    m_approvalRate := ratio approvals total;
    m_declineRate := ratio declines total;
    m_timeoutRate := ratio timeouts total;
    m_avgAuthTimeSec := average authTimes;
    m_p95AuthTimeSec := percentile authTimes P95;
    m_settlementSuccessRate := settlementSuccessRate;
    m_settlementFailRate := settlementFailRate;
    m_avgSettlementTimeSec := average settlementTimes;
    m_p95SettlementTimeSec := percentile settlementTimes P95;
    m_retryP95 := percentile (List.map INR retries) P95;
    m_exposureCount := length exposureEvents;
    m_totalExposure := totalExposureOf exposureEvents;
    m_peakExposure := peakExposureOf aggregateSeries;
    m_p95Exposure := percentile (List.map ts_exposure aggregateSeries) P95;
    m_exposureDurationP95Sec := percentile exposureDurations P95;
    m_overspendPrevented := overspendPrevented;
    m_avgPendingHolds := average (List.map INR pendingHoldSamples);
    m_p95PendingHolds := percentile (List.map INR pendingHoldSamples) P95;
    m_preAuthMismatchRate := ratio preAuthMismatch preAuthCount;
    m_incrementalAuthSuccessRate := ratio incrementalAuthSuccess incrementalAuthCount;
    m_fraudAttemptRate := ratio fraudAttempts total;
    m_fraudApprovalRate := ratio fraudApprovals fraudAttempts;
    m_fraudExposureTotal := fraudExposureTotal;
    m_fraudLossTotal := fraudLossTotal;
    m_limitDeclines := limitDeclines;
    m_totalSpent := totalSpent;
    m_fraudApprovalRateNoLimits := 0;
    m_fraudExposureTotalNoLimits := 0;
    m_fraudLossTotalNoLimits := 0;
    m_insufficientFundsSkipped := insufficientFundsSkipped |} in
  let timeSeries :=
    List.map (fun point =>
                {| ts_timeSec := ts_timeSec point;
                   ts_exposure := ts_exposure point / INR runCount;
                   ts_approvals := ts_approvals point / INR runCount;
                   ts_declines := ts_declines point / INR runCount;
                   ts_timeouts := ts_timeouts point / INR runCount |})
             aggregateSeries in
  let exposureByUser :=
    fold_left (fun m e => addExposureByUser m (exp_userId e) (exp_amount e))
              exposureEvents [] in
  settlementBins ← histogram settlementTimes 24;
  authBins ← histogram authTimes 24;
  exposureBins ← histogram (List.map exp_amount exposureEvents) 20;
  exposurePerUserBins ← histogram (List.map snd exposureByUser) 20;
  retryBins ← histogram (List.map INR retries) 10;
  Some {| res_metrics := metrics;
          res_timeSeries := timeSeries;
          settlementHistogram := settlementBins;
          authHistogram := authBins;
          exposureHistogram := exposureBins;
          exposurePerUserHistogram := exposurePerUserBins;
          settlementPercentiles := percentileTable settlementTimes;
          authPercentiles := percentileTable authTimes;
          exposurePercentiles :=
            percentileTable (List.map exp_amount exposureEvents);
          retryHistogram := retryBins;
          res_exposureEvents := exposureEvents;
          scenarioSummary := buildScenarioSummary spec;
          res_seed := seed spec |}.

End Formatting.

(** [runSimulationRuns]: the runs [startIndex], ..., [startIndex + count - 1]
    in this order; the progress callback only reports.  [None] when a run
    did not finish within [fuel]. *)
Fixpoint runSimulationRuns (fuel : nat) (spec : SimulationSpec)
    (startIndex count : nat) : option (list SimulationRunResult) :=
  match count with
  | O => Some []
  | S count' =>
      match simulateOnce fuel spec (seed spec) startIndex with
      | Some run =>
          match runSimulationRuns fuel spec (S startIndex) count' with
          | Some runs => Some (run :: runs)
          | None => None
          end
      | None => None
      end
  end.

Definition runSimulationInternal (toFixed1 showNumber : R -> string)
    (callFits : nat -> bool) (fuel : nat) (spec : SimulationSpec)
    : option SimulationResults :=
  let runs := Z.to_nat (Z.max 1 (floor (monteCarloRuns spec))) in
  match runSimulationRuns fuel spec 0 runs with
  | Some runResults =>
      aggregateRunResults toFixed1 showNumber callFits spec runResults
  | None => None
  end.

(** The assignment of the three no-limits metrics of a result. *)
Definition setNoLimits (a e l : R) (res : SimulationResults) : SimulationResults :=
  let m := res_metrics res in
  {| res_metrics := {|
       m_approvals := m_approvals m;
       m_declines := m_declines m;
       m_timeouts := m_timeouts m;
       m_approvalRate := m_approvalRate m;
       m_declineRate := m_declineRate m;
       m_timeoutRate := m_timeoutRate m;
       m_avgAuthTimeSec := m_avgAuthTimeSec m;
       m_p95AuthTimeSec := m_p95AuthTimeSec m;
       m_settlementSuccessRate := m_settlementSuccessRate m;
       m_settlementFailRate := m_settlementFailRate m;
       m_avgSettlementTimeSec := m_avgSettlementTimeSec m;
       m_p95SettlementTimeSec := m_p95SettlementTimeSec m;
       m_retryP95 := m_retryP95 m;
       m_exposureCount := m_exposureCount m;
       m_totalExposure := m_totalExposure m;
       m_peakExposure := m_peakExposure m;
       m_p95Exposure := m_p95Exposure m;
       m_exposureDurationP95Sec := m_exposureDurationP95Sec m;
       m_overspendPrevented := m_overspendPrevented m;
       m_avgPendingHolds := m_avgPendingHolds m;
       m_p95PendingHolds := m_p95PendingHolds m;
       m_preAuthMismatchRate := m_preAuthMismatchRate m;
       m_incrementalAuthSuccessRate := m_incrementalAuthSuccessRate m;
       m_fraudAttemptRate := m_fraudAttemptRate m;
       m_fraudApprovalRate := m_fraudApprovalRate m;
       m_fraudExposureTotal := m_fraudExposureTotal m;
       m_fraudLossTotal := m_fraudLossTotal m;
       m_limitDeclines := m_limitDeclines m;
       m_totalSpent := m_totalSpent m;
       m_fraudApprovalRateNoLimits := a;
       m_fraudExposureTotalNoLimits := e;
       m_fraudLossTotalNoLimits := l;
       m_insufficientFundsSkipped := m_insufficientFundsSkipped m |};
     res_timeSeries := res_timeSeries res;
     settlementHistogram := settlementHistogram res;
     authHistogram := authHistogram res;
     exposureHistogram := exposureHistogram res;
     exposurePerUserHistogram := exposurePerUserHistogram res;
     settlementPercentiles := settlementPercentiles res;
     authPercentiles := authPercentiles res;
     exposurePercentiles := exposurePercentiles res;
     retryHistogram := retryHistogram res;
     res_exposureEvents := res_exposureEvents res;
     scenarioSummary := scenarioSummary res;
     res_seed := res_seed res |}.

(** [{ ...spec, spendLimits: { ...spec.spendLimits, enabled: false } }]. *)
Definition withoutLimits (spec : SimulationSpec) : SimulationSpec :=
  {| horizonHours := horizonHours spec;
     monteCarloRuns := monteCarloRuns spec;
     seed := seed spec;
     mode := mode spec;
     authTimeoutSec := authTimeoutSec spec;
     issuerProcessing := issuerProcessing spec;
     networkLatency := networkLatency spec;
     stellar := stellar spec;
     outage := outage spec;
     userModel := userModel spec;
     holds := holds spec;
     preAuth := preAuth spec;
     fraud := fraud spec;
     spendLimits := {|
       limits_enabled := false;
       perTransactionLimit := perTransactionLimit (spendLimits spec);
       perUserDailyLimit := perUserDailyLimit (spendLimits spec);
       perUserTimeslotLimit := perUserTimeslotLimit (spendLimits spec);
       timeslotMinutes := timeslotMinutes (spendLimits spec) |};
     settlementSlaSec := settlementSlaSec spec |}.

Definition runSimulation (toFixed1 showNumber : R -> string)
    (callFits : nat -> bool) (fuel : nat) (spec : SimulationSpec)
    : option SimulationResults :=
  match runSimulationInternal toFixed1 showNumber callFits fuel spec with
  | None => None
  | Some base =>
      if fraud_enabled (fraud spec) && limits_enabled (spendLimits spec) then
        match runSimulationInternal toFixed1 showNumber callFits fuel
                (withoutLimits spec) with
        | None => None
        | Some noLimits =>
            Some (setNoLimits
                    (m_fraudApprovalRate (res_metrics noLimits))
                    (m_fraudExposureTotal (res_metrics noLimits))
                    (m_fraudLossTotal (res_metrics noLimits)) base)
        end
      else
        Some (setNoLimits
                (m_fraudApprovalRate (res_metrics base))
                (m_fraudExposureTotal (res_metrics base))
                (m_fraudLossTotal (res_metrics base)) base)
  end.

(** ** engine.ts: the progress reports *)

(** [runSimulationRuns] with its callback: the loop from its iteration [i]
    with [remaining] iterations to go.  It returns the values given to
    [onProgress], in order, and the runs; the runs are [None] when a run did
    not finish within [fuel], and then the reports stop before that run. *)
Fixpoint runSimulationRuns_loop (fuel : nat) (spec : SimulationSpec)
    (startIndex i remaining : nat) : list nat * option (list SimulationRunResult) :=
  match remaining with
  | O => ([], Some [])
  | S remaining' =>
      match simulateOnce fuel spec (seed spec) (startIndex + i) with
      | None => ([], None)
      | Some run =>
          let rest := runSimulationRuns_loop fuel spec startIndex (S i) remaining' in
          ((i + 1)%nat :: fst rest, option_map (cons run) (snd rest))
      end
  end.

Definition runSimulationRunsReporting (fuel : nat) (spec : SimulationSpec)
    (startIndex count : nat) : list nat * option (list SimulationRunResult) :=
  runSimulationRuns_loop fuel spec startIndex 0 count.

(** [runSimulationInternal] with its callback, scale and offset: the values
    it gives to [onProgress], and its result. *)
Definition runSimulationInternalReporting (toFixed1 showNumber : R -> string)
    (callFits : nat -> bool) (fuel : nat) (spec : SimulationSpec)
    (progressScale progressOffset : R)
    : list R * option SimulationResults :=
  let runs := Z.to_nat (Z.max 1 (floor (monteCarloRuns spec))) in
  let r := runSimulationRunsReporting fuel spec 0 runs in
  (List.map (fun completed =>
               progressOffset + (INR completed / INR runs) * progressScale)
            (fst r),
   snd r ≫= aggregateRunResults toFixed1 showNumber callFits spec).

(** [runSimulationWithProgress]: the values it gives to [onProgress], in
    order, and its result.  The last report, 1, is made when both phases have
    returned. *)
Definition runSimulationWithProgress (toFixed1 showNumber : R -> string)
    (callFits : nat -> bool) (fuel : nat) (spec : SimulationSpec)
    : list R * option SimulationResults :=
  let hasAlt := fraud_enabled (fraud spec) && limits_enabled (spendLimits spec) in
  let phaseScale := if hasAlt then 0.5 else 1 in
  let base :=
    runSimulationInternalReporting toFixed1 showNumber callFits fuel spec
      phaseScale 0 in
  match snd base with
  | None => (0 :: fst base, None)
  | Some b =>
      if hasAlt then
        let noLimits :=
          runSimulationInternalReporting toFixed1 showNumber callFits fuel
            (withoutLimits spec) phaseScale phaseScale in
        match snd noLimits with
        | None => (0 :: fst base ++ fst noLimits, None)
        | Some nl =>
            (0 :: fst base ++ fst noLimits ++ [1],
             Some (setNoLimits
                     (m_fraudApprovalRate (res_metrics nl))
                     (m_fraudExposureTotal (res_metrics nl))
                     (m_fraudLossTotal (res_metrics nl)) b))
        end
      else
        (0 :: fst base ++ [1],
         Some (setNoLimits
                 (m_fraudApprovalRate (res_metrics b))
                 (m_fraudExposureTotal (res_metrics b))
                 (m_fraudLossTotal (res_metrics b)) b))
  end.

(** ** worker.ts *)

Record WorkerInput := {
  wi_spec : SimulationSpec;
  wi_startIndex : nat;
  wi_runs : nat;
  wi_workerId : nat
}.

Inductive WorkerMessage :=
| progressMessage (workerId completed total : nat)
| resultMessage (workerId : nat) (data : list SimulationRunResult).

(** [self.onmessage]: the messages the worker posts, in order.  The result
    message is posted when all its runs have returned. *)
Definition worker_onmessage (fuel : nat) (input : WorkerInput)
    : list WorkerMessage :=
  let r := runSimulationRunsReporting fuel (wi_spec input) (wi_startIndex input)
             (wi_runs input) in
  List.map (fun completed =>
              progressMessage (wi_workerId input) completed (wi_runs input))
           (fst r)
  ++ match snd r with
     | Some result => [resultMessage (wi_workerId input) result]
     | None => []
     end.

(** ** App.tsx: [useSimulationPool] *)

(** The messages that [run] posts, one to each worker, in the order of the
    workers; [hardwareConcurrency] is [None] where the platform does not
    define it. *)
Definition poolTotalRuns (spec : SimulationSpec) : nat :=
  Z.to_nat (Z.max 1 (floor (monteCarloRuns spec))).

Definition poolWorkerCount (hardwareConcurrency : option nat)
    (spec : SimulationSpec) : nat :=
  Nat.min (default 4%nat hardwareConcurrency) (poolTotalRuns spec).

Definition poolMessages (hardwareConcurrency : option nat)
    (spec : SimulationSpec) : list WorkerInput :=
  let totalRuns := poolTotalRuns spec in
  let workerCount := poolWorkerCount hardwareConcurrency spec in
  let runsPerWorker := (totalRuns / workerCount)%nat in
  let remainder := (totalRuns mod workerCount)%nat in
  fst (fold_left
         (fun (state : list WorkerInput * nat) idx =>
            let startIndex := snd state in
            let runs :=
              (runsPerWorker + (if (idx <? remainder)%nat then 1 else 0))%nat in
            (fst state ++ [{| wi_spec := spec; wi_startIndex := startIndex;
                              wi_runs := runs; wi_workerId := idx |}],
             (startIndex + runs)%nat))
         (seq 0 workerCount) ([], 0%nat)).

(** The [results] of [run] when the result messages of the workers arrive
    in the order [arrival] of their ids: each arrival appends the runs of
    that worker.  [None] when a worker does not return.  The call
    [results.push(...event.data.data)] spreads the runs of one worker, a
    share of the runs, and is taken to pass. *)
Definition poolResults (fuel : nat) (hardwareConcurrency : option nat)
    (spec : SimulationSpec) (arrival : list nat)
    : option (list SimulationRunResult) :=
  let messages := poolMessages hardwareConcurrency spec in
  fold_left
    (fun (results : option (list SimulationRunResult)) workerId =>
       match results, messages !! workerId with
       | Some rs, Some m =>
           match snd (runSimulationRunsReporting fuel (wi_spec m)
                        (wi_startIndex m) (wi_runs m)) with
           | Some data => Some (rs ++ data)
           | None => None
           end
       | _, _ => None
       end)
    arrival (Some []).

(** * Properties of the program *)

(** ** Sampling *)

(** [x] is within relative error [tol] of [target]. *)
Definition within_rel (tol x target : R) : Prop :=
  Rabs (x - target) <= tol * Rabs target.

(** The round trip of the lognormal fit: the fitted parameters give back
    the mean and the 95th percentile within 1e-4 relative error. *)
Definition lognormal_roundtrip (mean p95 : R) : Prop :=
  let p := lognormalParamsFromMeanP95 mean p95 in
  within_rel 1e-4 (exp (mu p + 0.5 * sigma p * sigma p)) mean /\
  within_rel 1e-4 (exp (mu p + z95 * sigma p)) p95.

(** The discriminant of the quadratic that the fit solves. *)
Definition lognormal_disc (mean p95 : R) : R :=
  z95 * z95 - 2 * (ln p95 - ln mean).

(** The stream 0.5, 0.25, 0.5, 0.5, ...: its first normal draw is 0. *)
Definition quarterRng : RNG :=
  fun n => match n with 1%nat => 0.25 | _ => 0.5 end.

(** A distribution of the gamma kind with degenerate parameters. *)
Definition degenerateGamma : DistributionSpec :=
  {| dtype := gamma; mean := 0; p95 := 0 |}.

(** ** Settlement *)

(** Sampling returns when it is given a lognormal distribution, or when the
    rejection loop of the gamma sampler accepts within the fuel. *)
Definition sample_returns (fuel : nat) (rng : RNG) (spec : DistributionSpec)
    (n : nat) : Prop :=
  exists x n', sampleDistribution fuel rng spec n = Some (x, n').

(** A closure that returns 0.5 at every call. *)
Definition halfRng : RNG := fun _ => 0.5.



(** ** Percentiles *)

(** The nearest-rank percentile of the specification: the element at the
    1-based rank [ceil (p * n)] of the sorted copy. *)
Definition nearest_rank (values : list R) (p : R) : R :=
  let sorted := sort_numbers values in
  let rank := Z.to_nat (ceil (p * INR (length sorted))) in
  nth (rank - 1) sorted 0.

(** What is used of the rounding of a double: it keeps the order, and the
    integers up to 2^53 are doubles. *)
Definition rounding (fl : R -> R) : Prop :=
  (forall x y, x <= y -> fl x <= fl y) /\
  (forall z : Z, (Z.abs z <= 9007199254740992)%Z -> fl (IZR z) = IZR z).

(** The rounding to the nearest multiple of [2^-k]; with [k = 51] these are
    the doubles between 2 and 4. *)
Definition roundTo (k : nat) (x : R) : R :=
  IZR (floor (x * 2 ^ k + 1 / 2)) / 2 ^ k.

(** The double nearest to 0.6, which is below it. *)
Definition double_0_6 : R := 5404319552844595 / 9007199254740992.

(** ** Ranges of the draws and of the timing parameters *)

(** A closure that returns numbers of the interval [0, 1). *)
Definition unit_range (rng : RNG) : Prop := forall n, 0 <= rng n < 1.

(** The timing parameters of the settlement network are not negative: the
    ledger interval (a positive jitter floors it at 0.1), the backoff, and
    the outage factor on the submission delay. *)
Definition settlement_timing_nonneg (spec : StellarSpec) (outage : OutageSpec) : Prop :=
  (0 < ledgerJitter spec \/ 0 <= ledgerCloseMean spec) /\
  0 <= backoffBaseMs spec /\
  0 <= backoffMultiplier spec /\
  (outage_enabled outage = true -> 0 <= submissionDelayMultiplier outage).

(** ** Batches of runs *)

(** The concatenation of two batches that may have failed. *)
Definition concatRuns (a b : option (list SimulationRunResult))
    : option (list SimulationRunResult) :=
  match a, b with
  | Some x, Some y => Some (x ++ y)
  | _, _ => None
  end.

(** ** The heap order *)

Module HeapSpec.

Import MinHeap.

(** [Math.floor((index - 1) / 2)]. *)
Definition parent (i : nat) : nat := ((i - 1) / 2)%nat.

(** Every element is at least as late as its parent. *)
Definition heap_ok (data : t) : Prop :=
  forall i c p,
    (0 < i)%nat -> data !! i = Some c -> data !! parent i = Some p ->
    timeSec p <= timeSec c.

(** The heap order but for the element at [k], which may be earlier than
    its parent; the children of [k] are not earlier than its parent. *)
Definition up_ok (data : t) (k : nat) : Prop :=
  (forall i c p,
      (0 < i)%nat -> i <> k -> data !! i = Some c -> data !! parent i = Some p ->
      timeSec p <= timeSec c) /\
  (forall i c g,
      (0 < k)%nat -> (0 < i)%nat -> parent i = k ->
      data !! i = Some c -> data !! parent k = Some g ->
      timeSec g <= timeSec c).

(** The heap order but for the element at [k], which may be later than
    its children; the children of [k] are not earlier than its parent. *)
Definition down_ok (data : t) (k : nat) : Prop :=
  (forall i c p,
      (0 < i)%nat -> parent i <> k -> data !! i = Some c ->
      data !! parent i = Some p ->
      timeSec p <= timeSec c) /\
  (forall i c g,
      (0 < k)%nat -> (0 < i)%nat -> parent i = k ->
      data !! i = Some c -> data !! parent k = Some g ->
      timeSec g <= timeSec c).

(** The index that position [k] receives its element from when the
    positions [i] and [j] are exchanged. *)
Definition swap_idx (i j k : nat) : nat :=
  if decide (k = i) then j else if decide (k = j) then i else k.

End HeapSpec.

(** ** Exposure windows *)


(** ** Scheduled events *)

(** The queue after the events [added] were pushed in order. *)
Definition pushed (added : list SimulationEvent) (q : MinHeap.t) : MinHeap.t :=
  fold_left MinHeap.push added q.

(** What is known of an event [e] scheduled while [event] is handled: it
    carries the transaction and the user of [event] and it is not a purchase;
    when the draws are in [0, 1) and the timing parameters are not negative,
    its settlement outcome, if any, has a time that is not negative, and it
    is not earlier than [event] if the hold duration is not negative. *)
Definition spawned (spec : SimulationSpec) (rng : RNG)
    (event e : SimulationEvent) : Prop :=
  txnId e = txnId event /\ userId e = userId event /\ etype e <> purchase /\
  (unit_range rng ->
   settlement_timing_nonneg (stellar spec) (outage spec) ->
   (forall s, ev_settlement e = Some s -> 0 <= sr_timeSec s) /\
   (0 <= holdDurationSec (holds spec) -> timeSec event <= timeSec e)).

(** ** The queue after the bootstrap *)

(** What is known of the queue after the bootstrap: it is a heap of
    purchases without settlement outcome, whose amounts are not negative,
    with transaction ids below the next one, each belonging to one user, a
    user among the first [N]. *)
Definition booked (owner : nat -> nat) (N txn : nat) (q : MinHeap.t) : Prop :=
  HeapSpec.heap_ok q /\
  Forall (fun e => etype e = purchase /\ ev_settlement e = None /\
                   0 <= amount e /\
                   (txnId e < txn)%nat /\ userId e = owner (txnId e) /\
                   (userId e < N)%nat) q.

(** ** Invariant of the exposures *)



(** ** Order of the popped events *)



(** ** Holds *)

(** What a hold adds to the holds of user [u]. *)
Definition contrib (u : nat) (h : Hold) : R :=
  if (hold_userId h =? u)%nat then hold_amount h else 0.

(** The sum of the amounts of the holds of [u] that are still recorded. *)
Definition heldBy (m : gmap nat Hold) (u : nat) : R :=
  map_fold (fun _ h acc => acc + contrib u h) 0 m.

(** What handling one event does to the hold totals and to the recorded
    holds, for the user [u] and the transaction [txn] of the event. *)
Inductive hold_effect (u txn : nat) (ht : list R) (hb : gmap nat Hold) :
    list R -> gmap nat Hold -> Prop :=
| he_none : hold_effect u txn ht hb ht hb
| he_place (a t : R) :
    0 <= a ->
    hold_effect u txn ht hb
      (<[u := readNum ht u + a]> ht)
      (<[txn := {| hold_userId := u; hold_amount := a; approvalTime := t |}]> hb)
| he_incr (d : R) :
    0 <= d ->
    hold_effect u txn ht hb (<[u := readNum ht u + d]> ht) hb
| he_release (u' : nat) (h : Hold) :
    hb !! txn = Some h ->
    u' = u \/ u' = hold_userId h ->
    hold_effect u txn ht hb
      (<[u' := readNum ht u' - hold_amount h]> ht) (delete txn hb).

(** Every recorded hold has a non-negative amount and belongs to the user
    of its transaction; the hold total of a user covers the holds of that
    user that are still recorded; the events of the queue are of users of
    the population, each transaction of one user, and the purchases among
    them have non-negative amounts. *)
Definition hold_inv (spec : SimulationSpec) (owner : nat -> nat) (st : Sim)
    (log : Log) : Prop :=
  length (holdTotals st) = users (userModel spec) /\
  (forall k h, holdByTxn st !! k = Some h ->
               0 <= hold_amount h /\ hold_userId h = owner k) /\
  (forall u, heldBy (holdByTxn st) u <= readNum (holdTotals st) u) /\
  Forall (fun e => userId e = owner (txnId e) /\
                   (userId e < users (userModel spec))%nat /\
                   (etype e = purchase -> 0 <= amount e)) (events st).

(** ** Counts of the purchases *)

Section Counting.

Local Open Scope nat_scope.

(** The purchases that reached a decision or were counted as skipped. *)
Definition decided (st : Sim) : nat :=
  length (approvals st) + length (declines st) + length (timeouts st)
  + insufficientFundsSkipped st.

(** What an iteration adds to [decided]. *)
Definition counted (b : Branch) : nat :=
  match b with
  | PurchaseAutoDeclined | PurchaseTimeout | PurchaseLimitDeclined
  | PurchaseInsufficient | PurchaseApproved
  | SettlementTimeout | SettlementDeclined | SettlementLimitDeclined
  | SettlementInsufficient | SettlementApproved => 1
  | _ => 0
  end.

(** The purchase was left for its settlement event to decide. *)
Definition deferred (b : Branch) : nat :=
  match b with PurchaseDeferred => 1 | _ => 0 end.

(** The purchase was dropped with no counter changed: the user had no
    available balance. *)
Definition dropped (b : Branch) : nat :=
  match b with PurchaseNoFunds => 1 | _ => 0 end.

(** The purchase was a fraud attempt declined before any latency. *)
Definition autoDeclined (b : Branch) : nat :=
  match b with PurchaseAutoDeclined => 1 | _ => 0 end.

(** Indicators of the type of an event. *)
Definition isPurchase (t : SimulationEventType) : nat :=
  match t with purchase => 1 | _ => 0 end.

Definition isSettlement (t : SimulationEventType) : nat :=
  match t with settlement => 1 | _ => 0 end.

(** The sum of [f] over the elements of [l]. *)
Definition sumOver {A} (f : A -> nat) (l : list A) : nat :=
  fold_right (fun x acc => f x + acc) 0 l.

(** The purchase events popped, and the popped purchases by outcome. *)
Definition purchasesPopped (log : Log) : nat :=
  sumOver (fun x => isPurchase (etype (fst x))) log.

Definition purchasesDropped (log : Log) : nat :=
  sumOver (fun x => dropped (snd x)) log.

Definition purchasesAutoDeclined (log : Log) : nat :=
  sumOver (fun x => autoDeclined (snd x)) log.

(** The settlement events of the queue. *)
Definition settlementsQueued (q : MinHeap.t) : nat :=
  sumOver (fun e => isSettlement (etype e)) q.

(** On chain the queue holds purchases and the settlement events of the
    deferred purchases, each with its outcome and its context. *)
Definition onChainEvent (st : Sim) (e : SimulationEvent) : Prop :=
  etype e = purchase \/
  (etype e = settlement /\ is_Some (ev_settlement e) /\
   is_Some (authContext st !! txnId e)).

(** The purchases still to be decided by a settlement event. *)
Definition pending (spec : SimulationSpec) (st : Sim) : nat :=
  match mode spec with
  | wait_on_chain => settlementsQueued (events st)
  | offchain_hold => 0
  end.

(** Every popped purchase is decided, dropped or pending. *)
Definition count_inv (spec : SimulationSpec) (st : Sim) (log : Log) : Prop :=
  decided st + purchasesDropped log + pending spec st = purchasesPopped log /\
  (mode spec = wait_on_chain -> Forall (onChainEvent st) (events st)).

End Counting.

(** ** A scenario with one purchase *)

(** A distribution that always samples 0. *)
Definition flat : DistributionSpec := lognormalSpec 0 0.

(** No latency on the network. *)
Definition probeLatency : NetworkLatencySpec := {|
  latencyMode := combined;
  nl_combined := flat;
  terminalToNetwork := flat;
  networkToIssuer := flat;
  issuerToNetwork := flat;
  networkToTerminal := flat
|}.

(** A settlement that is never included and is given up after one ledger
    close. *)
Definition probeStellar (ledgerClose : R) : StellarSpec := {|
  ledgerCloseMean := ledgerClose;
  ledgerJitter := 0;
  submissionDelay := flat;
  inclusionProbability := 0;
  baseFee := 100;
  feeBumpFactor := 1.5;
  maxRetries := 0;
  backoffBaseMs := 800;
  backoffMultiplier := 1.8;
  maxSettleWindowSec := 120
|}.

(** One user, one purchase an hour on average; the tickets are distributed
    as the balances. *)
Definition probeUsers : UserModelSpec := {|
  users := 1;
  avgBalance := 300;
  balanceDistribution := lognormalSpec 300 1000;
  purchaseRate := 1;
  avgTicket := 300;
  ticketDistribution := lognormalSpec 300 1000;
  burstinessEnabled := false;
  burstinessProbability := 0.18;
  burstinessMultiplier := 3
|}.

(** Holds of two minutes. *)
Definition probeHolds : HoldSpec := {|
  holds_enabled := true;
  holdDurationSec := 120;
  allowIncremental := true
|}.

(** When fraud is on, every purchase is a fraud attempt that is declined at
    once. *)
Definition probeFraud (fraudOn : bool) : FraudSpec := {|
  fraud_enabled := fraudOn;
  fraudAttemptRate := 1;
  fraudAmountMultiplierMean := 1.4;
  fraudAmountMultiplierP95 := 2.2;
  autoDeclineRate := 1
|}.

(** No outage. *)
Definition probeOutage : OutageSpec := outage defaultSpec.

(** The scenario: one hour, off-chain holds, the seed [sd], and otherwise
    the default values. *)
Definition probeAt (sd : string) (fraudOn : bool) (ledgerClose : R)
    : SimulationSpec := {|
  horizonHours := 1;
  monteCarloRuns := 1;
  seed := sd;
  mode := offchain_hold;
  authTimeoutSec := 5;
  issuerProcessing := flat;
  networkLatency := probeLatency;
  stellar := probeStellar ledgerClose;
  outage := probeOutage;
  userModel := probeUsers;
  holds := probeHolds;
  preAuth := preAuth defaultSpec;
  fraud := probeFraud fraudOn;
  spendLimits := spendLimits defaultSpec;
  settlementSlaSec := 45
|}.

(** The scenario with the default seed. *)
Definition probe (fraudOn : bool) (ledgerClose : R) : SimulationSpec :=
  probeAt "stellar-001" fraudOn ledgerClose.

(** The value that [sampleLognormal] returns from the draws [n] and [n + 1]
    of [rng]. *)
Definition lognormalAt (m q : R) (rng : RNG) (n : nat) : R :=
  let p := lognormalParamsFromMeanP95 m q in
  exp (mu p
       + sigma p * (sqrt (-2 * ln (Rmax (rng n) 1e-12))
                    * cos (2 * PI * Rmax (rng (S n)) 1e-12))).

(** The streams on which a run of the scenario has one purchase, which the
    balance of the user covers: the balance, drawn first, is in the upper
    half of its distribution (draw 1); the first inter-arrival time is below
    the hour (draw 2); the amount is in the lower half of the distribution
    (draw 4); and the second inter-arrival time is above the hour (draw
    5). *)
Definition one_purchase_stream (rng : RNG) : Prop :=
  1e-12 <= rng 1%nat <= 1 / 4 /\
  1 / 2 <= rng 2%nat < 1 /\
  1 / 4 <= rng 4%nat <= 3 / 4 /\
  0 <= rng 5%nat < 1 / 3.

(** The balance of the user, the time of the purchase and its amount on the
    stream [rng]. *)
Definition traceBalance (rng : RNG) : R := lognormalAt 300 1000 rng 0%nat.
Definition traceTime (rng : RNG) : R :=
  0 + - ln (Rmax (rng 2%nat) 1e-12) / (1 / 3600).
Definition traceAmount (rng : RNG) : R := lognormalAt 300 1000 rng 3%nat.

(** The purchase of the scenario. *)
Definition tracePurchase (rng : RNG) : SimulationEvent :=
  {| timeSec := traceTime rng; etype := purchase; userId := 0%nat;
     txnId := 0%nat; amount := traceAmount rng; relatedAmount := None;
     ev_settlement := None; isFraud := None |}.

(** The time the issuer is done with the purchase: there is no latency. *)
Definition traceIssuerDone (rng : RNG) : R :=
  traceTime rng + 0 / 2 / 1000 + 0 + 0 / 1000.

(** The hold placed at the approval, the event of its expiry, and the
    settlement event of the approval. *)
Definition traceHold (rng : RNG) : Hold :=
  {| hold_userId := 0%nat; hold_amount := traceAmount rng;
     approvalTime := traceIssuerDone rng |}.

Definition traceExpiry (rng : RNG) : SimulationEvent :=
  {| timeSec := traceIssuerDone rng + 120; etype := hold_expiry;
     userId := 0%nat; txnId := 0%nat; amount := traceAmount rng;
     relatedAmount := None; ev_settlement := None; isFraud := Some false |}.

Definition traceSettlement (rng : RNG) (s : SettlementResult)
    : SimulationEvent :=
  {| timeSec := traceIssuerDone rng + sr_timeSec s; etype := settlement;
     userId := 0%nat; txnId := 0%nat; amount := traceAmount rng;
     relatedAmount := None; ev_settlement := Some s; isFraud := Some false |}.

(** The exposure recorded when the settlement of the purchase failed after
    [L] seconds. *)
Definition traceExposure (rng : RNG) (L : R) : ExposureEvent :=
  {| exp_userId := 0%nat; exp_amount := traceAmount rng;
     startSec := traceIssuerDone rng;
     endSec := traceIssuerDone rng + Rmin L 120 |}.

(** The run of the scenario that is followed for the default seed: run
    90. *)
Definition probeIndex : nat := 90.

(** The stream of that run, and the values of the run on it. *)
Definition probeRng : RNG := createRng (runSeed "stellar-001" probeIndex).

Definition probeBalance : R := traceBalance probeRng.
Definition probeTime : R := traceTime probeRng.
Definition probeAmount : R := traceAmount probeRng.
Definition probePurchase : SimulationEvent := tracePurchase probeRng.
Definition probeIssuerDone : R := traceIssuerDone probeRng.
Definition probeHold : Hold := traceHold probeRng.
Definition probeExpiry : SimulationEvent := traceExpiry probeRng.
Definition probeSettlement (s : SettlementResult) : SimulationEvent :=
  traceSettlement probeRng s.
Definition probeExposure (L : R) : ExposureEvent := traceExposure probeRng L.

(** The seed whose runs 0, 1 and 2 each have one purchase. *)
Definition batchSeed : string := "stellar-23036".

(** ** The count of the purchases as claimed *)

(** The count of C2 as the claim has it, with the purchases declined as fraud
    before any latency subtracted from the purchases popped; [skipped] is the
    number of purchases skipped for insufficient funds. *)
Definition claimed_conservation (st : Sim) (log : Log) (skipped : nat) : Prop :=
  (Z.of_nat (length (approvals st)) + Z.of_nat (length (declines st))
   + Z.of_nat (length (timeouts st))
   = Z.of_nat (purchasesPopped log) - Z.of_nat skipped
     - Z.of_nat (purchasesAutoDeclined log))%Z.

(** * Further properties of the program *)

(** ** The queue *)

(** A purchase event at time [t], to state examples with. *)
Definition eventAt (t : R) : SimulationEvent :=
  {| timeSec := t; etype := purchase; userId := 0%nat; txnId := 0%nat;
     amount := 0; relatedAmount := None; ev_settlement := None;
     isFraud := None |}.

(** The events that at most [k] calls of [pop] return, in order, until the
    queue is empty. *)
Fixpoint popAll (k : nat) (q : MinHeap.t) : list SimulationEvent :=
  match k with
  | O => []
  | S k' =>
      match MinHeap.pop q with
      | None => []
      | Some (e, rest) => e :: popAll k' rest
      end
  end.

(** ** Sums of counts *)

Definition total (l : list R) : R := fold_right Rplus 0 l.

(** ** The books of a run *)

(** The lists and counters that the loop keeps in step. *)
Definition ledger_inv (st : Sim) : Prop :=
  length (authTimes st) = length (approvals st) /\
  length (retries st) = length (settlementTimes st) /\
  exposureDurations st
  = List.map (fun e => endSec e - startSec e) (exposureEvents st) /\
  (overspendPrevented st <= insufficientFundsSkipped st)%nat /\
  (preAuthMismatchCount st <= preAuthCount st)%nat /\
  (incrementalAuthSuccessCount st <= incrementalAuthCount st)%nat.

(** The counters of the time series against the lists of decisions. *)
Definition series_inv (st : Sim) : Prop :=
  length (series st) = 121%nat /\
  total (List.map ts_approvals (series st)) = INR (length (approvals st)) /\
  total (List.map ts_declines (series st)) = INR (length (declines st)) /\
  total (List.map ts_timeouts (series st)) = INR (length (timeouts st)).

(** One balance for each user, none of them negative. *)
Definition funds_inv (spec : SimulationSpec) (st : Sim) : Prop :=
  length (balances st) = users (userModel spec) /\
  List.Forall (fun b => 0 <= b) (balances st).

(** The spend recorded for a user in a day or in a time slot is within the
    limit, where the limit is positive. *)
Definition limits_inv (spec : SimulationSpec) (st : Sim) : Prop :=
  forall (u : nat) (k : Z),
    (0 < perUserDailyLimit (spendLimits spec) ->
     getSpend (userDailySpend st) u k <= perUserDailyLimit (spendLimits spec)) /\
    (0 < perUserTimeslotLimit (spendLimits spec) ->
     getSpend (userTimeslotSpend st) u k <= perUserTimeslotLimit (spendLimits spec)).

(** What an iteration of the loop does to the spend maps: nothing, or it
    adds an amount that the limits allowed for the user at that time. *)
Definition spend_step (spec : SimulationSpec) (st st' : Sim) : Prop :=
  (userDailySpend st' = userDailySpend st /\
   userTimeslotSpend st' = userTimeslotSpend st) \/
  exists u a t,
    canApproveWithLimits spec st u a t = true /\
    limits_enabled (spendLimits spec) = true /\
    userDailySpend st' = addSpend (userDailySpend st) u (dayIndex t) a /\
    userTimeslotSpend st'
    = addSpend (userTimeslotSpend st) u (timeslotIndex spec t) a.

(** ** The ranges of the workers of a pool *)

(** The messages ask for consecutive ranges of run indices, from [s] on. *)
Fixpoint contiguous (s : nat) (msgs : list WorkerInput) : Prop :=
  match msgs with
  | [] => True
  | m :: ms => wi_startIndex m = s /\ contiguous (s + wi_runs m) ms
  end.

(** The run indices that a message asks for. *)
Definition runRange (m : WorkerInput) : list nat :=
  seq (wi_startIndex m) (wi_runs m).

(** ** A scenario without users *)

(** The default scenario with no user and [runs] runs: a run has no event
    to process. *)
Definition idleSpec (runs : R) : SimulationSpec := {|
  horizonHours := horizonHours defaultSpec;
  monteCarloRuns := runs;
  seed := seed defaultSpec;
  mode := mode defaultSpec;
  authTimeoutSec := authTimeoutSec defaultSpec;
  issuerProcessing := issuerProcessing defaultSpec;
  networkLatency := networkLatency defaultSpec;
  stellar := stellar defaultSpec;
  outage := outage defaultSpec;
  userModel := {|
    users := 0;
    avgBalance := avgBalance (userModel defaultSpec);
    balanceDistribution := balanceDistribution (userModel defaultSpec);
    purchaseRate := purchaseRate (userModel defaultSpec);
    avgTicket := avgTicket (userModel defaultSpec);
    ticketDistribution := ticketDistribution (userModel defaultSpec);
    burstinessEnabled := burstinessEnabled (userModel defaultSpec);
    burstinessProbability := burstinessProbability (userModel defaultSpec);
    burstinessMultiplier := burstinessMultiplier (userModel defaultSpec)
  |};
  holds := holds defaultSpec;
  preAuth := preAuth defaultSpec;
  fraud := fraud defaultSpec;
  spendLimits := spendLimits defaultSpec;
  settlementSlaSec := settlementSlaSec defaultSpec
|}.

(** ** The settlement of a payment *)

(** The inclusion probability of an attempt, as [simulateSettlement] computes
    it before its loop:
    [Math.min(0.999, Math.max(0, spec.inclusionProbability * (inOutage ?
    outage.inclusionProbabilityMultiplier : 1)))]. *)
Definition inclusionProbOf (spec : StellarSpec) (startTimeSec : R)
    (outage : OutageSpec) : R :=
  Rmin 0.999
    (Rmax 0 (inclusionProbability spec
             * (if inOutage outage startTimeSec
                then inclusionProbabilityMultiplier outage else 1))).

(** ** The fuel of the loops *)

(** [m'] returns what [m] returns, where [m] returns. *)
Definition refines {A} (m m' : Draw A) : Prop :=
  forall n r, m n = Some r -> m' n = Some r.

(** A computation that takes fuel keeps its result when it is given more:
    the fuel bounds the loops and decides nothing else. *)
Definition fuel_mono {A} (f : nat -> Draw A) : Prop :=
  forall fuel fuel', (fuel <= fuel')%nat -> refines (f fuel) (f fuel').

(** ** The time series of an aggregate *)

(** The counter [f] at the point [i] of the series of a run; 0 where the
    series has no such point. *)
Definition pointOf (f : TimeSeriesPoint -> R) (i : nat)
    (run : SimulationRunResult) : R :=
  default 0 (f <$> run_timeSeries run !! i).

(** The sum of the counter [f] at the point [i] over the runs, in the order
    in which [mergeTimeSeries] adds the runs to the copy of the series of the
    first. *)
Definition pointSum (f : TimeSeriesPoint -> R) (i : nat)
    (runs : list SimulationRunResult) : R :=
  match runs with
  | [] => 0
  | first :: rest =>
      fold_left (fun acc run => acc + pointOf f i run) rest (pointOf f i first)
  end.

(** * The code in double precision *)

(** The statements of the program on the doubles themselves, for the places
    where rounding, overflow or underflow decides a property.  The numbers
    are the binary64 numbers of the kernel: their sum, difference, product,
    quotient and comparisons are those of IEEE 754, hence of JavaScript.
    [Math.log], [Math.exp], [Math.cos] and [Math.pow] are left to the
    platform by the language and have no counterpart here: a function of
    this module that would need one of them returns [None]. *)
Module F64.

Local Open Scope float_scope.
#[local] Set Warnings "-inexact-float".

(** [Math.max(a, b)] and [Math.min(a, b)]: a NaN argument gives NaN, and [+0]
    is above [-0]. *)
Definition Math_max (a b : float) : float :=
  if is_nan a || is_nan b then nan
  else if a <? b then b
  else if b <? a then a
  else if get_sign a then b else a.

Definition Math_min (a b : float) : float :=
  if is_nan a || is_nan b then nan
  else if a <? b then a
  else if b <? a then b
  else if get_sign a then a else b.

(** [xs[i]] used as a number: a missing element is [undefined], which
    arithmetic turns into NaN. *)
Definition readNum (xs : list float) (i : nat) : float := default nan (xs !! i).

(** ** The hold totals *)

(** [holdTotals[u] += a], at the placement of a hold. *)
Definition addToHolds (u : nat) (a : float) (holdTotals : list float)
    : list float :=
  <[u := readNum holdTotals u + a]> holdTotals.

(** [holdTotals[u] -= hold.amount], at the expiry of a hold and at the
    settlement that releases it. *)
Definition releaseHold (u : nat) (a : float) (holdTotals : list float)
    : list float :=
  <[u := readNum holdTotals u - a]> holdTotals.

(** Two amounts of purchases. *)
Definition amountA : float := 6.295006047192295.
Definition amountB : float := 3.304578852369393.

(** ** The exposure of a settlement *)



(** ** The statistics *)

(** [values.length] as a number. *)
Definition lengthOf {A} (values : list A) : float :=
  of_uint63 (Uint63.of_Z (Z.of_nat (length values))).

(** [average]: the sum from left to right, starting at 0, over the length. *)
Definition average (values : list float) : float :=
  match values with
  | [] => 0
  | _ => fold_left add values 0 / lengthOf values
  end.

(** [p * (sorted.length - 1)], the number that [percentile] floors. *)
Definition percentilePosition {A} (sorted : list A) (p : float) : float :=
  p * (lengthOf sorted - 1).

(** [scale = mean / shape], the scale that [gammaParamsFromMeanP95] returns
    for the shape it found. *)
Definition gammaScale (mean shape : float) : float := mean / shape.

(** ** The settlement of a payment *)

Record DistributionSpec := {
  mean : float;
  p95 : float
}.

Record StellarSpec := {
  ledgerCloseMean : float;
  ledgerJitter : float;
  submissionDelay : DistributionSpec;
  inclusionProbability : float;
  maxRetries : float;
  backoffBaseMs : float;
  backoffMultiplier : float;
  maxSettleWindowSec : float
}.

Record OutageSpec := {
  outage_enabled : bool;
  startHour : float;
  durationHours : float;
  submissionDelayMultiplier : float;
  inclusionProbabilityMultiplier : float
}.

Record SettlementResult := {
  confirmed : bool;
  sr_timeSec : float;
  sr_retries : float;
  gaveUp : bool
}.

(** An [RNG] closure is the stream of its values. *)
Definition RNG : Type := nat -> float.

(** [Math.pow(base, exponent)] where the language fixes its value: a NaN
    exponent gives NaN and the power 0 is 1. *)
Definition Math_pow (base exponent : float) : option float :=
  if is_nan exponent then Some nan
  else if exponent =? 0 then Some 1
  else None.

(** [sampleLognormal]: 0 for a mean or a 95th percentile that is not
    positive, without a draw. *)
Definition sampleLognormal (rng : RNG) (mean p95 : float) (n : nat)
    : option (float * nat) :=
  if (mean <=? 0) || (p95 <=? 0) then Some (0, n) else None.

Definition sampleLedgerInterval (rng : RNG) (mean jitter : float) (n : nat)
    : float * nat :=
  if jitter <=? 0 then (mean, n)
  else
    let delta := (rng n * 2 - 1) * jitter in
    (Math_max 0.1 (mean + delta), S n).

(** The retry loop of [simulateSettlement]. *)
Fixpoint simulateSettlement_loop (fuel : nat) (rng : RNG) (spec : StellarSpec)
    (inclusionProb timeSec retries : float) (n : nat)
    : option (SettlementResult * nat) :=
  match fuel with
  | O => None
  | S fuel' =>
      let '(interval, n) :=
        sampleLedgerInterval rng (ledgerCloseMean spec) (ledgerJitter spec) n in
      let residual := rng n * interval in
      let timeSec := timeSec + residual in
      let included := rng (S n) <? inclusionProb in
      let n := S (S n) in
      if included then
        Some ({| confirmed := true; sr_timeSec := timeSec;
                 sr_retries := retries; gaveUp := false |}, n)
      else
        let timeSec := timeSec + (interval - residual) in
        if maxRetries spec <=? retries then
          Some ({| confirmed := false; sr_timeSec := timeSec;
                   sr_retries := retries; gaveUp := true |}, n)
        else
          let retries := retries + 1 in
          match Math_pow (backoffMultiplier spec) (retries - 1) with
          | None => None
          | Some power =>
              let backoffMs := backoffBaseMs spec * power in
              let timeSec := timeSec + backoffMs / 1000 in
              if maxSettleWindowSec spec <? timeSec then
                Some ({| confirmed := false; sr_timeSec := timeSec;
                         sr_retries := retries; gaveUp := true |}, n)
              else
                simulateSettlement_loop fuel' rng spec inclusionProb timeSec
                  retries n
          end
  end.

Definition inOutage (outage : OutageSpec) (startTimeSec : float) : bool :=
  let outageStart := startHour outage * 3600 in
  let outageEnd := outageStart + durationHours outage * 3600 in
  outage_enabled outage && (outageStart <=? startTimeSec)
    && (startTimeSec <=? outageEnd).

(** [simulateSettlement] with a submission delay of the lognormal kind. *)
Definition simulateSettlement (fuel : nat) (rng : RNG) (spec : StellarSpec)
    (startTimeSec : float) (outage : OutageSpec) (n : nat)
    : option (SettlementResult * nat) :=
  let inOutage := inOutage outage startTimeSec in
  match sampleLognormal rng (mean (submissionDelay spec))
          (p95 (submissionDelay spec)) n with
  | None => None
  | Some (submissionDelayMs, n) =>
      let submissionDelaySec :=
        (submissionDelayMs / 1000)
        * (if inOutage then submissionDelayMultiplier outage else 1) in
      let inclusionProb :=
        Math_min 0.999
          (Math_max 0 (inclusionProbability spec
                       * (if inOutage then inclusionProbabilityMultiplier outage
                          else 1))) in
      simulateSettlement_loop fuel rng spec inclusionProb submissionDelaySec 0 n
  end.



End F64.

(** * Properties of the sampler *)

(** ** Comparisons *)

Lemma Rle_bool_spec (x y : R) : BoolSpec (x <= y) (y < x) (x <=? y).
Proof.
  unfold Rle_bool. destruct (Rle_dec x y); constructor; lra.
Qed.

Lemma Rlt_bool_spec (x y : R) : BoolSpec (x < y) (y <= x) (x <? y).
Proof.
  unfold Rlt_bool. destruct (Rlt_dec x y); constructor; lra.
Qed.

Lemma Rle_bool_true (x y : R) : x <= y -> (x <=? y) = true.
Proof. intros H. destruct (Rle_bool_spec x y); [reflexivity | lra]. Qed.

Lemma Rle_bool_false (x y : R) : y < x -> (x <=? y) = false.
Proof. intros H. destruct (Rle_bool_spec x y); [lra | reflexivity]. Qed.

Lemma Rlt_bool_true (x y : R) : x < y -> (x <? y) = true.
Proof. intros H. destruct (Rlt_bool_spec x y); [reflexivity | lra]. Qed.

Lemma Rlt_bool_false (x y : R) : y <= x -> (x <? y) = false.
Proof. intros H. destruct (Rlt_bool_spec x y); [lra | reflexivity]. Qed.

(** Case analysis on the first comparison found in the goal. *)
Ltac cmp_case :=
  match goal with
  | |- context [?x <=? ?y] => destruct (Rle_bool_spec x y)
  | |- context [?x <? ?y] => destruct (Rlt_bool_spec x y)
  end.

(** Settle the comparisons of the goal that linear arithmetic decides. *)
Ltac cmp_eval :=
  repeat match goal with
    | |- context [?x <=? ?y] =>
        first [ rewrite (Rle_bool_true x y) by lra
              | rewrite (Rle_bool_false x y) by lra ]
    | |- context [?x <? ?y] =>
        first [ rewrite (Rlt_bool_true x y) by lra
              | rewrite (Rlt_bool_false x y) by lra ]
    end.

(** ** The monad *)

Lemma bind_Some {A B} (m : Draw A) (k : A -> Draw B) n b n'' :
  bind m k n = Some (b, n'') ->
  exists a n', m n = Some (a, n') /\ k a n' = Some (b, n'').
Proof.
  unfold bind. destruct (m n) as [[a n']|]; [|discriminate].
  intros H. exists a, n'. split; [reflexivity | exact H].
Qed.

Lemma bind_eq {A B} (m : Draw A) (k : A -> Draw B) n a n' :
  m n = Some (a, n') -> bind m k n = k a n'.
Proof. unfold bind. intros ->. reflexivity. Qed.

(** Decompose a hypothesis saying that a computation returned. *)
Ltac draw_inv H :=
  repeat match type of H with
    | bind _ _ _ = Some _ =>
        let a := fresh "a" in
        let n := fresh "n" in
        let H1 := fresh "Hd" in
        apply bind_Some in H; destruct H as (a & n & H1 & H)
    | ret _ _ = Some _ => unfold ret in H; injection H as <- <-
    | draw _ _ = Some _ => unfold draw in H
    | diverge _ = Some _ => discriminate H
    end.

(** ** Facts about the exponential *)

Lemma exp_le_inv_1_minus (x : R) : 0 <= x < 1 -> exp x <= / (1 - x).
Proof.
  intros [H0 H1].
  pose proof (exp_ineq1_le (- x)) as Hm.
  pose proof (exp_pos x) as Hp.
  pose proof (exp_pos (- x)) as Hpm.
  assert (Hprod : exp x * exp (- x) = 1).
  { rewrite <- exp_plus. replace (x + - x) with 0 by lra. apply exp_0. }
  apply (Rmult_le_reg_r (1 - x)); [lra|].
  rewrite Rinv_l by lra.
  assert (exp x * (1 - x) <= exp x * exp (- x)) by (apply Rmult_le_compat_l; lra).
  lra.
Qed.

Lemma exp_double (x : R) : exp (2 * x) = exp x * exp x.
Proof. rewrite <- exp_plus. f_equal. lra. Qed.

(** [exp 1.353 < 3.99], by [exp x <= 1/(1-x)] at [x = 1.353/40] and
    repeated squaring. *)
Lemma exp_1353 : exp 1.353 <= 3.99.
Proof.
  set (x := 0.033825).
  assert (H1 : exp x <= 1.0351).
  { pose proof (exp_le_inv_1_minus x ltac:(unfold x; lra)) as H.
    assert (/ (1 - x) <= 1.0351).
    { apply (Rmult_le_reg_r (1 - x)); [unfold x; lra|].
      rewrite Rinv_l by (unfold x; lra). unfold x. lra. }
    lra. }
  pose proof (exp_pos x) as P1.
  assert (H2 : exp (2 * x) <= 1.0715) by (rewrite exp_double; nra).
  pose proof (exp_pos (2 * x)) as P2.
  assert (H4 : exp (2 * (2 * x)) <= 1.1482) by (rewrite exp_double; nra).
  pose proof (exp_pos (2 * (2 * x))) as P4.
  assert (H8 : exp (2 * (2 * (2 * x))) <= 1.3184) by (rewrite exp_double; nra).
  pose proof (exp_pos (2 * (2 * (2 * x)))) as P8.
  assert (H16 : exp (2 * (2 * (2 * (2 * x)))) <= 1.7382) by (rewrite exp_double; nra).
  pose proof (exp_pos (2 * (2 * (2 * (2 * x))))) as P16.
  assert (H32 : exp (2 * (2 * (2 * (2 * (2 * x))))) <= 3.0214) by (rewrite exp_double; nra).
  pose proof (exp_pos (2 * (2 * (2 * (2 * (2 * x)))))) as P32.
  replace 1.353 with (2 * (2 * (2 * (2 * (2 * x)))) + 2 * (2 * (2 * x)))
    by (unfold x; lra).
  rewrite exp_plus. nra.
Qed.

Lemma exp_mono_le (x y : R) : x <= y -> exp x <= exp y.
Proof.
  intros [H | ->]; [left; apply exp_increasing; exact H | right; reflexivity].
Qed.

Lemma ln_le_mono (x y : R) : 0 < x -> x <= y -> ln x <= ln y.
Proof.
  intros Hx [H | ->]; [left; apply ln_increasing; assumption | right; reflexivity].
Qed.

Lemma ln_ratio (x y : R) : 0 < x -> 0 < y -> ln y - ln x = ln (y / x).
Proof.
  intros Hx Hy. unfold Rdiv.
  rewrite ln_mult by (try apply Rinv_0_lt_compat; assumption).
  rewrite ln_Rinv by assumption. lra.
Qed.

(** ** The lognormal fit *)

Lemma within_rel_refl (tol x : R) : 0 <= tol -> within_rel tol x x.
Proof.
  intros Ht. unfold within_rel. replace (x - x) with 0 by lra.
  rewrite Rabs_R0. pose proof (Rabs_pos x). nra.
Qed.

Lemma lognormal_sigma_eq (mean p95 : R) :
  sigma (lognormalParamsFromMeanP95 mean p95)
  = z95 + sqrt (Rmax (lognormal_disc mean p95) 1e-12).
Proof.
  unfold lognormalParamsFromMeanP95, lognormal_disc. simpl.
  replace (- z95 * - z95 - 4 * 0.5 * (ln p95 - ln mean))
    with (z95 * z95 - 2 * (ln p95 - ln mean)) by lra.
  lra.
Qed.

Lemma lognormal_mu_eq (mean p95 : R) :
  mu (lognormalParamsFromMeanP95 mean p95)
  = ln mean - 0.5 * sigma (lognormalParamsFromMeanP95 mean p95)
                  * sigma (lognormalParamsFromMeanP95 mean p95).
Proof. reflexivity. Qed.

(** The fitted mean is exact for every positive mean. *)
Lemma lognormal_mean_exact (mean p95 : R) :
  0 < mean ->
  let p := lognormalParamsFromMeanP95 mean p95 in
  exp (mu p + 0.5 * sigma p * sigma p) = mean.
Proof.
  intros Hm p. subst p. rewrite (lognormal_mu_eq mean p95).
  set (s := sigma _).
  replace (ln mean - 0.5 * s * s + 0.5 * s * s) with (ln mean) by lra.
  apply exp_ln. exact Hm.
Qed.

(** The exponent of the fitted 95th percentile, in terms of the clamped
    discriminant. *)
Lemma lognormal_p95_exponent (mean p95 : R) :
  let p := lognormalParamsFromMeanP95 mean p95 in
  mu p + z95 * sigma p
  = ln mean + 0.5 * z95 * z95 - 0.5 * Rmax (lognormal_disc mean p95) 1e-12.
Proof.
  intros p. subst p. rewrite (lognormal_mu_eq mean p95).
  rewrite lognormal_sigma_eq.
  set (m := Rmax (lognormal_disc mean p95) 1e-12).
  assert (Hm : 0 <= m).
  { unfold m. pose proof (Rmax_r (lognormal_disc mean p95) 1e-12). lra. }
  pose proof (sqrt_sqrt m Hm) as Hs.
  nra.
Qed.

(** When the discriminant is not clamped the fitted percentile is exact. *)
Lemma lognormal_p95_exact (mean p95 : R) :
  0 < mean -> 0 < p95 ->
  1e-12 <= lognormal_disc mean p95 ->
  let p := lognormalParamsFromMeanP95 mean p95 in
  exp (mu p + z95 * sigma p) = p95.
Proof.
  intros Hm Hp Hd p. subst p. rewrite lognormal_p95_exponent.
  rewrite Rmax_left by lra.
  unfold lognormal_disc.
  replace (ln mean + 0.5 * z95 * z95 - 0.5 * (z95 * z95 - 2 * (ln p95 - ln mean)))
    with (ln p95) by lra.
  apply exp_ln. exact Hp.
Qed.

(** C7 (amended): for every [mean > 0] and [p95 > 0] whose discriminant
    [z^2 - 2 (ln p95 - ln mean)] is at least the clamp [1e-12], the pair
    [(mu, sigma)] returned by [lognormalParamsFromMeanP95] gives back the
    mean through [exp (mu + 0.5 sigma^2)] and the 95th percentile through
    [exp (mu + 1.6448536269514722 sigma)], each within 1e-4 relative
    error. *)
Theorem lognormal_fit_roundtrip (mean p95 : R) :
  0 < mean -> 0 < p95 ->
  1e-12 <= lognormal_disc mean p95 ->
  lognormal_roundtrip mean p95.
Proof.
  intros Hm Hp Hd. unfold lognormal_roundtrip. split.
  - rewrite lognormal_mean_exact by exact Hm. apply within_rel_refl. lra.
  - rewrite lognormal_p95_exact by assumption. apply within_rel_refl. lra.
Qed.

Lemma z95_sq_bounds : 2.7055 < z95 * z95 < 2.7056.
Proof. unfold z95. nra. Qed.

Lemma ln_4_lower : 1.353 <= ln 4.
Proof.
  rewrite <- (ln_exp 1.353). apply ln_le_mono; [apply exp_pos|].
  pose proof exp_1353. lra.
Qed.

Lemma ln_2_lower : 0.5 <= ln 2.
Proof.
  assert (H4 : ln 4 = ln 2 + ln 2).
  { rewrite <- ln_mult by lra. f_equal; lra. }
  pose proof ln_4_lower. lra.
Qed.

Lemma lognormal_fit_roundtrip_witness :
  0 < 100 /\ 0 < 200 /\ 1e-12 <= lognormal_disc 100 200 /\
  lognormal_roundtrip 100 200.
Proof.
  assert (Hd : 1e-12 <= lognormal_disc 100 200).
  { unfold lognormal_disc.
    assert (Hl : ln 200 - ln 100 = ln 2).
    { rewrite ln_ratio by lra. f_equal; lra. }
    rewrite Hl.
    assert (ln 2 <= 1).
    { rewrite <- (ln_exp 1). apply ln_le_mono; [lra|].
      pose proof (exp_ineq1_le 1). lra. }
    pose proof z95_sq_bounds. lra. }
  split; [lra|]. split; [lra|]. split; [exact Hd|].
  apply lognormal_fit_roundtrip; [lra | lra | exact Hd].
Defined.

(** C7 as stated fails on the submission delay of the default scenario
    (mean 300, p95 1200): the discriminant is negative, it is clamped to
    [1e-12], and the fitted parameters give back about 1160 instead of
    1200. *)
Lemma lognormal_fit_roundtrip_fails : ~ lognormal_roundtrip 300 1200.
Proof.
  unfold lognormal_roundtrip. intros [_ H].
  rewrite lognormal_p95_exponent in H.
  assert (Hl : ln 1200 - ln 300 = ln 4).
  { rewrite ln_ratio by lra. f_equal; lra. }
  assert (Hd : lognormal_disc 300 1200 <= 1e-12).
  { unfold lognormal_disc. rewrite Hl.
    pose proof ln_4_lower. pose proof z95_sq_bounds. lra. }
  rewrite Rmax_right in H by exact Hd.
  replace (ln 300 + 0.5 * z95 * z95 - 0.5 * 1e-12)
    with (ln 300 + (0.5 * z95 * z95 - 0.5 * 1e-12)) in H by lra.
  rewrite exp_plus, exp_ln in H by lra.
  assert (He : exp (0.5 * z95 * z95 - 0.5 * 1e-12) <= 3.99).
  { apply Rle_trans with (exp 1.353); [|exact exp_1353].
    apply exp_mono_le. pose proof z95_sq_bounds. lra. }
  pose proof (exp_pos (0.5 * z95 * z95 - 0.5 * 1e-12)) as Hp.
  unfold within_rel in H.
  rewrite (Rabs_right 1200) in H by lra.
  rewrite Rabs_left in H by nra.
  nra.
Qed.

(** ** Degenerate parameters *)

Lemma degenerate_test (mean p95 : R) :
  mean <= 0 \/ p95 <= 0 -> (mean <=? 0) || (p95 <=? 0) = true.
Proof.
  intros [H | H].
  - rewrite (Rle_bool_true mean 0 H). reflexivity.
  - rewrite (Rle_bool_true p95 0 H). apply orb_true_r.
Qed.

Lemma regular_test (mean p95 : R) :
  0 < mean -> 0 < p95 -> (mean <=? 0) || (p95 <=? 0) = false.
Proof.
  intros Hm Hp. rewrite (Rle_bool_false mean 0 Hm), (Rle_bool_false p95 0 Hp).
  reflexivity.
Qed.

Lemma sampleLognormal_degenerate (rng : RNG) (mean p95 : R) (n : nat) :
  mean <= 0 \/ p95 <= 0 -> sampleLognormal rng mean p95 n = Some (0, n).
Proof.
  intros H. unfold sampleLognormal. rewrite degenerate_test by exact H.
  reflexivity.
Qed.

Lemma gammaParams_degenerate (mean p95 : R) :
  mean <= 0 \/ p95 <= 0 ->
  gammaParamsFromMeanP95 mean p95 = {| shape := 1; scale := 1 |}.
Proof.
  intros H. unfold gammaParamsFromMeanP95. rewrite degenerate_test by exact H.
  reflexivity.
Qed.

(** Every value accepted by the rejection loop is positive. *)
Lemma sampleGamma_loop_pos (fuel : nat) (rng : RNG) (scale d c : R) :
  0 < scale -> 0 < d ->
  forall n x n', sampleGamma_loop fuel rng scale d c n = Some (x, n') -> 0 < x.
Proof.
  intros Hs Hd. induction fuel as [|fuel IH]; intros n x n' H; [discriminate|].
  simpl in H. apply bind_Some in H. destruct H as (g & n1 & _ & H).
  destruct (Rle_bool_spec (1 + c * g) 0) as [Hv | Hv]; [eapply IH; exact H|].
  assert (Hv3 : 0 < (1 + c * g) * (1 + c * g) * (1 + c * g)).
  { repeat apply Rmult_lt_0_compat; exact Hv. }
  assert (Hres : 0 < scale * d * ((1 + c * g) * (1 + c * g) * (1 + c * g))).
  { repeat apply Rmult_lt_0_compat; assumption. }
  apply bind_Some in H. destruct H as (u & n2 & _ & H).
  destruct (_ <? _).
  - injection H as <- _. exact Hres.
  - destruct (log_lt _ _).
    + injection H as <- _. exact Hres.
    + eapply IH; exact H.
Qed.

Lemma sampleGamma_main_pos (fuel : nat) (rng : RNG) (shape scale : R) :
  0 < scale -> 1 <= shape ->
  forall n x n', sampleGamma_main fuel rng shape scale n = Some (x, n') -> 0 < x.
Proof.
  intros Hs Hsh n x n' H. unfold sampleGamma_main in H.
  eapply sampleGamma_loop_pos; [exact Hs | | exact H]. lra.
Qed.

Lemma Rpower_pos (x y : R) : 0 < Rpower x y.
Proof. unfold Rpower. apply exp_pos. Qed.

(** A gamma sample is never negative, and positive for a positive shape. *)
Lemma sampleGamma_nonneg (fuel : nat) (rng : RNG) (shape scale : R) :
  0 < scale ->
  forall n x n', sampleGamma fuel rng shape scale n = Some (x, n') -> 0 <= x.
Proof.
  intros Hs n x n' H. unfold sampleGamma in H.
  destruct (Rle_bool_spec shape 0) as [H0 | H0].
  - injection H as <- _. lra.
  - destruct (Rlt_bool_spec shape 1) as [H1 | H1].
    + apply bind_Some in H. destruct H as (r & n1 & _ & H).
      apply bind_Some in H. destruct H as (g & n2 & Hg & H).
      injection H as <- _.
      apply sampleGamma_main_pos in Hg; [| exact Hs | lra].
      pose proof (Rpower_pos (Rmax r 1e-12) (1 / shape)). nra.
    + apply sampleGamma_main_pos in H; [lra | exact Hs | exact H1].
Qed.

Lemma normalSample_quarterRng : normalSample quarterRng 0%nat = Some (0, 2%nat).
Proof.
  unfold normalSample, bind, draw, ret, quarterRng.
  rewrite (Rmax_left 0.25) by lra.
  replace (2 * PI * 0.25) with (PI / 2) by lra.
  rewrite cos_PI2, Rmult_0_r. reflexivity.
Qed.

(** What the code does with a mean or a 95th percentile that is not
    positive: the lognormal sampler returns 0, and the gamma sampler falls
    back to shape 1 and scale 1 and draws from that distribution. *)
Lemma sampleDistribution_degenerate_cases
    (fuel : nat) (rng : RNG) (spec : DistributionSpec) (n : nat) :
  mean spec <= 0 \/ p95 spec <= 0 ->
  match dtype spec with
  | lognormal => sampleDistribution fuel rng spec n = Some (0, n)
  | gamma => sampleDistribution fuel rng spec n = sampleGamma fuel rng 1 1 n
  end.
Proof.
  intros H. unfold sampleDistribution. destruct (dtype spec).
  - apply sampleLognormal_degenerate. exact H.
  - rewrite gammaParams_degenerate by exact H. reflexivity.
Qed.

(** C6: the code breaks the claim for the gamma kind.  With mean 0 and p95 0
    [gammaParamsFromMeanP95] answers shape 1 and scale 1, so the guard
    [shape <= 0] of [sampleGamma], which returns 0, is not reached, and the
    sample drawn from the stream 0.5, 0.25, 0.5, ... is 2/3, where the
    lognormal sampler returns 0 for the same parameters. *)
Theorem sampleDistribution_degenerate_gamma_nonzero :
  (mean degenerateGamma <= 0 \/ p95 degenerateGamma <= 0) /\
  sampleDistribution 1 quarterRng degenerateGamma 0%nat = Some (2 / 3, 3%nat) /\
  2 / 3 <> 0 /\
  sampleDistribution 1 quarterRng
    {| dtype := lognormal; mean := 0; p95 := 0 |} 0%nat = Some (0, 0%nat).
Proof.
  split; [left; simpl; lra|].
  assert (Hl : sampleDistribution 1 quarterRng
                 {| dtype := lognormal; mean := 0; p95 := 0 |} 0%nat
               = Some (0, 0%nat)).
  { unfold sampleDistribution. cbn [dtype mean p95].
    apply sampleLognormal_degenerate. left. lra. }
  split; [|split; [lra | exact Hl]].
  unfold sampleDistribution, degenerateGamma. cbn [dtype mean p95].
  rewrite gammaParams_degenerate by (left; lra). cbv zeta. cbn [shape scale].
  unfold sampleGamma.
  rewrite (Rle_bool_false 1 0) by lra.
  rewrite (Rlt_bool_false 1 1) by lra.
  unfold sampleGamma_main. simpl sampleGamma_loop.
  rewrite (bind_eq _ _ _ _ _ normalSample_quarterRng).
  rewrite Rmult_0_r, Rplus_0_r.
  rewrite (Rle_bool_false 1 0) by lra.
  unfold bind, draw, ret, quarterRng.
  rewrite Rlt_bool_true by lra.
  do 2 f_equal. lra.
Qed.

(** * Properties of the settlement simulator *)

Lemma sampleLedgerInterval_returns (rng : RNG) (mean jitter : R) (n : nat) :
  exists i n', sampleLedgerInterval rng mean jitter n = Some (i, n').
Proof.
  unfold sampleLedgerInterval. destruct (jitter <=? 0); eexists _, _; reflexivity.
Qed.

(** The retry loop gives up at the latest when [retries] reaches
    [maxRetries]: entered with [retries <= m] it returns within
    [m + 1 - retries] iterations. *)
Lemma simulateSettlement_loop_returns (rng : RNG) (spec : StellarSpec)
    (prob : R) (m : nat) :
  maxRetries spec = INR m ->
  forall fuel retries timeSec n,
    (retries <= m)%nat -> (m + 1 - retries <= fuel)%nat ->
    exists res n',
      simulateSettlement_loop fuel rng spec prob timeSec retries n = Some (res, n').
Proof.
  intros Hm. induction fuel as [|fuel IH]; intros retries timeSec n Hle Hfuel;
    [lia|].
  simpl.
  destruct (sampleLedgerInterval_returns rng (ledgerCloseMean spec)
              (ledgerJitter spec) n) as (i & n1 & Hi).
  rewrite (bind_eq _ _ _ _ _ Hi).
  unfold bind at 1. unfold draw at 1.
  unfold bind at 1. unfold draw at 1.
  destruct (_ <? prob); [eexists _, _; reflexivity|].
  destruct (Rle_bool_spec (maxRetries spec) (INR retries)) as [Hr | Hr];
    [eexists _, _; reflexivity|].
  destruct (maxSettleWindowSec spec <? _); [eexists _, _; reflexivity|].
  apply IH.
  - rewrite Hm in Hr. apply INR_lt in Hr. lia.
  - rewrite Hm in Hr. apply INR_lt in Hr. lia.
Qed.

Lemma sampleLognormal_returns (rng : RNG) (mean p95 : R) (n : nat) :
  exists x n', sampleLognormal rng mean p95 n = Some (x, n').
Proof.
  unfold sampleLognormal. destruct ((mean <=? 0) || (p95 <=? 0));
    eexists _, _; reflexivity.
Qed.

Lemma sample_returns_lognormal (fuel : nat) (rng : RNG) (spec : DistributionSpec)
    (n : nat) :
  dtype spec = lognormal -> sample_returns fuel rng spec n.
Proof.
  intros H. unfold sample_returns, sampleDistribution. rewrite H.
  apply sampleLognormal_returns.
Qed.


(** The loop keeps [retries] below the maximum and returns results whose
    flags are opposite. *)
Lemma simulateSettlement_loop_shape (rng : RNG) (spec : StellarSpec) (prob : R) :
  forall fuel timeSec retries n res n',
    simulateSettlement_loop fuel rng spec prob timeSec retries n = Some (res, n') ->
    confirmed res = negb (gaveUp res) /\
    forall m, maxRetries spec = INR m -> (retries <= m)%nat ->
              (sr_retries res <= m)%nat.
Proof.
  induction fuel as [|fuel IH]; intros timeSec retries n res n' H; [discriminate|].
  simpl in H.
  apply bind_Some in H. destruct H as (i & n1 & _ & H).
  apply bind_Some in H. destruct H as (r & n2 & _ & H).
  apply bind_Some in H. destruct H as (r' & n3 & _ & H).
  destruct (r' <? prob).
  { injection H as <- _. simpl. split; [reflexivity | intros; assumption]. }
  destruct (Rle_bool_spec (maxRetries spec) (INR retries)) as [Hr | Hr].
  { injection H as <- _. simpl. split; [reflexivity | intros; assumption]. }
  assert (Hlt : forall m, maxRetries spec = INR m -> (S retries <= m)%nat).
  { intros m Hm. rewrite Hm in Hr. apply INR_lt in Hr. lia. }
  destruct (maxSettleWindowSec spec <? _).
  { injection H as <- _. simpl. split; [reflexivity|]. intros m Hm _. auto. }
  apply IH in H. destruct H as [Hc Hb]. split; [exact Hc|].
  intros m Hm _. apply (Hb m Hm). auto.
Qed.

(** C10: every SettlementResult returned by [simulateSettlement] is
    confirmed exactly when it did not give up, and when [maxRetries] is a
    non-negative integer its [retries] is between 0 and [maxRetries]. *)
Theorem simulateSettlement_result_shape (fuel : nat) (rng : RNG)
    (spec : StellarSpec) (startTimeSec : R) (outage : OutageSpec)
    (n : nat) (res : SettlementResult) (n' : nat) :
  simulateSettlement fuel rng spec startTimeSec outage n = Some (res, n') ->
  confirmed res = negb (gaveUp res) /\
  forall m, maxRetries spec = INR m -> (0 <= sr_retries res <= m)%nat.
Proof.
  intros H. unfold simulateSettlement in H.
  apply bind_Some in H. destruct H as (d & n1 & _ & H).
  apply simulateSettlement_loop_shape in H. destruct H as [Hc Hb].
  split; [exact Hc|]. intros m Hm. split; [lia|]. apply (Hb m Hm). lia.
Qed.


Lemma simulateSettlement_default_returns :
  exists res n',
    simulateSettlement 4 halfRng (stellar defaultSpec) 0 (outage defaultSpec) 0%nat
    = Some (res, n').
Proof.
  assert (Hm : maxRetries (stellar defaultSpec) = INR 3) by (simpl; lra).
  destruct (sample_returns_lognormal 4 halfRng
              (submissionDelay (stellar defaultSpec)) 0%nat eq_refl)
    as (d & n1 & Hd).
  unfold simulateSettlement. rewrite (bind_eq _ _ _ _ _ Hd).
  apply (simulateSettlement_loop_returns halfRng (stellar defaultSpec) _ 3 Hm); lia.
Qed.

Lemma simulateSettlement_result_shape_witness :
  exists res n',
    simulateSettlement 4 halfRng (stellar defaultSpec) 0 (outage defaultSpec) 0%nat
    = Some (res, n') /\
    confirmed res = negb (gaveUp res) /\
    forall m, maxRetries (stellar defaultSpec) = INR m ->
              (0 <= sr_retries res <= m)%nat.
Proof.
  destruct simulateSettlement_default_returns as (res & n' & H).
  exists res, n'. split; [exact H|].
  exact (simulateSettlement_result_shape 4 halfRng (stellar defaultSpec) 0
           (outage defaultSpec) 0%nat res n' H).
Defined.

(** *** A run that never returns *)






(** * Properties of [percentile] *)

Lemma floor_bounds (x : R) : IZR (floor x) <= x < IZR (floor x) + 1.
Proof. unfold floor. pose proof (base_Int_part x). lra. Qed.

Lemma floor_unique (x : R) (z : Z) : IZR z <= x < IZR z + 1 -> floor x = z.
Proof.
  intros H. unfold floor. symmetry. apply Int_part_spec. lra.
Qed.

Lemma floor_nonneg (x : R) : 0 <= x -> (0 <= floor x)%Z.
Proof.
  intros H. pose proof (floor_bounds x) as [_ Hb].
  apply Z.lt_succ_r. apply lt_IZR. rewrite succ_IZR. lra.
Qed.

Lemma floor_le_of_le (x : R) (z : Z) : x <= IZR z -> (floor x <= z)%Z.
Proof.
  intros H. pose proof (floor_bounds x) as [Hb _].
  apply le_IZR. lra.
Qed.

Lemma insert_sorted_perm (x : R) (l : list R) :
  Permutation (insert_sorted x l) (x :: l).
Proof.
  induction l as [|y l IH]; simpl; [reflexivity|].
  destruct (x <=? y); [reflexivity|].
  rewrite IH. apply perm_swap.
Qed.

Lemma sort_numbers_perm (l : list R) : Permutation (sort_numbers l) l.
Proof.
  induction l as [|x l IH]; simpl; [reflexivity|].
  rewrite insert_sorted_perm. constructor. exact IH.
Qed.

Lemma insert_sorted_hdrel (a x : R) (l : list R) :
  a <= x -> HdRel Rle a l -> HdRel Rle a (insert_sorted x l).
Proof.
  intros Hax Hl. destruct l as [|y l]; simpl; [constructor; exact Hax|].
  destruct (x <=? y); constructor; [exact Hax|].
  inversion Hl; assumption.
Qed.

Lemma insert_sorted_sorted (x : R) (l : list R) :
  Sorted Rle l -> Sorted Rle (insert_sorted x l).
Proof.
  induction l as [|y l IH]; intros Hs; simpl.
  - repeat constructor.
  - destruct (Rle_bool_spec x y) as [Hxy | Hxy].
    + constructor; [exact Hs | constructor; exact Hxy].
    + inversion Hs as [|? ? Hs' Hhd]; subst. constructor; [apply IH; exact Hs'|].
      apply insert_sorted_hdrel; [lra | exact Hhd].
Qed.

Lemma sort_numbers_sorted (l : list R) : Sorted Rle (sort_numbers l).
Proof.
  induction l as [|x l IH]; simpl; [constructor|].
  apply insert_sorted_sorted. exact IH.
Qed.

Lemma sort_numbers_length (l : list R) : length (sort_numbers l) = length l.
Proof. apply Permutation_length, sort_numbers_perm. Qed.

Lemma floor_mono (x y : R) : x <= y -> (floor x <= floor y)%Z.
Proof.
  intros H. pose proof (floor_bounds x) as [Hx _].
  pose proof (floor_bounds y) as [_ Hy].
  apply Z.lt_succ_r. apply lt_IZR. rewrite succ_IZR. lra.
Qed.

Lemma floor_IZR (z : Z) : floor (IZR z) = z.
Proof. apply floor_unique. lra. Qed.

(** For [p] between 0 and 1 the two clamps of the index do nothing, whatever
    the rounding of the product. *)
Lemma percentile_index_unclamped (fl : R -> R) (n : nat) (p : R) :
  rounding fl -> (0 < n)%nat -> (Z.of_nat n <= 4294967295)%Z -> 0 <= p <= 1 ->
  percentile_index_with fl n p = Z.to_nat (floor (fl (p * (INR n - 1)))) /\
  (percentile_index_with fl n p < n)%nat.
Proof.
  intros [Hmono Hint] Hn Hmax [Hp0 Hp1]. unfold percentile_index_with.
  assert (Hn1 : 0 <= INR n - 1).
  { assert (1 <= INR n) by (change 1 with (INR 1); apply le_INR; lia). lra. }
  assert (Hlast : INR n - 1 = IZR (Z.of_nat n - 1))
    by (rewrite minus_IZR, <- INR_IZR_INZ; reflexivity).
  assert (H0 : (0 <= floor (fl (p * (INR n - 1))%R))%Z).
  { apply floor_nonneg. rewrite <- (Hint 0%Z) by lia. apply Hmono. nra. }
  assert (H1 : (floor (fl (p * (INR n - 1))%R) <= Z.of_nat n - 1)%Z).
  { apply floor_le_of_le. rewrite <- (Hint (Z.of_nat n - 1)%Z) by lia.
    apply Hmono. rewrite <- Hlast. nra. }
  rewrite Z.max_r by exact H0. rewrite Z.min_r by exact H1.
  split; [reflexivity | lia].
Qed.

(** C8 (amended): for every non-empty list of values (an array, of fewer
    than 2^32 elements) and every [p] between 0 and 1, [percentile values p]
    is the element at the 0-based index [floor (p * (n - 1))] of the ascending
    arrangement of the values ([n] the length of the list), where the product
    is the rounded one of the doubles; this index lies within the list.  It
    holds for every rounding [fl] that keeps the order and the integers. *)
Theorem percentile_floor_rank (fl : R -> R) (values : list R) (p : R) :
  rounding fl -> values <> [] ->
  (Z.of_nat (length values) <= 4294967295)%Z -> 0 <= p <= 1 ->
  exists sorted : list R,
    Permutation sorted values /\ Sorted Rle sorted /\
    (Z.to_nat (floor (fl (p * (INR (length values) - 1))%R)) < length sorted)%nat /\
    percentile_with fl values p
    = nth (Z.to_nat (floor (fl (p * (INR (length values) - 1))))) sorted 0.
Proof.
  intros Hfl Hne Hmax Hp. exists (sort_numbers values).
  assert (Hlen : (0 < length values)%nat) by (destruct values; [congruence | simpl; lia]).
  destruct (percentile_index_unclamped fl (length values) p Hfl Hlen Hmax Hp)
    as [Hi Hb].
  split; [apply sort_numbers_perm|]. split; [apply sort_numbers_sorted|].
  rewrite sort_numbers_length. split; [rewrite <- Hi; exact Hb|].
  unfold percentile_with. destruct values as [|v values]; [congruence|].
  cbv zeta. rewrite sort_numbers_length. rewrite Hi. reflexivity.
Qed.

Lemma pow2_IZR (k : nat) : 2 ^ k = IZR (2 ^ Z.of_nat k).
Proof. rewrite <- pow_IZR. reflexivity. Qed.

Lemma pow2_pos (k : nat) : 0 < 2 ^ k.
Proof. apply pow_lt. lra. Qed.

(** The rounding to a grid keeps the order and the integers. *)
Lemma roundTo_rounding (k : nat) : rounding (roundTo k).
Proof.
  pose proof (pow2_pos k) as Hk. split.
  - intros x y Hxy. unfold roundTo.
    apply Rmult_le_compat_r; [left; apply Rinv_0_lt_compat; exact Hk|].
    apply IZR_le, floor_mono. nra.
  - intros z _. unfold roundTo.
    rewrite (floor_unique (IZR z * 2 ^ k + 1 / 2) (z * 2 ^ Z.of_nat k)%Z).
    + rewrite mult_IZR, <- pow2_IZR. field. lra.
    + rewrite mult_IZR, <- pow2_IZR. lra.
Qed.

Lemma sort_numbers_0_5 : sort_numbers [0; 1; 2; 3; 4; 5] = [0; 1; 2; 3; 4; 5].
Proof.
  unfold sort_numbers. cbn [fold_right insert_sorted].
  repeat (rewrite Rle_bool_true by lra; cbn [insert_sorted]). reflexivity.
Qed.

(** Six values and the double nearest to 0.6: the exact product with 5 is
    just below 3, and its rounding is 3. *)
Lemma double_0_6_product :
  floor (double_0_6 * (INR 6 - 1)) = 2%Z /\
  floor (roundTo 51 (double_0_6 * (INR 6 - 1))) = 3%Z.
Proof.
  assert (H6 : INR 6 - 1 = 5) by (simpl; lra).
  assert (H51 : 2 ^ 51 = 2251799813685248) by (rewrite pow2_IZR; reflexivity).
  rewrite H6. unfold double_0_6. split.
  - apply floor_unique. lra.
  - unfold roundTo. rewrite H51.
    rewrite (floor_unique (_ * _ + _) 6755399441055744); [|lra].
    replace (6755399441055744 / 2251799813685248) with (IZR 3) by lra.
    apply floor_IZR.
Qed.

Lemma percentile_floor_rank_witness :
  rounding (roundTo 51) /\
  percentile_with (roundTo 51) [0; 1; 2; 3; 4; 5] double_0_6 = 3 /\
  percentile [0; 1; 2; 3; 4; 5] double_0_6 = 2 /\
  exists sorted : list R,
    Permutation sorted [0; 1; 2; 3; 4; 5] /\ Sorted Rle sorted /\
    (Z.to_nat (floor (roundTo 51
                        (double_0_6 * (INR (length [0; 1; 2; 3; 4; 5]) - 1))%R))
     < length sorted)%nat /\
    percentile_with (roundTo 51) [0; 1; 2; 3; 4; 5] double_0_6
    = nth (Z.to_nat
             (floor (roundTo 51
                       (double_0_6 * (INR (length [0; 1; 2; 3; 4; 5]) - 1)))))
          sorted 0.
Proof.
  destruct double_0_6_product as [Hexact Hrounded].
  split; [apply roundTo_rounding|]. split; [|split].
  - unfold percentile_with. cbv zeta. rewrite sort_numbers_0_5.
    unfold percentile_index_with. cbn [length]. rewrite Hrounded. reflexivity.
  - unfold percentile, percentile_with. cbv zeta. rewrite sort_numbers_0_5.
    unfold percentile_index_with. cbn [length]. rewrite Hexact. reflexivity.
  - apply (percentile_floor_rank (roundTo 51) [0; 1; 2; 3; 4; 5] double_0_6
             (roundTo_rounding 51)).
    + discriminate.
    + cbn. lia.
    + unfold double_0_6. lra.
Defined.

Lemma sort_numbers_1_2 : sort_numbers [1; 2] = [1; 2].
Proof.
  unfold sort_numbers. simpl. rewrite (Rle_bool_true 1 2) by lra. reflexivity.
Qed.

(** C8 as stated fails: for the values 1, 2 and [p = 0.75] the nearest
    rank is [ceil 1.5 = 2], whose element is 2, but [percentile] takes the
    index [floor 0.75 = 0] and returns 1. *)
Lemma percentile_not_nearest_rank :
  percentile [1; 2] 0.75 = 1 /\ nearest_rank [1; 2] 0.75 = 2.
Proof.
  split.
  - unfold percentile, percentile_with. cbv zeta. rewrite sort_numbers_1_2.
    unfold percentile_index_with. simpl length. simpl INR.
    rewrite (floor_unique (0.75 * (1 + 1 - 1)) 0) by (simpl; lra).
    reflexivity.
  - unfold nearest_rank. rewrite sort_numbers_1_2. cbv zeta.
    unfold ceil. simpl length. simpl INR.
    rewrite (floor_unique (- (0.75 * (1 + 1))) (-2)) by (simpl; lra).
    reflexivity.
Qed.

(** * Signs of the sampled quantities *)

(** ** Samples are never negative *)

(** The bisection that fits the gamma shape stays between its bounds. *)
Lemma gammaParams_loop_bounds (k : nat) (mean p95 : R) :
  forall low high lo hi,
    0 < low <= high ->
    gammaParams_loop k mean p95 low high = (lo, hi) ->
    0 < lo <= hi.
Proof.
  induction k as [|k IH]; intros low high lo hi Hb H; simpl in H.
  - injection H as <- <-. exact Hb.
  - destruct (XR_lt _ p95); apply IH in H; try exact H; lra.
Qed.

Lemma gammaParams_positive (mean p95 : R) :
  0 < shape (gammaParamsFromMeanP95 mean p95) /\
  0 < scale (gammaParamsFromMeanP95 mean p95).
Proof.
  unfold gammaParamsFromMeanP95.
  destruct (Rle_bool_spec mean 0) as [Hm | Hm]; [simpl; lra|].
  destruct (Rle_bool_spec p95 0) as [Hp | Hp]; [simpl; lra|].
  cbn [orb].
  destruct (gammaParams_loop 60 mean p95 0.2 20) as [lo hi] eqn:Hl.
  apply gammaParams_loop_bounds in Hl; [|lra].
  simpl. split; [lra|]. apply Rdiv_lt_0_compat; lra.
Qed.

Lemma sampleLognormal_nonneg (rng : RNG) (mean p95 : R) (n : nat) (x : R) (n' : nat) :
  sampleLognormal rng mean p95 n = Some (x, n') -> 0 <= x.
Proof.
  unfold sampleLognormal. destruct (_ || _).
  - intros H. injection H as <- _. lra.
  - intros H. apply bind_Some in H. destruct H as (g & n1 & _ & H).
    injection H as <- _. left. apply exp_pos.
Qed.

Lemma sampleDistribution_nonneg (fuel : nat) (rng : RNG) (spec : DistributionSpec)
    (n : nat) (x : R) (n' : nat) :
  sampleDistribution fuel rng spec n = Some (x, n') -> 0 <= x.
Proof.
  unfold sampleDistribution. destruct (dtype spec).
  - apply sampleLognormal_nonneg.
  - apply sampleGamma_nonneg. apply gammaParams_positive.
Qed.

(** ** The time of a settlement is never negative *)

Lemma sampleLedgerInterval_nonneg (rng : RNG) (mean jitter : R) (n : nat)
    (i : R) (n' : nat) :
  0 < jitter \/ 0 <= mean ->
  sampleLedgerInterval rng mean jitter n = Some (i, n') -> 0 <= i.
Proof.
  intros Hs. unfold sampleLedgerInterval.
  destruct (Rle_bool_spec jitter 0) as [Hj | Hj].
  - intros H. injection H as <- _. lra.
  - intros H. unfold bind, draw, ret in H. injection H as <- _.
    pose proof (Rmax_l 0.1 (mean + (rng n * 2 - 1) * jitter)). lra.
Qed.

Lemma simulateSettlement_loop_nonneg (rng : RNG) (spec : StellarSpec)
    (outage : OutageSpec) (prob : R) :
  unit_range rng -> settlement_timing_nonneg spec outage ->
  forall fuel timeSec retries n res n',
    0 <= timeSec ->
    simulateSettlement_loop fuel rng spec prob timeSec retries n = Some (res, n') ->
    0 <= sr_timeSec res.
Proof.
  intros Hr (Hint & Hbase & Hmult & _).
  induction fuel as [|fuel IH]; intros timeSec retries n res n' Ht H;
    [discriminate|].
  simpl in H.
  apply bind_Some in H. destruct H as (i & n1 & Hi & H).
  apply sampleLedgerInterval_nonneg in Hi; [|exact Hint].
  unfold bind at 1 in H. unfold draw at 1 in H.
  unfold bind at 1 in H. unfold draw at 1 in H.
  pose proof (Hr n1) as Hr1.
  assert (Hres : 0 <= rng n1 * i <= i).
  { destruct Hr1 as [Hr0 Hr1]. split; [apply Rmult_le_pos; assumption|].
    rewrite <- (Rmult_1_l i) at 2. apply Rmult_le_compat_r; [exact Hi|].
    clear - Hr1. lra. }
  destruct (_ <? prob).
  { injection H as <- _. simpl. lra. }
  destruct (_ <=? INR retries).
  { injection H as <- _. simpl. lra. }
  assert (Hback : 0 <= backoffBaseMs spec * backoffMultiplier spec ^ (retries - 0) / 1000).
  { pose proof (pow_le (backoffMultiplier spec) (retries - 0) Hmult).
    apply Rmult_le_pos; [nra | lra]. }
  destruct (maxSettleWindowSec spec <? _).
  { injection H as <- _. simpl. lra. }
  apply IH in H; [exact H | lra].
Qed.

Lemma simulateSettlement_nonneg (fuel : nat) (rng : RNG) (spec : StellarSpec)
    (startTimeSec : R) (outage : OutageSpec) (n : nat)
    (res : SettlementResult) (n' : nat) :
  unit_range rng -> settlement_timing_nonneg spec outage ->
  simulateSettlement fuel rng spec startTimeSec outage n = Some (res, n') ->
  0 <= sr_timeSec res.
Proof.
  intros Hr Hs H. unfold simulateSettlement in H.
  apply bind_Some in H. destruct H as (d & n1 & Hd & H).
  apply sampleDistribution_nonneg in Hd.
  apply (simulateSettlement_loop_nonneg rng spec outage _ Hr Hs) in H; [exact H|].
  destruct Hs as (_ & _ & _ & Hout).
  unfold inOutage. destruct (outage_enabled outage) eqn:He; cbn [andb].
  - specialize (Hout eq_refl).
    destruct (_ && _); [apply Rmult_le_pos; lra | lra].
  - lra.
Qed.

(** ** The generator returns numbers of [0, 1) *)

Lemma u32_range (z : Z) : (0 <= Rng.u32 z < 4294967296)%Z.
Proof. unfold Rng.u32. apply Z.mod_pos_bound. lia. Qed.

Lemma lxor_u32 (a b : Z) :
  (0 <= a < 4294967296)%Z -> (0 <= b < 4294967296)%Z ->
  (0 <= Z.lxor a b < 4294967296)%Z.
Proof.
  intros Ha Hb.
  assert (H : Z.lxor a b = ((Z.lxor a b) mod 4294967296)%Z).
  { change 4294967296%Z with (2 ^ 32)%Z.
    rewrite <- Z.land_ones by lia.
    assert (Hd : Z.land (Z.lxor a b) (Z.ones 32)
                 = Z.lxor (Z.land a (Z.ones 32)) (Z.land b (Z.ones 32))).
    { apply Z.bits_inj'. intros k _.
      rewrite Z.land_spec, !Z.lxor_spec, !Z.land_spec.
      destruct (Z.testbit a k), (Z.testbit b k), (Z.testbit (Z.ones 32) k);
        reflexivity. }
    rewrite Hd.
    rewrite !Z.land_ones by lia.
    rewrite !Z.mod_small by (change (2 ^ 32)%Z with 4294967296%Z; lia).
    reflexivity. }
  rewrite H. apply Z.mod_pos_bound. lia.
Qed.

Lemma shiftr_u32 (a n : Z) :
  (0 <= n)%Z -> (0 <= a < 4294967296)%Z -> (0 <= Z.shiftr a n < 4294967296)%Z.
Proof.
  intros Hn Ha. rewrite Z.shiftr_div_pow2 by exact Hn.
  assert (0 < 2 ^ n)%Z by (apply Z.pow_pos_nonneg; lia).
  split; [apply Z.div_pos; lia|].
  apply Z.le_lt_trans with a; [|lia].
  apply Z.div_le_upper_bound; [lia|]. nia.
Qed.

Lemma mulberry32_out_range (t : Z) : (0 <= Rng.mulberry32_out t < 4294967296)%Z.
Proof.
  unfold Rng.mulberry32_out. cbv zeta.
  set (r0 := Rng.imul _ _).
  assert (H0 : (0 <= r0 < 4294967296)%Z) by apply u32_range.
  set (r1 := Z.lxor r0 _).
  assert (H1 : (0 <= r1 < 4294967296)%Z) by (apply lxor_u32; [exact H0 | apply u32_range]).
  apply lxor_u32; [exact H1|]. apply shiftr_u32; [lia | exact H1].
Qed.

Lemma mulberry32_unit_range (seed : Z) : unit_range (mulberry32 seed).
Proof.
  intros n. unfold mulberry32.
  pose proof (mulberry32_out_range (Rng.mulberry32_counter seed n)) as [Hlo Hhi].
  apply IZR_le in Hlo. apply IZR_lt in Hhi.
  split.
  - apply Rmult_le_pos; [exact Hlo|]. left. apply Rinv_0_lt_compat. lra.
  - apply (Rmult_lt_reg_r 4294967296); [lra|].
    unfold Rdiv. rewrite Rmult_assoc, Rinv_l by lra. lra.
Qed.

Lemma createRng_unit_range (seed : string) : unit_range (createRng seed).
Proof. unfold createRng. apply mulberry32_unit_range. Qed.

(** * The fuel decides nothing *)

(** The results of the program do not depend on the fuel given to its
    loops: a computation that returns with some fuel returns the same with
    more.  Two executions that both return, return the same. *)

Lemma refines_refl {A} (m : Draw A) : refines m m.
Proof. intros n r H. exact H. Qed.

Lemma refines_bind {A B} (m m' : Draw A) (k k' : A -> Draw B) :
  refines m m' -> (forall a, refines (k a) (k' a)) ->
  refines (bind m k) (bind m' k').
Proof.
  intros Hm Hk n r H. unfold bind in *.
  destruct (m n) as [[a n1]|] eqn:E; [|discriminate].
  rewrite (Hm n (a, n1) E). exact (Hk a n1 r H).
Qed.

Create HintDb fuel discriminated.

(** The steps that take the two computations apart, side by side. *)
Ltac refines_step :=
  first
    [ apply refines_refl
    | solve [auto with fuel]
    | apply refines_bind; [|intros ?]
    | match goal with
      | |- refines (if ?b then _ else _) (if ?b then _ else _) => destruct b
      | |- refines (match ?x with _ => _ end) (match ?x with _ => _ end) =>
          destruct x
      end ].

Ltac refines_auto := cbv zeta; repeat refines_step.

(** ** The samplers *)

Lemma sampleGamma_loop_mono (rng : RNG) (scale d c : R) :
  fuel_mono (fun fuel => sampleGamma_loop fuel rng scale d c).
Proof.
  intros fuel. induction fuel as [|fuel IH]; intros fuel' Hle;
    [intros n r H; discriminate|].
  destruct fuel' as [|fuel']; [lia|].
  assert (Hrec : refines (sampleGamma_loop fuel rng scale d c)
                         (sampleGamma_loop fuel' rng scale d c))
    by (apply IH; lia).
  cbn [sampleGamma_loop]. refines_auto; exact Hrec.
Qed.

Lemma sampleGamma_main_mono (rng : RNG) (shape scale : R) :
  fuel_mono (fun fuel => sampleGamma_main fuel rng shape scale).
Proof.
  intros fuel fuel' Hle. unfold sampleGamma_main. cbv zeta.
  apply sampleGamma_loop_mono. exact Hle.
Qed.

Lemma sampleGamma_mono (rng : RNG) (shape scale : R) :
  fuel_mono (fun fuel => sampleGamma fuel rng shape scale).
Proof.
  intros fuel fuel' Hle.
  pose proof (fun sh => sampleGamma_main_mono rng sh scale fuel fuel' Hle) as Hmain.
  unfold sampleGamma. refines_auto; apply Hmain.
Qed.

Lemma sampleDistribution_mono (rng : RNG) (spec : DistributionSpec) :
  fuel_mono (fun fuel => sampleDistribution fuel rng spec).
Proof.
  intros fuel fuel' Hle. unfold sampleDistribution.
  destruct (dtype spec); [apply refines_refl|].
  apply sampleGamma_mono. exact Hle.
Qed.

Lemma sampleDistribution_refines (rng : RNG) (spec : DistributionSpec)
    (fuel fuel' : nat) :
  (fuel <= fuel')%nat ->
  refines (sampleDistribution fuel rng spec) (sampleDistribution fuel' rng spec).
Proof. apply sampleDistribution_mono. Qed.

#[local] Hint Resolve sampleDistribution_refines : fuel.

(** ** The settlement *)

Lemma simulateSettlement_loop_mono (rng : RNG) (spec : StellarSpec)
    (prob : R) :
  forall fuel fuel', (fuel <= fuel')%nat ->
    forall timeSec retries,
      refines (simulateSettlement_loop fuel rng spec prob timeSec retries)
              (simulateSettlement_loop fuel' rng spec prob timeSec retries).
Proof.
  induction fuel as [|fuel IH]; intros fuel' Hle timeSec retries;
    [intros n r H; discriminate|].
  destruct fuel' as [|fuel']; [lia|].
  assert (Hrec : forall t k,
            refines (simulateSettlement_loop fuel rng spec prob t k)
                    (simulateSettlement_loop fuel' rng spec prob t k))
    by (intros t k; apply IH; lia).
  cbn [simulateSettlement_loop]. refines_auto; apply Hrec.
Qed.

Lemma simulateSettlement_refines (rng : RNG) (spec : StellarSpec)
    (startTimeSec : R) (outage : OutageSpec) (fuel fuel' : nat) :
  (fuel <= fuel')%nat ->
  refines (simulateSettlement fuel rng spec startTimeSec outage)
          (simulateSettlement fuel' rng spec startTimeSec outage).
Proof.
  intros Hle. unfold simulateSettlement. refines_auto.
  apply simulateSettlement_loop_mono. exact Hle.
Qed.

#[local] Hint Resolve simulateSettlement_refines : fuel.

Lemma sampleNetworkLegs_refines (rng : RNG) (spec : NetworkLatencySpec)
    (fuel fuel' : nat) :
  (fuel <= fuel')%nat ->
  refines (sampleNetworkLegs fuel rng spec) (sampleNetworkLegs fuel' rng spec).
Proof. intros Hle. unfold sampleNetworkLegs. refines_auto. Qed.

#[local] Hint Resolve sampleNetworkLegs_refines : fuel.

(** ** The handlers and the event loop *)

Lemma handleEvent_refines (spec : SimulationSpec) (rng : RNG) (binSize : R)
    (event : SimulationEvent) (st : Sim) (fuel fuel' : nat) :
  (fuel <= fuel')%nat ->
  refines (handleEvent fuel spec rng binSize event st)
          (handleEvent fuel' spec rng binSize event st).
Proof.
  intros Hle.
  unfold handleEvent, handlePurchase, purchaseOffchain, handleCompletion.
  refines_auto.
Qed.

#[local] Hint Resolve handleEvent_refines : fuel.

Lemma runEvents_refines (spec : SimulationSpec) (rng : RNG) (binSize : R)
    (fuel fuel' : nat) :
  (fuel <= fuel')%nat ->
  forall k st log,
    refines (runEvents k fuel spec rng binSize st log)
            (runEvents k fuel' spec rng binSize st log).
Proof.
  intros Hle. induction k as [|k IH]; intros st log; cbn [runEvents];
    [apply refines_refl|].
  refines_auto.
Qed.

(** Once the queue is empty, more iterations of the event loop do nothing. *)
Lemma runEvents_more (fuel : nat) (spec : SimulationSpec) (rng : RNG)
    (binSize : R) :
  forall k k' st log n st' log' n',
    (k <= k')%nat ->
    runEvents k fuel spec rng binSize st log n = Some ((st', log'), n') ->
    events st' = [] ->
    runEvents k' fuel spec rng binSize st log n = Some ((st', log'), n').
Proof.
  induction k as [|k IH]; intros k' st log n st' log' n' Hle H Hq.
  - cbn [runEvents] in H. unfold ret in H. injection H as <- <- <-.
    destruct k' as [|k']; cbn [runEvents]; [reflexivity|].
    rewrite Hq. reflexivity.
  - destruct k' as [|k']; [lia|]. cbn [runEvents] in *.
    destruct (MinHeap.pop (events st)) as [[event rest]|]; [|exact H].
    unfold bind in *.
    destruct (handleEvent fuel spec rng binSize event
                (upd_events (fun _ => rest) st) n) as [[r n1]|]; [|discriminate].
    apply (IH k' _ _ _ _ _ _ ltac:(lia) H Hq).
Qed.

(** ** The bootstrap *)

Lemma purchaseTimeline_refines (spec : SimulationSpec) (rng : RNG)
    (horizonSec : R) (u : nat) (fuelS fuelS' : nat) :
  (fuelS <= fuelS')%nat ->
  forall fuel fuel', (fuel <= fuel')%nat ->
    forall t events txn,
      refines (purchaseTimeline fuel fuelS spec rng horizonSec u t events txn)
              (purchaseTimeline fuel' fuelS' spec rng horizonSec u t events txn).
Proof.
  intros HS. induction fuel as [|fuel IH]; intros fuel' Hle t events txn;
    [intros n r H; discriminate|].
  destruct fuel' as [|fuel']; [lia|].
  assert (Hrec : forall t e x,
            refines (purchaseTimeline fuel fuelS spec rng horizonSec u t e x)
                    (purchaseTimeline fuel' fuelS' spec rng horizonSec u t e x))
    by (intros; apply IH; lia).
  cbn [purchaseTimeline]. refines_auto; apply Hrec.
Qed.

Lemma bootstrap_refines (spec : SimulationSpec) (rng : RNG) (horizonSec : R)
    (fuel fuel' : nat) :
  (fuel <= fuel')%nat ->
  forall us balances events txn,
    refines (bootstrap fuel spec rng horizonSec us balances events txn)
            (bootstrap fuel' spec rng horizonSec us balances events txn).
Proof.
  intros Hle. induction us as [|u us IH]; intros balances events txn;
    cbn [bootstrap]; [apply refines_refl|].
  pose proof (purchaseTimeline_refines spec rng horizonSec u fuel fuel' Hle
                fuel fuel' Hle) as Ht.
  refines_auto.
Qed.

Lemma startRun_refines (spec : SimulationSpec) (rng : RNG) (fuel fuel' : nat) :
  (fuel <= fuel')%nat ->
  refines (startRun fuel spec rng) (startRun fuel' spec rng).
Proof.
  intros Hle. unfold startRun. cbv zeta.
  apply refines_bind; [apply bootstrap_refines; exact Hle|].
  intros a. apply refines_refl.
Qed.

(** ** The runs *)

Lemma runPrefix_more (k k' fuel fuel' : nat) (spec : SimulationSpec)
    (baseSeed : string) (runIndex : nat) (st : Sim) (binSize : R) (log : Log) :
  (k <= k')%nat -> (fuel <= fuel')%nat ->
  runPrefix k fuel spec baseSeed runIndex = Some (st, binSize, log) ->
  events st = [] ->
  runPrefix k' fuel' spec baseSeed runIndex = Some (st, binSize, log).
Proof.
  intros Hk Hf H Hq. unfold runPrefix in *. cbv zeta in *.
  set (rng := createRng (runSeed baseSeed runIndex)) in *.
  unfold bind in *.
  destruct (startRun fuel spec rng 0%nat) as [[s n0]|] eqn:Es; [|discriminate].
  destruct (runEvents k fuel spec rng (snd s) (fst s) [] n0) as [[r n1]|] eqn:Er;
    [|discriminate].
  unfold ret in H. injection H as H1 H2 H3. destruct r as [st1 log1].
  cbn [fst snd] in *. subst st1 log1.
  rewrite (startRun_refines spec rng fuel fuel' Hf _ _ Es).
  apply (runEvents_more fuel spec rng (snd s) k k') in Er; [|exact Hk|exact Hq].
  rewrite (runEvents_refines spec rng (snd s) fuel fuel' Hf k' _ _ _ _ Er).
  unfold ret. cbn [fst snd]. rewrite H2. reflexivity.
Qed.

Lemma simulateOnceTrace_mono (fuel fuel' : nat) (spec : SimulationSpec)
    (baseSeed : string) (runIndex : nat) (x : Sim * R * Log) :
  (fuel <= fuel')%nat ->
  simulateOnceTrace fuel spec baseSeed runIndex = Some x ->
  simulateOnceTrace fuel' spec baseSeed runIndex = Some x.
Proof.
  intros Hle H. unfold simulateOnceTrace in *.
  destruct (runPrefix fuel fuel spec baseSeed runIndex) as [[[st bin] log]|] eqn:E;
    [|discriminate].
  destruct (events st) eqn:Hq; [|discriminate].
  rewrite (runPrefix_more fuel fuel' fuel fuel' _ _ _ _ _ _ Hle Hle E Hq).
  rewrite Hq. exact H.
Qed.

Lemma simulateOnce_mono (fuel fuel' : nat) (spec : SimulationSpec)
    (baseSeed : string) (runIndex : nat) (run : SimulationRunResult) :
  (fuel <= fuel')%nat ->
  simulateOnce fuel spec baseSeed runIndex = Some run ->
  simulateOnce fuel' spec baseSeed runIndex = Some run.
Proof.
  intros Hle H. unfold simulateOnce in *.
  destruct (simulateOnceTrace fuel spec baseSeed runIndex) as [x|] eqn:E;
    [|discriminate].
  rewrite (simulateOnceTrace_mono fuel fuel' _ _ _ x Hle E). exact H.
Qed.

Lemma runSimulationRuns_mono (fuel fuel' : nat) (spec : SimulationSpec) :
  (fuel <= fuel')%nat ->
  forall count s runs,
    runSimulationRuns fuel spec s count = Some runs ->
    runSimulationRuns fuel' spec s count = Some runs.
Proof.
  intros Hle. induction count as [|count IH]; intros s runs H; [exact H|].
  cbn [runSimulationRuns] in *.
  destruct (simulateOnce fuel spec (seed spec) s) as [run|] eqn:E; [|discriminate].
  rewrite (simulateOnce_mono fuel fuel' _ _ _ run Hle E).
  destruct (runSimulationRuns fuel spec (S s) count) as [rest|] eqn:Er;
    [|discriminate].
  rewrite (IH (S s) rest Er). exact H.
Qed.

Lemma runSimulationInternal_mono (toFixed1 showNumber : R -> string)
    (callFits : nat -> bool) (fuel fuel' : nat) (spec : SimulationSpec)
    (res : SimulationResults) :
  (fuel <= fuel')%nat ->
  runSimulationInternal toFixed1 showNumber callFits fuel spec = Some res ->
  runSimulationInternal toFixed1 showNumber callFits fuel' spec = Some res.
Proof.
  intros Hle H. unfold runSimulationInternal in *. cbv zeta in *.
  destruct (runSimulationRuns fuel spec 0 _) as [runs|] eqn:E; [|discriminate].
  rewrite (runSimulationRuns_mono fuel fuel' spec Hle _ _ _ E). exact H.
Qed.

Lemma runSimulation_mono (toFixed1 showNumber : R -> string)
    (callFits : nat -> bool) (fuel fuel' : nat) (spec : SimulationSpec)
    (res : SimulationResults) :
  (fuel <= fuel')%nat ->
  runSimulation toFixed1 showNumber callFits fuel spec = Some res ->
  runSimulation toFixed1 showNumber callFits fuel' spec = Some res.
Proof.
  intros Hle H. unfold runSimulation in *.
  destruct (runSimulationInternal toFixed1 showNumber callFits fuel spec)
    as [base|] eqn:Eb; [|discriminate].
  rewrite (runSimulationInternal_mono _ _ _ fuel fuel' _ _ Hle Eb).
  destruct (fraud_enabled (fraud spec) && limits_enabled (spendLimits spec));
    [|exact H].
  destruct (runSimulationInternal toFixed1 showNumber callFits fuel
              (withoutLimits spec)) as [alt|] eqn:Ea; [|discriminate].
  rewrite (runSimulationInternal_mono _ _ _ fuel fuel' _ _ Hle Ea). exact H.
Qed.

(** Two executions that return, whatever fuel each was given, return the
    same runs and the same results. *)
Lemma runSimulationRuns_fuel_independent (fuel fuel' : nat)
    (spec : SimulationSpec) (s count : nat)
    (runs runs' : list SimulationRunResult) :
  runSimulationRuns fuel spec s count = Some runs ->
  runSimulationRuns fuel' spec s count = Some runs' ->
  runs = runs'.
Proof.
  intros H H'.
  apply (runSimulationRuns_mono fuel (Nat.max fuel fuel') spec
           (Nat.le_max_l _ _)) in H.
  apply (runSimulationRuns_mono fuel' (Nat.max fuel fuel') spec
           (Nat.le_max_r _ _)) in H'.
  congruence.
Qed.

Lemma runSimulation_fuel_independent (toFixed1 showNumber : R -> string)
    (callFits : nat -> bool) (fuel fuel' : nat) (spec : SimulationSpec)
    (r1 r2 : SimulationResults) :
  runSimulation toFixed1 showNumber callFits fuel spec = Some r1 ->
  runSimulation toFixed1 showNumber callFits fuel' spec = Some r2 ->
  r1 = r2.
Proof.
  intros H H'.
  apply (runSimulation_mono _ _ _ fuel (Nat.max fuel fuel') spec r1
           (Nat.le_max_l _ _)) in H.
  apply (runSimulation_mono _ _ _ fuel' (Nat.max fuel fuel') spec r2
           (Nat.le_max_r _ _)) in H'.
  congruence.
Qed.

(** * Determinism and independence of the partition *)

(** A batch of [k + c] runs is the batch of the first [k] followed by the
    batch of the next [c]. *)
Lemma runSimulationRuns_split (fuel : nat) (spec : SimulationSpec) (c : nat) :
  forall k s,
    runSimulationRuns fuel spec s (k + c)
    = concatRuns (runSimulationRuns fuel spec s k)
                 (runSimulationRuns fuel spec (s + k) c).
Proof.
  induction k as [|k IH]; intros s.
  - simpl. rewrite Nat.add_0_r. unfold concatRuns.
    destruct (runSimulationRuns fuel spec s c); reflexivity.
  - simpl. destruct (simulateOnce fuel spec (seed spec) s) as [run|].
    + rewrite IH. replace (s + S k)%nat with (S s + k)%nat by lia.
      unfold concatRuns.
      destruct (runSimulationRuns fuel spec (S s) k);
        destruct (runSimulationRuns fuel spec (S s + k) c); reflexivity.
    + unfold concatRuns.
      destruct (runSimulationRuns fuel spec (s + S k) c); reflexivity.
Qed.

(** The run at position [i] of a batch is the run of index
    [startIndex + i], whatever the batch. *)
Lemma runSimulationRuns_lookup (fuel : nat) (spec : SimulationSpec) :
  forall count s (runs : list SimulationRunResult) (i : nat),
    runSimulationRuns fuel spec s count = Some runs ->
    (i < count)%nat ->
    runs !! i = simulateOnce fuel spec (seed spec) (s + i).
Proof.
  induction count as [|count IH]; intros s runs i H Hi; [lia|].
  simpl in H.
  destruct (simulateOnce fuel spec (seed spec) s) as [run|] eqn:Hrun;
    [|discriminate].
  destruct (runSimulationRuns fuel spec (S s) count) as [rest|] eqn:Hrest;
    [|discriminate].
  injection H as <-. destruct i as [|i].
  - simpl. rewrite Nat.add_0_r. symmetry. exact Hrun.
  - simpl. replace (s + S i)%nat with (S s + i)%nat by lia.
    apply (IH (S s) rest i Hrest). lia.
Qed.

(** *** The aggregation where every call passes *)

Section Passing.

Variable toFixed1 showNumber : R -> string.
Variable callFits : nat -> bool.
Hypothesis fits : forall n, callFits n = true.

Lemma spreads_fits {A} (l : list A) : spreads callFits l = true.
Proof. destruct l; [reflexivity|apply fits]. Qed.

Lemma pushAll_fits {A} (f : SimulationRunResult -> list A)
    (runs : list SimulationRunResult) :
  pushAll callFits f runs = Some (concat (List.map f runs)).
Proof.
  unfold pushAll.
  assert (H : forall acc,
             fold_left (fun acc run =>
                          match acc with
                          | Some target =>
                              if spreads callFits (f run)
                              then Some (target ++ f run) else None
                          | None => None
                          end) runs (Some acc)
             = Some (acc ++ concat (List.map f runs))).
  { induction runs as [|run runs IH]; intros acc; cbn [fold_left List.map concat].
    - rewrite app_nil_r. reflexivity.
    - rewrite spreads_fits, IH, <- app_assoc. reflexivity. }
  exact (H []).
Qed.

Lemma histogram_fits (values : list R) (bins : nat) :
  is_Some (histogram toFixed1 callFits values bins).
Proof.
  unfold histogram. destruct values as [|v vs]; [eauto|].
  rewrite spreads_fits. eauto.
Qed.

(** The aggregation returns, with the exposure events of the runs in the
    order of the runs. *)
Lemma aggregate_fits (spec : SimulationSpec) (runs : list SimulationRunResult) :
  exists res,
    aggregateRunResults toFixed1 showNumber callFits spec runs = Some res /\
    res_exposureEvents res = concat (List.map run_exposureEvents runs).
Proof.
  unfold aggregateRunResults. cbv zeta. rewrite !pushAll_fits. cbn [mbind option_bind].
  repeat match goal with
  | |- context [histogram toFixed1 callFits ?v ?b] =>
      let h := fresh "h" in
      destruct (histogram_fits v b) as [h ->]; cbn [mbind option_bind]
  end.
  eexists. split; reflexivity.
Qed.

End Passing.

(** C1: the runs are a function of the scenario, its seed and the run
    index only (the generator of a run is created from ["seed-index"] inside
    the run, and the fuel of the loops decides nothing), so two executions of
    [runSimulation] that return give the same result, metrics included; a
    run has the same result in whatever batch it is computed; for every [N]
    and [k <= N], aggregating the batch of the runs [0..k-1] followed by the
    batch of the runs [k..N-1] gives the result of aggregating the single
    batch [0..N-1]; and the two batches, each computed by an execution of its
    own, are together the single batch. *)
Theorem aggregation_partition_independent (toFixed1 showNumber : R -> string)
    (callFits : nat -> bool) (fuel fuel1 fuel2 : nat) (spec : SimulationSpec)
    (N k : nat) :
  (k <= N)%nat ->
  (forall r1 r2,
     runSimulation toFixed1 showNumber callFits fuel1 spec = Some r1 ->
     runSimulation toFixed1 showNumber callFits fuel2 spec = Some r2 ->
     r1 = r2 /\ res_metrics r1 = res_metrics r2) /\
  (forall s count (runs : list SimulationRunResult) (i : nat),
     runSimulationRuns fuel spec s count = Some runs -> (i < count)%nat ->
     runs !! i = simulateOnce fuel spec (seed spec) (s + i)) /\
  (concatRuns (runSimulationRuns fuel spec 0 k)
              (runSimulationRuns fuel spec k (N - k))
   ≫= aggregateRunResults toFixed1 showNumber callFits spec
   = runSimulationRuns fuel spec 0 N
     ≫= aggregateRunResults toFixed1 showNumber callFits spec) /\
  (forall first second whole,
     runSimulationRuns fuel1 spec 0 k = Some first ->
     runSimulationRuns fuel2 spec k (N - k) = Some second ->
     runSimulationRuns fuel spec 0 N = Some whole ->
     first ++ second = whole).
Proof.
  intros Hk. split; [|split; [|split]].
  - intros r1 r2 H1 H2.
    pose proof (runSimulation_fuel_independent _ _ _ _ _ _ _ _ H1 H2) as ->.
    split; reflexivity.
  - intros s count runs i. apply runSimulationRuns_lookup.
  - f_equal. replace N with (k + (N - k))%nat at 2 by lia.
    rewrite runSimulationRuns_split. reflexivity.
  - intros first second whole H1 H2 H.
    set (fuelMax := Nat.max fuel (Nat.max fuel1 fuel2)).
    apply (runSimulationRuns_mono fuel1 fuelMax spec ltac:(lia)) in H1.
    apply (runSimulationRuns_mono fuel2 fuelMax spec ltac:(lia)) in H2.
    apply (runSimulationRuns_mono fuel fuelMax spec ltac:(lia)) in H.
    replace N with (k + (N - k))%nat in H at 1 by lia.
    rewrite runSimulationRuns_split, H1 in H. cbn [Nat.add] in H.
    rewrite H2 in H. unfold concatRuns in H. congruence.
Qed.

(** * The event queue is a min-heap *)

Module HeapFacts.

Import MinHeap HeapSpec.

Lemma parent_lt (i : nat) : (0 < i)%nat -> (parent i < i)%nat.
Proof.
  intros H. unfold parent.
  apply Nat.le_lt_trans with (i - 1)%nat; [apply Nat.Div0.div_le_upper_bound; lia | lia].
Qed.

Lemma parent_child (i k : nat) :
  (0 < i)%nat -> parent i = k <-> i = (2 * k + 1)%nat \/ i = (2 * k + 2)%nat.
Proof.
  intros H. unfold parent. split.
  - intros <-.
    pose proof (Nat.div_mod_eq (i - 1) 2) as Hd.
    pose proof (Nat.mod_upper_bound (i - 1) 2 ltac:(lia)) as Hm.
    lia.
  - intros [-> | ->].
    + replace (2 * k + 1 - 1)%nat with (k * 2)%nat by lia.
      apply Nat.div_mul. lia.
    + replace (2 * k + 2 - 1)%nat with (1 + k * 2)%nat by lia.
      rewrite Nat.div_add by lia. reflexivity.
Qed.

(** *** Exchanges *)

Lemma swap_length (data : t) (i j : nat) : length (swap data i j) = length data.
Proof.
  unfold swap. destruct (data !! i), (data !! j); try reflexivity.
  rewrite !length_insert. reflexivity.
Qed.

Lemma swap_lookup (data : t) (i j k : nat) :
  (i < length data)%nat -> (j < length data)%nat ->
  swap data i j !! k = data !! swap_idx i j k.
Proof.
  intros Hi Hj. unfold swap, swap_idx.
  destruct (lookup_lt_is_Some_2 data i Hi) as [a Ha].
  destruct (lookup_lt_is_Some_2 data j Hj) as [b Hb].
  rewrite Ha, Hb.
  destruct (decide (k = i)) as [-> | Hki].
  - destruct (decide (i = j)) as [-> | Hij].
    + rewrite list_lookup_insert_eq by (rewrite length_insert; exact Hj).
      congruence.
    + rewrite list_lookup_insert_ne by congruence.
      rewrite list_lookup_insert_eq by exact Hi. congruence.
  - destruct (decide (k = j)) as [-> | Hkj].
    + rewrite list_lookup_insert_eq by (rewrite length_insert; exact Hj).
      congruence.
    + rewrite !list_lookup_insert_ne by congruence. reflexivity.
Qed.

Lemma swap_idx_inj (i j : nat) : Inj (=) (=) (swap_idx i j).
Proof.
  intros x y. unfold swap_idx.
  repeat destruct (decide _); congruence.
Qed.

Lemma swap_perm (data : t) (i j : nat) : Permutation (swap data i j) data.
Proof.
  destruct (decide (i < length data)%nat) as [Hi|Hi].
  - destruct (decide (j < length data)%nat) as [Hj|Hj].
    + apply Permutation_inj. split; [apply swap_length|].
      exists (swap_idx i j). split; [apply swap_idx_inj|].
      intros k. apply swap_lookup; assumption.
    + unfold swap. rewrite (lookup_ge_None_2 data j) by lia.
      destruct (data !! i); reflexivity.
  - unfold swap. rewrite (lookup_ge_None_2 data i) by lia. reflexivity.
Qed.

(** *** [bubbleUp] *)

Lemma bubbleUp_loop_perm (fuel : nat) :
  forall data k, Permutation (bubbleUp_loop fuel data k) data.
Proof.
  induction fuel as [|fuel IH]; intros data k; cbn [bubbleUp_loop]; [reflexivity|].
  destruct (0 <? k)%nat; [|reflexivity].
  destruct (data !! ((k - 1) / 2)%nat); [|reflexivity].
  destruct (data !! k); [|reflexivity].
  destruct (_ <=? _); [reflexivity|].
  rewrite IH. apply swap_perm.
Qed.

Lemma up_ok_heap_at_root (data : t) : up_ok data 0 -> heap_ok data.
Proof.
  intros [H1 _] i c p Hi Hc Hp. apply (H1 i c p); [exact Hi | lia | exact Hc | exact Hp].
Qed.

Lemma up_ok_swap (data : t) (k : nat) (c p : SimulationEvent) :
  up_ok data k -> (0 < k)%nat ->
  data !! k = Some c -> data !! parent k = Some p ->
  timeSec c < timeSec p ->
  up_ok (swap data (parent k) k) (parent k).
Proof.
  intros [H1 H2] Hk Hc Hp Hlt.
  pose proof (parent_lt k Hk) as Hpk.
  pose proof (lookup_lt_Some _ _ _ Hc) as Hlk.
  pose proof (lookup_lt_Some _ _ _ Hp) as Hlp.
  assert (Hsw : forall j, swap data (parent k) k !! j
                          = data !! swap_idx (parent k) k j)
    by (intros j; apply swap_lookup; assumption).
  split.
  - intros i ci pi Hi Hne Hci Hpi.
    rewrite Hsw in Hci, Hpi. unfold swap_idx in Hci, Hpi.
    pose proof (parent_lt i Hi) as Hpi_lt.
    destruct (decide (i = parent k)) as [->|_]; [congruence|].
    destruct (decide (i = k)) as [->|Hik].
    + (* the element moved down to [k] *)
      rewrite decide_True in Hpi by reflexivity.
      rewrite Hc in Hpi. rewrite Hp in Hci.
      injection Hci as <-. injection Hpi as <-. lra.
    + destruct (decide (parent i = parent k)) as [Heq|Hnp].
      * (* a sibling of [k] *)
        rewrite Hc in Hpi. injection Hpi as <-.
        pose proof (H1 i ci p Hi Hik Hci ltac:(rewrite Heq; exact Hp)). lra.
      * destruct (decide (parent i = k)) as [Hpik|Hnk].
        -- (* a child of [k] *)
           rewrite Hp in Hpi. injection Hpi as <-.
           apply (H2 i ci p Hk Hi Hpik Hci Hp).
        -- apply (H1 i ci pi Hi Hik Hci Hpi).
  - intros i ci g Hpk0 Hi Hpar Hci Hg.
    rewrite Hsw in Hci, Hg. unfold swap_idx in Hci, Hg.
    pose proof (parent_lt (parent k) Hpk0) as Hgp.
    destruct (decide (parent (parent k) = parent k)) as [?|_]; [lia|].
    destruct (decide (parent (parent k) = k)) as [?|_]; [lia|].
    pose proof (H1 (parent k) p g Hpk0 ltac:(lia) Hp Hg) as Hgp_le.
    destruct (decide (i = parent k)) as [?|_]; [pose proof (parent_lt i Hi); lia|].
    destruct (decide (i = k)) as [->|Hik].
    + rewrite Hp in Hci. injection Hci as <-. exact Hgp_le.
    + pose proof (H1 i ci p Hi Hik Hci ltac:(rewrite Hpar; exact Hp)). lra.
Qed.

Lemma bubbleUp_loop_heap (fuel : nat) :
  forall data k,
    (k <= fuel)%nat -> (k < length data)%nat -> up_ok data k ->
    heap_ok (bubbleUp_loop fuel data k).
Proof.
  induction fuel as [|fuel IH]; intros data k Hfuel Hk Hok.
  - cbn [bubbleUp_loop]. assert (k = 0%nat) as -> by lia.
    apply up_ok_heap_at_root. exact Hok.
  - cbn [bubbleUp_loop]. destruct (Nat.ltb_spec 0 k) as [H0|H0].
    + pose proof (parent_lt k H0) as Hpk.
      destruct (lookup_lt_is_Some_2 data (parent k) ltac:(lia)) as [p Hp].
      destruct (lookup_lt_is_Some_2 data k Hk) as [c Hc].
      fold (parent k). rewrite Hp, Hc.
      destruct (Rle_bool_spec (timeSec p) (timeSec c)) as [Hle|Hlt].
      * destruct Hok as [H1 _]. intros i ci pi Hi Hci Hpi.
        destruct (decide (i = k)) as [->|Hne].
        -- rewrite Hc in Hci. rewrite Hp in Hpi.
           injection Hci as <-. injection Hpi as <-. exact Hle.
        -- apply (H1 i ci pi Hi Hne Hci Hpi).
      * apply IH; [lia | rewrite swap_length; lia |].
        apply (up_ok_swap data k c p Hok H0 Hc Hp Hlt).
    + assert (k = 0%nat) as -> by lia. apply up_ok_heap_at_root. exact Hok.
Qed.

Lemma push_perm (data : t) (item : SimulationEvent) :
  Permutation (push data item) (item :: data).
Proof.
  unfold push, bubbleUp. rewrite bubbleUp_loop_perm.
  symmetry. apply Permutation_cons_append.
Qed.

Lemma push_heap (data : t) (item : SimulationEvent) :
  heap_ok data -> heap_ok (push data item).
Proof.
  intros Hok. unfold push, bubbleUp.
  rewrite length_app. simpl length.
  replace (length data + 1 - 1)%nat with (length data) by lia.
  apply bubbleUp_loop_heap; [lia | rewrite length_app; simpl; lia |].
  split.
  - intros i c p Hi Hne Hc Hp.
    assert (Hil : (i < length data)%nat).
    { apply lookup_lt_Some in Hc. rewrite length_app in Hc. simpl in Hc. lia. }
    pose proof (parent_lt i Hi).
    rewrite lookup_app_l in Hc by lia. rewrite lookup_app_l in Hp by lia.
    apply (Hok i c p Hi Hc Hp).
  - intros i c g _ Hi Hpar Hc _.
    apply lookup_lt_Some in Hc. rewrite length_app in Hc. simpl in Hc.
    pose proof (parent_lt i Hi). lia.
Qed.

(** *** [bubbleDown] *)

Lemma bubbleDown_loop_perm (fuel : nat) :
  forall data k, Permutation (bubbleDown_loop fuel data k) data.
Proof.
  induction fuel as [|fuel IH]; intros data k; cbn [bubbleDown_loop];
    [reflexivity|].
  cbv zeta. destruct (_ =? k)%nat; [reflexivity|].
  rewrite IH. apply swap_perm.
Qed.

Lemma down_ok_heap_outside (data : t) (k : nat) :
  (length data <= k)%nat -> down_ok data k -> heap_ok data.
Proof.
  intros Hk [H1 _] i c p Hi Hc Hp. apply (H1 i c p Hi); [|exact Hc|exact Hp].
  apply lookup_lt_Some in Hc. pose proof (parent_lt i Hi). lia.
Qed.

Lemma down_ok_swap (data : t) (k s : nat) (cs ck : SimulationEvent) :
  down_ok data k -> (0 < s)%nat -> parent s = k ->
  data !! s = Some cs -> data !! k = Some ck ->
  timeSec cs <= timeSec ck ->
  (forall i ci, (0 < i)%nat -> parent i = k -> data !! i = Some ci ->
                timeSec cs <= timeSec ci) ->
  down_ok (swap data s k) s.
Proof.
  intros [H1 H2] Hs Hpar Hcs Hck Hle Hmin.
  pose proof (parent_lt s Hs) as Hks. rewrite Hpar in Hks.
  pose proof (lookup_lt_Some _ _ _ Hcs) as Hls.
  pose proof (lookup_lt_Some _ _ _ Hck) as Hlk.
  assert (Hsw : forall j, swap data s k !! j = data !! swap_idx s k j)
    by (intros j; apply swap_lookup; assumption).
  split.
  - intros i ci pi Hi Hne Hci Hpi.
    rewrite Hsw in Hci, Hpi. unfold swap_idx in Hci, Hpi.
    pose proof (parent_lt i Hi) as Hpi_lt.
    destruct (decide (parent i = s)) as [?|_]; [congruence|].
    destruct (decide (i = s)) as [->|His].
    + rewrite Hpar in Hpi. rewrite decide_True in Hpi by reflexivity.
      rewrite Hck in Hci. rewrite Hcs in Hpi.
      injection Hci as <-. injection Hpi as <-. exact Hle.
    + destruct (decide (i = k)) as [->|Hik].
      * destruct (decide (parent k = k)) as [?|_]; [lia|].
        rewrite Hcs in Hci. injection Hci as <-.
        apply (H2 s cs pi Hi Hs Hpar Hcs Hpi).
      * destruct (decide (parent i = k)) as [Hpik|Hnk].
        -- rewrite Hcs in Hpi. injection Hpi as <-.
           apply (Hmin i ci Hi Hpik Hci).
        -- apply (H1 i ci pi Hi Hnk Hci Hpi).
  - intros i ci g _ Hi Hpari Hci Hg.
    rewrite Hsw in Hci, Hg. unfold swap_idx in Hci, Hg.
    pose proof (parent_lt i Hi) as Hpi_lt.
    rewrite Hpar in Hg.
    destruct (decide (k = s)) as [?|_]; [lia|].
    rewrite decide_True in Hg by reflexivity.
    rewrite Hcs in Hg. injection Hg as <-.
    destruct (decide (i = s)) as [?|_]; [lia|].
    destruct (decide (i = k)) as [?|_]; [lia|].
    apply (H1 i ci cs Hi ltac:(lia) Hci). rewrite Hpari. exact Hcs.
Qed.

Lemma earlier_true (data : t) (i j : nat) :
  earlier data i j = true ->
  exists a b, data !! i = Some a /\ data !! j = Some b /\ timeSec a < timeSec b.
Proof.
  unfold earlier. destruct (data !! i) as [a|]; [|discriminate].
  destruct (data !! j) as [b|]; [|discriminate].
  destruct (Rlt_bool_spec (timeSec a) (timeSec b)); [|discriminate].
  intros _. exists a, b. auto.
Qed.

Lemma earlier_false (data : t) (i j : nat) (a b : SimulationEvent) :
  earlier data i j = false ->
  data !! i = Some a -> data !! j = Some b -> timeSec b <= timeSec a.
Proof.
  unfold earlier. intros H Ha Hb. rewrite Ha, Hb in H.
  destruct (Rlt_bool_spec (timeSec a) (timeSec b)); [discriminate | assumption].
Qed.

Lemma bubbleDown_loop_heap (fuel : nat) :
  forall data k,
    (length data - k <= fuel)%nat -> down_ok data k ->
    heap_ok (bubbleDown_loop fuel data k).
Proof.
  induction fuel as [|fuel IH]; intros data k Hfuel Hok.
  - cbn [bubbleDown_loop]. apply (down_ok_heap_outside data k); [lia | exact Hok].
  - cbn [bubbleDown_loop]. cbv zeta.
    destruct (decide (length data <= k)%nat) as [Hout|Hin].
    { rewrite (proj2 (Nat.ltb_ge _ _)) by lia.
      rewrite (proj2 (Nat.ltb_ge _ _)) by lia.
      cbn [andb]. rewrite Nat.eqb_refl.
      apply (down_ok_heap_outside data k); [lia | exact Hok]. }
    destruct (lookup_lt_is_Some_2 data k ltac:(lia)) as [ck Hck].
    set (left := (2 * k + 1)%nat). set (right := (2 * k + 2)%nat).
    set (s1 := if (left <? length data)%nat && earlier data left k
               then left else k).
    set (s2 := if (right <? length data)%nat && earlier data right s1
               then right else s1).
    (* the earliest of [k] and its children *)
    assert (Hs1 : exists c1, data !! s1 = Some c1 /\ timeSec c1 <= timeSec ck /\
                  (s1 = k \/ s1 = left) /\
                  (forall cl, data !! left = Some cl -> timeSec c1 <= timeSec cl)).
    { unfold s1. destruct (Nat.ltb_spec left (length data)) as [Hl|Hl]; cbn [andb].
      - destruct (earlier data left k) eqn:He.
        + apply earlier_true in He. destruct He as (a & b & Ha & Hb & Hab).
          exists a. rewrite Hck in Hb. injection Hb as <-.
          repeat split; [exact Ha | lra | right; reflexivity |].
          intros cl Hcl. rewrite Ha in Hcl. injection Hcl as <-. lra.
        + exists ck. repeat split; [exact Hck | lra | left; reflexivity |].
          intros cl Hcl. apply (earlier_false data left k cl ck He Hcl Hck).
      - exists ck. repeat split; [exact Hck | lra | left; reflexivity |].
        intros cl Hcl. apply lookup_lt_Some in Hcl. lia. }
    destruct Hs1 as (c1 & Hc1 & Hc1k & Hs1 & Hc1l).
    assert (Hs2 : exists c2, data !! s2 = Some c2 /\ timeSec c2 <= timeSec ck /\
                  (s2 = k \/ s2 = left \/ s2 = right) /\
                  (forall cl, data !! left = Some cl -> timeSec c2 <= timeSec cl) /\
                  (forall cr, data !! right = Some cr -> timeSec c2 <= timeSec cr)).
    { unfold s2. destruct (Nat.ltb_spec right (length data)) as [Hr|Hr]; cbn [andb].
      - destruct (earlier data right s1) eqn:He.
        + apply earlier_true in He. destruct He as (a & b & Ha & Hb & Hab).
          exists a. rewrite Hc1 in Hb. injection Hb as <-.
          repeat split; [exact Ha | lra | right; right; reflexivity | |].
          * intros cl Hcl. pose proof (Hc1l cl Hcl). lra.
          * intros cr Hcr. rewrite Ha in Hcr. injection Hcr as <-. lra.
        + exists c1. repeat split; [exact Hc1 | exact Hc1k | tauto | exact Hc1l |].
          intros cr Hcr. apply (earlier_false data right s1 cr c1 He Hcr Hc1).
      - exists c1. repeat split; [exact Hc1 | exact Hc1k | tauto | exact Hc1l |].
        intros cr Hcr. apply lookup_lt_Some in Hcr. lia. }
    destruct Hs2 as (c2 & Hc2 & Hc2k & Hs2 & Hc2l & Hc2r).
    assert (Hchildren : forall i ci, (0 < i)%nat -> parent i = k ->
                                     data !! i = Some ci -> timeSec c2 <= timeSec ci).
    { intros i ci Hi Hpar Hci. apply parent_child in Hpar; [|exact Hi].
      destruct Hpar as [-> | ->]; [apply Hc2l | apply Hc2r]; exact Hci. }
    destruct (Nat.eqb_spec s2 k) as [Heq|Hne].
    + (* no child is earlier *)
      rewrite Heq in Hc2. rewrite Hck in Hc2. injection Hc2 as <-.
      destruct Hok as [H1 _]. intros i ci pi Hi Hci Hpi.
      destruct (decide (parent i = k)) as [Hpar|Hnpar].
      * rewrite Hpar, Hck in Hpi. injection Hpi as <-.
        apply (Hchildren i ci Hi Hpar Hci).
      * apply (H1 i ci pi Hi Hnpar Hci Hpi).
    + assert (Hs2pos : (0 < s2)%nat) by (unfold left, right in Hs2; lia).
      assert (Hpar : parent s2 = k).
      { apply parent_child; [exact Hs2pos|]. unfold left, right in Hs2. lia. }
      apply IH.
      * rewrite swap_length. apply lookup_lt_Some in Hc2.
        pose proof (parent_lt s2 Hs2pos). lia.
      * apply (down_ok_swap data k s2 c2 ck Hok Hs2pos Hpar Hc2 Hck Hc2k Hchildren).
Qed.

(** *** [pop] *)

Lemma pop_None (data : t) : pop data = None <-> data = [].
Proof.
  unfold pop. destruct data as [|top tl]; [tauto|].
  cbv zeta. destruct (0 <? _)%nat; split; discriminate.
Qed.

Lemma pop_Some_cons (data : t) (top : SimulationEvent) (rest : t) :
  pop data = Some (top, rest) -> exists tl, data = top :: tl.
Proof.
  unfold pop. destruct data as [|top' tl]; [discriminate|].
  cbv zeta. destruct (0 <? _)%nat; intros H; injection H as <- _; eauto.
Qed.

(** The two shapes of a successful [pop]. *)
Lemma pop_cases (data : t) (top : SimulationEvent) (rest : t) :
  pop data = Some (top, rest) ->
  (data = [top] /\ rest = []) \/
  (exists body last,
      data = top :: body ++ [last] /\
      rest = bubbleDown (last :: body) 0).
Proof.
  unfold pop. destruct data as [|top' tl]; [discriminate|].
  cbv zeta. destruct tl as [|x tl'].
  - simpl. intros H. injection H as <- <-. left. auto.
  - assert (Hne : x :: tl' <> []) by discriminate.
    pose proof (app_removelast_last top' Hne) as Hsplit.
    set (body := removelast (x :: tl')) in *.
    set (lst := List.last (x :: tl') top') in *.
    assert (Hlast : List.last (top' :: x :: tl') top' = lst) by reflexivity.
    assert (Hrm : removelast (top' :: x :: tl') = top' :: body) by reflexivity.
    rewrite Hlast, Hrm. cbn [length Nat.ltb Nat.leb].
    intros H. injection H as <- <-. right. exists body, lst.
    split; [rewrite Hsplit; reflexivity | reflexivity].
Qed.

Lemma pop_perm (data : t) (top : SimulationEvent) (rest : t) :
  pop data = Some (top, rest) -> Permutation data (top :: rest).
Proof.
  intros H. destruct (pop_cases data top rest H) as [[-> ->] | (body & lst & -> & ->)];
    [reflexivity|].
  constructor. unfold bubbleDown. rewrite bubbleDown_loop_perm.
  symmetry. apply Permutation_cons_append.
Qed.

Lemma pop_heap (data : t) (top : SimulationEvent) (rest : t) :
  heap_ok data -> pop data = Some (top, rest) -> heap_ok rest.
Proof.
  intros Hok H.
  destruct (pop_cases data top rest H) as [[-> ->] | (body & lst & -> & ->)].
  - intros i c p _ Hc. destruct i; discriminate.
  - unfold bubbleDown. apply bubbleDown_loop_heap; [lia|].
    split; [|intros; lia].
    intros i c p Hi Hnp Hc Hp.
    pose proof (parent_lt i Hi) as Hpi.
    destruct i as [|i]; [lia|].
    destruct (parent (S i)) as [|j] eqn:Hj; [congruence|].
    change (body !! i = Some c) in Hc. change (body !! j = Some p) in Hp.
    apply (Hok (S i) c p Hi).
    + change ((body ++ [lst]) !! i = Some c).
      rewrite lookup_app_l by (apply lookup_lt_Some in Hc; exact Hc). exact Hc.
    + rewrite Hj. change ((body ++ [lst]) !! j = Some p).
      rewrite lookup_app_l by (apply lookup_lt_Some in Hp; exact Hp). exact Hp.
Qed.

(** In a heap no element is earlier than the root. *)
Lemma root_min (data : t) (top : SimulationEvent) :
  heap_ok data -> data !! 0%nat = Some top ->
  forall i c, data !! i = Some c -> timeSec top <= timeSec c.
Proof.
  intros Hok Htop i. induction i as [i IH] using lt_wf_ind. intros c Hc.
  destruct (decide (i = 0%nat)) as [-> | Hne].
  - rewrite Htop in Hc. injection Hc as <-. lra.
  - assert (Hi : (0 < i)%nat) by lia.
    pose proof (parent_lt i Hi) as Hpi.
    destruct (lookup_lt_is_Some_2 data (parent i)
                ltac:(apply lookup_lt_Some in Hc; lia)) as [p Hp].
    pose proof (IH (parent i) Hpi p Hp).
    pose proof (Hok i c p Hi Hc Hp). lra.
Qed.

Lemma pop_min (data : t) (top : SimulationEvent) (rest : t) :
  heap_ok data -> pop data = Some (top, rest) ->
  forall e, In e data -> timeSec top <= timeSec e.
Proof.
  intros Hok H e He.
  destruct (pop_Some_cons data top rest H) as [tl ->].
  apply list_elem_of_In in He. apply list_elem_of_lookup in He.
  destruct He as [i Hi].
  apply (root_min (top :: tl) top Hok eq_refl i e Hi).
Qed.

Lemma heap_ok_nil : heap_ok [].
Proof. intros i c p _ Hc. destruct i; discriminate. Qed.

End HeapFacts.

(** * Reasoning about the event loop *)

(** ** Symbolic execution of the handlers *)

(** Reduce the reads of a local variable after assignments. *)
Ltac sim_simpl :=
  cbn [events balances holdTotals holdCounts pendingHoldSamples
       userDailySpend userTimeslotSpend approvals declines timeouts authTimes
       settlementTimes retries exposureEvents exposureDurations authContext
       holdByTxn overspendPrevented preAuthMismatchCount preAuthCount
       incrementalAuthSuccessCount incrementalAuthCount fraudAttempts
       fraudApprovals fraudExposureTotal fraudApprovedAmount fraudLossTotal
       limitDeclines totalSpent insufficientFundsSkipped series upd_events
       upd_balances upd_holdTotals upd_holdCounts upd_pendingHoldSamples
       upd_userDailySpend upd_userTimeslotSpend upd_approvals upd_declines
       upd_timeouts upd_authTimes upd_settlementTimes upd_retries
       upd_exposureEvents upd_exposureDurations upd_authContext upd_holdByTxn
       upd_overspendPrevented upd_preAuthMismatchCount upd_preAuthCount
       upd_incrementalAuthSuccessCount upd_incrementalAuthCount
       upd_fraudAttempts upd_fraudApprovals upd_fraudExposureTotal
       upd_fraudApprovedAmount upd_fraudLossTotal upd_limitDeclines
       upd_totalSpent upd_insufficientFundsSkipped upd_series when].
Ltac sim_simpl_in H :=
  cbn [events balances holdTotals holdCounts pendingHoldSamples
       userDailySpend userTimeslotSpend approvals declines timeouts authTimes
       settlementTimes retries exposureEvents exposureDurations authContext
       holdByTxn overspendPrevented preAuthMismatchCount preAuthCount
       incrementalAuthSuccessCount incrementalAuthCount fraudAttempts
       fraudApprovals fraudExposureTotal fraudApprovedAmount fraudLossTotal
       limitDeclines totalSpent insufficientFundsSkipped series upd_events
       upd_balances upd_holdTotals upd_holdCounts upd_pendingHoldSamples
       upd_userDailySpend upd_userTimeslotSpend upd_approvals upd_declines
       upd_timeouts upd_authTimes upd_settlementTimes upd_retries
       upd_exposureEvents upd_exposureDurations upd_authContext upd_holdByTxn
       upd_overspendPrevented upd_preAuthMismatchCount upd_preAuthCount
       upd_incrementalAuthSuccessCount upd_incrementalAuthCount
       upd_fraudAttempts upd_fraudApprovals upd_fraudExposureTotal
       upd_fraudApprovedAmount upd_fraudLossTotal upd_limitDeclines
       upd_totalSpent upd_insufficientFundsSkipped upd_series when] in H.

Lemma if_same {A} (c : bool) (x : A) : (if c then x else x) = x.
Proof. destruct c; reflexivity. Qed.

Lemma read_when {A} (f : Sim -> A) (c : bool) (g : Sim -> Sim) (s : Sim) :
  f (when c g s) = if c then f (g s) else f s.
Proof. destruct c; reflexivity. Qed.

Lemma read_if {A} (f : Sim -> A) (c : bool) (a b : Sim) :
  f (if c then a else b) = if c then f a else f b.
Proof. destruct c; reflexivity. Qed.


(** The blocks of statements that the handlers share. *)
Ltac unfold_blocks :=
  repeat (progress
            unfold placeHold, incrementalAuth, recordExposure, recordDecline,
              recordTimeout, recordApproval, recordSpend, schedule,
              addToHolds, releaseHold, applySpendLimits).

(** Reduce the reads [f] of a local variable in the goal, through the
    conditional statements one at a time. *)
Ltac sim_read f :=
  unfold_blocks; cbv beta zeta; sim_simpl;
  repeat (first [ rewrite (read_when f) | rewrite (read_if f) ];
          cbv beta zeta; sim_simpl; rewrite ?if_same).

(** Follow the control flow of the computation [H] says has returned: one
    case per path, with the intermediate results in the context. *)
Ltac exec H :=
  cbv beta zeta in H;
  lazymatch type of H with
  | bind _ _ _ = Some _ =>
      let a := fresh "a" in
      let n := fresh "n" in
      let Hd := fresh "Hd" in
      apply bind_Some in H; destruct H as (a & n & Hd & H);
      exec Hd; exec H
  | ret _ _ = Some _ =>
      unfold ret in H; injection H as H ?; subst
  | draw _ _ = Some _ =>
      unfold draw in H; injection H as H ?; subst
  | diverge _ = Some _ => discriminate H
  | (if ?c then _ else _) _ = Some _ =>
      let E := fresh "E" in destruct c eqn:E; exec H
  | (match ?x with _ => _ end) _ = Some _ =>
      let E := fresh "E" in destruct x eqn:E; exec H
  | _ => idtac
  end.

(** ** Exposure events *)





(** ** The events a handler schedules *)

Lemma sampleNetworkLegs_nonneg (fuel : nat) (rng : RNG) (spec : NetworkLatencySpec)
    (n : nat) (legs : Legs) (n' : nat) :
  sampleNetworkLegs fuel rng spec n = Some (legs, n') ->
  0 <= t1 legs /\ 0 <= t2 legs /\ 0 <= t3 legs /\ 0 <= t4 legs.
Proof.
  intros H. unfold sampleNetworkLegs in H. destruct (latencyMode spec).
  - apply bind_Some in H. destruct H as (a & n1 & Ha & H).
    apply sampleDistribution_nonneg in Ha. injection H as <- _. simpl. lra.
  - apply bind_Some in H. destruct H as (a & n1 & Ha & H).
    apply bind_Some in H. destruct H as (b & n2 & Hb & H).
    apply bind_Some in H. destruct H as (c & n3 & Hc & H).
    apply bind_Some in H. destruct H as (d & n4 & Hd & H).
    apply sampleDistribution_nonneg in Ha, Hb, Hc, Hd.
    injection H as <- _. simpl. lra.
Qed.

Lemma pushed_perm (added : list SimulationEvent) :
  forall q, Permutation (pushed added q) (added ++ q).
Proof.
  induction added as [|e added IH]; intros q; simpl; [reflexivity|].
  unfold pushed in *. rewrite IH. rewrite HeapFacts.push_perm.
  symmetry. apply Permutation_middle.
Qed.

Lemma pushed_heap (added : list SimulationEvent) :
  forall q, HeapSpec.heap_ok q -> HeapSpec.heap_ok (pushed added q).
Proof.
  induction added as [|e added IH]; intros q Hq; simpl; [exact Hq|].
  apply IH. apply HeapFacts.push_heap. exact Hq.
Qed.

(** Record what is known of the sampled values in the context. *)
Ltac sample_facts :=
  repeat match goal with
    | H : sampleDistribution _ _ _ _ = Some (?a, _) |- _ =>
        apply sampleDistribution_nonneg in H
    | H : sampleNetworkLegs _ _ _ _ = Some (?a, _) |- _ =>
        apply sampleNetworkLegs_nonneg in H; destruct H as (? & ? & ? & ?)
    end.

Ltac spawned_solve :=
  unfold spawned; cbn [txnId userId etype timeSec ev_settlement];
  split; [reflexivity|]; split; [reflexivity|]; split; [discriminate|];
  intros Hunit Hsane; split;
  [ intros s0 Hs0; try discriminate Hs0;
    injection Hs0 as <-;
    match goal with
    | H : simulateSettlement _ _ _ _ _ _ = Some (?s, _) |- _ =>
        exact (simulateSettlement_nonneg _ _ _ _ _ _ _ _ Hunit Hsane H)
    end
  | intros Hhold;
    repeat match goal with
      | H : simulateSettlement _ _ _ _ _ _ = Some (?s, _) |- _ =>
          apply (simulateSettlement_nonneg _ _ _ _ _ _ _ _ Hunit Hsane) in H
      end;
    sample_facts; lra ].

Ltac forall_spawned :=
  repeat (apply List.Forall_cons; [spawned_solve|]); apply List.Forall_nil.

Lemma handlePurchase_events (fuel : nat) (spec : SimulationSpec) (rng : RNG)
    (binSize : R) (event : SimulationEvent) (st : Sim) (n : nat)
    (st' : Sim) (b : Branch) (n' : nat) :
  handlePurchase fuel spec rng binSize event st n = Some ((st', b), n') ->
  exists added, events st' = pushed added (events st) /\
                Forall (spawned spec rng event) added.
Proof.
  intros H. unfold handlePurchase, purchaseOffchain in H.
  exec H; sim_read events;
    repeat match goal with
      | |- context [if ?c then _ else _] => destruct c
      end;
    first [ exists (@nil SimulationEvent); split; [reflexivity | constructor]
          | eexists [_]; split; [reflexivity|]; forall_spawned
          | eexists [_; _]; split; [reflexivity|]; forall_spawned ].
Qed.

Lemma handleCompletion_events (fuel : nat) (spec : SimulationSpec) (rng : RNG)
    (event : SimulationEvent) (st : Sim) (n : nat)
    (st' : Sim) (b : Branch) (n' : nat) :
  handleCompletion fuel spec rng event st n = Some ((st', b), n') ->
  exists added, events st' = pushed added (events st) /\
                Forall (spawned spec rng event) added.
Proof.
  intros H. unfold handleCompletion in H.
  exec H; sim_read events.
  eexists [_]; split; [reflexivity|]; forall_spawned.
Qed.

Lemma handleHoldExpiry_events (event : SimulationEvent) (st : Sim) :
  events (handleHoldExpiry event st) = events st.
Proof.
  unfold handleHoldExpiry. destruct (holdByTxn st !! txnId event);
    sim_read events; reflexivity.
Qed.

Lemma handleSettlement_events (spec : SimulationSpec) (binSize : R)
    (event : SimulationEvent) (st : Sim) :
  events (fst (handleSettlement spec binSize event st)) = events st.
Proof.
  unfold handleSettlement, settleOnChain, settleOffchain. cbv zeta.
  repeat match goal with
         | |- context [match ?c with _ => _ end] => destruct c
         end; cbn [fst]; sim_read events; reflexivity.
Qed.

(** The events in the queue after an event was handled: those that were
    there and those the handler scheduled. *)
Lemma handleEvent_events (fuel : nat) (spec : SimulationSpec) (rng : RNG)
    (binSize : R) (event : SimulationEvent) (st : Sim) (n : nat)
    (st' : Sim) (b : Branch) (n' : nat) :
  handleEvent fuel spec rng binSize event st n = Some ((st', b), n') ->
  exists added, events st' = pushed added (events st) /\
                Forall (spawned spec rng event) added.
Proof.
  intros H. unfold handleEvent in H. destruct (etype event).
  - apply (handlePurchase_events _ _ _ _ _ _ _ _ _ _ H).
  - unfold ret in H. injection H as H _.
    exists []. split; [|constructor].
    rewrite <- (handleSettlement_events spec binSize event st), H. reflexivity.
  - unfold ret in H. injection H as <- _ _.
    exists []. split; [|constructor]. apply handleHoldExpiry_events.
  - apply (handleCompletion_events _ _ _ _ _ _ _ _ _ H).
Qed.

(** ** Invariants of the event loop *)

(** A property that every iteration of the loop keeps holds after any
    number of iterations. *)
Lemma runEvents_invariant (I : Sim -> Log -> Prop) (fuel : nat)
    (spec : SimulationSpec) (rng : RNG) (binSize : R) :
  (forall st log event rest n st' b n',
      I st log ->
      MinHeap.pop (events st) = Some (event, rest) ->
      handleEvent fuel spec rng binSize event (upd_events (fun _ => rest) st) n
      = Some ((st', b), n') ->
      I st' (log ++ [(event, b)])) ->
  forall k st log n st' log' n',
    I st log ->
    runEvents k fuel spec rng binSize st log n = Some ((st', log'), n') ->
    I st' log'.
Proof.
  intros Hstep. induction k as [|k IH]; intros st log n st' log' n' HI H.
  - simpl in H. unfold ret in H. injection H as <- <- _. exact HI.
  - simpl in H. destruct (MinHeap.pop (events st)) as [[event rest]|] eqn:Hpop.
    + apply bind_Some in H. destruct H as ([st1 b] & n1 & Hh & H).
      apply (IH _ _ _ _ _ _ (Hstep _ _ _ _ _ _ _ _ HI Hpop Hh) H).
    + unfold ret in H. injection H as <- <- _. exact HI.
Qed.

(** The two phases of a run prefix. *)
Lemma runPrefix_phases (k fuel : nat) (spec : SimulationSpec)
    (baseSeed : string) (runIndex : nat) (st : Sim) (binSize : R) (log : Log) :
  runPrefix k fuel spec baseSeed runIndex = Some (st, binSize, log) ->
  exists st0 n0 n',
    startRun fuel spec (createRng (runSeed baseSeed runIndex)) 0%nat
    = Some ((st0, binSize), n0) /\
    runEvents k fuel spec (createRng (runSeed baseSeed runIndex)) binSize st0 [] n0
    = Some ((st, log), n').
Proof.
  unfold runPrefix. cbv zeta.
  set (rng := createRng (runSeed baseSeed runIndex)).
  destruct (bind _ _ _) as [[x n']|] eqn:H; [|discriminate].
  intros Hx. injection Hx as ->.
  apply bind_Some in H. destruct H as ([st0 b0] & n0 & Hs & H).
  apply bind_Some in H. destruct H as ([st1 log1] & n1 & Hr & H).
  unfold ret in H. cbn [fst snd] in H, Hr. injection H as -> -> -> _.
  exists st0, n0, n1. auto.
Qed.

(** *** The state after the bootstrap *)

Lemma booked_push (owner : nat -> nat) (N txn : nat) (q : MinHeap.t)
    (t a : R) (u : nat) :
  booked owner N txn q -> 0 <= a -> (u < N)%nat ->
  booked (fun k => if (k =? txn)%nat then u else owner k) N (S txn)
    (MinHeap.push q
       {| timeSec := t; etype := purchase; userId := u; txnId := txn;
          amount := a; relatedAmount := None; ev_settlement := None;
          isFraud := None |}).
Proof.
  intros [Hh Hq] Ha Hu. split; [apply HeapFacts.push_heap; exact Hh|].
  rewrite HeapFacts.push_perm. constructor.
  - simpl. rewrite Nat.eqb_refl. repeat split; [exact Ha | lia | exact Hu].
  - eapply Forall_impl; [exact Hq|]. intros e (He & Hn & Hea & Hlt & Ho & Hr).
    repeat split; [exact He | exact Hn | exact Hea | lia | | exact Hr].
    destruct (Nat.eqb_spec (txnId e) txn); [lia | exact Ho].
Qed.

Lemma purchaseTimeline_booked (fuelS : nat) (spec : SimulationSpec) (rng : RNG)
    (horizonSec : R) (N u : nat) :
  (u < N)%nat ->
  forall fuel t q txn n q' txn' n' owner,
    booked owner N txn q ->
    purchaseTimeline fuel fuelS spec rng horizonSec u t q txn n
    = Some ((q', txn'), n') ->
    exists owner', booked owner' N txn' q'.
Proof.
  intros Hu.
  induction fuel as [|fuel IH]; intros t q txn n q' txn' n' owner Hb H;
    [discriminate|].
  cbn [purchaseTimeline] in H. destruct (t <? horizonSec).
  - apply bind_Some in H. destruct H as (inter & n1 & _ & H).
    destruct inter as [i|].
    + destruct (horizonSec <? t + i).
      * unfold ret in H. injection H as <- <- _. exists owner. exact Hb.
      * apply bind_Some in H. destruct H as (a & n2 & Ha & H).
        apply sampleDistribution_nonneg in Ha.
        eapply IH; [|exact H]. apply booked_push; [exact Hb | exact Ha | exact Hu].
    + unfold ret in H. injection H as <- <- _. exists owner. exact Hb.
  - unfold ret in H. injection H as <- <- _. exists owner. exact Hb.
Qed.

Lemma bootstrap_booked (fuel : nat) (spec : SimulationSpec) (rng : RNG)
    (horizonSec : R) (N : nat) :
  forall us bals q txn n bals' q' txn' n' owner,
    Forall (fun u => (u < N)%nat) us ->
    booked owner N txn q ->
    bootstrap fuel spec rng horizonSec us bals q txn n
    = Some ((bals', q', txn'), n') ->
    exists owner', booked owner' N txn' q'.
Proof.
  induction us as [|u us IH]; intros bals q txn n bals' q' txn' n' owner Hus Hb H.
  - simpl in H. unfold ret in H. injection H as _ <- <- _. exists owner. exact Hb.
  - simpl in H. inversion Hus as [|? ? Hu Hus']; subst.
    apply bind_Some in H. destruct H as (b & n1 & _ & H).
    apply bind_Some in H. destruct H as ([q1 txn1] & n2 & Ht & H).
    destruct (purchaseTimeline_booked _ _ _ _ _ _ Hu _ _ _ _ _ _ _ _ _ Hb Ht)
      as [owner1 Hb1].
    cbn [fst snd] in H. eapply IH; [exact Hus' | exact Hb1 | exact H].
Qed.

Lemma startRun_initial (fuel : nat) (spec : SimulationSpec) (rng : RNG)
    (n : nat) (st0 : Sim) (binSize : R) (n0 : nat) :
  startRun fuel spec rng n = Some ((st0, binSize), n0) ->
  exists bals q series owner txn,
    st0 = initialSim spec bals q series /\
    booked owner (users (userModel spec)) txn q.
Proof.
  unfold startRun. cbv zeta. intros H.
  apply bind_Some in H. destruct H as ([[bals q] txn] & n1 & Hb & H).
  destruct (initTimeSeries (horizonHours spec * 3600) 120) as [series bs].
  unfold ret in H. injection H as <- <- _.
  assert (H0 : booked (fun _ => 0%nat) (users (userModel spec)) 0 MinHeap.empty).
  { split; [apply HeapFacts.heap_ok_nil | constructor]. }
  assert (Hus : Forall (fun u => (u < users (userModel spec))%nat)
                       (seq 0 (users (userModel spec)))).
  { rewrite Forall_forall. intros u Hu. apply list_elem_of_In, in_seq in Hu. lia. }
  destruct (bootstrap_booked _ _ _ _ _ _ _ _ _ _ _ _ _ _ _ Hus H0 Hb) as [owner Hq].
  exists bals, q, series, owner, txn. auto.
Qed.

(** ** Exposure windows *)

Section ExposureInvariant.

Variable spec : SimulationSpec.
Variable rng : RNG.
Hypothesis rng_unit : unit_range rng.



End ExposureInvariant.



(** ** The order of the popped events *)


Section OrderInvariant.

Variable spec : SimulationSpec.
Variable rng : RNG.
Hypothesis rng_unit : unit_range rng.
Hypothesis hold_nonneg : 0 <= holdDurationSec (holds spec).
Hypothesis timing : settlement_timing_nonneg (stellar spec) (outage spec).


End OrderInvariant.


(** ** The hold totals *)

Lemma heldBy_empty (u : nat) : heldBy ∅ u = 0.
Proof. unfold heldBy. apply map_fold_empty. Qed.

Lemma heldBy_insert_fresh (m : gmap nat Hold) (k : nat) (h : Hold) (u : nat) :
  m !! k = None -> heldBy (<[k := h]> m) u = heldBy m u + contrib u h.
Proof.
  intros Hk. unfold heldBy.
  rewrite map_fold_insert_L; [reflexivity | | exact Hk].
  intros; lra.
Qed.

Lemma heldBy_delete (m : gmap nat Hold) (k : nat) (h : Hold) (u : nat) :
  m !! k = Some h -> heldBy m u = heldBy (delete k m) u + contrib u h.
Proof.
  intros Hk. unfold heldBy.
  rewrite (map_fold_delete_L _ _ k h m); [reflexivity | | exact Hk].
  intros; lra.
Qed.

Lemma heldBy_nonneg (m : gmap nat Hold) (u : nat) :
  (forall k h, m !! k = Some h -> 0 <= hold_amount h) -> 0 <= heldBy m u.
Proof.
  induction m as [|k h m Hk IH] using map_ind; intros Hall.
  - rewrite heldBy_empty. lra.
  - rewrite heldBy_insert_fresh by exact Hk.
    assert (0 <= heldBy m u).
    { apply IH. intros k' h' Hk'. apply (Hall k' h').
      rewrite lookup_insert_ne; [exact Hk'|]. intros ->. congruence. }
    assert (0 <= hold_amount h) by (apply (Hall k h), lookup_insert_eq).
    unfold contrib. destruct (hold_userId h =? u)%nat; lra.
Qed.

Lemma heldBy_insert_le (m : gmap nat Hold) (k : nat) (h : Hold) (u : nat) :
  (forall k h, m !! k = Some h -> 0 <= hold_amount h) ->
  heldBy (<[k := h]> m) u <= heldBy m u + contrib u h.
Proof.
  intros Hall. destruct (m !! k) as [h0|] eqn:Hk.
  - rewrite <- insert_delete_eq.
    rewrite heldBy_insert_fresh by apply lookup_delete_eq.
    rewrite (heldBy_delete m k h0 u Hk).
    specialize (Hall k h0 Hk).
    assert (0 <= contrib u h0)
      by (unfold contrib; destruct (hold_userId h0 =? u)%nat; lra).
    lra.
  - rewrite heldBy_insert_fresh by exact Hk. lra.
Qed.

Lemma handlePurchase_holds (fuel : nat) (spec : SimulationSpec) (rng : RNG)
    (binSize : R) (event : SimulationEvent) (st : Sim) (n : nat)
    (st' : Sim) (b : Branch) (n' : nat) :
  0 <= amount event ->
  handlePurchase fuel spec rng binSize event st n = Some ((st', b), n') ->
  hold_effect (userId event) (txnId event) (holdTotals st) (holdByTxn st)
    (holdTotals st') (holdByTxn st').
Proof.
  intros Ha H. unfold handlePurchase, purchaseOffchain in H.
  exec H; sim_read holdTotals; sim_read holdByTxn;
    repeat match goal with
      | |- context [if ?c then _ else _] => destruct c
      end;
    first [ apply he_none
          | apply he_place; cbn [fst]; sample_facts; nra ].
Qed.

Lemma handleCompletion_holds (fuel : nat) (spec : SimulationSpec) (rng : RNG)
    (event : SimulationEvent) (st : Sim) (n : nat)
    (st' : Sim) (b : Branch) (n' : nat) :
  handleCompletion fuel spec rng event st n = Some ((st', b), n') ->
  hold_effect (userId event) (txnId event) (holdTotals st) (holdByTxn st)
    (holdTotals st') (holdByTxn st').
Proof.
  intros H. unfold handleCompletion in H.
  exec H; sim_read holdTotals; sim_read holdByTxn.
  destruct (Rlt_bool_spec 0
              (amount event - default (amount event) (relatedAmount event)))
    as [Hpos|_]; cbn [andb]; [|apply he_none].
  repeat match goal with
    | |- context [if ?c then _ else _] => destruct c
    end;
    first [ apply he_none | apply he_incr; lra ].
Qed.

Lemma handleHoldExpiry_holds (event : SimulationEvent) (st : Sim) :
  hold_effect (userId event) (txnId event) (holdTotals st) (holdByTxn st)
    (holdTotals (handleHoldExpiry event st))
    (holdByTxn (handleHoldExpiry event st)).
Proof.
  unfold handleHoldExpiry, releaseHold.
  destruct (holdByTxn st !! txnId event) as [h|] eqn:Hh; [|apply he_none].
  sim_read holdTotals; sim_read holdByTxn.
  apply he_release; [exact Hh | right; reflexivity].
Qed.

Lemma handleSettlement_holds (spec : SimulationSpec) (binSize : R)
    (event : SimulationEvent) (st : Sim) :
  hold_effect (userId event) (txnId event) (holdTotals st) (holdByTxn st)
    (holdTotals (fst (handleSettlement spec binSize event st)))
    (holdByTxn (fst (handleSettlement spec binSize event st))).
Proof.
  unfold handleSettlement, settleOnChain, settleOffchain, releaseHold. cbv zeta.
  destruct (ev_settlement event) as [s|]; [|apply he_none].
  destruct (mode spec).
  - destruct (authContext st !! txnId event); [|apply he_none].
    repeat match goal with
      | |- context [if ?c then _ else _] => destruct c
      end; cbn [fst]; sim_read holdTotals; sim_read holdByTxn; apply he_none.
  - destruct (holdByTxn st !! txnId event) as [h|] eqn:Hh; cbn [fst];
      sim_read holdTotals; sim_read holdByTxn;
      repeat match goal with
        | |- context [if ?c then _ else _] => destruct c
        end;
      first [ apply he_none
            | apply he_release; [exact Hh | left; reflexivity] ].
Qed.

Lemma handleEvent_holds (fuel : nat) (spec : SimulationSpec) (rng : RNG)
    (binSize : R) (event : SimulationEvent) (st : Sim) (n : nat)
    (st' : Sim) (b : Branch) (n' : nat) :
  (etype event = purchase -> 0 <= amount event) ->
  handleEvent fuel spec rng binSize event st n = Some ((st', b), n') ->
  hold_effect (userId event) (txnId event) (holdTotals st) (holdByTxn st)
    (holdTotals st') (holdByTxn st').
Proof.
  intros Ha H. unfold handleEvent in H. destruct (etype event).
  - apply (handlePurchase_holds _ _ _ _ _ _ _ _ _ _ (Ha eq_refl) H).
  - unfold ret in H. injection H as H _.
    pose proof (handleSettlement_holds spec binSize event st) as He.
    rewrite H in He. exact He.
  - unfold ret in H. injection H as <- _ _. apply handleHoldExpiry_holds.
  - apply (handleCompletion_holds _ _ _ _ _ _ _ _ _ H).
Qed.

Lemma readNum_insert (l : list R) (i j : nat) (x : R) :
  (i < length l)%nat ->
  readNum (<[i := x]> l) j = if (i =? j)%nat then x else readNum l j.
Proof.
  intros Hi. unfold readNum. destruct (Nat.eqb_spec i j) as [->|Hne].
  - rewrite list_lookup_insert_eq by exact Hi. reflexivity.
  - rewrite list_lookup_insert_ne by exact Hne. reflexivity.
Qed.

Section HoldInvariant.

Variable spec : SimulationSpec.
Variable owner : nat -> nat.

Lemma hold_effect_inv (u txn : nat) (ht : list R) (hb : gmap nat Hold)
    (ht' : list R) (hb' : gmap nat Hold) :
  hold_effect u txn ht hb ht' hb' ->
  u = owner txn -> (u < length ht)%nat ->
  (forall k h, hb !! k = Some h -> 0 <= hold_amount h /\ hold_userId h = owner k) ->
  (forall v, heldBy hb v <= readNum ht v) ->
  length ht' = length ht /\
  (forall k h, hb' !! k = Some h -> 0 <= hold_amount h /\ hold_userId h = owner k) /\
  (forall v, heldBy hb' v <= readNum ht' v).
Proof.
  intros He Hu Hlt Hall Hsum.
  assert (Hamt : forall k h, hb !! k = Some h -> 0 <= hold_amount h)
    by (intros k h Hk; apply (Hall k h Hk)).
  destruct He as [|a t Ha|d Hd|u' h Hh Hu'].
  - auto.
  - split; [apply length_insert|]. split.
    + intros k h Hk. destruct (Nat.eq_dec txn k) as [<-|Hne].
      * rewrite lookup_insert_eq in Hk. injection Hk as <-. simpl. auto.
      * rewrite lookup_insert_ne in Hk by exact Hne. apply (Hall k h Hk).
    + intros v. rewrite readNum_insert by exact Hlt.
      pose proof (heldBy_insert_le hb txn
                    {| hold_userId := u; hold_amount := a; approvalTime := t |}
                    v Hamt) as Hle.
      specialize (Hsum v). unfold contrib in Hle. cbn [hold_userId hold_amount] in Hle.
      destruct (Nat.eqb_spec u v) as [->|Hne]; lra.
  - split; [apply length_insert|]. split; [exact Hall|].
    intros v. rewrite readNum_insert by exact Hlt. specialize (Hsum v).
    destruct (Nat.eqb_spec u v) as [->|Hne]; lra.
  - destruct (Hall txn h Hh) as [Hh0 Hown].
    assert (u' = u) as -> by (destruct Hu'; congruence).
    split; [apply length_insert|]. split.
    + intros k h' Hk. apply lookup_delete_Some in Hk. apply (Hall k h' (proj2 Hk)).
    + intros v. rewrite readNum_insert by exact Hlt.
      specialize (Hsum v). rewrite (heldBy_delete hb txn h v Hh) in Hsum.
      unfold contrib in Hsum. rewrite Hown, <- Hu in Hsum.
      destruct (Nat.eqb_spec u v) as [->|Hne]; lra.
Qed.

Lemma hold_inv_step (fuel : nat) (rng : RNG) (binSize : R) (st : Sim)
    (log : Log) (event : SimulationEvent) (rest : MinHeap.t) (n : nat)
    (st' : Sim) (b : Branch) (n' : nat) :
  hold_inv spec owner st log ->
  MinHeap.pop (events st) = Some (event, rest) ->
  handleEvent fuel spec rng binSize event (upd_events (fun _ => rest) st) n
  = Some ((st', b), n') ->
  hold_inv spec owner st' (log ++ [(event, b)]).
Proof.
  intros (Hlen & Hall & Hsum & Hev) Hpop Hh.
  pose proof (HeapFacts.pop_perm _ _ _ Hpop) as Hperm.
  rewrite Hperm in Hev. inversion Hev as [|? ? (Hown & Hrange & Hamt) Hrest]; subst.
  destruct (handleEvent_events _ _ _ _ _ _ _ _ _ _ Hh) as (added & Hq & Hadd).
  apply handleEvent_holds in Hh; [|exact Hamt].
  cbn [events holdTotals holdByTxn upd_events] in Hh, Hq.
  destruct (hold_effect_inv _ _ _ _ _ _ Hh Hown ltac:(lia) Hall Hsum)
    as (Hlen' & Hall' & Hsum').
  unfold hold_inv. split; [lia|]. split; [exact Hall'|]. split; [exact Hsum'|].
  rewrite Hq, pushed_perm. apply Forall_app. split; [|exact Hrest].
  eapply Forall_impl; [exact Hadd|]. intros e (Htxn & Huser & Hty & _).
  rewrite Htxn, Huser. split; [exact Hown|]. split; [exact Hrange|].
  intros He. contradiction.
Qed.

End HoldInvariant.

(** In exact arithmetic the hold totals stay at or above zero: at every point
    of a run of [simulateOnce], that is after any number [k] of iterations
    of the event loop, the hold total of every user is greater than or equal
    to zero (it is at least the sum of the amounts of the holds outstanding).
    This is the reading of the numbers as reals; in double precision the
    total can end below zero (module [F64]). *)
Lemma hold_totals_nonneg_exact (k fuel : nat) (spec : SimulationSpec)
    (baseSeed : string) (runIndex : nat) (st : Sim) (binSize : R) (log : Log)
    (u : nat) :
  runPrefix k fuel spec baseSeed runIndex = Some (st, binSize, log) ->
  0 <= readNum (holdTotals st) u.
Proof.
  intros H.
  destruct (runPrefix_phases _ _ _ _ _ _ _ _ H) as (st0 & n0 & n' & Hs & Hr).
  destruct (startRun_initial _ _ _ _ _ _ _ Hs)
    as (bals & q & series & owner & txn & -> & Hq).
  set (rng := createRng (runSeed baseSeed runIndex)) in *.
  assert (Hinv : hold_inv spec owner st log).
  { refine (runEvents_invariant (hold_inv spec owner) fuel spec rng binSize
              (fun st log e rest n st' b n' =>
                 hold_inv_step spec owner fuel rng binSize st log e rest n st' b n')
              k _ _ _ _ _ _ _ Hr).
    unfold hold_inv, initialSim. cbn [holdTotals holdByTxn events].
    split; [apply length_replicate|].
    split; [intros k0 h Hk; rewrite lookup_empty in Hk; discriminate|].
    split.
    - intros v. rewrite heldBy_empty. unfold readNum.
      destruct (replicate _ _ !! v) as [x|] eqn:Hx; [|simpl; lra].
      apply lookup_replicate in Hx. destruct Hx as [-> _]. simpl. lra.
    - eapply Forall_impl; [exact (proj2 Hq)|].
      intros e (_ & _ & Ha & _ & Ho & Hr'). auto. }
  destruct Hinv as (_ & Hall & Hsum & _).
  specialize (Hsum u).
  assert (0 <= heldBy (holdByTxn st) u)
    by (apply heldBy_nonneg; intros k0 h Hk; apply (Hall k0 h Hk)).
  lra.
Qed.

(** ** The count of the purchases *)

Section Counts.

Local Open Scope nat_scope.

Lemma sumOver_app {A} (f : A -> nat) (l1 l2 : list A) :
  sumOver f (l1 ++ l2) = sumOver f l1 + sumOver f l2.
Proof. induction l1 as [|x l1 IH]; simpl; [reflexivity | rewrite IH; lia]. Qed.

Lemma sumOver_perm {A} (f : A -> nat) (l1 l2 : list A) :
  l1 ≡ₚ l2 -> sumOver f l1 = sumOver f l2.
Proof. induction 1; simpl; lia. Qed.

Lemma length_push {A} (x : A) (l : list A) : length (push x l) = S (length l).
Proof. unfold push. rewrite length_app. simpl. lia. Qed.

Ltac count_reads :=
  unfold decided;
  sim_read approvals; sim_read declines; sim_read timeouts;
  sim_read insufficientFundsSkipped.

Ltac split_ifs :=
  repeat match goal with
    | |- context [if ?c then _ else _] => destruct c
    end.

(** A purchase ends in exactly one way; on chain it is deferred to a
    settlement event for which a context is kept. *)
Lemma handlePurchase_counts (fuel : nat) (spec : SimulationSpec) (rng : RNG)
    (binSize : R) (event : SimulationEvent) (st : Sim) (n : nat)
    (st' : Sim) (b : Branch) (n' : nat) :
  handlePurchase fuel spec rng binSize event st n = Some ((st', b), n') ->
  decided st' = decided st + counted b /\
  counted b + deferred b + dropped b = 1 /\
  (mode spec = offchain_hold -> deferred b = 0) /\
  (mode spec = wait_on_chain ->
   (forall k, is_Some (authContext st !! k) -> is_Some (authContext st' !! k)) /\
   ((deferred b = 0 /\ events st' = events st) \/
    (deferred b = 1 /\
     exists e, events st' = MinHeap.push (events st) e /\
               etype e = settlement /\ is_Some (ev_settlement e) /\
               is_Some (authContext st' !! txnId e)))).
Proof.
  intros H. unfold handlePurchase, purchaseOffchain in H.
  exec H;
    (split; [count_reads; split_ifs; rewrite ?length_push; simpl; lia|]);
    (split; [reflexivity|]);
    (split; [intros Hm; first [reflexivity | congruence]|]);
    intros Hm; try congruence;
    (split; [intros k Hk; sim_read authContext; split_ifs;
             rewrite ?lookup_insert_is_Some'; auto|]);
    first [ left; split; [reflexivity|]; sim_read events; split_ifs; reflexivity
          | right; split; [reflexivity|]; eexists; sim_read events;
            sim_read authContext; split_ifs;
            (split; [reflexivity|]); cbn [etype ev_settlement txnId];
            rewrite ?lookup_insert_is_Some'; auto ].
Qed.

Lemma handleCompletion_counts (fuel : nat) (spec : SimulationSpec) (rng : RNG)
    (event : SimulationEvent) (st : Sim) (n : nat)
    (st' : Sim) (b : Branch) (n' : nat) :
  handleCompletion fuel spec rng event st n = Some ((st', b), n') ->
  decided st' = decided st /\ b = CompletionDone.
Proof.
  intros H. unfold handleCompletion in H.
  exec H. split; [|reflexivity].
  count_reads; split_ifs; reflexivity.
Qed.

Lemma handleHoldExpiry_counts (event : SimulationEvent) (st : Sim) :
  decided (handleHoldExpiry event st) = decided st.
Proof.
  unfold handleHoldExpiry. destruct (holdByTxn st !! txnId event);
    count_reads; reflexivity.
Qed.

(** A settlement event changes the counts on chain only, where it decides
    the purchase it belongs to. *)
Lemma handleSettlement_counts (spec : SimulationSpec) (binSize : R)
    (event : SimulationEvent) (st : Sim) :
  let r := handleSettlement spec binSize event st in
  decided (fst r) = decided st + counted (snd r) /\
  deferred (snd r) = 0 /\ dropped (snd r) = 0 /\
  authContext (fst r) = authContext st /\
  (mode spec = offchain_hold -> counted (snd r) = 0) /\
  (mode spec = wait_on_chain -> is_Some (ev_settlement event) ->
   is_Some (authContext st !! txnId event) -> counted (snd r) = 1).
Proof.
  unfold handleSettlement, settleOnChain, settleOffchain. cbv zeta.
  destruct (ev_settlement event) as [s|].
  2:{ cbn [fst snd]. cbn [counted]. repeat split; try reflexivity; try lia.
      intros _ [? Hs] _. discriminate Hs. }
  destruct (mode spec).
  - destruct (authContext st !! txnId event) as [ctx|].
    2:{ cbn [fst snd]. cbn [counted]. repeat split; try reflexivity; try lia.
        intros _ _ [? Hc]. discriminate Hc. }
    split_ifs; cbn [fst snd];
      (split; [count_reads; split_ifs; rewrite ?length_push; simpl; lia|]);
      (split; [reflexivity|]); (split; [reflexivity|]);
      (split; [sim_read authContext; split_ifs; reflexivity|]);
      (split; [intros Hm; discriminate Hm | reflexivity]).
  - cbn [fst snd].
    split; [destruct (holdByTxn st !! txnId event);
            count_reads; split_ifs; simpl; lia|].
    split; [reflexivity|]. split; [reflexivity|].
    split; [destruct (holdByTxn st !! txnId event);
            sim_read authContext; split_ifs; reflexivity|].
    split; [reflexivity | intros Hm; discriminate Hm].
Qed.

Section CountInvariant.

Variable spec : SimulationSpec.

Lemma count_inv_step (fuel : nat) (rng : RNG) (binSize : R) (st : Sim)
    (log : Log) (event : SimulationEvent) (rest : MinHeap.t) (n : nat)
    (st' : Sim) (b : Branch) (n' : nat) :
  count_inv spec st log ->
  MinHeap.pop (events st) = Some (event, rest) ->
  handleEvent fuel spec rng binSize event (upd_events (fun _ => rest) st) n
  = Some ((st', b), n') ->
  count_inv spec st' (log ++ [(event, b)]).
Proof.
  intros [Hsum Hq] Hpop Hh.
  pose proof (HeapFacts.pop_perm _ _ _ Hpop) as Hperm.
  unfold count_inv, purchasesDropped, purchasesPopped, pending in *.
  rewrite !sumOver_app. cbn [sumOver fold_right fst snd].
  unfold settlementsQueued in *.
  rewrite (sumOver_perm _ _ _ Hperm) in Hsum. cbn [sumOver fold_right] in Hsum.
  fold (sumOver (fun e => isSettlement (etype e)) rest) in Hsum.
  assert (Hq' : mode spec = wait_on_chain ->
                onChainEvent st event /\ Forall (onChainEvent st) rest).
  { intros Hm. specialize (Hq Hm). rewrite Hperm in Hq.
    inversion Hq; subst; auto. }
  unfold handleEvent in Hh. destruct (etype event) eqn:Hty.
  - (* purchase *)
    apply handlePurchase_counts in Hh.
    destruct Hh as (Hd & Hone & Hoff & Hon).
    unfold decided in Hd. cbn [approvals declines timeouts insufficientFundsSkipped
                                 upd_events] in Hd.
    fold (decided st) in Hd. fold (decided st') in Hd.
    cbn [isPurchase isSettlement] in *.
    destruct (mode spec) eqn:Hm.
    + destruct (Hon eq_refl) as [Hctx Hev]. destruct (Hq' eq_refl) as [_ Hrest].
      cbn [events authContext upd_events] in Hctx, Hev.
      assert (Hrest' : Forall (onChainEvent st') rest).
      { eapply Forall_impl; [exact Hrest|]. intros e [He|(He & Hs & Hc)];
          [left; exact He | right; auto]. }
      destruct Hev as [[Hdef ->]|(Hdef & e & -> & He & Hs & Hc)].
      * split; [lia | intros _; exact Hrest'].
      * rewrite (sumOver_perm _ _ _ (HeapFacts.push_perm _ _)).
        cbn [sumOver fold_right]. rewrite He. cbn [isSettlement].
        fold (sumOver (fun e => isSettlement (etype e)) rest).
        split; [lia|]. intros _. rewrite HeapFacts.push_perm.
        constructor; [right; auto | exact Hrest'].
    + specialize (Hoff eq_refl). split; [lia | intros Hc; discriminate Hc].
  - (* settlement *)
    unfold ret in Hh. injection Hh as Hh _.
    pose proof (handleSettlement_counts spec binSize event
                  (upd_events (fun _ => rest) st)) as Hc.
    pose proof (handleSettlement_events spec binSize event
                  (upd_events (fun _ => rest) st)) as He.
    rewrite Hh in Hc, He. cbn [fst snd] in Hc, He. cbv zeta in Hc.
    destruct Hc as (Hd & Hdef & Hdrop & Hctx & Hoff & Hon).
    unfold decided in Hd. cbn [approvals declines timeouts insufficientFundsSkipped
                                 upd_events] in Hd.
    fold (decided st) in Hd. fold (decided st') in Hd.
    cbn [events authContext upd_events] in He, Hctx, Hon.
    cbn [isPurchase isSettlement] in *. rewrite He.
    destruct (mode spec) eqn:Hm.
    + destruct (Hq' eq_refl) as [[Hp|(_ & Hs & Hc)] Hrest]; [congruence|].
      specialize (Hon eq_refl Hs Hc).
      fold (sumOver (fun e => isSettlement (etype e)) rest).
      split; [lia|]. intros _.
      eapply Forall_impl; [exact Hrest|]. unfold onChainEvent. rewrite Hctx. auto.
    + specialize (Hoff eq_refl). split; [lia | intros Hc; discriminate Hc].
  - (* hold expiry *)
    unfold ret in Hh. injection Hh as <- <- _.
    destruct (mode spec) eqn:Hm.
    + destruct (Hq' eq_refl) as [[Hp|(Hs & _)] _]; congruence.
    + pose proof (handleHoldExpiry_counts event (upd_events (fun _ => rest) st)) as Hd.
      unfold decided in Hd at 2.
      cbn [approvals declines timeouts insufficientFundsSkipped upd_events] in Hd.
      fold (decided st) in Hd. cbn [isPurchase dropped].
      split; [lia | intros Hc; discriminate Hc].
  - (* completion *)
    destruct (mode spec) eqn:Hm.
    + destruct (Hq' eq_refl) as [[Hp|(Hs & _)] _]; congruence.
    + apply handleCompletion_counts in Hh. destruct Hh as [Hd ->].
      unfold decided in Hd at 2.
      cbn [approvals declines timeouts insufficientFundsSkipped upd_events] in Hd.
      fold (decided st) in Hd. cbn [isPurchase dropped].
      split; [lia | intros Hc; discriminate Hc].
Qed.

End CountInvariant.

(** C2 (amended): at the end of every run of [simulateOnce], the entries of
    approvals, declines and timeouts are as many as the purchase events
    popped, less the purchases skipped for insufficient funds (those counted
    by [insufficientFundsSkipped] and those dropped because the user had no
    available balance).  The fraud attempts declined before any latency are
    among the declines: they are not subtracted. *)
Theorem decided_purchases_conservation (fuel : nat) (spec : SimulationSpec)
    (baseSeed : string) (runIndex : nat) (st : Sim) (binSize : R) (log : Log) :
  simulateOnceTrace fuel spec baseSeed runIndex = Some (st, binSize, log) ->
  let m := run_metrics (finishRun binSize st) in
  m_approvals m + m_declines m + m_timeouts m
  + (m_insufficientFundsSkipped m + purchasesDropped log)
  = purchasesPopped log.
Proof.
  unfold simulateOnceTrace. intros H.
  destruct (runPrefix fuel fuel spec baseSeed runIndex) as [[[st1 b1] log1]|] eqn:Hp;
    [|discriminate].
  destruct (events st1) as [|e q] eqn:Hq; [|discriminate].
  injection H as -> -> ->.
  destruct (runPrefix_phases _ _ _ _ _ _ _ _ Hp) as (st0 & n0 & n' & Hs & Hr).
  destruct (startRun_initial _ _ _ _ _ _ _ Hs)
    as (bals & q & series & owner & txn & -> & Hb).
  set (rng := createRng (runSeed baseSeed runIndex)) in *.
  assert (Hinv : count_inv spec st log).
  { refine (runEvents_invariant (count_inv spec) fuel spec rng binSize
              (fun st log e rest n st' b n' =>
                 count_inv_step spec fuel rng binSize st log e rest n st' b n')
              fuel _ _ _ _ _ _ _ Hr).
    assert (Hpur : Forall (fun e => etype e = purchase) q).
    { eapply Forall_impl; [exact (proj2 Hb)|]. intros e (He & _). exact He. }
    split.
    - unfold decided, pending, initialSim, purchasesDropped, purchasesPopped.
      cbn [approvals declines timeouts insufficientFundsSkipped events length sumOver
           fold_right].
      destruct (mode spec); [|reflexivity].
      unfold settlementsQueued. clear - Hpur.
      induction Hpur as [|e q He _ IH]; [reflexivity|].
      cbn [sumOver fold_right]. rewrite He. exact IH.
    - intros _. cbn [events initialSim].
      eapply Forall_impl; [exact Hpur|]. intros e He. left. exact He. }
  destruct Hinv as [Hsum _].
  unfold pending in Hsum. rewrite Hq in Hsum.
  unfold decided in Hsum. cbv zeta. cbn [run_metrics finishRun m_approvals m_declines
    m_timeouts m_insufficientFundsSkipped].
  destruct (mode spec); cbn [settlementsQueued sumOver fold_right] in Hsum; lia.
Qed.

End Counts.

(** ** Runs of a scenario with one purchase *)

Ltac rng_value :=
  unfold probeRng, createRng, mulberry32; cbv zeta;
  match goal with
  | |- context [IZR (Rng.mulberry32_out ?c)] =>
      let v := eval vm_compute in (Rng.mulberry32_out c) in
      change (Rng.mulberry32_out c) with v
  end.

Lemma exp_1_gt_2 : 2 < exp 1.
Proof. pose proof (exp_ineq1 1). lra. Qed.

Lemma ln_half_lower : -1 < ln (1 / 2).
Proof.
  replace (-1) with (- (1)) by lra.
  rewrite <- (ln_exp (- (1))). apply ln_increasing; [apply exp_pos|].
  rewrite exp_Ropp. pose proof exp_1_gt_2.
  apply Rmult_lt_reg_r with (exp 1); [apply exp_pos|].
  rewrite Rinv_l by (pose proof (exp_pos 1); lra). lra.
Qed.

Lemma ln_third_upper : ln (1 / 3) <= -1.
Proof.
  replace (-1) with (- (1)) by lra.
  rewrite <- (ln_exp (- (1))). apply ln_le_mono; [lra|].
  rewrite exp_Ropp. pose proof exp_le_3. pose proof (exp_pos 1).
  apply Rmult_le_reg_r with (exp 1); [assumption|].
  rewrite Rinv_l by lra. lra.
Qed.

(** A draw of 1/2 or more gives an inter-arrival time below the hour. *)
Lemma interarrival_short (u : R) :
  1 / 2 <= u < 1 -> 0 <= - ln (Rmax u 1e-12) / (1 / 3600) < 3600.
Proof.
  intros [Hlo Hhi]. rewrite Rmax_left by lra.
  assert (ln (1 / 2) <= ln u) by (apply ln_le_mono; lra).
  assert (ln u <= ln 1) by (apply ln_le_mono; lra).
  rewrite ln_1 in *. pose proof ln_half_lower. lra.
Qed.

(** A draw below 1/3 gives an inter-arrival time above the hour. *)
Lemma interarrival_long (u : R) :
  0 <= u < 1 / 3 -> 3600 < - ln (Rmax u 1e-12) / (1 / 3600).
Proof.
  intros [Hlo Hhi].
  assert (Hu : 0 < Rmax u 1e-12 < 1 / 3).
  { unfold Rmax. destruct (Rle_dec u 1e-12); lra. }
  assert (ln (Rmax u 1e-12) < ln (1 / 3)) by (apply ln_increasing; lra).
  pose proof ln_third_upper. lra.
Qed.

(** *** The samples of the run *)

Lemma sample_flat (fuel : nat) (rng : RNG) (n : nat) :
  sampleDistribution fuel rng flat n = Some (0, n).
Proof.
  unfold sampleDistribution, flat, lognormalSpec. cbn [dtype mean p95].
  apply sampleLognormal_degenerate. left. lra.
Qed.

(** A sample of a lognormal distribution with positive parameters takes two
    draws. *)
Lemma sample_lognormalAt (fuel : nat) (rng : RNG) (m q : R) (n : nat) :
  0 < m -> 0 < q ->
  sampleDistribution fuel rng {| dtype := lognormal; mean := m; p95 := q |} n
  = Some (lognormalAt m q rng n, S (S n)).
Proof.
  intros Hm Hq. unfold sampleDistribution. cbn [dtype mean p95].
  unfold sampleLognormal. rewrite regular_test by assumption.
  reflexivity.
Qed.

Lemma sigma_nonneg (m q : R) : 0 <= sigma (lognormalParamsFromMeanP95 m q).
Proof.
  unfold lognormalParamsFromMeanP95. cbv zeta. cbn [sigma].
  match goal with |- context [sqrt ?x] => pose proof (sqrt_pos x) end.
  assert (0 < z95) by (unfold z95; lra).
  replace (2 * 0.5) with 1 by lra. lra.
Qed.

(** The sign of the cosine in the first and in the two middle quarters of
    the turn. *)
Lemma cos_first_quarter (u : R) : 0 <= u <= 1 / 4 -> 0 <= cos (2 * PI * u).
Proof.
  intros Hu. pose proof PI_RGT_0. apply cos_ge_0; nra.
Qed.

Lemma cos_middle_quarters (u : R) : 1 / 4 <= u <= 3 / 4 -> cos (2 * PI * u) <= 0.
Proof.
  intros Hu. pose proof PI_RGT_0. apply cos_le_0; nra.
Qed.

(** The sample is at least [exp mu] when the second draw is in the first
    quarter, and at most [exp mu] when it is in the middle quarters. *)
Lemma lognormalAt_upper_half (m q : R) (rng : RNG) (n : nat) :
  1e-12 <= rng (S n) <= 1 / 4 ->
  exp (mu (lognormalParamsFromMeanP95 m q)) <= lognormalAt m q rng n.
Proof.
  intros Hu. unfold lognormalAt. cbv zeta. apply exp_mono_le.
  rewrite (Rmax_left (rng (S n))) by lra.
  pose proof (sigma_nonneg m q).
  pose proof (sqrt_pos (-2 * ln (Rmax (rng n) 1e-12))).
  assert (0 <= cos (2 * PI * rng (S n))) by (apply cos_first_quarter; lra).
  assert (0 <= sigma (lognormalParamsFromMeanP95 m q)
               * (sqrt (-2 * ln (Rmax (rng n) 1e-12)) * cos (2 * PI * rng (S n))))
    by (apply Rmult_le_pos; [|apply Rmult_le_pos]; assumption).
  lra.
Qed.

Lemma lognormalAt_lower_half (m q : R) (rng : RNG) (n : nat) :
  1 / 4 <= rng (S n) <= 3 / 4 ->
  lognormalAt m q rng n <= exp (mu (lognormalParamsFromMeanP95 m q)).
Proof.
  intros Hu. unfold lognormalAt. cbv zeta. apply exp_mono_le.
  rewrite (Rmax_left (rng (S n))) by lra.
  pose proof (sigma_nonneg m q).
  pose proof (sqrt_pos (-2 * ln (Rmax (rng n) 1e-12))).
  assert (cos (2 * PI * rng (S n)) <= 0) by (apply cos_middle_quarters; lra).
  assert (0 <= sigma (lognormalParamsFromMeanP95 m q)
               * (sqrt (-2 * ln (Rmax (rng n) 1e-12))
                  * - cos (2 * PI * rng (S n))))
    by (apply Rmult_le_pos; [|apply Rmult_le_pos]; [assumption..|lra]).
  lra.
Qed.

Lemma probe_legs (fuel : nat) (rng : RNG) (n : nat) :
  sampleNetworkLegs fuel rng probeLatency n
  = Some ({| t1 := 0 / 2 / 1000; t2 := 0; t3 := 0; t4 := 0 / 2 / 1000 |}, n).
Proof.
  unfold sampleNetworkLegs, probeLatency. cbn [latencyMode nl_combined].
  rewrite (bind_eq _ _ _ _ _ (sample_flat fuel rng n)). reflexivity.
Qed.

Lemma no_inclusion : Rmin 0.999 (Rmax 0 (0 * 1)) = 0.
Proof.
  rewrite Rmax_left by lra. rewrite Rmin_right by lra. reflexivity.
Qed.

(** The settlement of the scenario: given up at the first ledger close. *)
Lemma probe_settlement (fuel : nat) (rng : RNG) (ledgerClose start : R) (n : nat) :
  unit_range rng ->
  exists s,
    confirmed s = false /\ sr_timeSec s = ledgerClose /\
    simulateSettlement (S fuel) rng (probeStellar ledgerClose) start
      probeOutage n
    = Some (s, S (S n)).
Proof.
  intros Hunit. unfold simulateSettlement. cbv zeta.
  unfold probeStellar at 1. cbn [submissionDelay].
  rewrite (bind_eq _ _ _ _ _ (sample_flat (S fuel) rng n)).
  unfold inOutage, probeOutage, defaultSpec. cbn [outage outage_enabled andb].
  cbn [simulateSettlement_loop].
  unfold probeStellar. cbn [ledgerCloseMean ledgerJitter inclusionProbability
                            maxRetries].
  unfold sampleLedgerInterval. rewrite (Rle_bool_true 0 0) by lra.
  unfold bind, ret, draw. rewrite no_inclusion.
  rewrite (Rlt_bool_false (rng (S n)) 0) by apply Hunit.
  cbn [INR]. rewrite (Rle_bool_true 0 0) by lra.
  eexists. split; [|split; [|reflexivity]]; cbn [confirmed sr_timeSec];
    [reflexivity | lra].
Qed.

(** *** The queue of the run *)

Lemma push_empty (e : SimulationEvent) : MinHeap.push MinHeap.empty e = [e].
Proof. reflexivity. Qed.

Lemma push_earlier (e1 e2 : SimulationEvent) :
  timeSec e2 < timeSec e1 -> MinHeap.push [e1] e2 = [e2; e1].
Proof.
  intros H. unfold MinHeap.push, MinHeap.bubbleUp. cbn [app length Nat.sub].
  cbn [MinHeap.bubbleUp_loop Nat.ltb Nat.leb Nat.sub Nat.div Nat.divmod fst].
  cbn [lookup list_lookup]. rewrite (Rle_bool_false _ _ H). reflexivity.
Qed.

Lemma pop_singleton (e : SimulationEvent) : MinHeap.pop [e] = Some (e, []).
Proof. reflexivity. Qed.

Lemma pop_pair (e1 e2 : SimulationEvent) : MinHeap.pop [e1; e2] = Some (e1, [e2]).
Proof. reflexivity. Qed.

Lemma runEvents_empty (k fuel : nat) (spec : SimulationSpec) (rng : RNG)
    (binSize : R) (st : Sim) (log : Log) (n : nat) :
  events st = [] -> runEvents k fuel spec rng binSize st log n = Some ((st, log), n).
Proof. intros H. destruct k; simpl; [|rewrite H]; reflexivity. Qed.

Ltac probe_simpl :=
  cbn [probeAt probeUsers probeHolds probeFraud defaultSpec
       horizonHours mode authTimeoutSec issuerProcessing networkLatency stellar
       outage userModel holds preAuth fraud spendLimits settlementSlaSec
       users balanceDistribution purchaseRate ticketDistribution
       burstinessEnabled burstinessProbability burstinessMultiplier
       holds_enabled holdDurationSec allowIncremental
       preAuth_enabled limits_enabled
       fraud_enabled fraudAttemptRate fraudAmountMultiplierMean
       fraudAmountMultiplierP95 autoDeclineRate
       tracePurchase traceSettlement traceExpiry traceHold
       timeSec etype userId txnId amount relatedAmount
       ev_settlement isFraud hold_userId hold_amount approvalTime].

Ltac run_steps :=
  repeat first [ progress cmp_eval
               | progress cbv beta iota
               | rewrite sample_flat
               | rewrite probe_legs
               | rewrite sample_lognormalAt by lra
               | progress cbn [fst snd t1 t2 t3 t4 negb andb orb when] ].

Lemma simulateOnceTrace_of_prefix (fuel : nat) (spec : SimulationSpec)
    (baseSeed : string) (runIndex : nat) (st : Sim) (binSize : R) (log : Log) :
  runPrefix fuel fuel spec baseSeed runIndex = Some (st, binSize, log) ->
  events st = [] ->
  simulateOnceTrace fuel spec baseSeed runIndex = Some (st, binSize, log).
Proof.
  intros H He. unfold simulateOnceTrace. rewrite H, He. reflexivity.
Qed.

Section Trace.

(** A run of index [idx] with the seed [sd], whose stream is one of those
    on which the run has one purchase. *)
Variable sd : string.
Variable idx : nat.

Local Abbreviation rng := (createRng (runSeed sd idx)).

Hypothesis Hrng : one_purchase_stream rng.

Lemma stream_1 : 1e-12 <= rng 1%nat <= 1 / 4.
Proof. exact (proj1 Hrng). Qed.

Lemma stream_2 : 1 / 2 <= rng 2%nat < 1.
Proof. exact (proj1 (proj2 Hrng)). Qed.

Lemma stream_4 : 1 / 4 <= rng 4%nat <= 3 / 4.
Proof. exact (proj1 (proj2 (proj2 Hrng))). Qed.

Lemma stream_5 : 0 <= rng 5%nat < 1 / 3.
Proof. exact (proj2 (proj2 (proj2 Hrng))). Qed.

Lemma traceTime_range : 0 <= traceTime rng < 3600.
Proof.
  unfold traceTime. pose proof (interarrival_short _ stream_2). lra.
Qed.

(** The purchase is of a positive amount that the balance covers. *)
Lemma traceAmount_covered : 0 < traceAmount rng <= traceBalance rng.
Proof.
  split; [apply exp_pos|].
  unfold traceAmount, traceBalance.
  pose proof (lognormalAt_lower_half 300 1000 rng 3 stream_4).
  pose proof (lognormalAt_upper_half 300 1000 rng 0 stream_1).
  lra.
Qed.

(** *** The bootstrap *)

Lemma trace_timeline (fuel fuelS : nat) (fraudOn : bool) (L : R) :
  purchaseTimeline (S (S fuel)) fuelS (probeAt sd fraudOn L) rng (1 * 3600)
    0%nat 0 MinHeap.empty 0%nat 2%nat
  = Some (([(tracePurchase rng)], 1%nat), 6%nat).
Proof.
  pose proof (interarrival_short _ stream_2) as H1.
  pose proof (interarrival_long _ stream_5) as H2.
  cbn [purchaseTimeline]. probe_simpl.
  unfold sampleInterarrival, lognormalSpec. unfold bind, ret, draw.
  run_steps. rewrite push_empty. reflexivity.
Qed.

Lemma trace_startRun (fuel : nat) (fraudOn : bool) (L : R) :
  startRun (S (S fuel)) (probeAt sd fraudOn L) rng 0%nat
  = Some ((initialSim (probeAt sd fraudOn L) [(traceBalance rng)] [(tracePurchase rng)]
             (fst (initTimeSeries (1 * 3600) 120)),
           snd (initTimeSeries (1 * 3600) 120)), 6%nat).
Proof.
  unfold startRun. cbv zeta. probe_simpl. cbn [seq bootstrap]. probe_simpl.
  unfold bind at 1 2. unfold lognormalSpec at 1.
  rewrite sample_lognormalAt by lra.
  unfold bind, ret. rewrite trace_timeline. cbn [fst snd app].
  destruct (initTimeSeries (1 * 3600) 120) as [series bin]. reflexivity.
Qed.

(** *** The handlers *)

(** The purchase is approved when the balance covers it: a hold is placed,
    and its expiry and the settlement are scheduled. *)
Lemma trace_purchase_approved (fuel : nat) (L bin : R) (st : Sim) (n : nat) :
  (traceAmount rng) <= readNum (balances st) 0 - readNum (holdTotals st) 0 ->
  exists st' s,
    handlePurchase (S fuel) (probeAt sd false L) rng bin (tracePurchase rng) st n
    = Some ((st', PurchaseApproved), S (S n)) /\
    confirmed s = false /\ sr_timeSec s = L /\
    events st'
    = MinHeap.push (MinHeap.push (events st) (traceExpiry rng)) (traceSettlement rng s) /\
    balances st' = balances st /\
    holdTotals st'
    = <[0%nat := readNum (holdTotals st) 0 + (traceAmount rng)]> (holdTotals st) /\
    holdByTxn st' = <[0%nat := (traceHold rng)]> (holdByTxn st) /\
    exposureEvents st' = exposureEvents st.
Proof.
  intros Hb. pose proof traceAmount_covered as [Ha _].
  destruct (probe_settlement fuel rng L (traceIssuerDone rng) n (createRng_unit_range (runSeed sd idx)))
    as (s & Hc & Hts & Hs).
  unfold traceIssuerDone in Hs.
  eexists _, s. split.
  - unfold handlePurchase, purchaseOffchain, canApproveWithLimits.
    cbv zeta. probe_simpl. unfold bind, ret. run_steps. rewrite Hs.
    run_steps. reflexivity.
  - split; [exact Hc|]. split; [exact Hts|].
    split; [sim_read events; probe_simpl; reflexivity|].
    split; [sim_read balances; probe_simpl; reflexivity|].
    split; [sim_read holdTotals; probe_simpl; reflexivity|].
    split; [sim_read holdByTxn; probe_simpl; reflexivity|].
    sim_read exposureEvents; probe_simpl; reflexivity.
Qed.

(** The settlement of the approved purchase failed: an exposure is recorded
    from the approval, and the hold is released. *)
Lemma trace_settlement_exposed (L bin : R) (s : SettlementResult) (st : Sim) :
  confirmed s = false ->
  holdByTxn st !! 0%nat = Some (traceHold rng) ->
  exists st',
    handleSettlement (probeAt sd false L) bin (traceSettlement rng s) st
    = (st', SettlementOffchain) /\
    events st' = events st /\
    exposureEvents st' = exposureEvents st ++ [traceExposure rng (sr_timeSec s)] /\
    holdTotals st'
    = <[0%nat := readNum (holdTotals st) 0 - (traceAmount rng)]> (holdTotals st) /\
    holdByTxn st' = delete 0%nat (holdByTxn st).
Proof.
  intros Hc Hh. eexists. split.
  - unfold handleSettlement, settleOffchain. cbv zeta.
    probe_simpl. rewrite Hh, Hc. cbn [andb negb orb]. reflexivity.
  - split; [sim_read events; reflexivity|].
    split; [sim_read exposureEvents; probe_simpl; reflexivity|].
    split; [sim_read holdTotals; probe_simpl; reflexivity|].
    sim_read holdByTxn; reflexivity.
Qed.

(** The hold was released by the settlement: its expiry changes nothing. *)
Lemma trace_expiry_idle (st : Sim) :
  holdByTxn st !! 0%nat = None -> handleHoldExpiry (traceExpiry rng) st = st.
Proof.
  intros Hh. unfold handleHoldExpiry. probe_simpl. rewrite Hh. reflexivity.
Qed.

(** With fraud on, the purchase is a fraud attempt declined at once. *)
Lemma trace_purchase_autodeclined (fuel : nat) (L bin : R) (st : Sim) (n : nat) :
  0 < readNum (balances st) 0 - readNum (holdTotals st) 0 ->
  exists st',
    handlePurchase fuel (probeAt sd true L) rng bin (tracePurchase rng) st n
    = Some ((st', PurchaseAutoDeclined), S (S (S (S n)))) /\
    events st' = events st /\
    approvals st' = approvals st /\
    declines st' = declines st ++ [0%nat] /\
    timeouts st' = timeouts st /\
    insufficientFundsSkipped st' = insufficientFundsSkipped st.
Proof.
  intros Hb.
  pose proof (createRng_unit_range (runSeed sd idx) n) as Hr0.
  pose proof (createRng_unit_range (runSeed sd idx) (S (S (S n)))) as Hr1.
  eexists. split.
  - unfold handlePurchase. cbv zeta. probe_simpl. unfold bind, ret, draw.
    run_steps. reflexivity.
  - split; [sim_read events; reflexivity|].
    split; [sim_read approvals; reflexivity|].
    split; [sim_read declines; probe_simpl; reflexivity|].
    split; [sim_read timeouts; reflexivity|].
    sim_read insufficientFundsSkipped; reflexivity.
Qed.

(** *** The runs *)

Lemma runPrefix_eq (k fuel : nat) (spec : SimulationSpec) (baseSeed : string)
    (runIndex : nat) (st0 st : Sim) (binSize : R) (log : Log) (n0 n : nat) :
  startRun fuel spec (createRng (runSeed baseSeed runIndex)) 0%nat
  = Some ((st0, binSize), n0) ->
  runEvents k fuel spec (createRng (runSeed baseSeed runIndex)) binSize st0 [] n0
  = Some ((st, log), n) ->
  runPrefix k fuel spec baseSeed runIndex = Some (st, binSize, log).
Proof.
  intros Hs Hr. unfold runPrefix. cbv zeta. unfold bind, ret.
  rewrite Hs. cbn [fst snd]. rewrite Hr. reflexivity.
Qed.

Lemma trace_funds (fraudOn : bool) (L : R) (q : MinHeap.t)
    (series : list TimeSeriesPoint) :
  let st := upd_events (fun _ => q)
              (initialSim (probeAt sd fraudOn L) [(traceBalance rng)] [(tracePurchase rng)] series) in
  readNum (balances st) 0 - readNum (holdTotals st) 0 = (traceBalance rng) - 0.
Proof.
  cbv zeta. cbn [balances holdTotals upd_events initialSim]. probe_simpl.
  reflexivity.
Qed.

(** The run of the scenario with fraud on: its one purchase is declined as
    fraud before any latency; it is the one entry of [declines]. *)
Lemma trace_run_fraud (k fuel : nat) (L : R) :
  exists st bin,
    runPrefix (S k) (S (S fuel)) (probeAt sd true L) sd idx =
    Some (st, bin, [((tracePurchase rng), PurchaseAutoDeclined)]) /\
    events st = [] /\
    approvals st = [] /\ declines st = [0%nat] /\ timeouts st = [] /\
    insufficientFundsSkipped st = 0%nat.
Proof.
  pose proof (trace_startRun fuel true L) as Hs.
  pose proof traceAmount_covered as [Ha Hab].
  set (bin := snd (initTimeSeries (1 * 3600) 120)) in *.
  set (st0 := upd_events (fun _ => [])
                (initialSim (probeAt sd true L) [(traceBalance rng)] [(tracePurchase rng)]
                   (fst (initTimeSeries (1 * 3600) 120)))).
  destruct (trace_purchase_autodeclined (S (S fuel)) L bin st0 6)
    as (st1 & Hp & Hev & Happ & Hd & Hto & Hi).
  { subst st0. rewrite (trace_funds true L). lra. }
  exists st1, bin.
  split; [|subst st0; rewrite Hev, Happ, Hd, Hto, Hi; repeat split].
  eapply runPrefix_eq; [exact Hs|].
  change (createRng (runSeed sd idx)) with rng.
  cbn [runEvents]. cbn [events initialSim]. rewrite pop_singleton.
  unfold bind. unfold handleEvent. probe_simpl. fold st0. rewrite Hp.
  cbn [fst snd app]. apply runEvents_empty. rewrite Hev. reflexivity.
Qed.

(** The run of the scenario with fraud off and a ledger close interval [L]
    below the hold duration: the purchase is approved and a hold is placed;
    its settlement fails after [L] seconds, an exposure is recorded and the
    hold is released; the expiry of the hold comes last. *)
Lemma trace_run_settled (k fuel : nat) (L : R) :
  L < 120 ->
  exists st bin s,
    runPrefix (S (S (S k))) (S (S fuel)) (probeAt sd false L) sd idx =
    Some (st, bin, [((tracePurchase rng), PurchaseApproved);
                    (traceSettlement rng s, SettlementOffchain);
                    ((traceExpiry rng), HoldExpiryDone)]) /\
    sr_timeSec s = L /\
    events st = [] /\
    exposureEvents st = [traceExposure rng L] /\
    readNum (holdTotals st) 0 = 0 + (traceAmount rng) - (traceAmount rng).
Proof.
  intros HL.
  pose proof (trace_startRun fuel false L) as Hs.
  pose proof traceAmount_covered as [Ha Hab].
  set (bin := snd (initTimeSeries (1 * 3600) 120)) in *.
  set (series := fst (initTimeSeries (1 * 3600) 120)) in *.
  set (st0 := upd_events (fun _ => [])
                (initialSim (probeAt sd false L) [(traceBalance rng)] [(tracePurchase rng)] series)).
  destruct (trace_purchase_approved (S fuel) L bin st0 6)
    as (st1 & s & Hp & Hc & Hts & Hev1 & Hbal1 & Hht1 & Hhb1 & Hx1).
  { subst st0. rewrite (trace_funds false L). lra. }
  assert (Hq1 : events st1 = [traceSettlement rng s; (traceExpiry rng)]).
  { rewrite Hev1. subst st0. cbn [events upd_events]. rewrite push_empty.
    apply push_earlier. unfold traceSettlement, traceExpiry. cbn [timeSec].
    rewrite Hts. lra. }
  set (st1' := upd_events (fun _ => [(traceExpiry rng)]) st1).
  destruct (trace_settlement_exposed L bin s st1' Hc)
    as (st2 & Hset & Hev2 & Hx2 & Hht2 & Hhb2).
  { subst st1'. cbn [holdByTxn upd_events]. rewrite Hhb1.
    apply lookup_insert_eq. }
  set (st2' := upd_events (fun _ => []) st2).
  assert (Hh2 : holdByTxn st2' !! 0%nat = None).
  { subst st2' st1'. cbn [holdByTxn upd_events]. rewrite Hhb2.
    apply lookup_delete_eq. }
  exists st2', bin, s.
  split; [|split; [exact Hts|split; [reflexivity|split]]].
  - eapply runPrefix_eq; [exact Hs|].
    cbn [runEvents]. cbn [events initialSim]. rewrite pop_singleton.
    unfold bind at 1. unfold handleEvent at 1. probe_simpl. fold st0. rewrite Hp.
    cbn [fst snd app]. rewrite Hq1, pop_pair.
    unfold bind at 1. unfold handleEvent at 1. probe_simpl. fold st1'.
    unfold ret at 1. rewrite Hset. cbn [fst snd app].
    assert (Hq2 : events st2 = [(traceExpiry rng)])
      by (rewrite Hev2; reflexivity).
    rewrite Hq2, pop_singleton.
    unfold bind at 1. unfold handleEvent at 1. probe_simpl. fold st2'.
    unfold ret at 1. rewrite (trace_expiry_idle st2' Hh2). cbn [fst snd app].
    apply runEvents_empty. reflexivity.
  - subst st2' st1' st0. cbn [exposureEvents upd_events]. rewrite Hx2.
    cbn [exposureEvents upd_events]. rewrite Hx1. cbn [exposureEvents upd_events initialSim].
    rewrite Hts. reflexivity.
  - subst st2' st1' st0. cbn [holdTotals upd_events]. rewrite Hht2.
    cbn [holdTotals upd_events]. rewrite Hht1.
    cbn [holdTotals upd_events initialSim]. probe_simpl. reflexivity.
Qed.

(** The same run after the first iteration of the event loop: the hold of
    the purchase is outstanding. *)
Lemma trace_run_approved (fuel : nat) (L : R) :
  exists st bin,
    runPrefix 1 (S (S fuel)) (probeAt sd false L) sd idx =
    Some (st, bin, [((tracePurchase rng), PurchaseApproved)]) /\
    readNum (holdTotals st) 0 = 0 + (traceAmount rng).
Proof.
  pose proof (trace_startRun fuel false L) as Hs.
  pose proof traceAmount_covered as [Ha Hab].
  set (bin := snd (initTimeSeries (1 * 3600) 120)) in *.
  set (series := fst (initTimeSeries (1 * 3600) 120)) in *.
  set (st0 := upd_events (fun _ => [])
                (initialSim (probeAt sd false L) [(traceBalance rng)] [(tracePurchase rng)] series)).
  destruct (trace_purchase_approved (S fuel) L bin st0 6)
    as (st1 & s & Hp & Hc & Hts & Hev1 & Hbal1 & Hht1 & Hhb1 & Hx1).
  { subst st0. rewrite (trace_funds false L). lra. }
  exists st1, bin. split.
  - eapply runPrefix_eq; [exact Hs|].
    cbn [runEvents]. cbn [events initialSim]. rewrite pop_singleton.
    unfold bind at 1. unfold handleEvent at 1. probe_simpl. fold st0. rewrite Hp.
    reflexivity.
  - rewrite Hht1. subst st0. cbn [holdTotals upd_events initialSim]. probe_simpl.
    reflexivity.
Qed.

(** The run to its end: the result of [simulateOnce]. *)
Lemma trace_simulateOnce (k : nat) (L : R) :
  L < 120 ->
  exists st bin,
    simulateOnce (S (S (S k))) (probeAt sd false L) sd idx
    = Some (finishRun bin st) /\
    exposureEvents st = [traceExposure rng L].
Proof.
  intros HL.
  destruct (trace_run_settled k (S k) L HL) as (st & bin & s & Hrun & _ & Hev & Hx & _).
  exists st, bin. split; [|exact Hx].
  unfold simulateOnce.
  rewrite (simulateOnceTrace_of_prefix _ _ _ _ _ _ _ Hrun Hev). reflexivity.
Qed.

End Trace.

(** *** The run 90 of the default seed *)

(** The draws of the run that decide its course. *)
Lemma probeRng_fits : one_purchase_stream probeRng.
Proof. repeat split; rng_value; lra. Qed.

Lemma probeAmount_covered : 0 < probeAmount <= probeBalance.
Proof. exact (traceAmount_covered "stellar-001" probeIndex probeRng_fits). Qed.

Lemma probe_run_fraud (k fuel : nat) (L : R) :
  exists st bin,
    runPrefix (S k) (S (S fuel)) (probe true L) "stellar-001" probeIndex =
    Some (st, bin, [(probePurchase, PurchaseAutoDeclined)]) /\
    events st = [] /\
    approvals st = [] /\ declines st = [0%nat] /\ timeouts st = [] /\
    insufficientFundsSkipped st = 0%nat.
Proof. exact (trace_run_fraud "stellar-001" probeIndex probeRng_fits k fuel L). Qed.

Lemma probe_run_settled (k fuel : nat) (L : R) :
  L < 120 ->
  exists st bin s,
    runPrefix (S (S (S k))) (S (S fuel)) (probe false L) "stellar-001" probeIndex =
    Some (st, bin, [(probePurchase, PurchaseApproved);
                    (probeSettlement s, SettlementOffchain);
                    (probeExpiry, HoldExpiryDone)]) /\
    sr_timeSec s = L /\
    events st = [] /\
    exposureEvents st = [probeExposure L] /\
    readNum (holdTotals st) 0 = 0 + probeAmount - probeAmount.
Proof. exact (trace_run_settled "stellar-001" probeIndex probeRng_fits k fuel L). Qed.

Lemma probe_run_approved (fuel : nat) (L : R) :
  exists st bin,
    runPrefix 1 (S (S fuel)) (probe false L) "stellar-001" probeIndex =
    Some (st, bin, [(probePurchase, PurchaseApproved)]) /\
    readNum (holdTotals st) 0 = 0 + probeAmount.
Proof. exact (trace_run_approved "stellar-001" probeIndex probeRng_fits fuel L). Qed.

(** *** The runs 0, 1 and 2 of the seed of the batch *)

Lemma batch_streams (i : nat) :
  (i < 3)%nat -> one_purchase_stream (createRng (runSeed batchSeed i)).
Proof.
  intros Hi. destruct i as [|[|[|i]]]; [| | |lia];
    repeat split; unfold batchSeed; rng_value; lra.
Qed.

(** ** The properties on runs of the scenario *)


(** The batch of the runs 0, 1 and 2 of the scenario with the seed of the
    batch: each run records the exposure of its one purchase. *)
Lemma batch_of_three :
  exists whole,
    runSimulationRuns 8 (probeAt batchSeed false 5) 0 3 = Some whole /\
    List.map run_exposureEvents whole
    = List.map (fun i => [traceExposure (createRng (runSeed batchSeed i)) 5])
               [0; 1; 2]%nat.
Proof.
  destruct (trace_simulateOnce batchSeed 0 (batch_streams 0 ltac:(lia)) 5 5)
    as (st0 & bin0 & H0 & Hx0); [lra|].
  destruct (trace_simulateOnce batchSeed 1 (batch_streams 1 ltac:(lia)) 5 5)
    as (st1 & bin1 & H1 & Hx1); [lra|].
  destruct (trace_simulateOnce batchSeed 2 (batch_streams 2 ltac:(lia)) 5 5)
    as (st2 & bin2 & H2 & Hx2); [lra|].
  eexists. cbn [runSimulationRuns]. cbn [seed probeAt].
  rewrite H0, H1, H2. split; [reflexivity|].
  cbn [List.map]. unfold finishRun. cbn [run_exposureEvents].
  rewrite Hx0, Hx1, Hx2. reflexivity.
Qed.

(** [runSimulation] on that scenario, which asks for one run, returns. *)
Lemma batch_runSimulation (k : nat) :
  is_Some (runSimulation (fun _ => EmptyString) (fun _ => EmptyString)
             (fun _ => true) (S (S (S k))) (probeAt batchSeed false 5)).
Proof.
  destruct (trace_simulateOnce batchSeed 0 (batch_streams 0 ltac:(lia)) k 5)
    as (st0 & bin0 & H0 & _); [lra|].
  unfold runSimulation, runSimulationInternal. cbv zeta.
  cbn [monteCarloRuns probeAt fraud probeFraud fraud_enabled andb].
  rewrite floor_IZR. change (Z.to_nat (Z.max 1 1)) with 1%nat.
  cbn [runSimulationRuns seed probeAt]. rewrite H0.
  destruct (aggregate_fits (fun _ => EmptyString) (fun _ => EmptyString)
              (fun _ => true) (fun _ => eq_refl)
              (probeAt batchSeed false 5) [finishRun bin0 st0]) as (res & -> & _).
  eauto.
Qed.

(** Three runs of the scenario in the batches [0..0] and [1..2], and in the
    single batch [0..2]: the runs return, the aggregation of the single batch
    returns and holds the three exposures of the runs, and the aggregation of
    the two batches is the same; two executions of [runSimulation], with
    different fuel, return the same result. *)
Lemma aggregation_partition_independent_witness :
  (1 <= 3)%nat /\
  (exists whole res,
     runSimulationRuns 8 (probeAt batchSeed false 5) 0 3 = Some whole /\
     length whole = 3%nat /\
     runSimulationRuns 8 (probeAt batchSeed false 5) 0 3
     ≫= aggregateRunResults (fun _ => EmptyString) (fun _ => EmptyString)
          (fun _ => true) (probeAt batchSeed false 5)
     = Some res /\
     concatRuns (runSimulationRuns 8 (probeAt batchSeed false 5) 0 1)
                (runSimulationRuns 8 (probeAt batchSeed false 5) 1 (3 - 1))
     ≫= aggregateRunResults (fun _ => EmptyString) (fun _ => EmptyString)
          (fun _ => true) (probeAt batchSeed false 5)
     = Some res /\
     length (res_exposureEvents res) = 3%nat) /\
  (exists r,
     runSimulation (fun _ => EmptyString) (fun _ => EmptyString) (fun _ => true)
       9 (probeAt batchSeed false 5) = Some r /\
     runSimulation (fun _ => EmptyString) (fun _ => EmptyString) (fun _ => true)
       10 (probeAt batchSeed false 5) = Some r) /\
  (forall first second whole,
     runSimulationRuns 9 (probeAt batchSeed false 5) 0 1 = Some first ->
     runSimulationRuns 10 (probeAt batchSeed false 5) 1 (3 - 1) = Some second ->
     runSimulationRuns 8 (probeAt batchSeed false 5) 0 3 = Some whole ->
     first ++ second = whole).
Proof.
  pose proof (aggregation_partition_independent
                (fun _ => EmptyString) (fun _ => EmptyString) (fun _ => true)
                8 9 10 (probeAt batchSeed false 5) 3 1 ltac:(lia))
    as (Hdet & _ & Hagg & Hparts).
  split; [lia|]. split; [|split; [|exact Hparts]].
  - destruct batch_of_three as (whole & Hw & Hx).
    destruct (aggregate_fits (fun _ => EmptyString) (fun _ => EmptyString)
                (fun _ => true) (fun _ => eq_refl)
                (probeAt batchSeed false 5) whole) as (res & Hres & Hev).
    exists whole, res.
    assert (Hwhole : runSimulationRuns 8 (probeAt batchSeed false 5) 0 3
                     ≫= aggregateRunResults (fun _ => EmptyString)
                          (fun _ => EmptyString) (fun _ => true)
                          (probeAt batchSeed false 5)
                     = Some res) by (rewrite Hw; exact Hres).
    split; [exact Hw|].
    split; [rewrite <- (length_map run_exposureEvents), Hx; reflexivity|].
    split; [exact Hwhole|]. split; [rewrite Hagg; exact Hwhole|].
    rewrite Hev, Hx. reflexivity.
  - destruct (batch_runSimulation 6) as [r1 H1].
    destruct (batch_runSimulation 7) as [r2 H2].
    destruct (Hdet r1 r2 H1 H2) as [<- _]. eauto.
Defined.

(** C2, counterexample: the run of the scenario with fraud on pops one
    purchase, which is declined as fraud before any latency and is counted in
    [declines]; whatever the number of skipped purchases, the three buckets
    hold one entry and the claimed count is at most 0. *)
Lemma autodeclined_fraud_is_counted :
  exists st binSize log,
    simulateOnceTrace 8 (probe true 5) "stellar-001" 90 = Some (st, binSize, log) /\
    purchasesPopped log = 1%nat /\ purchasesAutoDeclined log = 1%nat /\
    length (declines st) = 1%nat /\
    forall skipped, ~ claimed_conservation st log skipped.
Proof.
  destruct (probe_run_fraud 7 6 5) as (st & bin & Hrun & Hev & Ha & Hd & Ht & Hi).
  exists st, bin, [(probePurchase, PurchaseAutoDeclined)].
  split; [apply simulateOnceTrace_of_prefix; assumption|].
  split; [reflexivity|]. split; [reflexivity|]. split; [rewrite Hd; reflexivity|].
  intros skipped. unfold claimed_conservation. rewrite Ha, Hd, Ht.
  cbn [length purchasesPopped purchasesAutoDeclined sumOver fold_right fst snd
       probePurchase tracePurchase etype isPurchase autoDeclined].
  lia.
Qed.

(** The run of the scenario with fraud on: the declined purchase is the one
    purchase popped. *)
Lemma decided_purchases_conservation_witness :
  exists st binSize log,
    simulateOnceTrace 8 (probe true 5) "stellar-001" 90 = Some (st, binSize, log) /\
    (length (approvals st) + length (declines st) + length (timeouts st)
     + (insufficientFundsSkipped st + purchasesDropped log)
     = purchasesPopped log)%nat.
Proof.
  destruct (probe_run_fraud 7 6 5) as (st & bin & Hrun & Hev & _).
  exists st, bin, [(probePurchase, PurchaseAutoDeclined)].
  assert (H : simulateOnceTrace 8 (probe true 5) "stellar-001" 90
              = Some (st, bin, [(probePurchase, PurchaseAutoDeclined)]))
    by (apply simulateOnceTrace_of_prefix; assumption).
  split; [exact H|].
  exact (decided_purchases_conservation 8 (probe true 5) "stellar-001" 90 st bin _ H).
Defined.



(** The same run after its first iteration: the hold of the purchase, of a
    positive amount, is outstanding. *)
Lemma hold_totals_nonneg_exact_case :
  exists st binSize log,
    runPrefix 1 8 (probe false 5) "stellar-001" 90 = Some (st, binSize, log) /\
    0 < probeAmount /\
    readNum (holdTotals st) 0 = 0 + probeAmount /\
    0 <= readNum (holdTotals st) 0.
Proof.
  destruct (probe_run_approved 6 5) as (st & bin & Hrun & Hht).
  eexists st, bin, _. split; [exact Hrun|].
  split; [exact (proj1 probeAmount_covered)|]. split; [exact Hht|].
  exact (hold_totals_nonneg_exact 1 8 (probe false 5) "stellar-001" 90 st bin _ 0%nat Hrun).
Defined.



(** * The queue and the generator *)

(** ** [MinHeap] *)

(** X1: [push] on a heap gives a heap that holds the item and the events
    that were there, each as many times as before; the size grows by one. *)
Theorem heap_push_keeps_heap (q : MinHeap.t) (item : SimulationEvent) :
  HeapSpec.heap_ok q ->
  HeapSpec.heap_ok (MinHeap.push q item) /\
  MinHeap.push q item ≡ₚ item :: q /\
  MinHeap.size (MinHeap.push q item) = S (MinHeap.size q).
Proof.
  intros Hq. split; [apply HeapFacts.push_heap; exact Hq|].
  split; [apply HeapFacts.push_perm|].
  unfold MinHeap.size. rewrite (Permutation_length (HeapFacts.push_perm q item)).
  reflexivity.
Qed.

Lemma heap_push_keeps_heap_witness :
  HeapSpec.heap_ok (MinHeap.push [eventAt 2] (eventAt 1)) /\
  MinHeap.push [eventAt 2] (eventAt 1) ≡ₚ eventAt 1 :: [eventAt 2] /\
  MinHeap.size (MinHeap.push [eventAt 2] (eventAt 1)) = S (MinHeap.size [eventAt 2]).
Proof.
  apply (heap_push_keeps_heap [eventAt 2] (eventAt 1)).
  intros i c p Hi Hc Hp. destruct i as [|i]; [lia|]. destruct i; discriminate Hc.
Defined.

(** X2: [pop] returns [undefined] exactly on the empty queue; on a heap
    that is not empty it returns an event that no other event of the queue
    precedes, and leaves a heap with the other events, one less in number. *)
Theorem heap_pop_returns_earliest (q : MinHeap.t) :
  HeapSpec.heap_ok q ->
  match MinHeap.pop q with
  | None => q = []
  | Some (top, rest) =>
      q ≡ₚ top :: rest /\
      HeapSpec.heap_ok rest /\
      Forall (fun e => timeSec top <= timeSec e) rest /\
      S (MinHeap.size rest) = MinHeap.size q
  end.
Proof.
  intros Hq. destruct (MinHeap.pop q) as [[top rest]|] eqn:Hpop.
  - pose proof (HeapFacts.pop_perm _ _ _ Hpop) as Hperm.
    split; [exact Hperm|].
    split; [apply (HeapFacts.pop_heap _ _ _ Hq Hpop)|].
    split.
    + rewrite Forall_forall. intros e He.
      apply (HeapFacts.pop_min _ _ _ Hq Hpop).
      apply (Permutation_in _ (Permutation_sym Hperm)). right.
      apply list_elem_of_In. exact He.
    + unfold MinHeap.size. rewrite (Permutation_length Hperm). reflexivity.
  - apply HeapFacts.pop_None. exact Hpop.
Qed.

Lemma heap_pop_returns_earliest_witness :
  match MinHeap.pop [eventAt 1; eventAt 2] with
  | None => [eventAt 1; eventAt 2] = []
  | Some (top, rest) =>
      [eventAt 1; eventAt 2] ≡ₚ top :: rest /\
      HeapSpec.heap_ok rest /\
      Forall (fun e => timeSec top <= timeSec e) rest /\
      S (MinHeap.size rest) = MinHeap.size [eventAt 1; eventAt 2]
  end.
Proof.
  apply (heap_pop_returns_earliest [eventAt 1; eventAt 2]).
  intros i c p Hi Hc Hp. destruct i as [|[|i]]; [lia | | discriminate Hc].
  injection Hc as <-. injection Hp as <-. simpl. lra.
Defined.

Lemma popAll_sorted (k : nat) :
  forall q, HeapSpec.heap_ok q -> (length q <= k)%nat ->
            popAll k q ≡ₚ q /\ Sorted Rle (List.map timeSec (popAll k q)).
Proof.
  induction k as [|k IH]; intros q Hq Hlen.
  - destruct q; [|simpl in Hlen; lia]. simpl. split; [reflexivity | constructor].
  - simpl. destruct (MinHeap.pop q) as [[top rest]|] eqn:Hpop.
    + pose proof (HeapFacts.pop_perm _ _ _ Hpop) as Hperm.
      pose proof (HeapFacts.pop_heap _ _ _ Hq Hpop) as Hrest.
      pose proof (Permutation_length Hperm) as Hl. simpl in Hl.
      destruct (IH rest Hrest ltac:(lia)) as [Hp Hs].
      split; [rewrite Hperm, Hp; reflexivity|].
      simpl. constructor; [exact Hs|].
      destruct (popAll k rest) as [|e l] eqn:He; simpl; constructor.
      apply (HeapFacts.pop_min _ _ _ Hq Hpop).
      apply (Permutation_in _ (Permutation_sym Hperm)). right.
      apply (Permutation_in _ Hp). left. reflexivity.
    + apply HeapFacts.pop_None in Hpop. subst q. split; [reflexivity | constructor].
Qed.

(** X3: the events pushed one by one on an empty queue come back from
    [pop], called until the queue is empty, in non-decreasing order of
    [timeSec], each as many times as it was pushed. *)
Theorem heap_push_then_pop_sorts (evs : list SimulationEvent) :
  popAll (length evs) (pushed evs MinHeap.empty) ≡ₚ evs /\
  Sorted Rle (List.map timeSec (popAll (length evs) (pushed evs MinHeap.empty))).
Proof.
  assert (Hperm : pushed evs MinHeap.empty ≡ₚ evs).
  { rewrite pushed_perm. unfold MinHeap.empty. rewrite app_nil_r. reflexivity. }
  assert (Hheap : HeapSpec.heap_ok (pushed evs MinHeap.empty))
    by (apply pushed_heap, HeapFacts.heap_ok_nil).
  destruct (popAll_sorted (length evs) (pushed evs MinHeap.empty) Hheap) as [Hp Hs].
  { rewrite (Permutation_length Hperm). lia. }
  split; [rewrite Hp; exact Hperm | exact Hs].
Qed.

(** ** The generator *)

(** X4: every number that a generator made by [createRng] returns is a
    multiple of 2^-32 in the interval [0, 1), whatever the seed. *)
Theorem createRng_grid (seed : string) (n : nat) :
  exists k : Z,
    (0 <= k < 4294967296)%Z /\
    createRng seed n = IZR k / 4294967296 /\
    0 <= createRng seed n < 1.
Proof.
  unfold createRng. cbv zeta.
  set (s := Rng.xmur3_next (Rng.xmur3_hash seed)).
  exists (Rng.mulberry32_out (Rng.mulberry32_counter s n)).
  split; [apply mulberry32_out_range|]. split; [reflexivity|].
  apply (mulberry32_unit_range s n).
Qed.

(** ** The samplers *)

Lemma exp_double_lower (a x : R) : 0 <= a -> a <= exp x -> a * a <= exp (x + x).
Proof. intros Ha H. rewrite exp_plus. pose proof (exp_pos x). nra. Qed.

Lemma exp_40_lower : 1e12 <= exp 40.
Proof.
  pose proof exp_1_gt_2 as H1.
  assert (H2 : 4 <= exp 2).
  { replace 2 with (1 + 1) at 2 by lra. apply (exp_double_lower 2 1); lra. }
  assert (H4 : 16 <= exp 4).
  { replace 4 with (2 + 2) by lra. replace 16 with (4 * 4) by lra.
    apply exp_double_lower; lra. }
  assert (H8 : 256 <= exp 8).
  { replace 8 with (4 + 4) by lra. replace 256 with (16 * 16) by lra.
    apply exp_double_lower; lra. }
  assert (H16 : 65536 <= exp 16).
  { replace 16 with (8 + 8) by lra. replace 65536 with (256 * 256) by lra.
    apply exp_double_lower; lra. }
  assert (H32 : 4294967296 <= exp 32).
  { replace 32 with (16 + 16) by lra. replace 4294967296 with (65536 * 65536) by lra.
    apply exp_double_lower; lra. }
  replace 40 with (32 + 8) by lra. rewrite exp_plus.
  pose proof (exp_pos 8). pose proof (exp_pos 32). nra.
Qed.

Lemma ln_floor_lower : -40 <= ln 1e-12.
Proof.
  replace (-40) with (- (40)) by lra.
  rewrite <- (ln_exp (- (40))). apply ln_le_mono; [apply exp_pos|].
  rewrite exp_Ropp. pose proof exp_40_lower. pose proof (exp_pos 40).
  apply Rmult_le_reg_r with (exp 40); [assumption|].
  rewrite Rinv_l by lra. nra.
Qed.

(** X5: with a generator of [0, 1), [normalSample] makes two draws and
    returns a number of magnitude at most [sqrt (-2 ln 1e-12)], which is
    below 9: the floor [1e-12] on the first draw bounds the normal
    sample. *)
Theorem normalSample_bounded (rng : RNG) (n : nat) :
  unit_range rng ->
  exists x,
    normalSample rng n = Some (x, S (S n)) /\
    Rabs x <= sqrt (-2 * ln 1e-12) /\
    sqrt (-2 * ln 1e-12) <= 9.
Proof.
  intros Hu. unfold normalSample, bind, draw, ret.
  eexists. split; [reflexivity|]. split.
  - rewrite Rabs_mult.
    set (u1 := Rmax (rng n) 1e-12).
    assert (Hu1 : 1e-12 <= u1) by apply Rmax_r.
    assert (Hln : ln 1e-12 <= ln u1) by (apply ln_le_mono; lra).
    pose proof (sqrt_pos (-2 * ln u1)) as Hs.
    rewrite (Rabs_pos_eq _ Hs).
    assert (Hle : sqrt (-2 * ln u1) <= sqrt (-2 * ln 1e-12))
      by (apply sqrt_le_1_alt; lra).
    match goal with |- context [Rabs (cos ?a)] =>
      assert (Hc : Rabs (cos a) <= 1) by (apply Rabs_le; pose proof (COS_bound a); lra)
    end.
    match goal with |- context [Rabs (cos ?a)] =>
      pose proof (Rabs_pos (cos a))
    end.
    nra.
  - pose proof ln_floor_lower.
    replace 9 with (sqrt (9 * 9)) by (rewrite sqrt_square; lra).
    apply sqrt_le_1_alt. lra.
Qed.

Lemma normalSample_bounded_witness :
  exists x,
    normalSample (createRng "stellar-001-0") 0%nat = Some (x, 2%nat) /\
    Rabs x <= sqrt (-2 * ln 1e-12) /\
    sqrt (-2 * ln 1e-12) <= 9.
Proof.
  apply (normalSample_bounded (createRng "stellar-001-0") 0%nat).
  apply createRng_unit_range.
Defined.

(** X6: [sampleDistribution] never returns a negative number, for either
    kind and whatever the parameters and the draws; for the lognormal kind
    with positive parameters it takes two draws. *)
Theorem sampleDistribution_never_negative (fuel : nat) (rng : RNG)
    (spec : DistributionSpec) (n : nat) (x : R) (n' : nat) :
  sampleDistribution fuel rng spec n = Some (x, n') ->
  0 <= x /\
  (dtype spec = lognormal -> 0 < mean spec -> 0 < p95 spec -> n' = S (S n)).
Proof.
  intros H. split; [apply (sampleDistribution_nonneg _ _ _ _ _ _ H)|].
  intros Hk Hm Hp. unfold sampleDistribution in H. rewrite Hk in H.
  unfold sampleLognormal in H. rewrite regular_test in H by assumption.
  unfold normalSample, bind, draw, ret in H. injection H as _ <-.
  reflexivity.
Qed.

Lemma sampleDistribution_never_negative_witness :
  exists x n',
    sampleDistribution 1 (createRng "stellar-001-0")
      (ticketDistribution (userModel defaultSpec)) 0%nat = Some (x, n') /\
    0 <= x /\
    (dtype (ticketDistribution (userModel defaultSpec)) = lognormal ->
     0 < mean (ticketDistribution (userModel defaultSpec)) ->
     0 < p95 (ticketDistribution (userModel defaultSpec)) ->
     n' = 2%nat).
Proof.
  assert (H : sampleDistribution 1 (createRng "stellar-001-0")
                (ticketDistribution (userModel defaultSpec)) 0%nat
              = Some (lognormalAt 25 80 (createRng "stellar-001-0") 0, 2%nat)).
  { cbn [defaultSpec userModel ticketDistribution]. unfold lognormalSpec.
    apply sample_lognormalAt; lra. }
  eexists _, _. split; [exact H|].
  exact (sampleDistribution_never_negative _ _ _ _ _ _ H).
Defined.

Lemma gammaParams_loop_range (k : nat) (mean p95 : R) :
  forall low high lo hi a b,
    a <= low <= high /\ high <= b ->
    gammaParams_loop k mean p95 low high = (lo, hi) ->
    a <= lo <= hi /\ hi <= b.
Proof.
  induction k as [|k IH]; intros low high lo hi a b Hb H; simpl in H.
  - injection H as <- <-. exact Hb.
  - destruct (XR_lt _ p95); apply IH with (a := a) (b := b) in H;
      try exact H; lra.
Qed.

(** X7: for a positive mean and a positive p95, [gammaParamsFromMeanP95]
    returns a shape between 0.2 and 20, the bounds of its bisection, and a
    scale, the mean over the shape, between [mean / 20] and [mean / 0.2];
    the three quotients are those that the code computes: [fl] is the
    rounding of a quotient to a double, of which only the order it keeps is
    used. *)
Theorem gammaParams_within_bisection (fl : R -> R) (m q : R) :
  (forall x y, x <= y -> fl x <= fl y) ->
  0 < m -> 0 < q ->
  0.2 <= shape (gammaParamsFromMeanP95 m q) <= 20 /\
  fl (m / 20) <= fl (scale (gammaParamsFromMeanP95 m q)) <= fl (m / 0.2).
Proof.
  intros Hfl Hm Hq. unfold gammaParamsFromMeanP95.
  rewrite regular_test by assumption.
  destruct (gammaParams_loop 60 m q 0.2 20) as [lo hi] eqn:Hl.
  apply (gammaParams_loop_range 60 m q 0.2 20 lo hi 0.2 20) in Hl; [|lra].
  cbn [shape scale]. split; [lra|].
  set (sh := 0.5 * (lo + hi)). assert (Hsh : 0.2 <= sh <= 20) by (subst sh; lra).
  assert (Hinv : / 20 <= / sh <= / 0.2).
  { split; apply Rinv_le_contravar; lra. }
  unfold Rdiv. split; apply Hfl; apply Rmult_le_compat_l; lra.
Qed.

Lemma gammaParams_within_bisection_witness :
  0.2 <= shape (gammaParamsFromMeanP95 50 120) <= 20 /\
  50 / 20 <= scale (gammaParamsFromMeanP95 50 120) <= 50 / 0.2 /\
  roundTo 40 (50 / 20) <= roundTo 40 (scale (gammaParamsFromMeanP95 50 120))
  <= roundTo 40 (50 / 0.2).
Proof.
  destruct (gammaParams_within_bisection (fun x => x) 50 120 (fun x y H => H))
    as [Hshape Hscale]; [lra | lra |].
  split; [exact Hshape|]. split; [exact Hscale|].
  apply (gammaParams_within_bisection (roundTo 40) 50 120
           (proj1 (roundTo_rounding 40))); lra.
Defined.



(** ** Percentiles, averages and histograms *)

Lemma percentile_index_lt (n : nat) (p : R) :
  (0 < n)%nat -> (percentile_index n p < n)%nat.
Proof. intros Hn. unfold percentile_index, percentile_index_with. lia. Qed.

Lemma percentile_index_mono (n : nat) (p p' : R) :
  (0 < n)%nat -> p <= p' -> (percentile_index n p <= percentile_index n p')%nat.
Proof.
  intros Hn Hp. unfold percentile_index, percentile_index_with.
  assert (Hf : (floor (p * (INR n - 1)) <= floor (p' * (INR n - 1)))%Z).
  { apply floor_mono. assert (1 <= INR n) by (apply (le_INR 1); lia). nra. }
  lia.
Qed.

Lemma percentile_index_low (n : nat) (p : R) :
  (0 < n)%nat -> p <= 0 -> percentile_index n p = 0%nat.
Proof.
  intros Hn Hp. unfold percentile_index, percentile_index_with.
  assert (Hf : (floor (p * (INR n - 1)) <= 0)%Z).
  { apply floor_le_of_le. assert (1 <= INR n) by (apply (le_INR 1); lia). nra. }
  lia.
Qed.

Lemma percentile_index_high (n : nat) (p : R) :
  (0 < n)%nat -> 1 <= p -> percentile_index n p = (n - 1)%nat.
Proof.
  intros Hn Hp. unfold percentile_index, percentile_index_with.
  assert (Hf : (Z.of_nat n - 1 <= floor (p * (INR n - 1)))%Z).
  { assert (H1 : 1 <= INR n) by (apply (le_INR 1); lia).
    replace (Z.of_nat n - 1)%Z with (floor (INR n - 1)).
    - apply floor_mono. nra.
    - apply floor_unique. rewrite minus_IZR, <- INR_IZR_INZ. lra. }
  lia.
Qed.

Lemma sorted_nth_mono (l : list R) :
  Sorted Rle l ->
  forall i j, (i <= j < length l)%nat -> nth i l 0 <= nth j l 0.
Proof.
  intros Hs. apply Sorted_StronglySorted in Hs;
    [|intros a b c Hab Hbc; apply Rle_trans with b; assumption].
  induction Hs as [|a l Hs IH Hall]; intros i j Hij; [simpl in Hij; lia|].
  destruct i as [|i], j as [|j]; simpl in *; try lia; try lra.
  - rewrite List.Forall_forall in Hall. apply Hall. apply nth_In. lia.
  - apply IH. lia.
Qed.

(** X9: for a list that is not empty [percentile] returns one of the
    numbers of the list, whatever [p] is (the index is clamped to the
    list); for the empty list it returns 0. *)
Theorem percentile_is_member (values : list R) (p : R) :
  values <> [] -> In (percentile values p) values.
Proof.
  intros Hne. unfold percentile, percentile_with.
  change (percentile_index_with (fun x => x)) with percentile_index.
  destruct values as [|v vs]; [congruence|].
  cbv zeta. set (l := v :: vs).
  apply (Permutation_in _ (sort_numbers_perm l)).
  apply nth_In. apply percentile_index_lt.
  rewrite sort_numbers_length. simpl. lia.
Qed.

Lemma percentile_is_member_witness : In (percentile [3; 1; 2] 7) [3; 1; 2].
Proof. apply (percentile_is_member [3; 1; 2] 7). discriminate. Defined.

(** X10: [percentile] does not decrease with [p]: a higher percentile of
    the same list is never below a lower one.  For [p <= 0] it is the least
    number of the list and for [p >= 1] the greatest: every number of the
    list lies between the two. *)
Theorem percentile_monotone (values : list R) (p p' : R) :
  p <= p' ->
  percentile values p <= percentile values p' /\
  (p <= 0 -> 1 <= p' -> forall v, In v values ->
   percentile values p <= v <= percentile values p').
Proof.
  intros Hp. unfold percentile, percentile_with.
  change (percentile_index_with (fun x => x)) with percentile_index.
  destruct values as [|v0 vs];
    [split; [lra | intros _ _ v []]|].
  cbv zeta. set (l := v0 :: vs).
  assert (Hn : (0 < length (sort_numbers l))%nat)
    by (rewrite sort_numbers_length; simpl; lia).
  pose proof (sort_numbers_sorted l) as Hs.
  split.
  - apply sorted_nth_mono; [exact Hs|].
    split; [apply percentile_index_mono; assumption|].
    apply percentile_index_lt. exact Hn.
  - intros Hlow Hhigh v Hin.
    rewrite (percentile_index_low _ p Hn Hlow), (percentile_index_high _ p' Hn Hhigh).
    apply (Permutation_in _ (Permutation_sym (sort_numbers_perm l))) in Hin.
    destruct (In_nth _ _ 0 Hin) as (i & Hi & <-).
    split; apply sorted_nth_mono; try assumption; lia.
Qed.

Lemma percentile_monotone_witness :
  percentile [3; 1; 2] (-1) <= percentile [3; 1; 2] 1 /\
  (-1 <= 0 -> 1 <= 1 -> forall v, In v [3; 1; 2] ->
   percentile [3; 1; 2] (-1) <= v <= percentile [3; 1; 2] 1).
Proof. apply (percentile_monotone [3; 1; 2] (-1) 1). lra. Defined.

Lemma fold_left_Rplus_nonneg (l : list R) :
  List.Forall (fun v => 0 <= v) l ->
  forall acc, acc <= fold_left Rplus l acc.
Proof.
  induction 1 as [|x l Hx Hl IH]; intros acc.
  - simpl. lra.
  - cbn [fold_left]. specialize (IH (acc + x)). lra.
Qed.

Lemma fold_left_Rplus_nonpos (l : list R) :
  List.Forall (fun v => v <= 0) l ->
  forall acc, fold_left Rplus l acc <= acc.
Proof.
  induction 1 as [|x l Hx Hl IH]; intros acc.
  - simpl. lra.
  - cbn [fold_left]. specialize (IH (acc + x)). lra.
Qed.

(** X11: [average] keeps the sign of the numbers: it is not negative when
    none of them is, and not positive when none of them is; the average of
    an empty list is 0. *)
Theorem average_keeps_sign (values : list R) :
  average [] = 0 /\
  (List.Forall (fun v => 0 <= v) values -> 0 <= average values) /\
  (List.Forall (fun v => v <= 0) values -> average values <= 0).
Proof.
  split; [reflexivity|].
  destruct values as [|v vs]; [simpl; split; intros _; lra|].
  set (l := v :: vs).
  assert (Hn : 0 < / INR (length l)).
  { apply Rinv_0_lt_compat, lt_0_INR. simpl. lia. }
  assert (Ha : average l = fold_left Rplus l 0 * / INR (length l)) by reflexivity.
  rewrite Ha. split; intros Hall.
  - pose proof (fold_left_Rplus_nonneg l Hall 0). nra.
  - pose proof (fold_left_Rplus_nonpos l Hall 0). nra.
Qed.

Lemma average_keeps_sign_witness :
  List.Forall (fun v => 0 <= v) [3; 1; 2] /\ 0 <= average [3; 1; 2].
Proof.
  assert (H : List.Forall (fun v => 0 <= v) [3; 1; 2]) by (repeat constructor; lra).
  split; [exact H|].
  exact (proj1 (proj2 (average_keeps_sign [3; 1; 2])) H).
Defined.







(** ** Settlements, interarrival times and network legs *)

(** X13: without jitter [sampleLedgerInterval] returns the mean and makes
    no draw; with a positive jitter and a generator of [0, 1) it makes one
    draw and returns a number that is at least 0.1, at least
    [mean - jitter] and at most the greater of 0.1 and [mean + jitter]. *)
Theorem sampleLedgerInterval_range (rng : RNG) (m jitter : R) (n : nat) :
  unit_range rng ->
  exists i n',
    sampleLedgerInterval rng m jitter n = Some (i, n') /\
    if jitter <=? 0 then i = m /\ n' = n
    else n' = S n /\ 0.1 <= i /\ m - jitter <= i <= Rmax 0.1 (m + jitter).
Proof.
  intros Hu. unfold sampleLedgerInterval.
  destruct (Rle_bool_spec jitter 0) as [Hj | Hj].
  - eexists _, _. split; [reflexivity|]. auto.
  - unfold bind, draw, ret. eexists _, _. split; [reflexivity|].
    split; [reflexivity|]. pose proof (Hu n) as [H0 H1].
    set (x := m + (rng n * 2 - 1) * jitter).
    assert (Hx : m - jitter <= x <= m + jitter) by (subst x; split; nra).
    pose proof (Rmax_l 0.1 x). pose proof (Rmax_r 0.1 x).
    split; [assumption|]. split; [lra|].
    apply Rmax_lub; [apply Rmax_l|].
    apply Rle_trans with (m + jitter); [lra | apply Rmax_r].
Qed.

Lemma sampleLedgerInterval_range_witness :
  exists i n',
    sampleLedgerInterval (createRng "stellar-001-0") 5 0.8 0%nat = Some (i, n') /\
    if 0.8 <=? 0 then i = 5 /\ n' = 0%nat
    else n' = 1%nat /\ 0.1 <= i /\ 5 - 0.8 <= i <= Rmax 0.1 (5 + 0.8).
Proof.
  apply (sampleLedgerInterval_range (createRng "stellar-001-0") 5 0.8 0%nat).
  apply createRng_unit_range.
Defined.

Lemma simulateSettlement_loop_gave_up (rng : RNG) (spec : StellarSpec) (prob : R) :
  forall fuel timeSec retries n res n',
    simulateSettlement_loop fuel rng spec prob timeSec retries n = Some (res, n') ->
    (retries <= sr_retries res)%nat /\
    (gaveUp res = true ->
     (maxRetries spec <= INR (sr_retries res) \/
      ((0 < sr_retries res)%nat /\ maxSettleWindowSec spec < sr_timeSec res)) /\
     prob <= rng (pred n')) /\
    (confirmed res = true -> rng (pred n') < prob).
Proof.
  induction fuel as [|fuel IH]; intros timeSec retries n res n' H; [discriminate|].
  simpl in H.
  apply bind_Some in H. destruct H as (i & n1 & _ & H).
  unfold bind at 1 in H. unfold draw at 1 in H.
  unfold bind at 1 in H. unfold draw at 1 in H.
  destruct (Rlt_bool_spec (rng (S n1)) prob) as [Hinc | Hinc].
  { injection H as <- <-. simpl. split; [lia|].
    split; [discriminate|]. intros _. exact Hinc. }
  destruct (Rle_bool_spec (maxRetries spec) (INR retries)) as [Hr | Hr].
  { injection H as <- <-. simpl. split; [lia|]. split; [auto | discriminate]. }
  destruct (Rlt_bool_spec (maxSettleWindowSec spec)
              (timeSec + rng n1 * i + (i - rng n1 * i)
               + backoffBaseMs spec * backoffMultiplier spec ^ (retries - 0) / 1000))
    as [Hw | Hw].
  { injection H as <- <-. simpl. split; [lia|]. split; [|discriminate].
    intros _. split; [|exact Hinc]. right. split; [lia | exact Hw]. }
  apply IH in H. destruct H as (Hle & Hg & Hc). split; [lia|]. auto.
Qed.

(** X14: [simulateSettlement] gives up for one of two reasons only: the
    retries have reached [maxRetries], or at least one retry was made and
    the time has passed [maxSettleWindowSec].  The last draw it makes decides
    the attempt: the result is confirmed when that draw is below the
    inclusion probability, which is capped at 0.999, and it has given up
    only when that draw is not below it. *)
Theorem simulateSettlement_gives_up_when (fuel : nat) (rng : RNG)
    (spec : StellarSpec) (startTimeSec : R) (outage : OutageSpec)
    (n : nat) (res : SettlementResult) (n' : nat) :
  simulateSettlement fuel rng spec startTimeSec outage n = Some (res, n') ->
  (gaveUp res = true ->
   (maxRetries spec <= INR (sr_retries res) \/
    ((0 < sr_retries res)%nat /\ maxSettleWindowSec spec < sr_timeSec res)) /\
   inclusionProbOf spec startTimeSec outage <= rng (pred n')) /\
  (confirmed res = true ->
   rng (pred n') < inclusionProbOf spec startTimeSec outage <= 0.999).
Proof.
  intros H. unfold simulateSettlement in H.
  apply bind_Some in H. destruct H as (d & n1 & _ & H).
  apply simulateSettlement_loop_gave_up in H. destruct H as (_ & Hg & Hc).
  split; [exact Hg|]. intros Hconf.
  split; [exact (Hc Hconf) | apply Rmin_l].
Qed.

Lemma simulateSettlement_gives_up_when_witness :
  exists res n',
    simulateSettlement 1 (createRng "stellar-001-0") (probeStellar 5) 0
      probeOutage 0%nat = Some (res, n') /\
    gaveUp res = true /\
    (gaveUp res = true ->
     (maxRetries (probeStellar 5) <= INR (sr_retries res) \/
      ((0 < sr_retries res)%nat /\
       maxSettleWindowSec (probeStellar 5) < sr_timeSec res)) /\
     inclusionProbOf (probeStellar 5) 0 probeOutage
     <= createRng "stellar-001-0" (pred n')) /\
    (confirmed res = true ->
     createRng "stellar-001-0" (pred n')
     < inclusionProbOf (probeStellar 5) 0 probeOutage <= 0.999).
Proof.
  destruct (probe_settlement 0 (createRng "stellar-001-0") 5 0 0%nat
              (createRng_unit_range "stellar-001-0")) as (s & Hc & _ & Hs).
  eexists s, _. split; [exact Hs|].
  split.
  - assert (Hshape : confirmed s = negb (gaveUp s)).
    { pose proof Hs as Hs'. unfold simulateSettlement in Hs'.
      apply bind_Some in Hs'. destruct Hs' as (d & n1 & _ & Hl).
      exact (proj1 (simulateSettlement_loop_shape _ _ _ _ _ _ _ _ _ Hl)). }
    rewrite Hc in Hshape. destruct (gaveUp s); [reflexivity | discriminate].
  - exact (simulateSettlement_gives_up_when _ _ _ _ _ _ _ _ Hs).
Defined.

(** X15: with a generator of [0, 1), an inclusion probability that is not
    positive and an outage multiplier that is not negative,
    [simulateSettlement] never confirms: every result it returns has given
    up. *)
Theorem simulateSettlement_never_confirms (fuel : nat) (rng : RNG)
    (spec : StellarSpec) (startTimeSec : R) (outage : OutageSpec)
    (n : nat) (res : SettlementResult) (n' : nat) :
  unit_range rng ->
  inclusionProbability spec <= 0 ->
  0 <= inclusionProbabilityMultiplier outage ->
  simulateSettlement fuel rng spec startTimeSec outage n = Some (res, n') ->
  confirmed res = false /\ gaveUp res = true.
Proof.
  intros Hu Hp Hm H.
  assert (Hnot : confirmed res <> true).
  { intros Hc. unfold simulateSettlement in H.
    apply bind_Some in H. destruct H as (d & n1 & _ & H).
    apply simulateSettlement_loop_gave_up in H. destruct H as (_ & _ & Hk).
    pose proof (Hk Hc) as Hlt. pose proof (Hu (pred n')) as [H0 _].
    assert (Hprob : Rmin 0.999
              (Rmax 0 (inclusionProbability spec
                       * (if inOutage outage startTimeSec
                          then inclusionProbabilityMultiplier outage else 1))) <= 0).
    { eapply Rle_trans; [apply Rmin_r|]. apply Rmax_lub; [lra|].
      destruct (inOutage outage startTimeSec); nra. }
    lra. }
  unfold simulateSettlement in H.
  apply bind_Some in H. destruct H as (d & n1 & _ & H).
  apply simulateSettlement_loop_shape in H. destruct H as [Hshape _].
  destruct (confirmed res); [congruence|]. split; [reflexivity|].
  destruct (gaveUp res); [reflexivity | discriminate Hshape].
Qed.

Lemma simulateSettlement_never_confirms_witness :
  exists res n',
    simulateSettlement 1 (createRng "stellar-001-0") (probeStellar 5) 0
      probeOutage 0%nat = Some (res, n') /\
    confirmed res = false /\ gaveUp res = true.
Proof.
  destruct (probe_settlement 0 (createRng "stellar-001-0") 5 0 0%nat
              (createRng_unit_range "stellar-001-0")) as (s & _ & _ & Hs).
  eexists s, _. split; [exact Hs|].
  apply (simulateSettlement_never_confirms _ _ _ _ _ _ _ _
           (createRng_unit_range "stellar-001-0")) in Hs as Hres.
  - exact Hres.
  - unfold probeStellar. cbn [inclusionProbability]. lra.
  - unfold probeOutage, defaultSpec. cbn [outage inclusionProbabilityMultiplier]. lra.
Defined.







(** ** The books of a run *)

(** A property of the state that every handler keeps, and that does not
    depend on the queue, holds after any number of iterations. *)
Lemma runPrefix_state_invariant (I : SimulationSpec -> Sim -> Prop)
    (spec : SimulationSpec) :
  (forall st q, I spec st -> I spec (upd_events (fun _ => q) st)) ->
  (forall fuel rng binSize event st n st' b n',
      I spec st ->
      handleEvent fuel spec rng binSize event st n = Some ((st', b), n') ->
      I spec st') ->
  (forall fuel rng n st0 binSize n0,
      startRun fuel spec rng n = Some ((st0, binSize), n0) -> I spec st0) ->
  forall k fuel baseSeed runIndex st binSize log,
    runPrefix k fuel spec baseSeed runIndex = Some (st, binSize, log) ->
    I spec st.
Proof.
  intros Hq Hstep Hinit k fuel baseSeed runIndex st binSize log H.
  destruct (runPrefix_phases _ _ _ _ _ _ _ _ H) as (st0 & n0 & n' & Hs & Hr).
  refine (runEvents_invariant (fun st _ => I spec st) fuel spec _ binSize _
            k _ _ _ _ _ _ (Hinit _ _ _ _ _ _ Hs) Hr).
  intros st1 log1 event rest n1 st2 b n2 HI _ Hh.
  exact (Hstep _ _ _ _ _ _ _ _ _ (Hq _ rest HI) Hh).
Qed.

Ltac split_conds :=
  repeat match goal with
    | |- context [if ?c then _ else _] => destruct c
    end.

Ltac ledger_reads :=
  sim_read authTimes; sim_read approvals; sim_read retries;
  sim_read settlementTimes; sim_read exposureDurations;
  sim_read exposureEvents; sim_read overspendPrevented;
  sim_read insufficientFundsSkipped; sim_read preAuthMismatchCount;
  sim_read preAuthCount; sim_read incrementalAuthSuccessCount;
  sim_read incrementalAuthCount.

Lemma length_push' {A} (x : A) (l : list A) : length (push x l) = S (length l).
Proof. unfold push. rewrite length_app. simpl. lia. Qed.

Lemma map_push {A B} (f : A -> B) (x : A) (l : list A) :
  List.map f (push x l) = push (f x) (List.map f l).
Proof. unfold push. rewrite List.map_app. reflexivity. Qed.

Ltac ledger_solve :=
  unfold ledger_inv in *; ledger_reads; split_conds;
  rewrite ?length_push', ?map_push; cbn [endSec startSec];
  intuition (try lia; try congruence).

Lemma handleEvent_ledger (fuel : nat) (spec : SimulationSpec) (rng : RNG)
    (binSize : R) (event : SimulationEvent) (st : Sim) (n : nat)
    (st' : Sim) (b : Branch) (n' : nat) :
  ledger_inv st ->
  handleEvent fuel spec rng binSize event st n = Some ((st', b), n') ->
  ledger_inv st'.
Proof.
  intros HI H. unfold handleEvent in H. destruct (etype event).
  - unfold handlePurchase, purchaseOffchain in H. exec H; ledger_solve.
  - assert (Hst : st' = fst (handleSettlement spec binSize event st))
      by (unfold ret in H; injection H as H _; rewrite H; reflexivity).
    subst st'. clear H.
    unfold handleSettlement, settleOnChain, settleOffchain. cbv zeta.
    destruct (ev_settlement event) as [s|]; [|exact HI].
    destruct (mode spec).
    + destruct (authContext st !! txnId event) as [ctx|]; [|exact HI].
      split_conds; cbn [fst]; ledger_solve.
    + cbn [fst]. destruct (holdByTxn st !! txnId event); ledger_solve.
  - unfold ret in H. injection H as <- _ _. unfold handleHoldExpiry.
    destruct (holdByTxn st !! txnId event); [|exact HI]. ledger_solve.
  - unfold handleCompletion in H. exec H. ledger_solve.
Qed.

(** *** The counters of the time series *)

Lemma total_map_alter (f : TimeSeriesPoint -> R) (g : TimeSeriesPoint -> TimeSeriesPoint)
    (d : R) (i : nat) (s : list TimeSeriesPoint) :
  (forall pt, f (g pt) = f pt + d) -> (i < length s)%nat ->
  total (List.map f (alter g i s)) = total (List.map f s) + d.
Proof.
  intros Hf. revert i. induction s as [|pt s IH]; intros i Hi; [simpl in Hi; lia|].
  destruct i as [|i]; cbn; unfold total in *; simpl.
  - rewrite Hf. lra.
  - rewrite IH by (simpl in Hi; lia). lra.
Qed.

Lemma map_alter_same {B} (f : TimeSeriesPoint -> B)
    (g : TimeSeriesPoint -> TimeSeriesPoint) (i : nat) (s : list TimeSeriesPoint) :
  (forall pt, f (g pt) = f pt) ->
  List.map f (alter g i s) = List.map f s.
Proof.
  intros Hf. revert i. induction s as [|pt s IH]; intros i; [reflexivity|].
  destruct i as [|i]; cbn; [rewrite Hf | rewrite IH]; reflexivity.
Qed.

Lemma addTimeSeriesPoint_length (s : list TimeSeriesPoint) (binSize t : R)
    (key : SeriesKey) :
  length (addTimeSeriesPoint s binSize t key) = length s.
Proof. unfold addTimeSeriesPoint. cbv zeta. apply length_alter. Qed.

Lemma addTimeSeriesPoint_approvals (s : list TimeSeriesPoint) (binSize t : R)
    (key : SeriesKey) :
  (0 < length s)%nat ->
  total (List.map ts_approvals (addTimeSeriesPoint s binSize t key))
  = total (List.map ts_approvals s)
    + match key with key_approvals => 1 | _ => 0 end.
Proof.
  intros Hs. unfold addTimeSeriesPoint. cbv zeta.
  apply total_map_alter; [|lia]. intros pt. destruct key; simpl; lra.
Qed.

Lemma addTimeSeriesPoint_declines (s : list TimeSeriesPoint) (binSize t : R)
    (key : SeriesKey) :
  (0 < length s)%nat ->
  total (List.map ts_declines (addTimeSeriesPoint s binSize t key))
  = total (List.map ts_declines s)
    + match key with key_declines => 1 | _ => 0 end.
Proof.
  intros Hs. unfold addTimeSeriesPoint. cbv zeta.
  apply total_map_alter; [|lia]. intros pt. destruct key; simpl; lra.
Qed.

Lemma addTimeSeriesPoint_timeouts (s : list TimeSeriesPoint) (binSize t : R)
    (key : SeriesKey) :
  (0 < length s)%nat ->
  total (List.map ts_timeouts (addTimeSeriesPoint s binSize t key))
  = total (List.map ts_timeouts s)
    + match key with key_timeouts => 1 | _ => 0 end.
Proof.
  intros Hs. unfold addTimeSeriesPoint. cbv zeta.
  apply total_map_alter; [|lia]. intros pt. destruct key; simpl; lra.
Qed.

Lemma INR_length_push {A} (x : A) (l : list A) :
  INR (length (push x l)) = INR (length l) + 1.
Proof. rewrite length_push', S_INR. reflexivity. Qed.

Ltac series_solve Hlen :=
  unfold series_inv; sim_read series; sim_read approvals; sim_read declines;
  sim_read timeouts; split_conds;
  rewrite ?addTimeSeriesPoint_length,
    ?addTimeSeriesPoint_approvals, ?addTimeSeriesPoint_declines,
    ?addTimeSeriesPoint_timeouts, ?INR_length_push by (rewrite Hlen; lia);
  repeat split; first [assumption | lra].

Lemma handleEvent_series (fuel : nat) (spec : SimulationSpec) (rng : RNG)
    (binSize : R) (event : SimulationEvent) (st : Sim) (n : nat)
    (st' : Sim) (b : Branch) (n' : nat) :
  series_inv st ->
  handleEvent fuel spec rng binSize event st n = Some ((st', b), n') ->
  series_inv st'.
Proof.
  intros (Hlen & Ha & Hd & Ht) H. unfold handleEvent in H. destruct (etype event).
  - unfold handlePurchase, purchaseOffchain in H. exec H; series_solve Hlen.
  - assert (Hst : st' = fst (handleSettlement spec binSize event st))
      by (unfold ret in H; injection H as H _; rewrite H; reflexivity).
    subst st'. clear H.
    unfold handleSettlement, settleOnChain, settleOffchain. cbv zeta.
    destruct (ev_settlement event) as [s|]; [|series_solve Hlen].
    destruct (mode spec).
    + destruct (authContext st !! txnId event) as [ctx|]; [|series_solve Hlen].
      split_conds; cbn [fst]; series_solve Hlen.
    + cbn [fst]. destruct (holdByTxn st !! txnId event); series_solve Hlen.
  - unfold ret in H. injection H as <- _ _. unfold handleHoldExpiry.
    destruct (holdByTxn st !! txnId event); series_solve Hlen.
  - unfold handleCompletion in H. exec H. series_solve Hlen.
Qed.

(** *** The balances *)

(** Only a settlement changes a balance: it takes an amount that the balance
    covers. *)
Lemma handleEvent_balances (fuel : nat) (spec : SimulationSpec) (rng : RNG)
    (binSize : R) (event : SimulationEvent) (st : Sim) (n : nat)
    (st' : Sim) (b : Branch) (n' : nat) :
  handleEvent fuel spec rng binSize event st n = Some ((st', b), n') ->
  balances st' = balances st \/
  (etype event = settlement /\
   amount event <= readNum (balances st) (userId event) /\
   balances st'
   = <[userId event := readNum (balances st) (userId event) - amount event]>
       (balances st)).
Proof.
  intros H. unfold handleEvent in H. destruct (etype event) eqn:Hty.
  - left. unfold handlePurchase, purchaseOffchain in H.
    exec H; sim_read balances; split_conds; reflexivity.
  - assert (Hst : st' = fst (handleSettlement spec binSize event st))
      by (unfold ret in H; injection H as H _; rewrite H; reflexivity).
    subst st'. clear H.
    unfold handleSettlement, settleOnChain, settleOffchain. cbv zeta.
    destruct (ev_settlement event) as [s|]; [|left; reflexivity].
    destruct (mode spec).
    + destruct (authContext st !! txnId event) as [ctx|]; [|left; reflexivity].
      destruct (_ || _); [split_conds; left; sim_read balances; reflexivity|].
      destruct (negb _); [left; sim_read balances; reflexivity|].
      destruct (Rlt_bool_spec (readNum (balances st) (userId event)) (amount event))
        as [Hlt | Hge]; [left; reflexivity|].
      right. split; [reflexivity|]. split; [exact Hge|].
      cbn [fst]. sim_read balances. split_conds; reflexivity.
    + cbn [fst].
      destruct (confirmed s); cbn [andb].
      * destruct (Rle_bool_spec (amount event) (readNum (balances st) (userId event)))
          as [Hle | Hgt].
        -- right. split; [reflexivity|]. split; [exact Hle|].
           destruct (holdByTxn st !! txnId event);
             sim_read balances; split_conds; reflexivity.
        -- left. destruct (holdByTxn st !! txnId event);
             sim_read balances; split_conds; reflexivity.
      * left. destruct (holdByTxn st !! txnId event);
          sim_read balances; split_conds; reflexivity.
  - left. unfold ret in H. injection H as <- _ _. unfold handleHoldExpiry.
    destruct (holdByTxn st !! txnId event); sim_read balances; reflexivity.
  - left. unfold handleCompletion in H. exec H.
    sim_read balances; split_conds; reflexivity.
Qed.

Lemma handleEvent_funds (fuel : nat) (spec : SimulationSpec) (rng : RNG)
    (binSize : R) (event : SimulationEvent) (st : Sim) (n : nat)
    (st' : Sim) (b : Branch) (n' : nat) :
  funds_inv spec st ->
  handleEvent fuel spec rng binSize event st n = Some ((st', b), n') ->
  funds_inv spec st'.
Proof.
  intros [Hlen Hall] H. unfold funds_inv.
  destruct (handleEvent_balances _ _ _ _ _ _ _ _ _ _ H) as [-> | (_ & Hle & ->)];
    [split; assumption|].
  split; [rewrite length_insert; exact Hlen|].
  apply list.Forall_insert; [exact Hall | lra].
Qed.

Lemma bootstrap_balances (fuel : nat) (spec : SimulationSpec) (rng : RNG)
    (horizonSec : R) :
  forall us bals q txn n bals' q' txn' n',
    bootstrap fuel spec rng horizonSec us bals q txn n
    = Some ((bals', q', txn'), n') ->
    List.Forall (fun b => 0 <= b) bals ->
    length bals' = (length bals + length us)%nat /\
    List.Forall (fun b => 0 <= b) bals'.
Proof.
  induction us as [|u us IH]; intros bals q txn n bals' q' txn' n' H Hall.
  - simpl in H. unfold ret in H. injection H as <- _ _ _.
    split; [simpl; lia | exact Hall].
  - simpl in H. apply bind_Some in H. destruct H as (b0 & n1 & Hb & H).
    apply bind_Some in H. destruct H as ([q1 txn1] & n2 & _ & H).
    apply IH in H.
    + destruct H as [Hlen Hall']. split; [|exact Hall'].
      rewrite Hlen, length_app. simpl. lia.
    + apply Forall_app. split; [exact Hall|]. constructor; [|constructor].
      apply (sampleDistribution_nonneg _ _ _ _ _ _ Hb).
Qed.

Lemma startRun_state (fuel : nat) (spec : SimulationSpec) (rng : RNG)
    (n : nat) (st0 : Sim) (binSize : R) (n0 : nat) :
  startRun fuel spec rng n = Some ((st0, binSize), n0) ->
  exists bals q,
    st0 = initialSim spec bals q (fst (initTimeSeries (horizonHours spec * 3600) 120)) /\
    length bals = users (userModel spec) /\
    List.Forall (fun b => 0 <= b) bals.
Proof.
  unfold startRun. cbv zeta. intros H.
  apply bind_Some in H. destruct H as ([[bals q] txn] & n1 & Hb & H).
  destruct (initTimeSeries (horizonHours spec * 3600) 120) as [series bs] eqn:Hts.
  unfold ret in H. injection H as <- <- _.
  apply bootstrap_balances in Hb; [|constructor].
  destruct Hb as [Hlen Hall]. exists bals, q. split; [reflexivity|].
  split; [|exact Hall]. rewrite Hlen, length_seq. simpl. lia.
Qed.

(** *** The spend limits *)

Lemma getSpend_addSpend (m : gmap nat (gmap Z R)) (u u' : nat) (k k' : Z) (a : R) :
  getSpend (addSpend m u k a) u' k'
  = if decide (u = u' /\ k = k') then getSpend m u k + a else getSpend m u' k'.
Proof.
  unfold getSpend, addSpend. cbv zeta.
  destruct (decide (u = u')) as [<- | Hu].
  - rewrite lookup_insert_eq.
    destruct (decide (k = k')) as [<- | Hk].
    + rewrite lookup_insert_eq. rewrite decide_True by auto. simpl.
      destruct (m !! u); reflexivity.
    + rewrite lookup_insert_ne by exact Hk. rewrite decide_False by tauto.
      destruct (m !! u); simpl; [reflexivity|]. rewrite lookup_empty. reflexivity.
  - rewrite lookup_insert_ne by exact Hu. rewrite decide_False by tauto. reflexivity.
Qed.

Lemma canApprove_bounds (spec : SimulationSpec) (st : Sim) (u : nat) (a t : R) :
  canApproveWithLimits spec st u a t = true ->
  limits_enabled (spendLimits spec) = true ->
  (0 < perUserDailyLimit (spendLimits spec) ->
   getSpend (userDailySpend st) u (dayIndex t) + a
   <= perUserDailyLimit (spendLimits spec)) /\
  (0 < perUserTimeslotLimit (spendLimits spec) ->
   getSpend (userTimeslotSpend st) u (timeslotIndex spec t) + a
   <= perUserTimeslotLimit (spendLimits spec)).
Proof.
  unfold canApproveWithLimits. cbv zeta. intros H Hen. rewrite Hen in H.
  cbn [negb] in H.
  destruct (_ && _); [discriminate|].
  destruct (Rlt_bool_spec 0 (perUserDailyLimit (spendLimits spec))) as [HD | HD];
    cbn [andb] in H.
  - destruct (Rlt_bool_spec (perUserDailyLimit (spendLimits spec))
                (getSpend (userDailySpend st) u (dayIndex t) + a)) as [Hx | Hx];
      [discriminate|].
    split; [intros _; exact Hx|].
    destruct (Rlt_bool_spec 0 (perUserTimeslotLimit (spendLimits spec))) as [HT | HT];
      cbn [andb] in H; [|intros; lra].
    destruct (Rlt_bool_spec (perUserTimeslotLimit (spendLimits spec))
                (getSpend (userTimeslotSpend st) u (timeslotIndex spec t) + a))
      as [Hy | Hy]; [discriminate|]. intros _. exact Hy.
  - split; [intros; lra|].
    destruct (Rlt_bool_spec 0 (perUserTimeslotLimit (spendLimits spec))) as [HT | HT];
      cbn [andb] in H; [|intros; lra].
    destruct (Rlt_bool_spec (perUserTimeslotLimit (spendLimits spec))
                (getSpend (userTimeslotSpend st) u (timeslotIndex spec t) + a))
      as [Hy | Hy]; [discriminate|]. intros _. exact Hy.
Qed.

Lemma canApprove_frame (spec : SimulationSpec) (st st0 : Sim) (u : nat) (a t : R) :
  userDailySpend st0 = userDailySpend st ->
  userTimeslotSpend st0 = userTimeslotSpend st ->
  canApproveWithLimits spec st0 u a t = canApproveWithLimits spec st u a t.
Proof. intros Hd Ht. unfold canApproveWithLimits. rewrite Hd, Ht. reflexivity. Qed.

Ltac spend_reads :=
  sim_read userDailySpend; sim_read userTimeslotSpend.

Ltac spend_same := left; split; spend_reads; split_conds; reflexivity.

Ltac spend_added st :=
  lazymatch goal with
  | E : negb (canApproveWithLimits _ ?st0 ?u ?a ?t) = false |- _ =>
      apply negb_false_iff in E;
      try rewrite (canApprove_frame _ st st0) in E
        by (spend_reads; split_conds; reflexivity);
      destruct (limits_enabled (spendLimits _)) eqn:Hen;
      [ right; exists u, a, t; split; [exact E|]; split; [reflexivity|];
        split; spend_reads; rewrite ?Hen; cbn [negb]; split_conds; reflexivity
      | left; split; spend_reads; rewrite ?Hen; cbn [negb]; split_conds; reflexivity ]
  end.

Lemma handlePurchase_spend (fuel : nat) (spec : SimulationSpec) (rng : RNG)
    (binSize : R) (event : SimulationEvent) (st : Sim) (n : nat)
    (st' : Sim) (b : Branch) (n' : nat) :
  handlePurchase fuel spec rng binSize event st n = Some ((st', b), n') ->
  spend_step spec st st'.
Proof.
  intros H. unfold handlePurchase, purchaseOffchain in H.
  exec H; unfold spend_step; first [ spend_same | spend_added st ].
Qed.

Ltac split_conds_eqn :=
  repeat match goal with
    | |- context [if ?c then _ else _] =>
        let E := fresh "E" in destruct c eqn:E
    end.

Lemma handleSettlement_spend (spec : SimulationSpec) (binSize : R)
    (event : SimulationEvent) (st : Sim) :
  spend_step spec st (fst (handleSettlement spec binSize event st)).
Proof.
  unfold handleSettlement, settleOnChain, settleOffchain. cbv zeta.
  destruct (ev_settlement event) as [s|]; [|left; split; reflexivity].
  destruct (mode spec).
  - destruct (authContext st !! txnId event) as [ctx|]; [|left; split; reflexivity].
    split_conds_eqn; cbn [fst]; unfold spend_step; first [ spend_same | spend_added st ].
  - cbn [fst]. destruct (holdByTxn st !! txnId event); unfold spend_step; spend_same.
Qed.

Lemma incrementalAuth_spend (spec : SimulationSpec) (event : SimulationEvent)
    (delta : R) (st : Sim) :
  spend_step spec st (incrementalAuth spec event delta st).
Proof.
  unfold incrementalAuth. cbv zeta.
  destruct (negb (canApproveWithLimits spec (upd_incrementalAuthCount S st)
                    (userId event) delta (timeSec event))) eqn:E;
    unfold spend_step; [spend_same | spend_added st].
Qed.

Lemma handleCompletion_spend (fuel : nat) (spec : SimulationSpec) (rng : RNG)
    (event : SimulationEvent) (st : Sim) (n : nat)
    (st' : Sim) (b : Branch) (n' : nat) :
  handleCompletion fuel spec rng event st n = Some ((st', b), n') ->
  spend_step spec st st'.
Proof.
  intros H. unfold handleCompletion in H. exec H.
  unfold schedule.
  match goal with
  | |- spend_step _ _ (upd_events _ ?s) =>
      assert (Hs : spend_step spec st s)
  end.
  { unfold when. destruct (_ && _); [apply incrementalAuth_spend|].
    left. split; reflexivity. }
  exact Hs.
Qed.

Lemma handleEvent_spend (fuel : nat) (spec : SimulationSpec) (rng : RNG)
    (binSize : R) (event : SimulationEvent) (st : Sim) (n : nat)
    (st' : Sim) (b : Branch) (n' : nat) :
  handleEvent fuel spec rng binSize event st n = Some ((st', b), n') ->
  spend_step spec st st'.
Proof.
  intros H. unfold handleEvent in H. destruct (etype event).
  - apply (handlePurchase_spend _ _ _ _ _ _ _ _ _ _ H).
  - assert (Hst : st' = fst (handleSettlement spec binSize event st))
      by (unfold ret in H; injection H as H _; rewrite H; reflexivity).
    subst st'. apply handleSettlement_spend.
  - unfold ret in H. injection H as <- _ _. unfold handleHoldExpiry.
    destruct (holdByTxn st !! txnId event); unfold spend_step; spend_same.
  - apply (handleCompletion_spend _ _ _ _ _ _ _ _ _ H).
Qed.

Lemma spend_step_limits (spec : SimulationSpec) (st st' : Sim) :
  spend_step spec st st' -> limits_inv spec st -> limits_inv spec st'.
Proof.
  intros [[Hd Ht] | (u & a & t & Hc & Hen & Hd & Ht)] HI u' k.
  - rewrite Hd, Ht. apply HI.
  - destruct (canApprove_bounds _ _ _ _ _ Hc Hen) as [HD HT].
    destruct (HI u' k) as [HD' HT'].
    rewrite Hd, Ht, !getSpend_addSpend. split; intros Hpos.
    + destruct (decide _) as [[<- <-]|_]; auto.
    + destruct (decide _) as [[<- <-]|_]; auto.
Qed.

(** ** What every run keeps *)

Lemma total_map_const0 {A} (f : A -> R) (l : list A) :
  (forall x, f x = 0) -> total (List.map f l) = 0.
Proof.
  intros Hf. induction l as [|x l IH]; unfold total in *; simpl; [reflexivity|].
  rewrite Hf, IH. lra.
Qed.

Lemma initTimeSeries_series (horizonSec : R) (bins : nat) :
  let series := fst (initTimeSeries horizonSec bins) in
  length series = S bins /\
  total (List.map ts_approvals series) = 0 /\
  total (List.map ts_declines series) = 0 /\
  total (List.map ts_timeouts series) = 0.
Proof.
  unfold initTimeSeries. cbv zeta. cbn [fst].
  split; [rewrite length_map, length_seq; reflexivity|].
  rewrite !List.map_map. repeat split; apply total_map_const0; reflexivity.
Qed.

Lemma ledger_inv_run (k fuel : nat) (spec : SimulationSpec)
    (baseSeed : string) (runIndex : nat) (st : Sim) (binSize : R) (log : Log) :
  runPrefix k fuel spec baseSeed runIndex = Some (st, binSize, log) ->
  ledger_inv st.
Proof.
  apply (runPrefix_state_invariant (fun _ => ledger_inv) spec).
  - intros st0 q HI. exact HI.
  - intros fuel0 rng bin event st0 n st' b n' HI H.
    exact (handleEvent_ledger _ _ _ _ _ _ _ _ _ _ HI H).
  - intros fuel0 rng n st0 bin n0 H.
    destruct (startRun_state _ _ _ _ _ _ _ H) as (bals & q & -> & _).
    unfold ledger_inv, initialSim. cbn. repeat split; lia.
Qed.

Lemma series_inv_run (k fuel : nat) (spec : SimulationSpec)
    (baseSeed : string) (runIndex : nat) (st : Sim) (binSize : R) (log : Log) :
  runPrefix k fuel spec baseSeed runIndex = Some (st, binSize, log) ->
  series_inv st.
Proof.
  apply (runPrefix_state_invariant (fun _ => series_inv) spec).
  - intros st0 q HI. exact HI.
  - intros fuel0 rng bin event st0 n st' b n' HI H.
    exact (handleEvent_series _ _ _ _ _ _ _ _ _ _ HI H).
  - intros fuel0 rng n st0 bin n0 H.
    destruct (startRun_state _ _ _ _ _ _ _ H) as (bals & q & -> & _).
    unfold series_inv, initialSim. cbn [series approvals declines timeouts length].
    exact (initTimeSeries_series (horizonHours spec * 3600) 120).
Qed.

Lemma funds_inv_run (k fuel : nat) (spec : SimulationSpec)
    (baseSeed : string) (runIndex : nat) (st : Sim) (binSize : R) (log : Log) :
  runPrefix k fuel spec baseSeed runIndex = Some (st, binSize, log) ->
  funds_inv spec st.
Proof.
  apply (runPrefix_state_invariant funds_inv spec).
  - intros st0 q HI. exact HI.
  - intros fuel0 rng bin event st0 n st' b n' HI H.
    exact (handleEvent_funds _ _ _ _ _ _ _ _ _ _ HI H).
  - intros fuel0 rng n st0 bin n0 H.
    destruct (startRun_state _ _ _ _ _ _ _ H) as (bals & q & -> & Hlen & Hall).
    split; assumption.
Qed.

Lemma limits_inv_run (k fuel : nat) (spec : SimulationSpec)
    (baseSeed : string) (runIndex : nat) (st : Sim) (binSize : R) (log : Log) :
  runPrefix k fuel spec baseSeed runIndex = Some (st, binSize, log) ->
  limits_inv spec st.
Proof.
  apply (runPrefix_state_invariant limits_inv spec).
  - intros st0 q HI. exact HI.
  - intros fuel0 rng bin event st0 n st' b n' HI H.
    exact (spend_step_limits _ _ _ (handleEvent_spend _ _ _ _ _ _ _ _ _ _ H) HI).
  - intros fuel0 rng n st0 bin n0 H.
    destruct (startRun_state _ _ _ _ _ _ _ H) as (bals & q & -> & _).
    intros u z. unfold getSpend, initialSim. cbn [userDailySpend userTimeslotSpend].
    rewrite !lookup_empty. split; intros; lra.
Qed.

Lemma simulateOnce_trace (fuel : nat) (spec : SimulationSpec)
    (baseSeed : string) (runIndex : nat) (r : SimulationRunResult) :
  simulateOnce fuel spec baseSeed runIndex = Some r ->
  exists st binSize log,
    runPrefix fuel fuel spec baseSeed runIndex = Some (st, binSize, log) /\
    r = finishRun binSize st.
Proof.
  unfold simulateOnce, simulateOnceTrace. intros H.
  destruct (runPrefix fuel fuel spec baseSeed runIndex) as [[[st bin] log]|];
    [|discriminate].
  destruct (events st); [|discriminate]. injection H as <-.
  exists st, bin, log. auto.
Qed.

(** The run of the scenario [probe false 5]: the purchase of its one user
    is approved, settles and its hold expires. *)
Lemma probe_simulateOnce :
  exists st bin log,
    runPrefix 8 8 (probe false 5) "stellar-001" 90 = Some (st, bin, log) /\
    simulateOnce 8 (probe false 5) "stellar-001" 90 = Some (finishRun bin st).
Proof.
  destruct (probe_run_settled 5 6 5 ltac:(lra)) as (st & bin & s & Hrun & _ & Hev & _).
  eexists st, bin, _. split; [exact Hrun|].
  pose proof (simulateOnceTrace_of_prefix _ _ _ _ _ _ _ Hrun Hev) as Ht.
  unfold simulateOnce. unfold probeIndex in Ht. rewrite Ht. reflexivity.
Qed.

(** X19: after any number of iterations of the event loop of a run there
    is one authorization time for each approval, one retry count for each
    settlement time, and the exposure durations are the lengths
    [endSec - startSec] of the exposure events, in the same order. *)
Theorem run_lists_in_step (k fuel : nat) (spec : SimulationSpec)
    (baseSeed : string) (runIndex : nat) (st : Sim) (binSize : R) (log : Log) :
  runPrefix k fuel spec baseSeed runIndex = Some (st, binSize, log) ->
  length (authTimes st) = length (approvals st) /\
  length (retries st) = length (settlementTimes st) /\
  exposureDurations st
  = List.map (fun e => endSec e - startSec e) (exposureEvents st).
Proof.
  intros H. destruct (ledger_inv_run _ _ _ _ _ _ _ _ H) as (Ha & Hr & He & _).
  auto.
Qed.

Lemma run_lists_in_step_witness :
  exists st binSize log,
    runPrefix 8 8 (probe false 5) "stellar-001" 90 = Some (st, binSize, log) /\
    length (authTimes st) = length (approvals st) /\
    length (retries st) = length (settlementTimes st) /\
    exposureDurations st
    = List.map (fun e => endSec e - startSec e) (exposureEvents st).
Proof.
  destruct probe_simulateOnce as (st & bin & log & Hrun & _).
  exists st, bin, log. split; [exact Hrun|].
  exact (run_lists_in_step 8 8 (probe false 5) "stellar-001" 90 st bin log Hrun).
Defined.

Lemma ratio_unit (a c : nat) : (a <= c)%nat -> 0 <= ratio a c <= 1.
Proof.
  intros H. unfold ratio. destruct (Nat.eqb_spec c 0) as [->|Hc]; [lra|].
  assert (Hpos : 0 < INR c) by (apply lt_0_INR; lia).
  assert (Hle : INR a <= INR c) by (apply le_INR; exact H).
  pose proof (pos_INR a). split.
  - apply Rmult_le_pos; [assumption|]. left. apply Rinv_0_lt_compat. exact Hpos.
  - apply Rmult_le_reg_r with (INR c); [exact Hpos|].
    unfold Rdiv. rewrite Rmult_assoc, Rinv_l by lra. lra.
Qed.

(** X20: in the result of every run the pre-authorization mismatch rate
    and the incremental authorization success rate are between 0 and 1, and
    the purchases counted as overspend prevented are among those skipped for
    insufficient funds. *)
Theorem run_rates_within_unit (fuel : nat) (spec : SimulationSpec)
    (baseSeed : string) (runIndex : nat) (r : SimulationRunResult) :
  simulateOnce fuel spec baseSeed runIndex = Some r ->
  0 <= m_preAuthMismatchRate (run_metrics r) <= 1 /\
  0 <= m_incrementalAuthSuccessRate (run_metrics r) <= 1 /\
  (m_overspendPrevented (run_metrics r)
   <= m_insufficientFundsSkipped (run_metrics r))%nat.
Proof.
  intros H. destruct (simulateOnce_trace _ _ _ _ _ H) as (st & bin & log & Hrun & ->).
  destruct (ledger_inv_run _ _ _ _ _ _ _ _ Hrun) as (_ & _ & _ & Ho & Hp & Hi).
  cbn [finishRun run_metrics m_preAuthMismatchRate m_incrementalAuthSuccessRate
       m_overspendPrevented m_insufficientFundsSkipped].
  split; [apply ratio_unit; exact Hp|]. split; [apply ratio_unit; exact Hi|].
  exact Ho.
Qed.

Lemma run_rates_within_unit_witness :
  exists r,
    simulateOnce 8 (probe false 5) "stellar-001" 90 = Some r /\
    0 <= m_preAuthMismatchRate (run_metrics r) <= 1 /\
    0 <= m_incrementalAuthSuccessRate (run_metrics r) <= 1 /\
    (m_overspendPrevented (run_metrics r)
     <= m_insufficientFundsSkipped (run_metrics r))%nat.
Proof.
  destruct probe_simulateOnce as (st & bin & log & _ & Hrun).
  exists (finishRun bin st). split; [exact Hrun|].
  exact (run_rates_within_unit 8 (probe false 5) "stellar-001" 90 _ Hrun).
Defined.

Lemma accumulateExposure_counters (series : list TimeSeriesPoint) (binSize : R)
    (e : ExposureEvent) :
  length (accumulateExposure series binSize e) = length series /\
  List.map ts_approvals (accumulateExposure series binSize e)
  = List.map ts_approvals series /\
  List.map ts_declines (accumulateExposure series binSize e)
  = List.map ts_declines series /\
  List.map ts_timeouts (accumulateExposure series binSize e)
  = List.map ts_timeouts series.
Proof.
  unfold accumulateExposure. cbv zeta.
  generalize (seq (Z.to_nat (Z.max 0 (floor (startSec e / binSize))))
                (Z.to_nat (Z.min (Z.of_nat (length series))
                                 (ceil (endSec e / binSize) + 1))
                 - Z.to_nat (Z.max 0 (floor (startSec e / binSize))))).
  intros l. revert series. induction l as [|i l IH]; intros series; [auto|].
  cbn [fold_left]. destruct (IH (alter (addExposure (exp_amount e)) i series))
    as (H1 & H2 & H3 & H4).
  rewrite H1, H2, H3, H4, length_alter, !map_alter_same by reflexivity. auto.
Qed.

Lemma finishRun_counters (binSize : R) (st : Sim) :
  let ts := run_timeSeries (finishRun binSize st) in
  length ts = length (series st) /\
  List.map ts_approvals ts = List.map ts_approvals (series st) /\
  List.map ts_declines ts = List.map ts_declines (series st) /\
  List.map ts_timeouts ts = List.map ts_timeouts (series st).
Proof.
  cbn [finishRun run_timeSeries]. cbv zeta.
  generalize (exposureEvents st). generalize (series st).
  intros s l. revert s. induction l as [|e l IH]; intros s; [auto|].
  cbn [fold_left]. destruct (IH (accumulateExposure s binSize e))
    as (H1 & H2 & H3 & H4).
  destruct (accumulateExposure_counters s binSize e) as (G1 & G2 & G3 & G4).
  rewrite H1, H2, H3, H4, G1, G2, G3, G4. auto.
Qed.

(** X21: the time series of every run has 121 points, and its counters
    add up to the totals of the run: the approvals of the points to
    [approvals], the declines to [declines], the timeouts to [timeouts].
    Every decision is counted in exactly one point, whatever its time. *)
Theorem run_series_counts_decisions (fuel : nat) (spec : SimulationSpec)
    (baseSeed : string) (runIndex : nat) (r : SimulationRunResult) :
  simulateOnce fuel spec baseSeed runIndex = Some r ->
  length (run_timeSeries r) = 121%nat /\
  total (List.map ts_approvals (run_timeSeries r))
  = INR (m_approvals (run_metrics r)) /\
  total (List.map ts_declines (run_timeSeries r))
  = INR (m_declines (run_metrics r)) /\
  total (List.map ts_timeouts (run_timeSeries r))
  = INR (m_timeouts (run_metrics r)).
Proof.
  intros H. destruct (simulateOnce_trace _ _ _ _ _ H) as (st & bin & log & Hrun & ->).
  destruct (series_inv_run _ _ _ _ _ _ _ _ Hrun) as (Hl & Ha & Hd & Ht).
  destruct (finishRun_counters bin st) as (G1 & G2 & G3 & G4).
  cbv zeta in G1, G2, G3, G4. rewrite G1, G2, G3, G4.
  cbn [finishRun run_metrics m_approvals m_declines m_timeouts]. auto.
Qed.

Lemma run_series_counts_decisions_witness :
  exists r,
    simulateOnce 8 (probe false 5) "stellar-001" 90 = Some r /\
    length (run_timeSeries r) = 121%nat /\
    total (List.map ts_approvals (run_timeSeries r))
    = INR (m_approvals (run_metrics r)) /\
    total (List.map ts_declines (run_timeSeries r))
    = INR (m_declines (run_metrics r)) /\
    total (List.map ts_timeouts (run_timeSeries r))
    = INR (m_timeouts (run_metrics r)).
Proof.
  destruct probe_simulateOnce as (st & bin & log & _ & Hrun).
  exists (finishRun bin st). split; [exact Hrun|].
  exact (run_series_counts_decisions 8 (probe false 5) "stellar-001" 90 _ Hrun).
Defined.

(** X22: after any number of iterations of the event loop of a run there
    is one balance for each user and no balance is negative: a settlement
    takes an amount from a balance only when the balance covers it. *)
Theorem balances_never_negative (k fuel : nat) (spec : SimulationSpec)
    (baseSeed : string) (runIndex : nat) (st : Sim) (binSize : R) (log : Log)
    (u : nat) :
  runPrefix k fuel spec baseSeed runIndex = Some (st, binSize, log) ->
  length (balances st) = users (userModel spec) /\
  0 <= readNum (balances st) u.
Proof.
  intros H. destruct (funds_inv_run _ _ _ _ _ _ _ _ H) as [Hlen Hall].
  split; [exact Hlen|]. unfold readNum.
  destruct (balances st !! u) as [x|] eqn:Hx; simpl; [|lra].
  rewrite List.Forall_forall in Hall. apply Hall.
  apply list_elem_of_In. apply (list_elem_of_lookup_2 _ _ _ Hx).
Qed.

Lemma balances_never_negative_witness :
  exists st binSize log,
    runPrefix 8 8 (probe false 5) "stellar-001" 90 = Some (st, binSize, log) /\
    length (balances st) = users (userModel (probe false 5)) /\
    0 <= readNum (balances st) 0.
Proof.
  destruct probe_simulateOnce as (st & bin & log & Hrun & _).
  exists st, bin, log. split; [exact Hrun|].
  exact (balances_never_negative 8 8 (probe false 5) "stellar-001" 90 st bin log
           0%nat Hrun).
Defined.

(** X23: after any number of iterations of the event loop of a run the
    spend recorded for a user in a day is at most the daily limit, when that
    limit is positive, and the spend recorded in a time slot is at most the
    time slot limit, when that limit is positive. *)
Theorem spend_within_limits (k fuel : nat) (spec : SimulationSpec)
    (baseSeed : string) (runIndex : nat) (st : Sim) (binSize : R) (log : Log)
    (u : nat) (day slot : Z) :
  runPrefix k fuel spec baseSeed runIndex = Some (st, binSize, log) ->
  (0 < perUserDailyLimit (spendLimits spec) ->
   getSpend (userDailySpend st) u day <= perUserDailyLimit (spendLimits spec)) /\
  (0 < perUserTimeslotLimit (spendLimits spec) ->
   getSpend (userTimeslotSpend st) u slot
   <= perUserTimeslotLimit (spendLimits spec)).
Proof.
  intros H. pose proof (limits_inv_run _ _ _ _ _ _ _ _ H) as HI.
  split; [apply (HI u day) | apply (HI u slot)].
Qed.

Lemma spend_within_limits_witness :
  exists st binSize log,
    runPrefix 8 8 (probe false 5) "stellar-001" 90 = Some (st, binSize, log) /\
    (0 < perUserDailyLimit (spendLimits (probe false 5)) ->
     getSpend (userDailySpend st) 0 0
     <= perUserDailyLimit (spendLimits (probe false 5))) /\
    (0 < perUserTimeslotLimit (spendLimits (probe false 5)) ->
     getSpend (userTimeslotSpend st) 0 0
     <= perUserTimeslotLimit (spendLimits (probe false 5))).
Proof.
  destruct probe_simulateOnce as (st & bin & log & Hrun & _).
  exists st, bin, log. split; [exact Hrun|].
  exact (spend_within_limits 8 8 (probe false 5) "stellar-001" 90 st bin log
           0%nat 0%Z 0%Z Hrun).
Defined.

(** X24: the spend maps read back what was added: after [addSpend] of an
    amount for a user and a key, [getSpend] of that user and key is the
    former spend plus the amount and every other entry is as before; an
    entry that was never added reads 0. *)
Theorem spend_map_reads_back (m : gmap nat (gmap Z R)) (u u' : nat)
    (k k' : Z) (a : R) :
  getSpend ∅ u k = 0 /\
  getSpend (addSpend m u k a) u' k'
  = if decide (u = u' /\ k = k') then getSpend m u k + a else getSpend m u' k'.
Proof.
  split; [|apply getSpend_addSpend].
  unfold getSpend. rewrite lookup_empty. reflexivity.
Qed.

(** ** Progress reports, workers and the pool *)

(** The loop with the callback returns the runs of the loop without it, and
    reports 1, 2, ... after each run that returned. *)
Lemma runSimulationRuns_loop_spec (fuel : nat) (spec : SimulationSpec) (s : nat) :
  forall remaining i,
    snd (runSimulationRuns_loop fuel spec s i remaining)
    = runSimulationRuns fuel spec (s + i) remaining /\
    exists k, (k <= remaining)%nat /\
      fst (runSimulationRuns_loop fuel spec s i remaining) = seq (i + 1) k /\
      (is_Some (runSimulationRuns fuel spec (s + i) remaining) -> k = remaining).
Proof.
  induction remaining as [|remaining IH]; intros i.
  - simpl. split; [reflexivity|]. exists 0%nat. auto.
  - cbn [runSimulationRuns_loop runSimulationRuns].
    destruct (simulateOnce fuel spec (seed spec) (s + i)) as [run|].
    + destruct (IH (S i)) as (Hs & k & Hk & Hf & Hfull).
      replace (s + S i)%nat with (S (s + i)) in Hs, Hfull by lia.
      cbn [fst snd]. rewrite Hs. split.
      * destruct (runSimulationRuns fuel spec (S (s + i)) remaining); reflexivity.
      * exists (S k). split; [lia|]. split.
        -- rewrite Hf. cbn [seq]. replace (S i + 1)%nat with (S (i + 1)) by lia.
           reflexivity.
        -- intros Hsome. f_equal. apply Hfull.
           destruct (runSimulationRuns fuel spec (S (s + i)) remaining);
             [eauto | destruct Hsome as [? Hx]; discriminate Hx].
    + cbn [fst snd]. split; [reflexivity|]. exists 0%nat. split; [lia|].
      split; [reflexivity|]. intros [? Hx]. discriminate Hx.
Qed.

Lemma runSimulationRunsReporting_spec (fuel : nat) (spec : SimulationSpec)
    (s count : nat) :
  snd (runSimulationRunsReporting fuel spec s count)
  = runSimulationRuns fuel spec s count /\
  exists k, (k <= count)%nat /\
    fst (runSimulationRunsReporting fuel spec s count) = seq 1 k /\
    (is_Some (runSimulationRuns fuel spec s count) -> k = count).
Proof.
  unfold runSimulationRunsReporting.
  destruct (runSimulationRuns_loop_spec fuel spec s count 0) as (Hs & k & Hk & Hf & Hfull).
  replace (s + 0)%nat with s in * by lia. split; [exact Hs|].
  exists k. auto.
Qed.

(** X25: a worker that is asked for [runs] runs from [startIndex], all of
    which return, posts the progress messages 1, 2, ..., [runs] in this
    order, each with its own id and the total [runs], and then one result
    message with the runs [startIndex], ..., [startIndex + runs - 1] in
    order: what [runSimulationRuns] returns without a callback. *)
Theorem worker_posts_progress_then_result (fuel : nat) (input : WorkerInput)
    (data : list SimulationRunResult) :
  runSimulationRuns fuel (wi_spec input) (wi_startIndex input) (wi_runs input)
  = Some data ->
  worker_onmessage fuel input
  = List.map (fun completed =>
                progressMessage (wi_workerId input) completed (wi_runs input))
             (seq 1 (wi_runs input))
    ++ [resultMessage (wi_workerId input) data] /\
  length data = wi_runs input /\
  forall i, (i < wi_runs input)%nat ->
    data !! i
    = simulateOnce fuel (wi_spec input) (seed (wi_spec input)) (wi_startIndex input + i).
Proof.
  intros H. unfold worker_onmessage. cbv zeta.
  destruct (runSimulationRunsReporting_spec fuel (wi_spec input)
              (wi_startIndex input) (wi_runs input)) as (Hs & k & Hk & Hf & Hfull).
  rewrite Hs, Hf, H. rewrite (Hfull ltac:(rewrite H; eauto)).
  split; [reflexivity|].
  assert (Hlook : forall i, (i < wi_runs input)%nat ->
            data !! i
            = simulateOnce fuel (wi_spec input) (seed (wi_spec input))
                (wi_startIndex input + i))
    by (intros i Hi; apply (runSimulationRuns_lookup _ _ _ _ _ _ H Hi)).
  split; [|exact Hlook].
  clear - H. revert H. generalize (wi_startIndex input) as s. revert data.
  induction (wi_runs input) as [|c IH]; intros data s H; simpl in H.
  - injection H as <-. reflexivity.
  - destruct (simulateOnce _ _ _ s); [|discriminate].
    destruct (runSimulationRuns fuel (wi_spec input) (S s) c) eqn:Hr; [|discriminate].
    injection H as <-. simpl. f_equal. apply (IH _ _ Hr).
Qed.

Lemma probe_batch :
  exists st bin,
    runSimulationRuns 8 (probe false 5) 90 1 = Some [finishRun bin st].
Proof.
  destruct probe_simulateOnce as (st & bin & log & _ & Hrun).
  exists st, bin. cbn [runSimulationRuns].
  change (seed (probe false 5)) with "stellar-001"%string.
  rewrite Hrun. reflexivity.
Qed.

Lemma worker_posts_progress_then_result_witness :
  exists data,
    runSimulationRuns 8 (probe false 5) 90 1 = Some data /\
    worker_onmessage 8 {| wi_spec := probe false 5; wi_startIndex := 90;
                          wi_runs := 1; wi_workerId := 3 |}
    = [progressMessage 3 1 1; resultMessage 3 data].
Proof.
  destruct probe_batch as (st & bin & H).
  exists [finishRun bin st]. split; [exact H|].
  exact (proj1 (worker_posts_progress_then_result 8
                  {| wi_spec := probe false 5; wi_startIndex := 90;
                     wi_runs := 1; wi_workerId := 3 |} _ H)).
Defined.

(** *** The partition of the runs *)

Lemma pool_fold (spec : SimulationSpec) (q r : nat) :
  forall idxs acc s,
    let res :=
      fold_left
        (fun (state : list WorkerInput * nat) idx =>
           (fst state ++ [{| wi_spec := spec; wi_startIndex := snd state;
                             wi_runs := q + (if (idx <? r)%nat then 1 else 0);
                             wi_workerId := idx |}],
            (snd state + (q + (if (idx <? r)%nat then 1 else 0)))%nat))
        idxs (acc, s) in
    exists new,
      fst res = acc ++ new /\
      contiguous s new /\
      Forall2 (fun idx m =>
                 wi_workerId m = idx /\ wi_spec m = spec /\
                 wi_runs m = (q + (if (idx <? r)%nat then 1 else 0))%nat)
              idxs new.
Proof.
  induction idxs as [|idx idxs IH]; intros acc s; cbv zeta.
  - exists []. cbn. rewrite app_nil_r. repeat split. constructor.
  - cbn [fold_left fst snd].
    destruct (IH (acc ++ [{| wi_spec := spec; wi_startIndex := s;
                             wi_runs := q + (if (idx <? r)%nat then 1 else 0);
                             wi_workerId := idx |}])
                 (s + (q + (if (idx <? r)%nat then 1 else 0)))%nat)
      as (new & Hf & Hc & Hall).
    cbv zeta in Hf. eexists (_ :: new). split; [|split].
    + rewrite Hf, <- app_assoc. reflexivity.
    + cbn [contiguous wi_startIndex wi_runs]. split; [reflexivity | exact Hc].
    + constructor; [cbn; auto | exact Hall].
Qed.

Lemma contiguous_ranges (msgs : list WorkerInput) :
  forall s, contiguous s msgs ->
    concat (List.map runRange msgs) = seq s (list_sum (List.map wi_runs msgs)).
Proof.
  induction msgs as [|m msgs IH]; intros s H; [reflexivity|].
  destruct H as [Hs Hc]. cbn [List.map concat].
  change (list_sum (wi_runs m :: List.map wi_runs msgs))
    with (wi_runs m + list_sum (List.map wi_runs msgs))%nat.
  rewrite (IH _ Hc), seq_app. unfold runRange. rewrite Hs. reflexivity.
Qed.

Lemma share_sum (q r : nat) (n : nat) :
  list_sum (List.map (fun idx => q + (if (idx <? r)%nat then 1 else 0))%nat (seq 0 n))
  = (q * n + Nat.min r n)%nat.
Proof.
  induction n as [|n IH]; [simpl; lia|].
  rewrite seq_S, List.map_app, list_sum_app, IH. simpl.
  destruct (Nat.ltb_spec n r); lia.
Qed.

Lemma Forall2_runs_sum (q r : nat) (spec : SimulationSpec) (idxs : list nat)
    (msgs : list WorkerInput) :
  Forall2 (fun idx m =>
             wi_workerId m = idx /\ wi_spec m = spec /\
             wi_runs m = (q + (if (idx <? r)%nat then 1 else 0))%nat)
          idxs msgs ->
  List.map wi_runs msgs
  = List.map (fun idx => q + (if (idx <? r)%nat then 1 else 0))%nat idxs.
Proof.
  induction 1 as [|idx m idxs msgs (_ & _ & Hr) _ IH]; [reflexivity|].
  cbn [List.map]. rewrite Hr, IH. reflexivity.
Qed.

Lemma poolMessages_spec (hardwareConcurrency : option nat) (spec : SimulationSpec) :
  hardwareConcurrency <> Some 0%nat ->
  let total := poolTotalRuns spec in
  let wc := poolWorkerCount hardwareConcurrency spec in
  (1 <= wc <= total)%nat /\
  contiguous 0 (poolMessages hardwareConcurrency spec) /\
  list_sum (List.map wi_runs (poolMessages hardwareConcurrency spec)) = total /\
  Forall2 (fun idx m =>
             wi_workerId m = idx /\ wi_spec m = spec /\
             wi_runs m
             = (total / wc + (if (idx <? total mod wc)%nat then 1 else 0))%nat)
          (seq 0 wc) (poolMessages hardwareConcurrency spec).
Proof.
  intros Hhc. cbv zeta.
  assert (Htot : (1 <= poolTotalRuns spec)%nat) by (unfold poolTotalRuns; lia).
  assert (Hwc : (1 <= poolWorkerCount hardwareConcurrency spec
                 <= poolTotalRuns spec)%nat).
  { unfold poolWorkerCount. destruct hardwareConcurrency as [[|h]|];
      [congruence | |]; cbn -[Nat.min poolTotalRuns]; lia. }
  split; [exact Hwc|].
  unfold poolMessages. cbv zeta.
  set (total := poolTotalRuns spec) in *.
  set (wc := poolWorkerCount hardwareConcurrency spec) in *.
  destruct (pool_fold spec (total / wc) (total mod wc) (seq 0 wc) [] 0%nat)
    as (new & Hf & Hc & Hall).
  cbv zeta in Hf. rewrite Hf. cbn [app].
  split; [exact Hc|]. split; [|exact Hall].
  rewrite (Forall2_runs_sum _ _ _ _ _ Hall), share_sum.
  assert (Hmod : (total mod wc < wc)%nat) by (apply Nat.mod_upper_bound; lia).
  pose proof (Nat.div_mod_eq total wc). lia.
Qed.

(** X26: for a platform that reports at least one processor, or none at
    all, the pool posts one message to each of its workers, with the worker's
    id and the spec; there are at most as many workers as runs; the ranges of
    run indices of the messages, in the order of the workers, are the indices
    0, ..., [totalRuns - 1] without a gap or an overlap; and every worker
    gets at least one run, the shares differing by at most one. *)
Theorem pool_partitions_runs (hardwareConcurrency : option nat)
    (spec : SimulationSpec) :
  hardwareConcurrency <> Some 0%nat ->
  let msgs := poolMessages hardwareConcurrency spec in
  let total := poolTotalRuns spec in
  let wc := poolWorkerCount hardwareConcurrency spec in
  length msgs = wc /\ (1 <= wc <= total)%nat /\
  concat (List.map runRange msgs) = seq 0 total /\
  forall idx m, msgs !! idx = Some m ->
    wi_workerId m = idx /\ wi_spec m = spec /\
    (1 <= wi_runs m)%nat /\ (total / wc <= wi_runs m <= total / wc + 1)%nat.
Proof.
  intros Hhc. cbv zeta.
  destruct (poolMessages_spec hardwareConcurrency spec Hhc) as (Hwc & Hc & Hsum & Hall).
  cbv zeta in Hwc, Hsum, Hall.
  split; [rewrite <- (Forall2_length _ _ _ Hall), length_seq; reflexivity|].
  split; [exact Hwc|].
  split; [rewrite (contiguous_ranges _ _ Hc), Hsum; reflexivity|].
  intros idx m Hm.
  destruct (Forall2_lookup_r _ _ _ _ _ Hall Hm) as (i & Hi & Hid & Hspec & Hruns).
  apply lookup_seq in Hi. destruct Hi as [-> Hlt]. cbn [Nat.add] in *.
  split; [exact Hid|]. split; [exact Hspec|].
  assert (Hq : (1 <= poolTotalRuns spec / poolWorkerCount hardwareConcurrency spec)%nat).
  { apply Nat.div_le_lower_bound; lia. }
  destruct (idx <? _)%nat; lia.
Qed.

Lemma pool_partitions_runs_witness :
  length (poolMessages (Some 8%nat) defaultSpec)
  = poolWorkerCount (Some 8%nat) defaultSpec /\
  (1 <= poolWorkerCount (Some 8%nat) defaultSpec <= poolTotalRuns defaultSpec)%nat /\
  concat (List.map runRange (poolMessages (Some 8%nat) defaultSpec))
  = seq 0 (poolTotalRuns defaultSpec) /\
  forall idx m, poolMessages (Some 8%nat) defaultSpec !! idx = Some m ->
    wi_workerId m = idx /\ wi_spec m = defaultSpec /\
    (1 <= wi_runs m)%nat /\
    (poolTotalRuns defaultSpec / poolWorkerCount (Some 8%nat) defaultSpec
     <= wi_runs m
     <= poolTotalRuns defaultSpec / poolWorkerCount (Some 8%nat) defaultSpec + 1)%nat.
Proof. apply (pool_partitions_runs (Some 8%nat) defaultSpec). discriminate. Defined.

(** *** The results of the pool *)

Lemma contiguous_chunks (fuel : nat) (spec : SimulationSpec) :
  forall msgs s batch,
    contiguous s msgs ->
    List.Forall (fun m => wi_spec m = spec) msgs ->
    runSimulationRuns fuel spec s (list_sum (List.map wi_runs msgs)) = Some batch ->
    exists chunks,
      Forall2 (fun m d =>
                 runSimulationRuns fuel (wi_spec m) (wi_startIndex m) (wi_runs m)
                 = Some d) msgs chunks /\
      concat chunks = batch.
Proof.
  induction msgs as [|m msgs IH]; intros s batch Hc Hspec H.
  - simpl in H. injection H as <-. exists []. split; [constructor | reflexivity].
  - destruct Hc as [Hs Hc]. inversion Hspec as [|? ? Hm Hrest]; subst.
    change (list_sum (List.map wi_runs (m :: msgs)))
      with (wi_runs m + list_sum (List.map wi_runs msgs))%nat in H.
    rewrite runSimulationRuns_split in H. unfold concatRuns in H.
    destruct (runSimulationRuns fuel (wi_spec m) (wi_startIndex m) (wi_runs m))
      as [d|] eqn:Hd; [|discriminate].
    destruct (runSimulationRuns fuel (wi_spec m) (wi_startIndex m + wi_runs m)
                (list_sum (List.map wi_runs msgs))) as [b|] eqn:Hb; [|discriminate].
    injection H as <-.
    destruct (IH _ _ Hc Hrest Hb) as (chunks & Hall & Hcat).
    exists (d :: chunks). split; [constructor; assumption|].
    cbn [concat]. rewrite Hcat. reflexivity.
Qed.

Lemma pool_results_fold (fuel : nat) (msgs : list WorkerInput)
    (chunks : list (list SimulationRunResult)) :
  Forall2 (fun m d =>
             runSimulationRuns fuel (wi_spec m) (wi_startIndex m) (wi_runs m)
             = Some d) msgs chunks ->
  forall arrival acc,
    List.Forall (fun w => (w < length msgs)%nat) arrival ->
    fold_left
      (fun (results : option (list SimulationRunResult)) workerId =>
         match results, msgs !! workerId with
         | Some rs, Some m =>
             match snd (runSimulationRunsReporting fuel (wi_spec m)
                          (wi_startIndex m) (wi_runs m)) with
             | Some data => Some (rs ++ data)
             | None => None
             end
         | _, _ => None
         end)
      arrival (Some acc)
    = Some (acc ++ concat (List.map (fun w => default [] (chunks !! w)) arrival)).
Proof.
  intros Hall. induction arrival as [|w arrival IH]; intros acc Hw.
  - cbn. rewrite app_nil_r. reflexivity.
  - inversion Hw as [|? ? Hlt Hrest]; subst. cbn [fold_left List.map concat].
    destruct (lookup_lt_is_Some_2 msgs w Hlt) as [m Hm].
    destruct (Forall2_lookup_l _ _ _ _ _ Hall Hm) as (d & Hd & Hrun).
    rewrite Hm, (proj1 (runSimulationRunsReporting_spec _ _ _ _)), Hrun, Hd.
    cbn [default]. rewrite (IH _ Hrest), app_assoc. reflexivity.
Qed.

Lemma map_lookup_seq {A} (d : A) (l : list A) :
  List.map (fun w => default d (l !! w)) (seq 0 (length l)) = l.
Proof.
  induction l as [|x l IH]; [reflexivity|].
  cbn [length seq List.map]. cbn [lookup list_lookup default]. f_equal.
  rewrite <- seq_shift, List.map_map. exact IH.
Qed.

Lemma concat_perm {A} (l1 l2 : list (list A)) :
  l1 ≡ₚ l2 -> concat l1 ≡ₚ concat l2.
Proof.
  induction 1 as [|x l1 l2 _ IH|x y l|l1 l2 l3 _ IH1 _ IH2]; cbn [concat].
  - reflexivity.
  - rewrite IH. reflexivity.
  - rewrite !app_assoc. apply Permutation_app_tail, Permutation_app_comm.
  - etransitivity; eassumption.
Qed.

(** X27: when every run of the batch returns, the pool returns whatever
    the order in which its workers finish, and its results are the runs
    0, ..., [totalRuns - 1] of the single batch, each exactly once: in the
    order of the batch when the workers finish in the order of their ids,
    and a permutation of it otherwise. *)
Theorem pool_results_cover_batch (fuel : nat) (hardwareConcurrency : option nat)
    (spec : SimulationSpec) (arrival : list nat)
    (batch : list SimulationRunResult) :
  hardwareConcurrency <> Some 0%nat ->
  arrival ≡ₚ seq 0 (poolWorkerCount hardwareConcurrency spec) ->
  runSimulationRuns fuel spec 0 (poolTotalRuns spec) = Some batch ->
  exists results,
    poolResults fuel hardwareConcurrency spec arrival = Some results /\
    results ≡ₚ batch /\
    (arrival = seq 0 (poolWorkerCount hardwareConcurrency spec) ->
     results = batch).
Proof.
  intros Hhc Hperm Hbatch.
  destruct (poolMessages_spec hardwareConcurrency spec Hhc) as (Hwc & Hc & Hsum & Hall).
  cbv zeta in Hwc, Hsum, Hall.
  set (msgs := poolMessages hardwareConcurrency spec) in *.
  set (wc := poolWorkerCount hardwareConcurrency spec) in *.
  assert (Hlen : length msgs = wc)
    by (rewrite <- (Forall2_length _ _ _ Hall), length_seq; reflexivity).
  assert (Hspec : List.Forall (fun m => wi_spec m = spec) msgs).
  { clear - Hall. induction Hall as [|? ? ? ? (_ & Hs & _) _ IH]; constructor; auto. }
  rewrite <- Hsum in Hbatch.
  destruct (contiguous_chunks fuel spec msgs 0 batch Hc Hspec Hbatch)
    as (chunks & Hchunks & Hcat).
  assert (Hclen : length chunks = wc)
    by (rewrite <- (Forall2_length _ _ _ Hchunks); exact Hlen).
  assert (Harr : List.Forall (fun w => (w < length msgs)%nat) arrival).
  { rewrite List.Forall_forall. intros w Hw.
    apply (Permutation_in _ Hperm), in_seq in Hw. lia. }
  exists (concat (List.map (fun w => default [] (chunks !! w)) arrival)).
  split; [|split].
  - unfold poolResults. cbv zeta. fold msgs.
    rewrite (pool_results_fold fuel msgs chunks Hchunks arrival [] Harr).
    reflexivity.
  - rewrite <- Hcat. apply concat_perm.
    etransitivity; [apply Permutation_map; exact Hperm|].
    rewrite <- Hclen, map_lookup_seq. reflexivity.
  - intros ->. rewrite <- Hclen, map_lookup_seq. exact Hcat.
Qed.

Lemma idle_run (fuel : nat) (runs : R) (runIndex : nat) :
  exists r, simulateOnce fuel (idleSpec runs) (seed (idleSpec runs)) runIndex = Some r.
Proof.
  unfold simulateOnce, simulateOnceTrace, runPrefix, startRun. cbv zeta.
  cbn [idleSpec userModel users seq bootstrap].
  unfold bind at 2. unfold ret at 1.
  destruct (initTimeSeries _ 120) as [series bin].
  unfold bind at 1. unfold ret at 1. cbn [fst snd].
  destruct fuel as [|fuel]; cbn [runEvents initialSim events MinHeap.pop];
    unfold bind, ret; cbn [fst snd initialSim events]; eauto.
Qed.

Lemma idle_batch (fuel : nat) (runs : R) :
  forall count s, is_Some (runSimulationRuns fuel (idleSpec runs) s count).
Proof.
  induction count as [|count IH]; intros s; [simpl; eauto|].
  cbn [runSimulationRuns]. destruct (idle_run fuel runs s) as [r ->].
  destruct (IH (S s)) as [rs ->]. eauto.
Qed.

Lemma pool_results_cover_batch_witness :
  exists batch results,
    runSimulationRuns 1 (idleSpec 5) 0 (poolTotalRuns (idleSpec 5)) = Some batch /\
    poolResults 1 (Some 2%nat) (idleSpec 5) [1%nat; 0%nat] = Some results /\
    results ≡ₚ batch.
Proof.
  destruct (idle_batch 1 5 (poolTotalRuns (idleSpec 5)) 0) as [batch Hb].
  assert (Hwc : poolWorkerCount (Some 2%nat) (idleSpec 5) = 2%nat).
  { unfold poolWorkerCount, poolTotalRuns. cbn [idleSpec monteCarloRuns default].
    rewrite (floor_unique 5 5) by (simpl; lra). reflexivity. }
  destruct (pool_results_cover_batch 1 (Some 2%nat) (idleSpec 5) [1%nat; 0%nat] batch)
    as (results & Hr & Hp & _).
  - discriminate.
  - rewrite Hwc. apply perm_swap.
  - exact Hb.
  - exists batch, results. auto.
Defined.

(** ** The progress of a simulation *)

Lemma segment_app (a b c : R) (l1 l2 : list R) :
  a <= b -> b <= c ->
  Sorted Rle l1 /\ List.Forall (fun v => a <= v <= b) l1 ->
  Sorted Rle l2 /\ List.Forall (fun v => b <= v <= c) l2 ->
  Sorted Rle (l1 ++ l2) /\ List.Forall (fun v => a <= v <= c) (l1 ++ l2).
Proof.
  intros Hab Hbc [Hs1 Hf1] [Hs2 Hf2]. split.
  - induction l1 as [|x l1 IH]; [exact Hs2|].
    inversion Hs1 as [|? ? Hs1' Hhd]; subst.
    inversion Hf1 as [|? ? Hx Hf1']; subst.
    cbn [app]. constructor; [apply IH; assumption|].
    destruct l1 as [|y l1]; cbn [app].
    + destruct l2 as [|z l2]; constructor.
      inversion Hf2; subst. lra.
    + inversion Hhd; subst. constructor. assumption.
  - apply Forall_app. split.
    + eapply List.Forall_impl; [|exact Hf1]. cbv beta. intros v Hv. lra.
    + eapply List.Forall_impl; [|exact Hf2]. cbv beta. intros v Hv. lra.
Qed.

Lemma segment_one (a : R) :
  Sorted Rle [a] /\ List.Forall (fun v => a <= v <= a) [a].
Proof. split; repeat constructor; lra. Qed.

Lemma segment_nil (a : R) :
  Sorted Rle [] /\ List.Forall (fun v => a <= v <= a) [].
Proof. split; constructor. Qed.

(** The reports of one phase lie between its offset and its offset plus its
    scale, and do not decrease. *)
Lemma phase_reports (runs : nat) (scale offset : R) :
  (1 <= runs)%nat -> 0 <= scale ->
  forall k a, (a + k <= S runs)%nat ->
    Sorted Rle (List.map (fun c => offset + INR c / INR runs * scale) (seq a k)) /\
    List.Forall (fun v => offset <= v <= offset + scale)
      (List.map (fun c => offset + INR c / INR runs * scale) (seq a k)).
Proof.
  intros Hr Hs.
  assert (Hpos : 0 < INR runs) by (apply lt_0_INR; lia).
  assert (Hval : forall c, (c <= runs)%nat -> 0 <= INR c / INR runs <= 1).
  { intros c Hc. pose proof (pos_INR c). apply le_INR in Hc. split.
    - apply Rmult_le_pos; [assumption|]. left. apply Rinv_0_lt_compat. exact Hpos.
    - apply Rmult_le_reg_r with (INR runs); [exact Hpos|].
      unfold Rdiv. rewrite Rmult_assoc, Rinv_l by lra. lra. }
  assert (Hmono : forall c, INR c / INR runs <= INR (S c) / INR runs).
  { intros c. rewrite S_INR. unfold Rdiv.
    apply Rmult_le_compat_r; [left; apply Rinv_0_lt_compat; exact Hpos | lra]. }
  induction k as [|k IH]; intros a Ha; cbn [seq List.map].
  - split; constructor.
  - destruct (IH (S a) ltac:(lia)) as [Hsorted Hall]. split.
    + constructor; [exact Hsorted|].
      destruct k as [|k]; cbn [seq List.map]; constructor.
      pose proof (Hmono a). nra.
    + constructor; [|exact Hall].
      destruct (Hval a ltac:(lia)). nra.
Qed.

Lemma internal_reports (toFixed1 showNumber : R -> string)
    (callFits : nat -> bool) (fuel : nat)
    (spec : SimulationSpec) (scale offset : R) :
  0 <= scale ->
  let r := runSimulationInternalReporting toFixed1 showNumber callFits fuel spec
             scale offset in
  snd r = runSimulationInternal toFixed1 showNumber callFits fuel spec /\
  Sorted Rle (fst r) /\
  List.Forall (fun v => offset <= v <= offset + scale) (fst r) /\
  (is_Some (snd r) ->
   length (fst r) = Z.to_nat (Z.max 1 (floor (monteCarloRuns spec)))).
Proof.
  intros Hs. unfold runSimulationInternalReporting, runSimulationInternal. cbv zeta.
  set (runs := Z.to_nat (Z.max 1 (floor (monteCarloRuns spec)))).
  destruct (runSimulationRunsReporting_spec fuel spec 0 runs)
    as (Hsnd & k & Hk & Hfst & Hfull).
  cbn [fst snd]. rewrite Hsnd, Hfst.
  destruct (phase_reports runs scale offset ltac:(lia) Hs k 1 ltac:(lia))
    as [Hsorted Hall].
  split; [destruct (runSimulationRuns fuel spec 0 runs); reflexivity|].
  split; [exact Hsorted|]. split; [exact Hall|].
  intros Hsome. rewrite length_map, length_seq. apply Hfull.
  destruct (runSimulationRuns fuel spec 0 runs); [eauto|].
  destruct Hsome as [? Hx]. discriminate Hx.
Qed.

(** X28: [runSimulationWithProgress] returns what [runSimulation] returns.
    The values it reports start with 0, never decrease and lie between 0 and
    1; when it returns, the last report is 1 and there is one report for
    each run of each phase between the first and the last. *)
Theorem progress_reports_monotone (toFixed1 showNumber : R -> string)
    (callFits : nat -> bool) (fuel : nat) (spec : SimulationSpec) :
  let r := runSimulationWithProgress toFixed1 showNumber callFits fuel spec in
  let runs := Z.to_nat (Z.max 1 (floor (monteCarloRuns spec))) in
  let phases :=
    if fraud_enabled (fraud spec) && limits_enabled (spendLimits spec)
    then 2%nat else 1%nat in
  snd r = runSimulation toFixed1 showNumber callFits fuel spec /\
  Sorted Rle (fst r) /\
  List.Forall (fun v => 0 <= v <= 1) (fst r) /\
  hd_error (fst r) = Some 0 /\
  (is_Some (snd r) ->
   List.last (fst r) 0 = 1 /\ length (fst r) = (2 + phases * runs)%nat).
Proof.
  cbv zeta. unfold runSimulationWithProgress, runSimulation. cbv zeta.
  set (hasAlt := fraud_enabled (fraud spec) && limits_enabled (spendLimits spec)).
  set (scale := if hasAlt then 0.5 else 1).
  assert (Hs : 0 <= scale) by (subst scale; destruct hasAlt; lra).
  destruct (internal_reports toFixed1 showNumber callFits fuel spec scale 0 Hs)
    as (Hb & Hbs & Hbf & Hbl).
  cbv zeta in Hb, Hbs, Hbf, Hbl. rewrite <- Hb.
  set (base := runSimulationInternalReporting toFixed1 showNumber callFits fuel
                 spec scale 0) in *.
  destruct (snd base) as [b|] eqn:Hbase.
  2:{ cbn [fst snd]. split; [reflexivity|].
      destruct (segment_app 0 0 scale [0] (fst base) ltac:(lra) Hs (segment_one 0))
        as [Hsorted Hall]; [rewrite Rplus_0_l in Hbf; auto|].
      split; [exact Hsorted|]. split.
      - eapply List.Forall_impl; [|exact Hall]. cbv beta. intros v Hv.
        subst scale. destruct hasAlt; lra.
      - split; [reflexivity|]. intros [? Hx]. discriminate Hx. }
  specialize (Hbl ltac:(eauto)).
  destruct hasAlt eqn:Halt.
  - destruct (internal_reports toFixed1 showNumber callFits fuel
                (withoutLimits spec) scale scale Hs) as (Hn & Hns & Hnf & Hnl).
    cbv zeta in Hn, Hns, Hnf, Hnl. rewrite <- Hn.
    set (alt := runSimulationInternalReporting toFixed1 showNumber callFits fuel
                  (withoutLimits spec) scale scale) in *.
    assert (Hone : scale + scale = 1) by (subst scale; lra).
    rewrite Hone in Hnf. rewrite Rplus_0_l in Hbf.
    destruct (segment_app 0 scale 1 (fst base) (fst alt) Hs ltac:(lra)
                (conj Hbs Hbf) (conj Hns Hnf)) as [H12s H12f].
    destruct (snd alt) as [nl|] eqn:Halt2; cbn [fst snd].
    + split; [reflexivity|].
      destruct (segment_app 0 1 1 (fst base ++ fst alt) [1] ltac:(lra) ltac:(lra)
                  (conj H12s H12f) (segment_one 1)) as [H3s H3f].
      destruct (segment_app 0 0 1 [0] ((fst base ++ fst alt) ++ [1])
                  ltac:(lra) ltac:(lra) (segment_one 0) (conj H3s H3f))
        as [H4s H4f].
      rewrite <- app_assoc in H4s, H4f. cbn [app] in H4s, H4f.
      split; [exact H4s|]. split; [exact H4f|]. split; [reflexivity|].
      intros _. split.
      * change (0 :: fst base ++ fst alt ++ [1])
          with ((0 :: fst base) ++ fst alt ++ [1]).
        rewrite !app_assoc. apply last_last.
      * specialize (Hnl ltac:(eauto)). cbn [monteCarloRuns withoutLimits] in Hnl.
        cbn [length]. rewrite !length_app, Hbl, Hnl. cbn [length]. lia.
    + split; [reflexivity|].
      destruct (segment_app 0 0 1 [0] (fst base ++ fst alt)
                  ltac:(lra) ltac:(lra) (segment_one 0) (conj H12s H12f))
        as [H4s H4f].
      split; [exact H4s|]. split; [exact H4f|]. split; [reflexivity|].
      intros [? Hx]. discriminate Hx.
  - cbn [fst snd]. split; [reflexivity|].
    assert (Hone : scale = 1) by (subst scale; reflexivity).
    rewrite Rplus_0_l, Hone in Hbf.
    destruct (segment_app 0 1 1 (fst base) [1] ltac:(lra) ltac:(lra)
                (conj Hbs Hbf) (segment_one 1)) as [H3s H3f].
    destruct (segment_app 0 0 1 [0] (fst base ++ [1])
                ltac:(lra) ltac:(lra) (segment_one 0) (conj H3s H3f))
      as [H4s H4f].
    split; [exact H4s|]. split; [exact H4f|]. split; [reflexivity|].
    intros _. split.
    + change (0 :: fst base ++ [1]) with ((0 :: fst base) ++ [1]). apply last_last.
    + cbn [length]. rewrite length_app, Hbl. cbn [length]. lia.
Qed.

(** ** The aggregate of a batch *)

Lemma sumNat_list_sum (f : SimulationRunResult -> nat)
    (runs : list SimulationRunResult) :
  sumNat f runs = list_sum (List.map f runs).
Proof.
  unfold sumNat.
  assert (H : forall acc,
             fold_left (fun acc run => (acc + f run)%nat) runs acc
             = (acc + list_sum (List.map f runs))%nat).
  { induction runs as [|r runs IH]; intros acc; simpl; [lia|].
    rewrite IH. lia. }
  apply H.
Qed.

Lemma pushAll_Some {A} (callFits : nat -> bool)
    (f : SimulationRunResult -> list A) (runs : list SimulationRunResult)
    (l : list A) :
  pushAll callFits f runs = Some l -> l = concat (List.map f runs).
Proof.
  unfold pushAll.
  assert (H : forall acc : option (list A),
             fold_left (fun acc run =>
                          match acc with
                          | Some target =>
                              if spreads callFits (f run)
                              then Some (target ++ f run) else None
                          | None => None
                          end) runs acc = Some l ->
             exists target, acc = Some target /\
                            l = target ++ concat (List.map f runs)).
  { induction runs as [|run runs IH]; intros acc H; cbn [fold_left List.map concat] in *.
    - exists l. rewrite app_nil_r. auto.
    - destruct (IH _ H) as (target & Ht & ->).
      destruct acc as [t0|]; [|discriminate].
      destruct (spreads callFits (f run)); [|discriminate].
      injection Ht as <-. exists t0. rewrite <- app_assoc. auto. }
  intros Hl. destruct (H _ Hl) as (target & Ht & ->).
  injection Ht as <-. reflexivity.
Qed.

(** What the aggregation returns, when it returns. *)
Ltac aggregate_inv H :=
  unfold aggregateRunResults in H; cbv zeta in H;
  repeat match type of H with
  | mbind _ ?x = Some _ =>
      let E := fresh "E" in
      destruct x eqn:E; cbn [mbind option_bind] in H; [|discriminate H]
  end;
  injection H as <-.

(** X29: in the aggregate of any list of runs, when the aggregation
    returns, the approvals, declines and timeouts are the sums of those of
    the runs; the approval, decline and timeout rates are between 0 and 1,
    and are all 0 when no purchase was decided; and the exposure events are
    those of the runs in the order of the runs. *)
Theorem aggregate_counts_are_sums (toFixed1 showNumber : R -> string)
    (callFits : nat -> bool) (spec : SimulationSpec)
    (runs : list SimulationRunResult) (res : SimulationResults) :
  aggregateRunResults toFixed1 showNumber callFits spec runs = Some res ->
  m_approvals (res_metrics res)
  = list_sum (List.map (fun run => m_approvals (run_metrics run)) runs) /\
  m_declines (res_metrics res)
  = list_sum (List.map (fun run => m_declines (run_metrics run)) runs) /\
  m_timeouts (res_metrics res)
  = list_sum (List.map (fun run => m_timeouts (run_metrics run)) runs) /\
  0 <= m_approvalRate (res_metrics res) <= 1 /\
  0 <= m_declineRate (res_metrics res) <= 1 /\
  0 <= m_timeoutRate (res_metrics res) <= 1 /\
  ((m_approvals (res_metrics res) + m_declines (res_metrics res)
    + m_timeouts (res_metrics res) = 0)%nat ->
   m_approvalRate (res_metrics res) = 0 /\
   m_declineRate (res_metrics res) = 0 /\
   m_timeoutRate (res_metrics res) = 0) /\
  res_exposureEvents res = concat (List.map run_exposureEvents runs) /\
  m_exposureCount (res_metrics res) = length (res_exposureEvents res).
Proof.
  intros H. aggregate_inv H.
  cbn [res_metrics m_approvals m_declines m_timeouts m_approvalRate
       m_declineRate m_timeoutRate res_exposureEvents m_exposureCount].
  rewrite <- !sumNat_list_sum.
  set (a := sumNat (fun run => m_approvals (run_metrics run)) runs).
  set (d := sumNat (fun run => m_declines (run_metrics run)) runs).
  set (t := sumNat (fun run => m_timeouts (run_metrics run)) runs).
  repeat (split; [reflexivity|]).
  split; [apply ratio_unit; lia|]. split; [apply ratio_unit; lia|].
  split; [apply ratio_unit; lia|].
  split.
  - intros Hz. unfold ratio. rewrite Hz. cbn [Nat.eqb]. auto.
  - split; [|reflexivity].
    match goal with E : pushAll _ run_exposureEvents _ = Some _ |- _ =>
      exact (pushAll_Some _ _ _ _ E)
    end.
Qed.

Lemma aggregate_counts_are_sums_witness :
  exists runs res,
    runSimulationRuns 8 (probeAt batchSeed false 5) 0 3 = Some runs /\
    aggregateRunResults (fun _ => "0.0"%string) (fun _ => "0"%string)
      (fun _ => true) (probeAt batchSeed false 5) runs = Some res /\
    length (res_exposureEvents res) = 3%nat /\
    m_approvals (res_metrics res)
    = list_sum (List.map (fun run => m_approvals (run_metrics run)) runs) /\
    m_declines (res_metrics res)
    = list_sum (List.map (fun run => m_declines (run_metrics run)) runs) /\
    m_timeouts (res_metrics res)
    = list_sum (List.map (fun run => m_timeouts (run_metrics run)) runs) /\
    0 <= m_approvalRate (res_metrics res) <= 1 /\
    0 <= m_declineRate (res_metrics res) <= 1 /\
    0 <= m_timeoutRate (res_metrics res) <= 1 /\
    ((m_approvals (res_metrics res) + m_declines (res_metrics res)
      + m_timeouts (res_metrics res) = 0)%nat ->
     m_approvalRate (res_metrics res) = 0 /\
     m_declineRate (res_metrics res) = 0 /\
     m_timeoutRate (res_metrics res) = 0) /\
    res_exposureEvents res = concat (List.map run_exposureEvents runs) /\
    m_exposureCount (res_metrics res) = length (res_exposureEvents res).
Proof.
  destruct batch_of_three as (runs & Hr & Hx).
  destruct (aggregate_fits (fun _ => "0.0"%string) (fun _ => "0"%string)
              (fun _ => true) (fun _ => eq_refl)
              (probeAt batchSeed false 5) runs) as (res & Hres & Hev).
  exists runs, res. split; [exact Hr|]. split; [exact Hres|].
  split; [rewrite Hev, Hx; reflexivity|].
  exact (aggregate_counts_are_sums _ _ _ _ _ _ Hres).
Defined.

(** *** The time series of the aggregate *)

Lemma lookup_map_Some {A B} (f : A -> B) (l : list A) (i : nat) (y : B) :
  List.map f l !! i = Some y -> exists x, l !! i = Some x /\ y = f x.
Proof.
  revert i. induction l as [|a l IH]; intros [|i] H; try discriminate H.
  - injection H as <-. exists a. auto.
  - apply IH. exact H.
Qed.

Lemma batch_runs (fuel : nat) (spec : SimulationSpec) :
  forall count s runs,
    runSimulationRuns fuel spec s count = Some runs ->
    length runs = count /\
    List.Forall (fun r => exists i, simulateOnce fuel spec (seed spec) i = Some r) runs.
Proof.
  induction count as [|count IH]; intros s runs H; simpl in H.
  - injection H as <-. split; [reflexivity | constructor].
  - destruct (simulateOnce fuel spec (seed spec) s) as [r|] eqn:Hr; [|discriminate].
    destruct (runSimulationRuns fuel spec (S s) count) as [rs|] eqn:Hrs; [|discriminate].
    injection H as <-. destruct (IH _ _ Hrs) as [Hl Hall].
    split; [simpl; lia|]. constructor; eauto.
Qed.

Lemma run_series_totals (fuel : nat) (spec : SimulationSpec) (baseSeed : string)
    (i : nat) (r : SimulationRunResult) :
  simulateOnce fuel spec baseSeed i = Some r ->
  length (run_timeSeries r) = 121%nat /\
  total (List.map ts_approvals (run_timeSeries r)) = INR (m_approvals (run_metrics r)) /\
  total (List.map ts_declines (run_timeSeries r)) = INR (m_declines (run_metrics r)) /\
  total (List.map ts_timeouts (run_timeSeries r)) = INR (m_timeouts (run_metrics r)).
Proof.
  intros H. destruct (simulateOnce_trace _ _ _ _ _ H) as (st & bin & log & Hrun & ->).
  destruct (series_inv_run _ _ _ _ _ _ _ _ Hrun) as (Hl & Ha & Hd & Ht).
  destruct (finishRun_counters bin st) as (G1 & G2 & G3 & G4).
  cbv zeta in G1, G2, G3, G4. rewrite G1, G2, G3, G4.
  cbn [finishRun run_metrics m_approvals m_declines m_timeouts]. auto.
Qed.


(** The point [i] of the series merged from [agg] and the series of the
    runs holds, for an additive counter, the sum from the left of the
    counters of the runs at that point. *)
Lemma merge_fold_lookup (f : TimeSeriesPoint -> R) :
  (forall a b, f (mergePoint a b) = f a + f b) ->
  forall rest,
    List.Forall (fun r => length (run_timeSeries r) = 121%nat) rest ->
    forall agg, length agg = 121%nat ->
      let res :=
        fold_left (fun agg run =>
                     if (length agg =? 0)%nat then run_timeSeries run
                     else mergeTimeSeries agg (run_timeSeries run))
                  rest agg in
      length res = 121%nat /\
      forall i pt, res !! i = Some pt ->
        exists a, agg !! i = Some a /\
                  f pt = fold_left (fun acc run => acc + pointOf f i run) rest (f a).
Proof.
  intros Hf. induction 1 as [|r rest Hr _ IH]; intros agg Hagg; cbv zeta.
  - cbn [fold_left]. split; [exact Hagg|]. intros i pt Hpt. eauto.
  - cbn [fold_left]. rewrite Hagg. cbn [Nat.eqb].
    assert (Hm : length (mergeTimeSeries agg (run_timeSeries r)) = 121%nat).
    { unfold mergeTimeSeries. rewrite length_zip_with. lia. }
    destruct (IH _ Hm) as [Hl Hp]. cbv zeta in Hl, Hp.
    split; [exact Hl|]. intros i pt Hpt.
    destruct (Hp i pt Hpt) as (m & Hmi & Hfm).
    unfold mergeTimeSeries in Hmi.
    apply lookup_zip_with_Some in Hmi. destruct Hmi as (a & b & -> & Ha & Hb).
    exists a. split; [exact Ha|]. rewrite Hfm, Hf. cbn [fold_left].
    assert (Hpo : pointOf f i r = f b)
      by (unfold pointOf; rewrite Hb; reflexivity).
    rewrite Hpo. reflexivity.
Qed.

(** X30: in the aggregate of a batch of runs the time series has 121
    points, and each point holds the means over the runs: its exposure and
    its counters are the sums, over the runs in their order, of those of the
    runs at that point, divided by the number of runs. *)
Theorem aggregate_series_is_mean (toFixed1 showNumber : R -> string)
    (callFits : nat -> bool) (fuel : nat) (spec : SimulationSpec)
    (s count : nat) (runs : list SimulationRunResult)
    (res : SimulationResults) :
  (1 <= count)%nat ->
  runSimulationRuns fuel spec s count = Some runs ->
  aggregateRunResults toFixed1 showNumber callFits spec runs = Some res ->
  length (res_timeSeries res) = 121%nat /\
  forall i pt, res_timeSeries res !! i = Some pt ->
    ts_exposure pt = pointSum ts_exposure i runs / INR count /\
    ts_approvals pt = pointSum ts_approvals i runs / INR count /\
    ts_declines pt = pointSum ts_declines i runs / INR count /\
    ts_timeouts pt = pointSum ts_timeouts i runs / INR count.
Proof.
  intros Hc H Hres. destruct (batch_runs _ _ _ _ _ H) as [Hlen Hall].
  assert (Hseries : List.Forall (fun r => length (run_timeSeries r) = 121%nat) runs).
  { eapply List.Forall_impl; [|exact Hall]. cbv beta. intros r [i Hi].
    apply (run_series_totals _ _ _ _ _ Hi). }
  aggregate_inv Hres. cbn [res_timeSeries].
  replace (Nat.max 1 (length runs)) with count by lia.
  destruct runs as [|first rest]; [simpl in Hlen; lia|].
  inversion Hseries as [|? ? Hfirst Hrest]; subst.
  cbn [fold_left length Nat.eqb].
  pose proof (fun f Hf => merge_fold_lookup f Hf rest Hrest
                            (run_timeSeries first) Hfirst) as Hmerge.
  cbv zeta in Hmerge.
  set (agg := fold_left _ rest (run_timeSeries first)) in *.
  split; [rewrite length_map; exact (proj1 (Hmerge ts_approvals ltac:(reflexivity)))|].
  intros i pt Hpt. apply lookup_map_Some in Hpt. destruct Hpt as (q & Hq & ->).
  cbn [ts_exposure ts_approvals ts_declines ts_timeouts]. unfold pointSum.
  assert (Hsum : forall f, (forall a b, f (mergePoint a b) = f a + f b) ->
            f q = fold_left (fun acc run => acc + pointOf f i run) rest
                    (pointOf f i first)).
  { intros f Hf. destruct (proj2 (Hmerge f Hf) i q Hq) as (a & Ha & ->).
    assert (Hpo : pointOf f i first = f a)
      by (unfold pointOf; rewrite Ha; reflexivity).
    rewrite Hpo. reflexivity. }
  rewrite <- !Hsum by reflexivity. auto.
Qed.

Lemma aggregate_series_is_mean_witness :
  exists runs res,
    runSimulationRuns 8 (probeAt batchSeed false 5) 0 3 = Some runs /\
    aggregateRunResults (fun _ => "0.0"%string) (fun _ => "0"%string)
      (fun _ => true) (probeAt batchSeed false 5) runs = Some res /\
    length (res_timeSeries res) = 121%nat /\
    forall i pt, res_timeSeries res !! i = Some pt ->
      ts_exposure pt = pointSum ts_exposure i runs / INR 3 /\
      ts_approvals pt = pointSum ts_approvals i runs / INR 3 /\
      ts_declines pt = pointSum ts_declines i runs / INR 3 /\
      ts_timeouts pt = pointSum ts_timeouts i runs / INR 3.
Proof.
  destruct batch_of_three as (runs & Hr & _).
  destruct (aggregate_fits (fun _ => "0.0"%string) (fun _ => "0"%string)
              (fun _ => true) (fun _ => eq_refl)
              (probeAt batchSeed false 5) runs) as (res & Hres & _).
  exists runs, res. split; [exact Hr|]. split; [exact Hres|].
  exact (aggregate_series_is_mean _ _ _ 8 (probeAt batchSeed false 5) 0 3 runs res
           ltac:(lia) Hr Hres).
Defined.

(** * Where the doubles decide *)

Set Warnings "-inexact-float".

(** ** The hold totals *)

(** C4: the code breaks the claim.  One user, two holds: the amounts are
    added to the hold total of the user and then subtracted from it as the
    holds are released, and the total that is left is not 0 but
    [-8.881784197001252e-16], below zero although no hold is outstanding.
    The sum of the two amounts is rounded, and the code subtracts without the
    clamp [Math.max(0, ...)] that it applies to the hold count on the next
    line. *)
Theorem hold_total_negative_after_release :
  F64.releaseHold 0 F64.amountA
    (F64.releaseHold 0 F64.amountB
       (F64.addToHolds 0 F64.amountB (F64.addToHolds 0 F64.amountA [0%float])))
  = [(-8.881784197001252e-16)%float] /\
  F64.releaseHold 0 F64.amountB
    (F64.releaseHold 0 F64.amountA
       (F64.addToHolds 0 F64.amountB (F64.addToHolds 0 F64.amountA [0%float])))
  = [(-8.881784197001252e-16)%float] /\
  PrimFloat.ltb (-8.881784197001252e-16) 0 = true.
Proof. repeat split; vm_compute; reflexivity. Qed.

(** ** The exposure of a settlement *)



(** ** The settlement of a payment *)



(** ** The index of a percentile *)

(** The double written [0.6] is [5404319552844595 / 2^53], and for six
    values the number that [percentile] floors is the double 3. *)
Lemma double_0_6_times_5 :
  Prim2SF 0.6 = S754_finite false 5404319552844595 (-53) /\
  F64.percentilePosition [0; 1; 2; 3; 4; 5]%float 0.6 = 3%float.
Proof. split; vm_compute; reflexivity. Qed.

(** ** The average and the fit of the gamma parameters *)

(** The average of three times 0.1 is above 0.1: an average need not lie
    between the least and the greatest of the numbers. *)
Lemma average_above_greatest :
  F64.average [0.1; 0.1; 0.1]%float = 0.10000000000000002%float /\
  PrimFloat.ltb 0.1 (F64.average [0.1; 0.1; 0.1]%float) = true.
Proof. split; vm_compute; reflexivity. Qed.

(** A shape of 0.2 for a mean of 1.7: the scale is the quotient 8.5, and the
    product of the two is not the mean. *)
Lemma shape_times_scale_rounds :
  F64.gammaScale 1.7 0.2 = 8.5%float /\
  PrimFloat.mul 0.2 (F64.gammaScale 1.7 0.2) = 1.7000000000000002%float.
Proof. split; vm_compute; reflexivity. Qed.
